(** * The c-ares query engine and channel bootstrap, embedded in Rocq

    This development embeds the parts of [src/lib/ares_process.c] and
    [src/lib/ares_init.c] that dispatch queries to servers, validate
    answers, requeue queries after a connection failure, and seed the
    channel configuration, and proves the properties the design document
    states about them.  The pass over the timeouts, the socket list and
    the readers of the resolver configuration follow, with properties
    read off the code.

    Conventions.
    - C integers are [Z]; [size_t] arithmetic that can wrap is written
      with [size_wrap] (a 64-bit [size_t] is assumed), [unsigned short]
      with [u16].
    - Pointers to heap objects are handles ([nat]) into finite maps held
      in the channel: queries, connections and the linked lists of
      queries awaiting an answer on a connection.  All aliases of one
      object therefore see every update.
    - A C function returning [void] becomes a channel transformer; one
      returning [ares_status_t] returns the status with the new channel.
      Dereferencing a dangling handle, indexing out of range and dividing
      by zero are [Undefined]; loops run on fuel that is shown sufficient.
    - The socket layer, the allocator and the user callback are outside
      the excerpt: their outcomes are scripted in the channel's [env]
      ([io_open], [io_write], [io_alloc]) and their observable effects
      are logged there ([callbacks], [sock_state], [sent]). *)

From stdpp Require Import gmap strings list fin_maps.
From Stdlib Require Import ZArith Lia Ascii.

Local Open Scope Z_scope.

(** ** Status codes, flags and constants *)

(** [ares_status_t] of the public header. *)
Inductive ares_status_t : Type :=
| ARES_SUCCESS | ARES_ENODATA | ARES_EFORMERR | ARES_ESERVFAIL
| ARES_ENOTFOUND | ARES_ENOTIMP | ARES_EREFUSED | ARES_EBADQUERY
| ARES_EBADNAME | ARES_EBADFAMILY | ARES_EBADRESP | ARES_ECONNREFUSED
| ARES_ETIMEOUT | ARES_EOF | ARES_EFILE | ARES_ENOMEM | ARES_EDESTRUCTION
| ARES_EBADSTR | ARES_ENOTINITIALIZED.

#[global] Instance ares_status_eq_dec : EqDecision ares_status_t.
Proof. solve_decision. Defined.

(** Channel flags ([ARES_FLAG_*] of the public header [ares.h]). *)
Definition ARES_FLAG_PRIMARY : Z := 2.      (* 1 << 1 *)
Definition ARES_FLAG_IGNTC : Z := 4.        (* 1 << 2 *)
Definition ARES_FLAG_NOCHECKRESP : Z := 128. (* 1 << 7 *)
Definition ARES_FLAG_EDNS : Z := 256.       (* 1 << 8 *)

(** Header flag of a parsed DNS record ([ares_dns_flags_t]). *)
Definition ARES_FLAG_TC : Z := 4.           (* 1 << 2 *)

(** Response codes ([ares_dns_rcode_t], RFC 1035). *)
Definition ARES_RCODE_FORMAT_ERROR : Z := 1.
Definition ARES_RCODE_SERVER_FAILURE : Z := 2.
Definition ARES_RCODE_NOT_IMPLEMENTED : Z := 4.
Definition ARES_RCODE_REFUSED : Z := 5.

(** Record type of the OPT pseudo-RR (RFC 6891). *)
Definition ARES_REC_TYPE_OPT : Z := 41.

(** [ares_private.h] and [ares_nameser.h]. *)
Definition DEFAULT_TIMEOUT : Z := 2000.
Definition DEFAULT_TRIES : Z := 3.
Definition EDNSPACKETSZ : Z := 1280.
Definition MAXENDSSZ : Z := 4096.
Definition EDNSFIXEDSZ : Z := 11.
Definition PACKETSZ : Z := 512.
Definition NAMESERVER_PORT : Z := 53.

(** Address families and the invalid socket. *)
Definition AF_INET : Z := 2.
Definition AF_INET6 : Z := 10.
Definition ARES_SOCKET_BAD : Z := -1.

(** [sizeof(int) * CHAR_BIT] *)
Definition INT_BITS : Z := 32.

Definition size_wrap (z : Z) : Z := z mod 2 ^ 64.
Definition u16 (z : Z) : Z := z mod 2 ^ 16.
Definition u8 (z : Z) : Z := z mod 2 ^ 8.

(** A [size_t] converted to [int]: the low [INT_BITS] bits, read in two's
    complement. *)
Definition int_of (z : Z) : Z :=
  (z + 2 ^ (INT_BITS - 1)) mod 2 ^ INT_BITS - 2 ^ (INT_BITS - 1).

(** C's [x & FLAG] used as a truth value. *)
Definition has_flag (x flag : Z) : bool := negb (Z.land x flag =? 0).

(** ** Outcomes of a step *)

Inductive outcome (A : Type) : Type :=
| Done (a : A)
| Undefined
| OutOfFuel.
Arguments Done {A} a.
Arguments Undefined {A}.
Arguments OutOfFuel {A}.

#[global] Instance outcome_ret : MRet outcome := fun A a => Done a.
#[global] Instance outcome_bind : MBind outcome := fun A B f m =>
  match m with
  | Done a => f a
  | Undefined => Undefined
  | OutOfFuel => OutOfFuel
  end.

(** Dereference of a handle: a missing object is undefined behaviour. *)
Definition deref {A : Type} (o : option A) : outcome A :=
  match o with
  | Some a => Done a
  | None => Undefined
  end.

(** ** Time *)

Record timeval : Type := Build_timeval { tv_sec : Z; tv_usec : Z }.

(** [ares__timedout]: true when [now] is exactly [check] or later. *)
Definition ares__timedout (now check : timeval) : bool :=
  let secs := tv_sec now - tv_sec check in
  if 0 <? secs then true
  else if secs <? 0 then false
  else 0 <=? tv_usec now - tv_usec check.

(** A [size_t] converted to [time_t] (64 bits, two's complement). *)
Definition time_t_of (x : Z) : Z := if x <? 2 ^ 63 then x else x - 2 ^ 64.

(** [timeadd]: add [millisecs], a [size_t], to a time.  The seconds are
    divided as a [time_t]. *)
Definition timeadd (now : timeval) (millisecs : Z) : timeval :=
  let sec := tv_sec now + time_t_of millisecs ÷ 1000 in
  let usec := tv_usec now + time_t_of ((millisecs mod 1000) * 1000) in
  if 1000000 <=? usec
  then {| tv_sec := sec + 1; tv_usec := usec - 1000000 |}
  else {| tv_sec := sec; tv_usec := usec |}.

(** The time in microseconds, to state what [timeadd] computes. *)
Definition usecs (t : timeval) : Z := tv_sec t * 1000000 + tv_usec t.

(** [ares_query_timeout_cmp_cb] of [ares_init.c], on the deadlines. *)
Definition ares_query_timeout_cmp_cb (t1 t2 : timeval) : Z :=
  if tv_sec t2 <? tv_sec t1 then 1
  else if tv_sec t1 <? tv_sec t2 then -1
  else if tv_usec t2 <? tv_usec t1 then 1
  else if tv_usec t1 <? tv_usec t2 then -1
  else 0.

(** ** Data model ([ares_private.h]) *)

(** [struct ares_addr]: the address union is kept as its bytes in network
    order, four for [addrV4] and sixteen for [addrV6]. *)
Record ares_addr : Type := Build_ares_addr {
  family : Z;
  addr_bytes : list Z;
  addr_udp_port : Z;
  addr_tcp_port : Z
}.

(** The source address [recvfrom] reports: [sa_family] with [sin_addr] or
    [sin6_addr]. *)
Record sockaddr : Type := Build_sockaddr {
  sa_family : Z;
  sa_addr : list Z
}.

(** [struct query_server_info] *)
Record query_server_info : Type := Build_query_server_info {
  si_skip_server : bool;
  si_tcp_connection_generation : Z
}.

(** One invocation of a query's callback: the query it belongs to and
    what it is called with. [cb_abuf] is [None] for a [NULL] answer
    buffer; [cb_timeouts] and [cb_alen] are the [int] arguments. *)
Record callback_event : Type := Build_callback_event {
  cb_query : nat;
  cb_arg : Z;
  cb_status : ares_status_t;
  cb_timeouts : Z;
  cb_abuf : option (list Z);
  cb_alen : Z
}.

(** [SOCK_STATE_CALLBACK(channel, fd, readable, writable)] *)
Record sock_state_event : Type := Build_sock_state_event {
  ss_fd : Z;
  ss_read : bool;
  ss_write : bool
}.

(** [struct query]. [qbuf] is [tcpbuf + 2]; the list nodes are kept as the
    membership they stand for: [node_queries_to_conn] names the list the
    node is linked in. *)
Record query : Type := Build_query {
  qid : Z;
  q_timeout : timeval;
  node_queries_by_timeout : bool;
  node_queries_to_conn : option nat;
  node_all_queries : bool;
  q_conn : option nat;
  tcpbuf : list Z;
  tcplen : Z;
  qlen : Z;
  arg : Z;
  try_count : Z;
  q_server : Z;
  server_info : list query_server_info;
  using_tcp : bool;
  error_status : ares_status_t;
  timeouts : Z;
  no_retries : bool
}.

Definition set_q_timeout (v : timeval) (x : query) : query :=
  {| qid := qid x; q_timeout := v;
     node_queries_by_timeout := node_queries_by_timeout x;
     node_queries_to_conn := node_queries_to_conn x;
     node_all_queries := node_all_queries x; q_conn := q_conn x;
     tcpbuf := tcpbuf x; tcplen := tcplen x; qlen := qlen x; arg := arg x;
     try_count := try_count x; q_server := q_server x;
     server_info := server_info x; using_tcp := using_tcp x;
     error_status := error_status x; timeouts := timeouts x;
     no_retries := no_retries x |}.

Definition set_node_queries_by_timeout (v : bool) (x : query) : query :=
  {| qid := qid x; q_timeout := q_timeout x; node_queries_by_timeout := v;
     node_queries_to_conn := node_queries_to_conn x;
     node_all_queries := node_all_queries x; q_conn := q_conn x;
     tcpbuf := tcpbuf x; tcplen := tcplen x; qlen := qlen x; arg := arg x;
     try_count := try_count x; q_server := q_server x;
     server_info := server_info x; using_tcp := using_tcp x;
     error_status := error_status x; timeouts := timeouts x;
     no_retries := no_retries x |}.

Definition set_node_queries_to_conn (v : option nat) (x : query) : query :=
  {| qid := qid x; q_timeout := q_timeout x;
     node_queries_by_timeout := node_queries_by_timeout x;
     node_queries_to_conn := v; node_all_queries := node_all_queries x;
     q_conn := q_conn x; tcpbuf := tcpbuf x; tcplen := tcplen x;
     qlen := qlen x; arg := arg x; try_count := try_count x;
     q_server := q_server x; server_info := server_info x;
     using_tcp := using_tcp x; error_status := error_status x;
     timeouts := timeouts x; no_retries := no_retries x |}.

Definition set_node_all_queries (v : bool) (x : query) : query :=
  {| qid := qid x; q_timeout := q_timeout x;
     node_queries_by_timeout := node_queries_by_timeout x;
     node_queries_to_conn := node_queries_to_conn x; node_all_queries := v;
     q_conn := q_conn x; tcpbuf := tcpbuf x; tcplen := tcplen x;
     qlen := qlen x; arg := arg x; try_count := try_count x;
     q_server := q_server x; server_info := server_info x;
     using_tcp := using_tcp x; error_status := error_status x;
     timeouts := timeouts x; no_retries := no_retries x |}.

Definition set_q_conn (v : option nat) (x : query) : query :=
  {| qid := qid x; q_timeout := q_timeout x;
     node_queries_by_timeout := node_queries_by_timeout x;
     node_queries_to_conn := node_queries_to_conn x;
     node_all_queries := node_all_queries x; q_conn := v; tcpbuf := tcpbuf x;
     tcplen := tcplen x; qlen := qlen x; arg := arg x;
     try_count := try_count x; q_server := q_server x;
     server_info := server_info x; using_tcp := using_tcp x;
     error_status := error_status x; timeouts := timeouts x;
     no_retries := no_retries x |}.

Definition set_tcpbuf (v : list Z) (x : query) : query :=
  {| qid := qid x; q_timeout := q_timeout x;
     node_queries_by_timeout := node_queries_by_timeout x;
     node_queries_to_conn := node_queries_to_conn x;
     node_all_queries := node_all_queries x; q_conn := q_conn x; tcpbuf := v;
     tcplen := tcplen x; qlen := qlen x; arg := arg x;
     try_count := try_count x; q_server := q_server x;
     server_info := server_info x; using_tcp := using_tcp x;
     error_status := error_status x; timeouts := timeouts x;
     no_retries := no_retries x |}.

Definition set_tcplen (v : Z) (x : query) : query :=
  {| qid := qid x; q_timeout := q_timeout x;
     node_queries_by_timeout := node_queries_by_timeout x;
     node_queries_to_conn := node_queries_to_conn x;
     node_all_queries := node_all_queries x; q_conn := q_conn x;
     tcpbuf := tcpbuf x; tcplen := v; qlen := qlen x; arg := arg x;
     try_count := try_count x; q_server := q_server x;
     server_info := server_info x; using_tcp := using_tcp x;
     error_status := error_status x; timeouts := timeouts x;
     no_retries := no_retries x |}.

Definition set_qlen (v : Z) (x : query) : query :=
  {| qid := qid x; q_timeout := q_timeout x;
     node_queries_by_timeout := node_queries_by_timeout x;
     node_queries_to_conn := node_queries_to_conn x;
     node_all_queries := node_all_queries x; q_conn := q_conn x;
     tcpbuf := tcpbuf x; tcplen := tcplen x; qlen := v; arg := arg x;
     try_count := try_count x; q_server := q_server x;
     server_info := server_info x; using_tcp := using_tcp x;
     error_status := error_status x; timeouts := timeouts x;
     no_retries := no_retries x |}.

Definition set_try_count (v : Z) (x : query) : query :=
  {| qid := qid x; q_timeout := q_timeout x;
     node_queries_by_timeout := node_queries_by_timeout x;
     node_queries_to_conn := node_queries_to_conn x;
     node_all_queries := node_all_queries x; q_conn := q_conn x;
     tcpbuf := tcpbuf x; tcplen := tcplen x; qlen := qlen x; arg := arg x;
     try_count := v; q_server := q_server x; server_info := server_info x;
     using_tcp := using_tcp x; error_status := error_status x;
     timeouts := timeouts x; no_retries := no_retries x |}.

Definition set_q_server (v : Z) (x : query) : query :=
  {| qid := qid x; q_timeout := q_timeout x;
     node_queries_by_timeout := node_queries_by_timeout x;
     node_queries_to_conn := node_queries_to_conn x;
     node_all_queries := node_all_queries x; q_conn := q_conn x;
     tcpbuf := tcpbuf x; tcplen := tcplen x; qlen := qlen x; arg := arg x;
     try_count := try_count x; q_server := v; server_info := server_info x;
     using_tcp := using_tcp x; error_status := error_status x;
     timeouts := timeouts x; no_retries := no_retries x |}.

Definition set_server_info (v : list query_server_info) (x : query) : query :=
  {| qid := qid x; q_timeout := q_timeout x;
     node_queries_by_timeout := node_queries_by_timeout x;
     node_queries_to_conn := node_queries_to_conn x;
     node_all_queries := node_all_queries x; q_conn := q_conn x;
     tcpbuf := tcpbuf x; tcplen := tcplen x; qlen := qlen x; arg := arg x;
     try_count := try_count x; q_server := q_server x; server_info := v;
     using_tcp := using_tcp x; error_status := error_status x;
     timeouts := timeouts x; no_retries := no_retries x |}.

Definition set_using_tcp (v : bool) (x : query) : query :=
  {| qid := qid x; q_timeout := q_timeout x;
     node_queries_by_timeout := node_queries_by_timeout x;
     node_queries_to_conn := node_queries_to_conn x;
     node_all_queries := node_all_queries x; q_conn := q_conn x;
     tcpbuf := tcpbuf x; tcplen := tcplen x; qlen := qlen x; arg := arg x;
     try_count := try_count x; q_server := q_server x;
     server_info := server_info x; using_tcp := v;
     error_status := error_status x; timeouts := timeouts x;
     no_retries := no_retries x |}.

Definition set_error_status (v : ares_status_t) (x : query) : query :=
  {| qid := qid x; q_timeout := q_timeout x;
     node_queries_by_timeout := node_queries_by_timeout x;
     node_queries_to_conn := node_queries_to_conn x;
     node_all_queries := node_all_queries x; q_conn := q_conn x;
     tcpbuf := tcpbuf x; tcplen := tcplen x; qlen := qlen x; arg := arg x;
     try_count := try_count x; q_server := q_server x;
     server_info := server_info x; using_tcp := using_tcp x;
     error_status := v; timeouts := timeouts x;
     no_retries := no_retries x |}.

Definition set_timeouts (v : Z) (x : query) : query :=
  {| qid := qid x; q_timeout := q_timeout x;
     node_queries_by_timeout := node_queries_by_timeout x;
     node_queries_to_conn := node_queries_to_conn x;
     node_all_queries := node_all_queries x; q_conn := q_conn x;
     tcpbuf := tcpbuf x; tcplen := tcplen x; qlen := qlen x; arg := arg x;
     try_count := try_count x; q_server := q_server x;
     server_info := server_info x; using_tcp := using_tcp x;
     error_status := error_status x; timeouts := v;
     no_retries := no_retries x |}.

(** [struct server_connection]. [conn_server] is the slot of the owning
    server in [channel->servers]; [queries_to_conn] is the handle of its
    list, [None] once stolen. *)
Record server_connection : Type := Build_server_connection {
  conn_server : nat;
  fd : Z;
  is_tcp : bool;
  total_queries : Z;
  queries_to_conn : option nat
}.

Definition set_total_queries (v : Z) (x : server_connection)
  : server_connection :=
  {| conn_server := conn_server x; fd := fd x; is_tcp := is_tcp x;
     total_queries := v; queries_to_conn := queries_to_conn x |}.

Definition set_queries_to_conn (v : option nat) (x : server_connection)
  : server_connection :=
  {| conn_server := conn_server x; fd := fd x; is_tcp := is_tcp x;
     total_queries := total_queries x; queries_to_conn := v |}.

(** [struct server_state] *)
Record server_state : Type := Build_server_state {
  idx : Z;
  addr : ares_addr;
  connections : list nat;
  tcp_conn : option nat;
  tcp_parser : list Z;
  tcp_send : list Z;
  srv_tcp_connection_generation : Z
}.

Definition set_idx (v : Z) (x : server_state) : server_state :=
  {| idx := v; addr := addr x; connections := connections x;
     tcp_conn := tcp_conn x; tcp_parser := tcp_parser x;
     tcp_send := tcp_send x;
     srv_tcp_connection_generation := srv_tcp_connection_generation x |}.

Definition set_connections (v : list nat) (x : server_state) : server_state :=
  {| idx := idx x; addr := addr x; connections := v; tcp_conn := tcp_conn x;
     tcp_parser := tcp_parser x; tcp_send := tcp_send x;
     srv_tcp_connection_generation := srv_tcp_connection_generation x |}.

Definition set_tcp_conn (v : option nat) (x : server_state) : server_state :=
  {| idx := idx x; addr := addr x; connections := connections x;
     tcp_conn := v; tcp_parser := tcp_parser x; tcp_send := tcp_send x;
     srv_tcp_connection_generation := srv_tcp_connection_generation x |}.

Definition set_tcp_parser (v : list Z) (x : server_state) : server_state :=
  {| idx := idx x; addr := addr x; connections := connections x;
     tcp_conn := tcp_conn x; tcp_parser := v; tcp_send := tcp_send x;
     srv_tcp_connection_generation := srv_tcp_connection_generation x |}.

Definition set_tcp_send (v : list Z) (x : server_state) : server_state :=
  {| idx := idx x; addr := addr x; connections := connections x;
     tcp_conn := tcp_conn x; tcp_parser := tcp_parser x; tcp_send := v;
     srv_tcp_connection_generation := srv_tcp_connection_generation x |}.

Definition set_srv_tcp_connection_generation (v : Z) (x : server_state)
  : server_state :=
  {| idx := idx x; addr := addr x; connections := connections x;
     tcp_conn := tcp_conn x; tcp_parser := tcp_parser x;
     tcp_send := tcp_send x; srv_tcp_connection_generation := v |}.

(** The environment of a channel: the log of callback invocations,
    socket-state notifications and datagrams written, and the scripted
    outcomes of the next socket opens, socket writes and allocations. *)
Record world : Type := Build_world {
  callbacks : list callback_event;
  sock_state : list sock_state_event;
  sent : list (Z * list Z);
  io_open : list (ares_status_t * Z);
  io_write : list bool;
  io_alloc : list bool
}.

Definition set_callbacks (v : list callback_event) (x : world) : world :=
  {| callbacks := v; sock_state := sock_state x; sent := sent x;
     io_open := io_open x; io_write := io_write x; io_alloc := io_alloc x |}.

Definition set_sock_state (v : list sock_state_event) (x : world) : world :=
  {| callbacks := callbacks x; sock_state := v; sent := sent x;
     io_open := io_open x; io_write := io_write x; io_alloc := io_alloc x |}.

Definition set_sent (v : list (Z * list Z)) (x : world) : world :=
  {| callbacks := callbacks x; sock_state := sock_state x; sent := v;
     io_open := io_open x; io_write := io_write x; io_alloc := io_alloc x |}.

Definition set_io_open (v : list (ares_status_t * Z)) (x : world) : world :=
  {| callbacks := callbacks x; sock_state := sock_state x; sent := sent x;
     io_open := v; io_write := io_write x; io_alloc := io_alloc x |}.

Definition set_io_write (v : list bool) (x : world) : world :=
  {| callbacks := callbacks x; sock_state := sock_state x; sent := sent x;
     io_open := io_open x; io_write := v; io_alloc := io_alloc x |}.

Definition set_io_alloc (v : list bool) (x : world) : world :=
  {| callbacks := callbacks x; sock_state := sock_state x; sent := sent x;
     io_open := io_open x; io_write := io_write x; io_alloc := v |}.

(** [struct ares_channeldata], the fields [ares_process.c] reads or
    writes, followed by the store of the objects the channel owns. *)
Record ares_channeldata : Type := Build_channel {
  flags : Z;
  timeout : Z;
  tries : Z;
  ednspsz : Z;
  udp_max_queries : Z;
  servers : list server_state;
  nservers : Z;
  tcp_connection_generation : Z;
  all_queries : list nat;
  queries_by_qid : gmap Z nat;
  queries_by_timeout : list nat;
  connnode_by_socket : gmap Z nat;
  queries : gmap nat query;
  conns : gmap nat server_connection;
  llists : gmap nat (list nat);
  next_conn : nat;
  env : world
}.

Definition set_flags (v : Z) (x : ares_channeldata) : ares_channeldata :=
  {| flags := v; timeout := timeout x; tries := tries x;
     ednspsz := ednspsz x; udp_max_queries := udp_max_queries x;
     servers := servers x; nservers := nservers x;
     tcp_connection_generation := tcp_connection_generation x;
     all_queries := all_queries x; queries_by_qid := queries_by_qid x;
     queries_by_timeout := queries_by_timeout x;
     connnode_by_socket := connnode_by_socket x; queries := queries x;
     conns := conns x; llists := llists x; next_conn := next_conn x;
     env := env x |}.

Definition set_servers (v : list server_state) (x : ares_channeldata)
  : ares_channeldata :=
  {| flags := flags x; timeout := timeout x; tries := tries x;
     ednspsz := ednspsz x; udp_max_queries := udp_max_queries x;
     servers := v; nservers := nservers x;
     tcp_connection_generation := tcp_connection_generation x;
     all_queries := all_queries x; queries_by_qid := queries_by_qid x;
     queries_by_timeout := queries_by_timeout x;
     connnode_by_socket := connnode_by_socket x; queries := queries x;
     conns := conns x; llists := llists x; next_conn := next_conn x;
     env := env x |}.

Definition set_tcp_connection_generation (v : Z) (x : ares_channeldata)
  : ares_channeldata :=
  {| flags := flags x; timeout := timeout x; tries := tries x;
     ednspsz := ednspsz x; udp_max_queries := udp_max_queries x;
     servers := servers x; nservers := nservers x;
     tcp_connection_generation := v; all_queries := all_queries x;
     queries_by_qid := queries_by_qid x;
     queries_by_timeout := queries_by_timeout x;
     connnode_by_socket := connnode_by_socket x; queries := queries x;
     conns := conns x; llists := llists x; next_conn := next_conn x;
     env := env x |}.

Definition set_all_queries (v : list nat) (x : ares_channeldata)
  : ares_channeldata :=
  {| flags := flags x; timeout := timeout x; tries := tries x;
     ednspsz := ednspsz x; udp_max_queries := udp_max_queries x;
     servers := servers x; nservers := nservers x;
     tcp_connection_generation := tcp_connection_generation x;
     all_queries := v; queries_by_qid := queries_by_qid x;
     queries_by_timeout := queries_by_timeout x;
     connnode_by_socket := connnode_by_socket x; queries := queries x;
     conns := conns x; llists := llists x; next_conn := next_conn x;
     env := env x |}.

Definition set_queries_by_qid (v : gmap Z nat) (x : ares_channeldata)
  : ares_channeldata :=
  {| flags := flags x; timeout := timeout x; tries := tries x;
     ednspsz := ednspsz x; udp_max_queries := udp_max_queries x;
     servers := servers x; nservers := nservers x;
     tcp_connection_generation := tcp_connection_generation x;
     all_queries := all_queries x; queries_by_qid := v;
     queries_by_timeout := queries_by_timeout x;
     connnode_by_socket := connnode_by_socket x; queries := queries x;
     conns := conns x; llists := llists x; next_conn := next_conn x;
     env := env x |}.

Definition set_queries_by_timeout (v : list nat) (x : ares_channeldata)
  : ares_channeldata :=
  {| flags := flags x; timeout := timeout x; tries := tries x;
     ednspsz := ednspsz x; udp_max_queries := udp_max_queries x;
     servers := servers x; nservers := nservers x;
     tcp_connection_generation := tcp_connection_generation x;
     all_queries := all_queries x; queries_by_qid := queries_by_qid x;
     queries_by_timeout := v; connnode_by_socket := connnode_by_socket x;
     queries := queries x; conns := conns x; llists := llists x;
     next_conn := next_conn x; env := env x |}.

Definition set_connnode_by_socket (v : gmap Z nat) (x : ares_channeldata)
  : ares_channeldata :=
  {| flags := flags x; timeout := timeout x; tries := tries x;
     ednspsz := ednspsz x; udp_max_queries := udp_max_queries x;
     servers := servers x; nservers := nservers x;
     tcp_connection_generation := tcp_connection_generation x;
     all_queries := all_queries x; queries_by_qid := queries_by_qid x;
     queries_by_timeout := queries_by_timeout x; connnode_by_socket := v;
     queries := queries x; conns := conns x; llists := llists x;
     next_conn := next_conn x; env := env x |}.

Definition set_queries (v : gmap nat query) (x : ares_channeldata)
  : ares_channeldata :=
  {| flags := flags x; timeout := timeout x; tries := tries x;
     ednspsz := ednspsz x; udp_max_queries := udp_max_queries x;
     servers := servers x; nservers := nservers x;
     tcp_connection_generation := tcp_connection_generation x;
     all_queries := all_queries x; queries_by_qid := queries_by_qid x;
     queries_by_timeout := queries_by_timeout x;
     connnode_by_socket := connnode_by_socket x; queries := v;
     conns := conns x; llists := llists x; next_conn := next_conn x;
     env := env x |}.

Definition set_conns (v : gmap nat server_connection) (x : ares_channeldata)
  : ares_channeldata :=
  {| flags := flags x; timeout := timeout x; tries := tries x;
     ednspsz := ednspsz x; udp_max_queries := udp_max_queries x;
     servers := servers x; nservers := nservers x;
     tcp_connection_generation := tcp_connection_generation x;
     all_queries := all_queries x; queries_by_qid := queries_by_qid x;
     queries_by_timeout := queries_by_timeout x;
     connnode_by_socket := connnode_by_socket x; queries := queries x;
     conns := v; llists := llists x; next_conn := next_conn x;
     env := env x |}.

Definition set_llists (v : gmap nat (list nat)) (x : ares_channeldata)
  : ares_channeldata :=
  {| flags := flags x; timeout := timeout x; tries := tries x;
     ednspsz := ednspsz x; udp_max_queries := udp_max_queries x;
     servers := servers x; nservers := nservers x;
     tcp_connection_generation := tcp_connection_generation x;
     all_queries := all_queries x; queries_by_qid := queries_by_qid x;
     queries_by_timeout := queries_by_timeout x;
     connnode_by_socket := connnode_by_socket x; queries := queries x;
     conns := conns x; llists := v; next_conn := next_conn x;
     env := env x |}.

Definition set_next_conn (v : nat) (x : ares_channeldata) : ares_channeldata :=
  {| flags := flags x; timeout := timeout x; tries := tries x;
     ednspsz := ednspsz x; udp_max_queries := udp_max_queries x;
     servers := servers x; nservers := nservers x;
     tcp_connection_generation := tcp_connection_generation x;
     all_queries := all_queries x; queries_by_qid := queries_by_qid x;
     queries_by_timeout := queries_by_timeout x;
     connnode_by_socket := connnode_by_socket x; queries := queries x;
     conns := conns x; llists := llists x; next_conn := v; env := env x |}.

Definition set_env (v : world) (x : ares_channeldata) : ares_channeldata :=
  {| flags := flags x; timeout := timeout x; tries := tries x;
     ednspsz := ednspsz x; udp_max_queries := udp_max_queries x;
     servers := servers x; nservers := nservers x;
     tcp_connection_generation := tcp_connection_generation x;
     all_queries := all_queries x; queries_by_qid := queries_by_qid x;
     queries_by_timeout := queries_by_timeout x;
     connnode_by_socket := connnode_by_socket x; queries := queries x;
     conns := conns x; llists := llists x; next_conn := next_conn x;
     env := v |}.

Abbreviation ares_channel := ares_channeldata (only parsing).

(** ** Access to the store and to the environment *)

Definition get_query (ch : ares_channel) (qr : nat) : outcome query :=
  deref (queries ch !! qr).

Definition upd_query (qr : nat) (f : query → query) (ch : ares_channel)
  : ares_channel :=
  set_queries (alter f qr (queries ch)) ch.

Definition get_conn (ch : ares_channel) (cid : nat)
  : outcome server_connection :=
  deref (conns ch !! cid).

Definition upd_conn (cid : nat) (f : server_connection → server_connection)
  (ch : ares_channel) : ares_channel :=
  set_conns (alter f cid (conns ch)) ch.

(** [&channel->servers[i]] *)
Definition get_server (ch : ares_channel) (i : Z) : outcome server_state :=
  if i <? 0 then Undefined else deref (servers ch !! Z.to_nat i).

Definition upd_server (i : nat) (f : server_state → server_state)
  (ch : ares_channel) : ares_channel :=
  set_servers (alter f i (servers ch)) ch.

(** [query->qbuf], [query->qlen]: the request past the two length bytes. *)
Definition qbuf (q : query) : list Z :=
  take (Z.to_nat (qlen q)) (drop 2 (tcpbuf q)).

Definition log_callback (ev : callback_event) (ch : ares_channel)
  : ares_channel :=
  set_env (set_callbacks (callbacks (env ch) ++ [ev]) (env ch)) ch.

Definition SOCK_STATE_CALLBACK (ch : ares_channel) (s : Z) (r w : bool)
  : ares_channel :=
  set_env (set_sock_state
             (sock_state (env ch)
                ++ [{| ss_fd := s; ss_read := r; ss_write := w |}])
             (env ch)) ch.

(** The allocator: the next scripted outcome, success once the script is
    used up. *)
Definition alloc (ch : ares_channel) : bool * ares_channel :=
  match io_alloc (env ch) with
  | [] => (true, ch)
  | ok :: rest => (ok, set_env (set_io_alloc rest (env ch)) ch)
  end.

(** ** Containers and the socket layer

    The list, skip-list, hash-table, buffer and socket modules are not
    part of the excerpt.  The design document fixes what they do; the
    definitions below follow it. *)

(** Modelled from the spec: unlinking the node that holds [qr] from a
    list. *)
Fixpoint remove_node (qr : nat) (l : list nat) : list nat :=
  match l with
  | [] => []
  | x :: l' => if decide (x = qr) then l' else x :: remove_node qr l'
  end.

(** Modelled from the spec: [ares__slist_node_destroy] on a node of
    [queries_by_timeout] (the skip-list module is missing); a [NULL] node
    is ignored. *)
Definition ares__slist_node_destroy (node : bool) (qr : nat)
  (ch : ares_channel) : ares_channel :=
  if node
  then set_queries_by_timeout (remove_node qr (queries_by_timeout ch)) ch
  else ch.

(** Modelled from the spec: [ares__llist_node_destroy] on a node of a
    connection's query list (the list module is missing). *)
Definition ares__llist_node_destroy (node : option nat) (qr : nat)
  (ch : ares_channel) : ares_channel :=
  match node with
  | Some l => set_llists (alter (remove_node qr) l (llists ch)) ch
  | None => ch
  end.

(** Modelled from the spec: [ares__llist_node_destroy] on a node of
    [all_queries]. *)
Definition ares__llist_node_destroy_all (node : bool) (qr : nat)
  (ch : ares_channel) : ares_channel :=
  if node then set_all_queries (remove_node qr (all_queries ch)) ch else ch.

(** Modelled from the spec: [ares__llist_insert_last] (the list module is
    missing): the new node, or [NULL] when the list is [NULL] or the
    allocation fails. *)
Definition ares__llist_insert_last (list : option nat) (qr : nat)
  (ch : ares_channel) : option nat * ares_channel :=
  match list with
  | None => (None, ch)
  | Some l =>
      let '(ok, ch) := alloc ch in
      if ok
      then (Some l, set_llists (alter (λ qs, qs ++ [qr]) l (llists ch)) ch)
      else (None, ch)
  end.

(** Modelled from the spec: the place of a new node in the skip list,
    before the first query with a later deadline. *)
Fixpoint slist_place (deadline : nat → option timeval) (t : timeval)
  (qr : nat) (l : list nat) : list nat :=
  match l with
  | [] => [qr]
  | x :: l' =>
      match deadline x with
      | Some tx =>
          if 0 <? ares_query_timeout_cmp_cb tx t
          then qr :: x :: l'
          else x :: slist_place deadline t qr l'
      | None => x :: slist_place deadline t qr l'
      end
  end.

(** Modelled from the spec: [ares__slist_insert] into [queries_by_timeout]
    (the skip-list module is missing): the queries stay ordered by
    [ares_query_timeout_cmp_cb]; [false] stands for the [NULL] node of a
    failed allocation. *)
Definition ares__slist_insert (qr : nat) (t : timeval) (ch : ares_channel)
  : bool * ares_channel :=
  let '(ok, ch) := alloc ch in
  if ok
  then (true,
        set_queries_by_timeout
          (slist_place (λ r, q_timeout <$> queries ch !! r) t qr
             (queries_by_timeout ch)) ch)
  else (false, ch).

(** Modelled from the spec: [ares__buf_append] on a server's [tcp_send]
    (the buffer module is missing). *)
Definition ares__buf_append (sidx : nat) (data : list Z) (ch : ares_channel)
  : ares_status_t * ares_channel :=
  let '(ok, ch) := alloc ch in
  if ok
  then (ARES_SUCCESS,
        upd_server sidx (λ s, set_tcp_send (tcp_send s ++ data) s) ch)
  else (ARES_ENOMEM, ch).

(** Modelled from the spec: [ares__socket_write] (the socket layer is
    missing): the next scripted outcome; the bytes written are logged. *)
Definition ares__socket_write (s : Z) (data : list Z) (ch : ares_channel)
  : Z * ares_channel :=
  let sent_ok (ch : ares_channel) :=
    (Z.of_nat (length data),
     set_env (set_sent (sent (env ch) ++ [(s, data)]) (env ch)) ch) in
  match io_write (env ch) with
  | [] => sent_ok ch
  | ok :: rest =>
      let ch := set_env (set_io_write rest (env ch)) ch in
      if ok then sent_ok ch else (-1, ch)
  end.

(** Modelled from the spec: [ares__open_connection] (the socket layer is
    missing).  The next scripted outcome gives the status and the socket;
    on success a fresh connection with an empty query list is registered
    under its socket and linked into the server, a UDP connection in
    front (where [ares__send_query] looks for it), the TCP connection as
    the server's [tcp_conn] with a new connection generation. *)
Definition ares__open_connection (ch : ares_channel) (sidx : nat)
  (tcp : bool) : outcome (ares_status_t * ares_channel) :=
  _ ← deref (servers ch !! sidx);
  let '(status, s, ch) :=
    match io_open (env ch) with
    | [] => (ARES_SUCCESS, Z.of_nat (next_conn ch), ch)
    | (st, s) :: rest => (st, s, set_env (set_io_open rest (env ch)) ch)
    end in
  match status with
  | ARES_SUCCESS =>
      let cid := next_conn ch in
      let c := {| conn_server := sidx; fd := s; is_tcp := tcp;
                  total_queries := 0; queries_to_conn := Some cid |} in
      let ch := set_next_conn (S cid) ch in
      let ch := set_conns (<[cid := c]> (conns ch)) ch in
      let ch := set_llists (<[cid := []]> (llists ch)) ch in
      let ch := set_connnode_by_socket (<[s := cid]> (connnode_by_socket ch))
                  ch in
      let gen := size_wrap (tcp_connection_generation ch + 1) in
      let ch := if tcp then set_tcp_connection_generation gen ch else ch in
      let ch :=
        upd_server sidx
          (λ srv,
             if tcp
             then set_srv_tcp_connection_generation gen
                    (set_tcp_conn (Some cid)
                       (set_connections (connections srv ++ [cid]) srv))
             else set_connections (cid :: connections srv) srv) ch in
      Done (ARES_SUCCESS, SOCK_STATE_CALLBACK ch s true false)
  | _ => Done (status, ch)
  end.

(** Modelled from the spec: [ares__close_connection] (the socket layer is
    missing): the socket is closed and removed from [connnode_by_socket]
    and from its server; a TCP connection also resets the server's TCP
    buffers and [tcp_conn]; the query list, unless stolen, is destroyed
    with the connection. *)
Definition ares__close_connection (ch : ares_channel) (conn : nat)
  : outcome ares_channel :=
  c ← get_conn ch conn;
  let ch :=
    upd_server (conn_server c)
      (λ srv,
         let srv := set_connections (remove_node conn (connections srv)) srv in
         if is_tcp c
         then set_tcp_conn None (set_tcp_send [] (set_tcp_parser [] srv))
         else srv) ch in
  let ch := SOCK_STATE_CALLBACK ch (fd c) false false in
  let ch := set_connnode_by_socket (delete (fd c) (connnode_by_socket ch)) ch in
  let ch :=
    match queries_to_conn c with
    | Some l => set_llists (delete l (llists ch)) ch
    | None => ch
    end in
  Done (set_conns (delete conn (conns ch)) ch).

(** Modelled from the spec: [ares__check_cleanup_conn] (the socket layer
    is missing): a UDP connection whose query list is empty and that has
    reached [udp_max_queries] is closed. *)
Definition ares__check_cleanup_conn (ch : ares_channel) (s : Z)
  : outcome ares_channel :=
  match connnode_by_socket ch !! s with
  | None => Done ch
  | Some conn =>
      c ← get_conn ch conn;
      l ← deref (queries_to_conn c);
      qs ← deref (llists ch !! l);
      match qs with
      | _ :: _ => Done ch
      | [] =>
          if negb (is_tcp c) && (0 <? udp_max_queries ch)
             && (udp_max_queries ch <=? total_queries c)
          then ares__close_connection ch conn
          else Done ch
      end
  end.

(** ** Ending a query ([ares_process.c]) *)

(** [ares_detach_query]: remove the query from every list it is linked
    in. *)
Definition ares_detach_query (ch : ares_channel) (qr : nat)
  : outcome ares_channel :=
  q ← get_query ch qr;
  let ch := set_queries_by_qid (delete (qid q) (queries_by_qid ch)) ch in
  let ch := ares__slist_node_destroy (node_queries_by_timeout q) qr ch in
  let ch := ares__llist_node_destroy (node_queries_to_conn q) qr ch in
  let ch := ares__llist_node_destroy_all (node_all_queries q) qr ch in
  Done (upd_query qr
          (λ q, set_node_all_queries false
                  (set_node_queries_to_conn None
                     (set_node_queries_by_timeout false q))) ch).

(** [ares__free_query] *)
Definition ares__free_query (ch : ares_channel) (qr : nat)
  : outcome ares_channel :=
  ch ← ares_detach_query ch qr;
  Done (set_queries (delete qr (queries ch)) ch).

(** [end_query]: detach, invoke the callback, free.  The callback takes
    the count of timeouts and the length of the answer as [int]. *)
Definition end_query (ch : ares_channel) (qr : nat) (status : ares_status_t)
  (abuf : option (list Z)) (alen : Z) : outcome ares_channel :=
  ch ← ares_detach_query ch qr;
  q ← get_query ch qr;
  let ch :=
    log_callback {| cb_query := qr; cb_arg := arg q; cb_status := status;
                    cb_timeouts := int_of (timeouts q); cb_abuf := abuf;
                    cb_alen := int_of alen |} ch in
  ares__free_query ch qr.

(** ** The dispatcher ([ares_process.c]) *)

(** [skip_server] *)
Definition skip_server (ch : ares_channel) (qr : nat) (server : server_state)
  : outcome ares_channel :=
  if 1 <? nservers ch then
    q ← get_query ch qr;
    _ ← deref (server_info q !! Z.to_nat (idx server));
    Done (upd_query qr
            (λ q, set_server_info
                    (alter (λ i, {| si_skip_server := true;
                                    si_tcp_connection_generation :=
                                      si_tcp_connection_generation i |})
                       (Z.to_nat (idx server)) (server_info q)) q) ch)
  else Done ch.

(** The timeout of one attempt in [ares__send_query]: the channel timeout
    doubled once for each trip through the server list, unless a set bit
    would reach the sign bit of an [int]. *)
Definition timeplus_for (timeout try_count nservers : Z) : Z :=
  let timeplus := timeout in
  let shift := try_count / nservers in
  if (shift <=? INT_BITS - 1)
     && (Z.shiftr timeplus (INT_BITS - 1 - shift) =? 0)
  then size_wrap (Z.shiftl timeplus shift)
  else timeplus.

(** The end of [ares__send_query], from the computation of [timeplus] on:
    the query moves to its new deadline and to the list of [conn]. *)
Definition send_query_enqueue (ch : ares_channel) (qr : nat) (now : timeval)
  (conn : nat) : outcome (ares_status_t * ares_channel) :=
  q ← get_query ch qr;
  if nservers ch =? 0 then Undefined else
  let timeplus := timeplus_for (timeout ch) (try_count q) (nservers ch) in
  let ch := ares__slist_node_destroy (node_queries_by_timeout q) qr ch in
  let ch := upd_query qr (set_q_timeout (timeadd now timeplus)) ch in
  let '(node, ch) := ares__slist_insert qr (timeadd now timeplus) ch in
  let ch := upd_query qr (set_node_queries_by_timeout node) ch in
  if negb node then
    ch ← end_query ch qr ARES_ENOMEM None 0;
    Done (ARES_ENOMEM, ch)
  else
    let ch := ares__llist_node_destroy (node_queries_to_conn q) qr ch in
    c ← get_conn ch conn;
    let '(lnode, ch) := ares__llist_insert_last (queries_to_conn c) qr ch in
    let ch := upd_query qr (λ q, set_q_conn (Some conn)
                                   (set_node_queries_to_conn lnode q)) ch in
    let ch := upd_conn conn
                (λ c, set_total_queries (size_wrap (total_queries c + 1)) c)
                ch in
    Done (ARES_SUCCESS, ch).

Section send_query.
(** [ares__send_query] and [next_server] call each other; the body of
    the first is written over the second. *)
Variable next_server
  : ares_channel → nat → timeval → outcome (ares_status_t * ares_channel).

(** The [switch (status)] after [ares__open_connection]. *)
Definition after_open (ch : ares_channel) (qr : nat) (now : timeval)
  (sidx : Z) (status : ares_status_t)
  (good : ares_channel → outcome (ares_status_t * ares_channel))
  : outcome (ares_status_t * ares_channel) :=
  match status with
  | ARES_SUCCESS => good ch
  | ARES_ECONNREFUSED | ARES_EBADFAMILY =>
      server ← get_server ch sidx;
      ch ← skip_server ch qr server;
      next_server ch qr now
  | _ =>
      ch ← end_query ch qr status None 0;
      Done (status, ch)
  end.

(** The TCP branch once the server has its [tcp_conn]. *)
Definition send_query_tcp (ch : ares_channel) (qr : nat) (now : timeval)
  (q : query) : outcome (ares_status_t * ares_channel) :=
  server ← get_server ch (q_server q);
  conn ← deref (tcp_conn server);
  let prior_len := length (tcp_send server) in
  let '(status, ch) :=
    ares__buf_append (Z.to_nat (q_server q))
      (take (Z.to_nat (tcplen q)) (tcpbuf q)) ch in
  if decide (status = ARES_SUCCESS) then
    ch ← (if decide (prior_len = 0%nat)
          then c ← get_conn ch conn;
               Done (SOCK_STATE_CALLBACK ch (fd c) true true)
          else Done ch);
    _ ← deref (server_info q !! Z.to_nat (q_server q));
    let ch :=
      upd_query qr
        (λ q, set_server_info
                (alter (λ i, {| si_skip_server := si_skip_server i;
                                si_tcp_connection_generation :=
                                  srv_tcp_connection_generation server |})
                   (Z.to_nat (q_server q)) (server_info q)) q) ch in
    send_query_enqueue ch qr now conn
  else
    ch ← end_query ch qr status None 0;
    Done (ARES_ENOMEM, ch).

(** The UDP branch once a connection is chosen. *)
Definition send_query_udp (ch : ares_channel) (qr : nat) (now : timeval)
  (q : query) (conn : nat) : outcome (ares_status_t * ares_channel) :=
  c ← get_conn ch conn;
  let '(count, ch) := ares__socket_write (fd c) (qbuf q) ch in
  if count =? -1 then
    server ← get_server ch (q_server q);
    ch ← skip_server ch qr server;
    next_server ch qr now
  else send_query_enqueue ch qr now conn.

(** The connection at the head of the server's list, unless it is the
    TCP one or has served [udp_max_queries] queries. *)
Definition reusable_udp_conn (ch : ares_channel) (server : server_state)
  : outcome (option nat) :=
  match head (connections server) with
  | None => Done None
  | Some conn =>
      c ← get_conn ch conn;
      if is_tcp c then Done None
      else if (0 <? udp_max_queries ch)
              && (udp_max_queries ch <=? total_queries c)
      then Done None
      else Done (Some conn)
  end.

Definition send_query_with (ch : ares_channel) (qr : nat) (now : timeval)
  : outcome (ares_status_t * ares_channel) :=
  q ← get_query ch qr;
  server ← get_server ch (q_server q);
  if using_tcp q then
    match tcp_conn server with
    | None =>
        '(status, ch) ← ares__open_connection ch (Z.to_nat (q_server q))
                          true;
        after_open ch qr now (q_server q) status
          (λ ch, send_query_tcp ch qr now q)
    | Some _ => send_query_tcp ch qr now q
    end
  else
    node ← reusable_udp_conn ch server;
    match node with
    | None =>
        '(status, ch) ← ares__open_connection ch (Z.to_nat (q_server q))
                          false;
        after_open ch qr now (q_server q) status
          (λ ch,
             server ← get_server ch (q_server q);
             conn ← deref (head (connections server));
             send_query_udp ch qr now q conn)
    | Some conn => send_query_udp ch qr now q conn
    end.
End send_query.

(** Whether [next_server] may use the server the query now points at. *)
Definition server_usable (q : query) (info : query_server_info)
  (server : server_state) : bool :=
  negb (si_skip_server info)
  && negb (using_tcp q
           && (si_tcp_connection_generation info
               =? srv_tcp_connection_generation server)).

(** [next_server]: one round of the [while] loop per unit of fuel. *)
Fixpoint next_server_fuel (fuel : nat) (ch : ares_channel) (qr : nat)
  (now : timeval) : outcome (ares_status_t * ares_channel) :=
  q ← get_query ch qr;
  let count := size_wrap (try_count q + 1) in
  let ch := upd_query qr (set_try_count count) ch in
  if (count <? size_wrap (nservers ch * tries ch)) && negb (no_retries q)
  then
    match fuel with
    | O => OutOfFuel
    | S fuel =>
        if nservers ch =? 0 then Undefined else
        let next := size_wrap (q_server q + 1) mod nservers ch in
        let ch := upd_query qr (set_q_server next) ch in
        server ← get_server ch next;
        info ← deref (server_info q !! Z.to_nat next);
        if server_usable q info server
        then send_query_with (next_server_fuel fuel) ch qr now
        else next_server_fuel fuel ch qr now
    end
  else
    ch ← end_query ch qr (error_status q) None 0;
    Done (error_status q, ch).

(** The loop stops once [try_count] reaches [nservers * tries], so this
    many rounds are enough. *)
Definition next_server_rounds (ch : ares_channel) : nat :=
  S (Z.to_nat (size_wrap (nservers ch * tries ch))).

Definition next_server (ch : ares_channel) (qr : nat) (now : timeval)
  : outcome (ares_status_t * ares_channel) :=
  next_server_fuel (next_server_rounds ch) ch qr now.

Definition ares__send_query (ch : ares_channel) (qr : nat) (now : timeval)
  : outcome (ares_status_t * ares_channel) :=
  send_query_with next_server ch qr now.

(** ** Answers ([ares_process.c]) *)

(** What [ares_process.c] reads from a parsed message through the
    accessors of [ares_dns_record.h]: the id, the header flags, the
    response code, the questions and the types of the records of the
    additional section.  A question's name is [None] when the accessor
    hands back [NULL]. *)
Record dns_question : Type := Build_dns_question {
  qd_name : option string;
  qd_type : Z;
  qd_class : Z
}.

Record ares_dns_record_t : Type := Build_dns_record {
  dns_id : Z;
  dns_flags : Z;
  dns_rcode : Z;
  dns_questions : list dns_question;
  dns_additional : list Z
}.

(** [ares_dns_record_query_get] *)
Definition ares_dns_record_query_get (rec : ares_dns_record_t) (i : nat)
  : option dns_question :=
  dns_questions rec !! i.

Definition NUL : ascii := Ascii.zero.

Definition char_code (c : ascii) : Z := Z.of_N (N_of_ascii c).

(** [tolower] in the C locale. *)
Definition tolower (c : ascii) : ascii :=
  if (65 <=? char_code c) && (char_code c <=? 90)
  then ascii_of_N (N_of_ascii c + 32)
  else c.

(** [strcasecmp] on C strings: the comparison stops at the terminator. *)
Fixpoint strcasecmp (a b : string) : Z :=
  match a, b with
  | EmptyString, EmptyString => 0
  | EmptyString, String d _ => 0 - char_code (tolower d)
  | String c _, EmptyString => char_code (tolower c)
  | String c a', String d b' =>
      if decide (tolower c = tolower d)
      then if decide (c = NUL) then 0 else strcasecmp a' b'
      else char_code (tolower c) - char_code (tolower d)
  end.

(** The [for] loop of [same_questions], [n] questions from index [i]. *)
Fixpoint same_questions_from (qrec arec : ares_dns_record_t) (i n : nat)
  : bool :=
  match n with
  | O => true
  | S n =>
      match ares_dns_record_query_get qrec i,
            ares_dns_record_query_get arec i with
      | Some {| qd_name := Some qname; qd_type := qtype; qd_class := qclass |},
        Some {| qd_name := Some aname; qd_type := atype; qd_class := aclass |}
        =>
          if negb (strcasecmp qname aname =? 0) || negb (qtype =? atype)
             || negb (qclass =? aclass)
          then false
          else same_questions_from qrec arec (S i) n
      | _, _ => false
      end
  end.

(** [has_opt_rr]: search for an OPT RR in the additional section. *)
Fixpoint has_opt_rr_in (types : list Z) : bool :=
  match types with
  | [] => false
  | t :: types => if t =? ARES_REC_TYPE_OPT then true else has_opt_rr_in types
  end.

Definition has_opt_rr (arec : ares_dns_record_t) : bool :=
  has_opt_rr_in (dns_additional arec).

(** [same_address]: [memcmp] over the four or sixteen address bytes. *)
Definition same_address (sa : sockaddr) (aa : ares_addr) : bool :=
  if sa_family sa =? family aa then
    if family aa =? AF_INET
    then bool_decide (take 4 (addr_bytes aa) = take 4 (sa_addr sa))
    else if family aa =? AF_INET6
    then bool_decide (take 16 (addr_bytes aa) = take 16 (sa_addr sa))
    else false
  else false.

(** [try_again]: [EWOULDBLOCK] and [EAGAIN] (one value on Linux). *)
Definition EWOULDBLOCK : Z := 11.
Definition EAGAIN : Z := 11.

Definition try_again (errnum : Z) : bool :=
  (errnum =? EWOULDBLOCK) || (errnum =? EAGAIN).

(** The requeue loop of [handle_error]: while the stolen list has a first
    node, skip the server for its query and move the query on. *)
Fixpoint handle_error_requeue (fuel : nat) (ch : ares_channel)
  (list_copy : nat) (server : nat) (now : timeval) : outcome ares_channel :=
  qs ← deref (llists ch !! list_copy);
  match qs with
  | [] => Done ch
  | qr :: _ =>
      match fuel with
      | O => OutOfFuel
      | S fuel =>
          q ← get_query ch qr;
          srv ← deref (servers ch !! server);
          (* assert(query->server == server->idx) *)
          if negb (q_server q =? idx srv) then Undefined else
          ch ← skip_server ch qr srv;
          '(_, ch) ← next_server ch qr now;
          handle_error_requeue fuel ch list_copy server now
      end
  end.

(** [handle_error]: steal the list of the connection, close the
    connection, requeue the queries of the stolen list, destroy it. *)
Definition handle_error (ch : ares_channel) (conn : nat) (now : timeval)
  : outcome ares_channel :=
  c ← get_conn ch conn;
  let list_copy := queries_to_conn c in
  let ch := upd_conn conn (set_queries_to_conn None) ch in
  ch ← ares__close_connection ch conn;
  match list_copy with
  | None => Done ch
  | Some l =>
      qs ← deref (llists ch !! l);
      ch ← handle_error_requeue (length qs) ch l (conn_server c) now;
      Done (set_llists (delete l (llists ch)) ch)
  end.

(** One result of [ares__socket_recvfrom]: an error with its [errno], or
    a datagram with its source address. *)
Inductive recv_result : Type :=
| Recv_error (errnum : Z)
| Recv_data (buf : list Z) (from : sockaddr).

Section answers.
(** The wire-format parser is consumed as an opaque service: bytes to
    record, or a failure. *)
Variable ares_dns_parse : list Z → option ares_dns_record_t.

(** [same_questions] *)
Definition same_questions (qbuf : list Z) (arec : ares_dns_record_t)
  : bool :=
  match ares_dns_parse qbuf with
  | None => false
  | Some qrec =>
      if negb (length (dns_questions qrec) =? length (dns_questions arec))%nat
      then false
      else same_questions_from qrec arec 0 (length (dns_questions qrec))
  end.

(** The EDNS branch of [process_answer]: drop the OPT RR from the
    request, clear the channel's EDNS flag and send again. *)
Definition process_answer_edns (ch : ares_channel) (qr : nat) (q : query)
  (s : Z) (now : timeval) : outcome ares_channel :=
  let qlen' := size_wrap (size_wrap (tcplen q - 2) - EDNSFIXEDSZ) in
  let ch := set_flags (Z.lxor (flags ch) ARES_FLAG_EDNS) ch in
  if (length (tcpbuf q) <? 14)%nat then Undefined else
  let '(ok, ch) := alloc ch in
  if negb ok then Undefined else
  let ch :=
    upd_query qr
      (λ q,
         let buf := <[0%nat := Z.land (Z.shiftr qlen' 8) 255]> (tcpbuf q) in
         let buf := <[1%nat := Z.land qlen' 255]> buf in
         (* DNS_HEADER_SET_ARCOUNT(query->tcpbuf + 2, 0) *)
         let buf := <[13%nat := 0]> (<[12%nat := 0]> buf) in
         let tcplen' := size_wrap (tcplen q - EDNSFIXEDSZ) in
         set_tcpbuf (take (Z.to_nat tcplen') buf)
           (set_qlen (size_wrap (qlen q - EDNSFIXEDSZ))
              (set_tcplen tcplen' q))) ch in
  '(_, ch) ← ares__send_query ch qr now;
  ares__check_cleanup_conn ch s.

(** The response-code branch: SERVFAIL, NOTIMP and REFUSED. *)
Definition process_answer_rcode (ch : ares_channel) (qr : nat)
  (server : nat) (s : Z) (rcode : Z) (now : timeval)
  : outcome ares_channel :=
  let status :=
    if rcode =? ARES_RCODE_SERVER_FAILURE then ARES_ESERVFAIL
    else if rcode =? ARES_RCODE_NOT_IMPLEMENTED then ARES_ENOTIMP
    else ARES_EREFUSED in
  let ch := upd_query qr (set_error_status status) ch in
  srv ← deref (servers ch !! server);
  ch ← skip_server ch qr srv;
  q ← get_query ch qr;
  ch ← (if q_server q =? idx srv
        then '(_, ch) ← next_server ch qr now; Done ch
        else Done ch);
  ares__check_cleanup_conn ch s.

(** [process_answer]: handle an answer from a server. *)
Definition process_answer (ch : ares_channel) (abuf : list Z) (conn : nat)
  (tcp : bool) (now : timeval) : outcome ares_channel :=
  let alen := Z.of_nat (length abuf) in
  c ← get_conn ch conn;
  match ares_dns_parse abuf with
  | None => Done ch
  | Some dnsrec =>
      match queries_by_qid ch !! dns_id dnsrec with
      | None => Done ch
      | Some qr =>
          q ← get_query ch qr;
          if negb (same_questions (qbuf q) dnsrec) then Done ch else
          let ch := ares__llist_node_destroy (node_queries_to_conn q) qr ch in
          let ch := upd_query qr (set_node_queries_to_conn None) ch in
          let q := set_node_queries_to_conn None q in
          let edns := has_flag (flags ch) ARES_FLAG_EDNS in
          let packetsz := if edns then ednspsz ch else PACKETSZ in
          if edns && (dns_rcode dnsrec =? ARES_RCODE_FORMAT_ERROR)
             && negb (has_opt_rr dnsrec)
          then process_answer_edns ch qr q (fd c) now
          else if (has_flag (dns_flags dnsrec) ARES_FLAG_TC
                   || (packetsz <? alen))
                  && negb tcp && negb (has_flag (flags ch) ARES_FLAG_IGNTC)
          then
            ch ← (if negb (using_tcp q)
                  then
                    let ch := upd_query qr (set_using_tcp true) ch in
                    '(_, ch) ← ares__send_query ch qr now; Done ch
                  else Done ch);
            ares__check_cleanup_conn ch (fd c)
          else if negb (has_flag (flags ch) ARES_FLAG_NOCHECKRESP)
                  && ((dns_rcode dnsrec =? ARES_RCODE_SERVER_FAILURE)
                      || (dns_rcode dnsrec =? ARES_RCODE_NOT_IMPLEMENTED)
                      || (dns_rcode dnsrec =? ARES_RCODE_REFUSED))
          then process_answer_rcode ch qr (conn_server c) (fd c)
                 (dns_rcode dnsrec) now
          else
            ch ← end_query ch qr ARES_SUCCESS (Some abuf) alen;
            ares__check_cleanup_conn ch (fd c)
      end
  end.

(** [read_udp_packets_fd]: read and process as many datagrams as the
    socket has.  [script] holds the results of the coming
    [ares__socket_recvfrom] calls (a used-up script means the socket
    would block), [errno] the value of [SOCKERRNO] on entry, [s] the
    socket cached for the loop condition. *)
Fixpoint read_udp_packets_loop (script : list recv_result) (errno : Z)
  (ch : ares_channel) (conn : nat) (s : Z) (now : timeval)
  : outcome ares_channel :=
  c ← get_conn ch conn;
  let failed (errnum : Z) :=
    if try_again errnum then Done ch else handle_error ch conn now in
  if fd c =? ARES_SOCKET_BAD then failed errno else
  server ← deref (servers ch !! conn_server c);
  match script with
  | [] => failed EWOULDBLOCK
  | Recv_error errnum :: _ => failed errnum
  | Recv_data buf from :: script =>
      let buf := take (Z.to_nat (MAXENDSSZ + 1)) buf in
      ch ← (if decide (length buf = 0%nat) then Done ch
            else if negb (same_address from (addr server)) then Done ch
            else process_answer ch buf conn false now);
      (* while (read_len >= 0 && the socket is still registered) *)
      match connnode_by_socket ch !! s with
      | Some _ => read_udp_packets_loop script errno ch conn s now
      | None => Done ch
      end
  end.

Definition read_udp_packets_fd (script : list recv_result) (errno : Z)
  (ch : ares_channel) (conn : nat) (now : timeval) : outcome ares_channel :=
  c ← get_conn ch conn;
  read_udp_packets_loop script errno ch conn (fd c) now.
End answers.

(** ** The socket list and the timeouts ([ares_process.c]) *)

(** [socket_list_append]: [socketlist] holds the [num] entries written so
    far.  A full list is grown with [ares_realloc(socketlist, ...)], on
    the address of the caller's variable and not on the block it points
    to; no allocator returned that address, so growing is undefined. *)
Definition socket_list_append (socketlist : list Z) (fd : Z)
  (alloc_cnt num : Z) : outcome (bool * list Z * Z * Z) :=
  if alloc_cnt <=? num then Undefined
  else Done (true, socketlist ++ [fd], alloc_cnt, size_wrap (num + 1)).

(** The inner loop of [channel_socket_list], over the connections of one
    server; [None] is the [fail] label. *)
Fixpoint socket_list_conns (ch : ares_channel) (nodes : list nat)
  (out : list Z) (alloc_cnt num : Z) : outcome (option (list Z * Z * Z)) :=
  match nodes with
  | [] => Done (Some (out, alloc_cnt, num))
  | cn :: nodes =>
      conn ← get_conn ch cn;
      if fd conn =? ARES_SOCKET_BAD
      then socket_list_conns ch nodes out alloc_cnt num
      else
        '(ok, out, alloc_cnt, num) ←
          socket_list_append out (fd conn) alloc_cnt num;
        if (ok : bool) then socket_list_conns ch nodes out alloc_cnt num
        else Done None
  end.

(** The outer loop, over [channel->servers[i]] for the indices given. *)
Fixpoint socket_list_servers (ch : ares_channel) (indices : list nat)
  (out : list Z) (alloc_cnt num : Z) : outcome (option (list Z * Z * Z)) :=
  match indices with
  | [] => Done (Some (out, alloc_cnt, num))
  | i :: indices =>
      server ← get_server ch (Z.of_nat i);
      r ← socket_list_conns ch (connections server) out alloc_cnt num;
      match r with
      | Some (out, alloc_cnt, num) =>
          socket_list_servers ch indices out alloc_cnt num
      | None => Done None
      end
  end.

(** [channel_socket_list]: the list, [None] for [NULL], and [*num]. *)
Definition channel_socket_list (ch : ares_channel)
  : outcome (option (list Z) * Z * ares_channel) :=
  let alloc_cnt := 16 in                              (* 1 << 4 *)
  let '(ok, ch) := alloc ch in                        (* ares_malloc *)
  if negb ok then Done (None, 0, ch) else
  r ← socket_list_servers ch (seq 0 (Z.to_nat (nservers ch))) [] alloc_cnt 0;
  match r with
  | Some (out, _, num) => Done (Some out, num, ch)
  | None => Done (None, 0, ch)
  end.

(** Modelled from the spec: [ares__slist_node_next] on the node of
    [queries_by_timeout] that holds [qr] (the skip-list module is
    missing): the query of the node that follows, [None] for [NULL]. *)
Fixpoint slist_node_next (qr : nat) (l : list nat) : option nat :=
  match l with
  | [] => None
  | x :: l' => if decide (x = qr) then head l' else slist_node_next qr l'
  end.

(** The body of the loop of [process_timeouts] past its test, for a
    query that has timed out. *)
Definition process_timeouts_query (ch : ares_channel) (now : timeval)
  (qr : nat) : outcome ares_channel :=
  q ← get_query ch qr;
  let ch :=
    upd_query qr
      (λ q, set_timeouts (size_wrap (timeouts q + 1))
              (set_error_status ARES_ETIMEOUT q)) ch in
  conn ← deref (q_conn q);
  c ← get_conn ch conn;
  '(_, ch) ← next_server ch qr now;
  (* A timeout is a special case where we need to possibly cleanup a
     connection *)
  ares__check_cleanup_conn ch (fd c).

(** The loop of [process_timeouts], from the node that holds [node]; a
    unit of fuel for every query moved on. *)
Fixpoint process_timeouts_loop (fuel : nat) (ch : ares_channel)
  (now : timeval) (node : option nat) : outcome ares_channel :=
  match node with
  | None => Done ch
  | Some qr =>
      q ← get_query ch qr;
      (* Node might be removed, cache next *)
      let next := slist_node_next qr (queries_by_timeout ch) in
      if negb (ares__timedout now (q_timeout q)) then Done ch
      else
        match fuel with
        | O => OutOfFuel
        | S fuel =>
            ch ← process_timeouts_query ch now qr;
            process_timeouts_loop fuel ch now next
        end
  end.

(** [process_timeouts]: moving a query on ends it or uses up one of its
    tries, of which [next_server_rounds] bounds the number. *)
Definition process_timeouts (ch : ares_channel) (now : timeval)
  : outcome ares_channel :=
  process_timeouts_loop (size (queries ch) * next_server_rounds ch) ch now
    (head (queries_by_timeout ch)).

(** ** Channel bootstrap ([ares_init.c]) *)

Module Init.

(** [struct ares_channeldata], the fields [ares_init.c] fills in.  A
    pointer field is [None] when [NULL]. *)
Record channel : Type := Build_channel {
  flags : Z;
  timeout : Z;
  tries : Z;
  ndots : Z;
  udp_port : Z;
  tcp_port : Z;
  ednspsz : Z;
  servers : option (list server_state);
  nservers : Z;
  domains : option (list string);
  ndomains : Z;
  sortlist : option (list Z);
  nsort : Z;
  lookups : option string;
  resolvconf_path : option string;
  hosts_path : option string;
  tcp_connection_generation : Z
}.

(** The channel after [memset] to zero. *)
Definition zeroed : channel :=
  {| flags := 0; timeout := 0; tries := 0; ndots := 0; udp_port := 0;
     tcp_port := 0; ednspsz := 0; servers := None; nservers := 0;
     domains := None; ndomains := 0; sortlist := None; nsort := 0;
     lookups := None; resolvconf_path := None; hosts_path := None;
     tcp_connection_generation := 0 |}.

(** The next scripted outcome of the allocator, success once the script
    is used up. *)
Definition take_alloc (allocs : list bool) : bool * list bool :=
  match allocs with
  | [] => (true, [])
  | ok :: rest => (ok, rest)
  end.

(** [htons] on a little-endian host: the value whose bytes in memory
    are the big-endian bytes of [x]. *)
Definition htons (x : Z) : Z := (x mod 256) * 256 + (x / 256) mod 256.

(** [htonl(INADDR_LOOPBACK)] as the bytes of [s_addr] in memory. *)
Definition INADDR_LOOPBACK_bytes : list Z := [127; 0; 0; 1].

(** A [memset]-zeroed [struct server_state]. *)
Definition zero_server (a : ares_addr) : server_state :=
  {| idx := 0; addr := a; connections := []; tcp_conn := None;
     tcp_parser := []; tcp_send := [];
     srv_tcp_connection_generation := 0 |}.

(** One result of [gethostname]: the name, a too-small buffer, or
    another failure. *)
Inductive gethostname_result : Type :=
| Hostname (name : string)
| Hostname_toolong
| Hostname_failed.

(** The [do ... while] loop around [gethostname] in [init_by_defaults]:
    the buffer is doubled while the name is too long; [None] when the
    reallocation fails.  A used-up script means [gethostname] fails. *)
Fixpoint gethostname_loop (script : list gethostname_result)
  (allocs : list bool) : option string * list bool :=
  match script with
  | [] => (Some EmptyString, allocs)
  | Hostname name :: _ => (Some name, allocs)
  | Hostname_failed :: _ => (Some EmptyString, allocs)
  | Hostname_toolong :: script =>
      let '(ok, allocs) := take_alloc allocs in
      if ok then gethostname_loop script allocs else (None, allocs)
  end.

(** [strchr(hostname, '.')], then [dot + 1]. *)
Fixpoint after_dot (s : string) : option string :=
  match s with
  | EmptyString => None
  | String c s => if decide (c = "."%char) then Some s else after_dot s
  end.

(** The scalar defaults at the head of [init_by_defaults]. *)
Definition seed_scalars (ch : channel) : channel :=
  {| flags := flags ch;
     timeout := if timeout ch =? 0 then DEFAULT_TIMEOUT else timeout ch;
     tries := if tries ch =? 0 then DEFAULT_TRIES else tries ch;
     ndots := if ndots ch =? 0 then 1 else ndots ch;
     udp_port := if udp_port ch =? 0 then htons NAMESERVER_PORT
                 else udp_port ch;
     tcp_port := if tcp_port ch =? 0 then htons NAMESERVER_PORT
                 else tcp_port ch;
     ednspsz := if ednspsz ch =? 0 then EDNSPACKETSZ else ednspsz ch;
     servers := servers ch; nservers := nservers ch;
     domains := domains ch; ndomains := ndomains ch;
     sortlist := sortlist ch; nsort := nsort ch; lookups := lookups ch;
     resolvconf_path := resolvconf_path ch; hosts_path := hosts_path ch;
     tcp_connection_generation := tcp_connection_generation ch |}.

Definition set_servers (s : option (list server_state)) (n : Z)
  (ch : channel) : channel :=
  {| flags := flags ch; timeout := timeout ch; tries := tries ch;
     ndots := ndots ch; udp_port := udp_port ch; tcp_port := tcp_port ch;
     ednspsz := ednspsz ch; servers := s; nservers := n;
     domains := domains ch; ndomains := ndomains ch;
     sortlist := sortlist ch; nsort := nsort ch; lookups := lookups ch;
     resolvconf_path := resolvconf_path ch; hosts_path := hosts_path ch;
     tcp_connection_generation := tcp_connection_generation ch |}.

Definition set_domains (d : option (list string)) (n : Z) (ch : channel)
  : channel :=
  {| flags := flags ch; timeout := timeout ch; tries := tries ch;
     ndots := ndots ch; udp_port := udp_port ch; tcp_port := tcp_port ch;
     ednspsz := ednspsz ch; servers := servers ch; nservers := nservers ch;
     domains := d; ndomains := n;
     sortlist := sortlist ch; nsort := nsort ch; lookups := lookups ch;
     resolvconf_path := resolvconf_path ch; hosts_path := hosts_path ch;
     tcp_connection_generation := tcp_connection_generation ch |}.

Definition set_sortlist (s : option (list Z)) (ch : channel) : channel :=
  {| flags := flags ch; timeout := timeout ch; tries := tries ch;
     ndots := ndots ch; udp_port := udp_port ch; tcp_port := tcp_port ch;
     ednspsz := ednspsz ch; servers := servers ch; nservers := nservers ch;
     domains := domains ch; ndomains := ndomains ch;
     sortlist := s; nsort := nsort ch; lookups := lookups ch;
     resolvconf_path := resolvconf_path ch; hosts_path := hosts_path ch;
     tcp_connection_generation := tcp_connection_generation ch |}.

Definition set_lookups (l : option string) (ch : channel) : channel :=
  {| flags := flags ch; timeout := timeout ch; tries := tries ch;
     ndots := ndots ch; udp_port := udp_port ch; tcp_port := tcp_port ch;
     ednspsz := ednspsz ch; servers := servers ch; nservers := nservers ch;
     domains := domains ch; ndomains := ndomains ch;
     sortlist := sortlist ch; nsort := nsort ch; lookups := l;
     resolvconf_path := resolvconf_path ch; hosts_path := hosts_path ch;
     tcp_connection_generation := tcp_connection_generation ch |}.

Definition set_generation (g : Z) (ch : channel) : channel :=
  {| flags := flags ch; timeout := timeout ch; tries := tries ch;
     ndots := ndots ch; udp_port := udp_port ch; tcp_port := tcp_port ch;
     ednspsz := ednspsz ch; servers := servers ch; nservers := nservers ch;
     domains := domains ch; ndomains := ndomains ch;
     sortlist := sortlist ch; nsort := nsort ch; lookups := lookups ch;
     resolvconf_path := resolvconf_path ch; hosts_path := hosts_path ch;
     tcp_connection_generation := g |}.

(** The [error:] label of [init_by_defaults] when [rc] is set. *)
Definition defaults_failed (ch : channel) : channel :=
  {| flags := flags ch; timeout := timeout ch; tries := tries ch;
     ndots := ndots ch; udp_port := udp_port ch; tcp_port := tcp_port ch;
     ednspsz := ednspsz ch; servers := None; nservers := 0;
     domains := None; ndomains := ndomains ch;
     sortlist := sortlist ch; nsort := nsort ch; lookups := None;
     resolvconf_path := None; hosts_path := None;
     tcp_connection_generation := tcp_connection_generation ch |}.

(** The default server of [init_by_defaults]: a local named. *)
Definition default_server : server_state :=
  zero_server {| family := AF_INET; addr_bytes := INADDR_LOOPBACK_bytes;
                 addr_udp_port := 0; addr_tcp_port := 0 |}.

(** The search list derived from the host name ([HAVE_GETHOSTNAME]):
    [inr] carries the channel on which an allocation failed. *)
Definition default_domains (ch : channel)
  (hostnames : list gethostname_result) (allocs : list bool)
  : (channel + channel) * list bool :=
  let ch := set_domains (domains ch) 0 ch in
  let '(ok, allocs) := take_alloc allocs in          (* hostname *)
  if negb ok then (inr ch, allocs) else
  let '(hostname, allocs) := gethostname_loop hostnames allocs in
  match hostname with
  | None => (inr ch, allocs)
  | Some hostname =>
      match after_dot hostname with
      | None => (inl ch, allocs)
      | Some domain =>
          let '(ok, allocs) := take_alloc allocs in  (* domains *)
          if negb ok then (inr (set_domains None 0 ch), allocs) else
          let '(ok, allocs) := take_alloc allocs in  (* domains[0] *)
          if negb ok then (inr (set_domains (Some []) 0 ch), allocs) else
          (inl (set_domains (Some [domain]) 1 ch), allocs)
      end
  end.

(** [init_by_defaults] *)
Definition init_by_defaults (ch : channel)
  (hostnames : list gethostname_result) (allocs : list bool)
  : ares_status_t * channel * list bool :=
  let ch := seed_scalars ch in
  let failed (ch : channel) (allocs : list bool) :=
    (ARES_ENOMEM, defaults_failed ch, allocs) in
  let '(srv, allocs) :=
    if nservers ch =? 0 then
      let '(ok, allocs) := take_alloc allocs in
      if ok then (inl (set_servers (Some [default_server]) 1 ch), allocs)
      else (inr (set_servers None (nservers ch) ch), allocs)
    else (inl ch, allocs) in
  match srv with
  | inr ch => failed ch allocs
  | inl ch =>
      let '(dom, allocs) :=
        if ndomains ch =? 0 then default_domains ch hostnames allocs
        else (inl ch, allocs) in
      match dom with
      | inr ch => failed ch allocs
      | inl ch =>
          let ch := if nsort ch =? 0 then set_sortlist None ch else ch in
          match lookups ch with
          | Some _ => (ARES_SUCCESS, ch, allocs)
          | None =>
              let '(ok, allocs) := take_alloc allocs in  (* strdup("fb") *)
              if ok then (ARES_SUCCESS, set_lookups (Some "fb"%string) ch,
                          allocs)
              else failed ch allocs
          end
      end
  end.

(** [ares__init_servers_state], [n] servers from slot [i]. *)
Fixpoint init_servers_from (n : nat) (i : nat) (ch : channel)
  (allocs : list bool) : outcome (ares_status_t * channel * list bool) :=
  match n with
  | O => Done (ARES_SUCCESS, ch, allocs)
  | S n =>
      list ← deref (servers ch);
      server ← deref (list !! i);
      let '(ok, allocs) := take_alloc allocs in      (* tcp_parser *)
      if negb ok then Done (ARES_ENOMEM, ch, allocs) else
      let '(ok, allocs) := take_alloc allocs in      (* tcp_send *)
      if negb ok then Done (ARES_ENOMEM, ch, allocs) else
      let '(ok, allocs) := take_alloc allocs in      (* connections *)
      let server := set_idx (Z.of_nat i) server in
      if negb ok
      then Done (ARES_ENOMEM,
                 set_servers (Some (<[i := server]> list)) (nservers ch) ch,
                 allocs)
      else
        let gen := size_wrap (tcp_connection_generation ch + 1) in
        let server := set_srv_tcp_connection_generation gen server in
        let ch := set_generation gen ch in
        let ch :=
          set_servers (Some (<[i := server]> list)) (nservers ch) ch in
        init_servers_from n (S i) ch allocs
  end.

Definition ares__init_servers_state (ch : channel) (allocs : list bool)
  : outcome (ares_status_t * channel * list bool) :=
  init_servers_from (Z.to_nat (nservers ch)) 0 ch allocs.

Section init_options.
(** The three higher-precedence sources: the caller's options (in
    [ares_options.c]), the environment and the platform's resolver
    configuration.  Each is an arbitrary step on the channel. *)
Variable ares__init_by_options : channel → ares_status_t * channel.
Variable init_by_environment : channel → ares_status_t * channel.
Variable init_by_resolv_conf : channel → ares_status_t * channel.

(** The stretch of [ares_init_options] from [ares__init_by_options]
    to [done:]. *)
Definition init_sources (ch : channel)
  (hostnames : list gethostname_result) (allocs : list bool)
  : outcome (ares_status_t * channel * list bool) :=
  let '(status, ch) := ares__init_by_options ch in
  if negb (bool_decide (status = ARES_SUCCESS))
  then Done (status, ch, allocs) else
  let '(status, ch) := init_by_environment ch in
  let '(status, ch) :=
    if bool_decide (status = ARES_SUCCESS) then init_by_resolv_conf ch
    else (status, ch) in
  (* No matter what failed or succeeded, seed defaults. *)
  let '(status, ch, allocs) := init_by_defaults ch hostnames allocs in
  (* Trim to one server if ARES_FLAG_PRIMARY is set. *)
  let ch :=
    if has_flag (flags ch) ARES_FLAG_PRIMARY && (1 <? nservers ch)
    then set_servers (servers ch) 1 ch else ch in
  ares__init_servers_state ch allocs.

(** [ares_init_options]: the status and, on success, the channel
    stored through [channelptr].  The six leading allocations are the
    channel, the random state and the four containers. *)
Definition ares_init_options (library_initialized : bool)
  (hostnames : list gethostname_result) (allocs : list bool)
  : outcome (ares_status_t * option channel) :=
  if negb library_initialized then Done (ARES_ENOTINITIALIZED, None) else
  let '(ok, allocs) := take_alloc allocs in        (* channel *)
  if negb ok then Done (ARES_ENOMEM, None) else
  let '(ok, allocs) := take_alloc allocs in        (* rand_state *)
  if negb ok then Done (ARES_ENOMEM, None) else
  let '(ok, allocs) := take_alloc allocs in        (* all_queries *)
  if negb ok then Done (ARES_ENOMEM, None) else
  let '(ok, allocs) := take_alloc allocs in        (* queries_by_qid *)
  if negb ok then Done (ARES_ENOMEM, None) else
  let '(ok, allocs) := take_alloc allocs in        (* queries_by_timeout *)
  if negb ok then Done (ARES_ENOMEM, None) else
  let '(ok, allocs) := take_alloc allocs in        (* connnode_by_socket *)
  if negb ok then Done (ARES_ENOMEM, None) else
  '(status, ch, _) ← init_sources zeroed hostnames allocs;
  if bool_decide (status = ARES_SUCCESS)
  then Done (ARES_SUCCESS, Some ch)
  else Done (status, None).
End init_options.

End Init.

(** ** Name-server strings ([ares_init.c]) *)

Module Nameserver.

(** A C string is the list of its characters before the terminator;
    [char_at] reads the terminator (or past it) as NUL. *)
Definition char_at (str : list ascii) (i : nat) : ascii := nth i str NUL.

Definition is_char (c d : ascii) : bool := bool_decide (c = d).

(** The text from the first character on which [skip] is false. *)
Fixpoint drop_while (skip : ascii → bool) (p : list ascii) : list ascii :=
  match p with
  | [] => []
  | c :: p' => if skip c then drop_while skip p' else p
  end.

(** [isspace], [isdigit], [isxdigit] in the C locale. *)
Definition ISSPACE (c : ascii) : bool :=
  (char_code c =? 32) || ((9 <=? char_code c) && (char_code c <=? 13)).

Definition isdigit (c : ascii) : bool :=
  (48 <=? char_code c) && (char_code c <=? 57).

Definition isxdigit (c : ascii) : bool :=
  isdigit c
  || ((65 <=? char_code c) && (char_code c <=? 70))
  || ((97 <=? char_code c) && (char_code c <=? 102)).

(** The C string held by a zeroed buffer after [memcpy]: the characters
    up to the first NUL. *)
Fixpoint c_str (s : list ascii) : list ascii :=
  match s with
  | [] => []
  | c :: s => if is_char c NUL then [] else c :: c_str s
  end.

(** [atoi] of the C library: white space, a sign, decimal digits. *)
Fixpoint atoi_digits (acc : Z) (s : list ascii) : Z :=
  match s with
  | [] => acc
  | c :: s =>
      if isdigit c then atoi_digits (acc * 10 + (char_code c - 48)) s
      else acc
  end.

Fixpoint atoi (s : list ascii) : Z :=
  match s with
  | [] => 0
  | c :: s' =>
      if ISSPACE c then atoi s'
      else if is_char c "-" then 0 - atoi_digits 0 s'
      else if is_char c "+" then atoi_digits 0 s'
      else atoi_digits 0 s
  end.

(** [memchr(str + from, c, n)], as an offset from [str]. *)
Fixpoint memchr (str : list ascii) (from n : nat) (c : ascii) : option nat :=
  match n with
  | O => None
  | S n =>
      if is_char (char_at str from) c then Some from
      else memchr str (S from) n c
  end.

(** [memcpy] of [n] characters from offset [from]. *)
Definition substring (str : list ascii) (from n : nat) : list ascii :=
  map (char_at str) (seq from n).

(** [ares_ipv6_subnet_matches]: the address matches the network base
    under a mask of [netmask] bits. *)
Definition ares_ipv6_subnet_matches (netbase : list Z) (netmask : Z)
  (ipaddr : list Z) : bool :=
  if 128 <? netmask then false else
  let whole := Z.to_nat (netmask / 8) in
  let mask := replicate whole 255 ++ replicate (16 - whole) 0 in
  let mask :=
    if negb (netmask mod 8 =? 0)
    then <[whole := u8 (Z.shiftl 255 (8 - netmask mod 8))]> mask
    else mask in
  forallb
    (λ i, Z.land (nth i netbase 0) (nth i mask 0)
          =? Z.land (nth i ipaddr 0) (nth i mask 0))
    (seq 0 16).

(** The blacklist of [ares_ipv6_server_blacklisted]: fec0::/10. *)
Definition blacklist : list (list Z * Z) :=
  [ ([254; 192; 0; 0; 0; 0; 0; 0; 0; 0; 0; 0; 0; 0; 0; 0], 10) ].

(** [ares_ipv6_server_blacklisted] *)
Definition ares_ipv6_server_blacklisted (ipaddr : list Z) : bool :=
  existsb (λ e, ares_ipv6_subnet_matches (fst e) (snd e) ipaddr) blacklist.

Definition INET6_ADDRSTRLEN : Z := 46.

(** What [parse_dnsaddrport] hands back: the host and port it stored, or
    the error. *)
Inductive parsed : Type :=
| Parsed (host : ares_addr) (port : Z)
| Rejected (status : ares_status_t).

Section parse.
(** [ares_inet_pton] for [AF_INET] and [AF_INET6]: the address bytes
    when it returns 1. *)
Variable ares_inet_pton4 : list ascii → option (list Z).
Variable ares_inet_pton6 : list ascii → option (list Z).

(** The tail of [parse_dnsaddrport], once the address lies between
    [addr_start] and [addr_end] and the port, if any, between
    [port_start] and [port_end] (offsets from [str]). *)
Definition parse_dnsaddrport_fields (str : list ascii)
  (addr_start addr_end : Z) (port : option (Z * Z)) : parsed :=
  let mylen := size_wrap (size_wrap (addr_end - addr_start) + 1) in
  if INET6_ADDRSTRLEN <? mylen + 1 then Rejected ARES_EBADSTR else
  let ipaddr :=
    c_str (substring str (Z.to_nat addr_start) (Z.to_nat mylen)) in
  let ipport :=
    match port with
    | Some (port_start, port_end) =>
        let mylen := size_wrap (size_wrap (port_end - port_start) + 1) in
        if 6 <? mylen + 1 then None
        else Some (c_str (substring str (Z.to_nat port_start)
                            (Z.to_nat mylen)))
    | None => Some ["0"%char]
    end in
  match ipport with
  | None => Rejected ARES_EBADSTR
  | Some ipport =>
      let host (fam : Z) (bytes : list Z) :=
        {| family := fam; addr_bytes := bytes;
           addr_udp_port := 0; addr_tcp_port := 0 |} in
      match ares_inet_pton4 ipaddr with
      | Some bytes => Parsed (host AF_INET bytes) (u16 (atoi ipport))
      | None =>
          match ares_inet_pton6 ipaddr with
          | Some bytes =>
              (* Silently skip blacklisted IPv6 servers. *)
              if negb (ares_ipv6_server_blacklisted bytes)
              then Parsed (host AF_INET6 bytes) (u16 (atoi ipport))
              else Rejected ARES_EBADSTR
          | None => Rejected ARES_EBADSTR
          end
      end
  end.

(** [parse_dnsaddrport]: [str] is the text from the start of the
    address on, [len] the length of the address token. *)
Definition parse_dnsaddrport (str : list ascii) (len : nat) : parsed :=
  let c := char_at str 0 in
  (* Must start with [, hex digit or : *)
  if (len =? 0)%nat
     || (negb (is_char c "[") && negb (isxdigit c) && negb (is_char c ":"))
  then Rejected ARES_EBADSTR
  else if is_char c "[" then
    (* If it starts with a bracket, must end with a bracket *)
    match memchr str 1 (len - 1) "]" with
    | None => Rejected ARES_EBADSTR
    | Some ptr =>
        let addr_end := Z.of_nat ptr - 1 in
        (* Try to pull off port *)
        if (ptr <? len)%nat then
          let ptr := S ptr in
          if negb (is_char (char_at str ptr) ":")
          then Rejected ARES_EBADSTR
          (* Missing port number *)
          else if (ptr =? len)%nat then Rejected ARES_EBADSTR
          else
            parse_dnsaddrport_fields str 1 addr_end
              (Some (Z.of_nat ptr + 1, Z.of_nat len - 1))
        else parse_dnsaddrport_fields str 1 addr_end None
    end
  else parse_dnsaddrport_fields str 0 (Z.of_nat len - 1) None.

Definition is_separator (c : ascii) : bool := ISSPACE c || is_char c ",".

(** The [for (p = str; p;)] loop of [config_nameserver], one address
    token per unit of fuel; [p] is the text still to scan. *)
Fixpoint config_nameserver_fuel (fuel : nat) (servers : list server_state)
  (nservers : Z) (p : list ascii) (allocs : list bool)
  : outcome (ares_status_t * list server_state * Z * list bool) :=
  (* Skip whitespace and commas. *)
  let p := drop_while is_separator p in
  match p with
  | [] => Done (ARES_SUCCESS, servers, nservers, allocs)
  | _ :: _ =>
      match fuel with
      | O => OutOfFuel
      | S fuel =>
          let txtaddr := p in
          (* Advance past this address. *)
          let p := drop_while (λ c, negb (is_separator c)) p in
          match parse_dnsaddrport txtaddr (length txtaddr - length p) with
          | Rejected _ =>
              config_nameserver_fuel fuel servers nservers p allocs
          | Parsed host port =>
              (* Resize servers state array. *)
              let '(ok, allocs) := Init.take_alloc allocs in
              if negb ok
              then Done (ARES_ENOMEM, servers, nservers, allocs)
              else
                let newserv :=
                  Init.zero_server
                    {| family := family host;
                       addr_bytes := addr_bytes host;
                       addr_udp_port := Init.htons port;
                       addr_tcp_port := Init.htons port |} in
                config_nameserver_fuel fuel
                  (take (Z.to_nat nservers) servers ++ [newserv])
                  (size_wrap (nservers + 1)) p allocs
          end
      end
  end.

(** [config_nameserver]: every token has at least one character, so
    the length of the text bounds the number of rounds. *)
Definition config_nameserver (servers : list server_state) (nservers : Z)
  (str : list ascii) (allocs : list bool)
  : outcome (ares_status_t * list server_state * Z * list bool) :=
  config_nameserver_fuel (length (c_str str)) servers nservers (c_str str)
    allocs.
End parse.

End Nameserver.

(** ** The resolver configuration ([ares_init.c]) *)

Module Config.

(** [strncmp(a, b, n) == 0] of the C library, on C strings: the first
    [n] characters agree, or all characters up to a common end. *)
Fixpoint strncmp_eq (a b : list ascii) (n : nat) {struct n} : bool :=
  match n with
  | O => true
  | S n =>
      match a, b with
      | [], [] => true
      | c :: a, d :: b => Nameserver.is_char c d && strncmp_eq a b n
      | _, _ => false
      end
  end.

(** [ares_strlen] *)
Definition ares_strlen (s : list ascii) : nat := length (Nameserver.c_str s).

Definition ULONG_MAX : Z := 2 ^ 64 - 1.

(** [strtoul(s, NULL, 10)] of the C library: white space, an optional
    sign, decimal digits.  A value out of range gives [ULONG_MAX]; a
    minus sign negates in [unsigned long]. *)
Definition strtoul (s : list ascii) : Z :=
  let s := Nameserver.drop_while Nameserver.ISSPACE s in
  let '(neg, digits) :=
    match s with
    | c :: s' =>
        if Nameserver.is_char c "-" then (true, s')
        else if Nameserver.is_char c "+" then (false, s')
        else (false, s)
    | [] => (false, s)
    end in
  let v := Nameserver.atoi_digits 0 digits in
  if ULONG_MAX <? v then ULONG_MAX
  else if neg then size_wrap (0 - v) else v.

(** [ARES_OPT_ROTATE] and [ARES_OPT_NOROTATE] of the public header. *)
Definition ARES_OPT_ROTATE : Z := 16384.    (* 1 << 14 *)
Definition ARES_OPT_NOROTATE : Z := 65536.  (* 1 << 16 *)

Definition PATTERN_MASK : Z := 1.
Definition PATTERN_CIDR : Z := 2.

(** [struct apattern]: each of the unions [addr] and [mask] as its bytes
    in memory, sixteen for the widest member.  A member is the bytes at
    the start of its union: four for an [addr4], all sixteen for an
    [addr6] and two for [bits]. *)
Record apattern : Type := Build_apattern {
  pat_addr : list Z;
  pat_mask : list Z;
  pat_family : Z;
  pat_type : Z
}.

(** [struct ares_channeldata], the fields the configuration readers
    fill in. *)
Record channel : Type := Build_channel {
  timeout : Z;
  tries : Z;
  ndots : Z;
  rotate : bool;
  optmask : Z;
  domains : option (list (list ascii));
  ndomains : Z;
  sortlist : option (list apattern);
  nsort : Z;
  lookups : option (list ascii);
  nservers : Z
}.

Definition set_timeout (v : Z) (x : channel) : channel :=
  {| timeout := v; tries := tries x; ndots := ndots x; rotate := rotate x;
     optmask := optmask x; domains := domains x; ndomains := ndomains x;
     sortlist := sortlist x; nsort := nsort x; lookups := lookups x;
     nservers := nservers x |}.

Definition set_tries (v : Z) (x : channel) : channel :=
  {| timeout := timeout x; tries := v; ndots := ndots x; rotate := rotate x;
     optmask := optmask x; domains := domains x; ndomains := ndomains x;
     sortlist := sortlist x; nsort := nsort x; lookups := lookups x;
     nservers := nservers x |}.

Definition set_ndots (v : Z) (x : channel) : channel :=
  {| timeout := timeout x; tries := tries x; ndots := v; rotate := rotate x;
     optmask := optmask x; domains := domains x; ndomains := ndomains x;
     sortlist := sortlist x; nsort := nsort x; lookups := lookups x;
     nservers := nservers x |}.

Definition set_rotate (v : bool) (x : channel) : channel :=
  {| timeout := timeout x; tries := tries x; ndots := ndots x; rotate := v;
     optmask := optmask x; domains := domains x; ndomains := ndomains x;
     sortlist := sortlist x; nsort := nsort x; lookups := lookups x;
     nservers := nservers x |}.

Definition set_domains (d : option (list (list ascii))) (n : Z) (x : channel)
  : channel :=
  {| timeout := timeout x; tries := tries x; ndots := ndots x;
     rotate := rotate x; optmask := optmask x; domains := d; ndomains := n;
     sortlist := sortlist x; nsort := nsort x; lookups := lookups x;
     nservers := nservers x |}.

Definition set_sortlist (s : option (list apattern)) (n : Z) (x : channel)
  : channel :=
  {| timeout := timeout x; tries := tries x; ndots := ndots x;
     rotate := rotate x; optmask := optmask x; domains := domains x;
     ndomains := ndomains x; sortlist := s; nsort := n;
     lookups := lookups x; nservers := nservers x |}.

Definition set_lookups (l : option (list ascii)) (x : channel) : channel :=
  {| timeout := timeout x; tries := tries x; ndots := ndots x;
     rotate := rotate x; optmask := optmask x; domains := domains x;
     ndomains := ndomains x; sortlist := sortlist x; nsort := nsort x;
     lookups := l; nservers := nservers x |}.

(** [try_option]: [p] is the text from the start of the word on, [wordlen]
    the length [q - p] of the word.  The result is the text after the
    option name, which runs on past the end of the word. *)
Definition try_option (p : list ascii) (wordlen : nat) (opt : list ascii)
  : option (list ascii) :=
  let len := ares_strlen opt in
  if (len <=? wordlen)%nat && strncmp_eq p opt len
  then Some (drop len p) else None.

(** The body of the loop of [set_options] for the word at [p]. *)
Definition set_option_word (ch : channel) (p : list ascii) (wordlen : nat)
  : channel :=
  let ch :=
    match try_option p wordlen (String.list_ascii_of_string "ndots:") with
    | Some val => if ndots ch =? 0 then set_ndots (strtoul val) ch else ch
    | None => ch
    end in
  let ch :=
    match try_option p wordlen (String.list_ascii_of_string "retrans:") with
    | Some val => if timeout ch =? 0 then set_timeout (strtoul val) ch else ch
    | None => ch
    end in
  let ch :=
    match try_option p wordlen (String.list_ascii_of_string "retry:") with
    | Some val => if tries ch =? 0 then set_tries (strtoul val) ch else ch
    | None => ch
    end in
  match try_option p wordlen (String.list_ascii_of_string "rotate") with
  | Some _ =>
      if negb (has_flag (optmask ch) (Z.lor ARES_OPT_ROTATE ARES_OPT_NOROTATE))
      then set_rotate true ch else ch
  | None => ch
  end.

(** The [while ( *p )] loop of [set_options], one word per unit of
    fuel. *)
Fixpoint set_options_fuel (fuel : nat) (ch : channel) (p : list ascii)
  : outcome (ares_status_t * channel) :=
  match p with
  | [] => Done (ARES_SUCCESS, ch)
  | _ :: _ =>
      match fuel with
      | O => OutOfFuel
      | S fuel =>
          let q := Nameserver.drop_while (λ c, negb (Nameserver.ISSPACE c)) p in
          let ch := set_option_word ch p (length p - length q) in
          let p := Nameserver.drop_while Nameserver.ISSPACE q in
          set_options_fuel fuel ch p
      end
  end.

(** [set_options]: every round consumes a character, so the length of
    the text bounds the number of rounds. *)
Definition set_options (ch : channel) (str : list ascii)
  : outcome (ares_status_t * channel) :=
  set_options_fuel (length (Nameserver.c_str str)) ch (Nameserver.c_str str).

(** The number of leading characters on which [stop] is false: where a
    [while ( *p && !stop( *p )) p++] loop halts. *)
Fixpoint skip_until (stop : ascii → bool) (s : list ascii) : nat :=
  match s with
  | [] => O
  | c :: s => if stop c then O else S (skip_until stop s)
  end.

(** The loop [while ((q >= s) && ISSPACE( *q )) q--] of [try_config],
    started at [q = s + n - 1]: the result is [q + 1 - s], the length
    left once the trailing white space is cut. *)
Fixpoint trim_end (s : list ascii) (n : nat) : nat :=
  match n with
  | O => O
  | S q => if Nameserver.ISSPACE (Nameserver.char_at s q) then trim_end s q
           else n
  end.

(** [try_config]: the value of option [opt] on the line [s], or [None]
    for [NULL].  A [NULL] line or option is [None]. *)
Definition try_config (s opt : option (list ascii)) (scc : ascii)
  : option (list ascii) :=
  match s, opt with
  | Some s, Some opt =>
      let s := Nameserver.c_str s in
      let opt := Nameserver.c_str opt in
      (* trim line comment *)
      let p :=
        if negb (Nameserver.is_char scc NUL)
        then skip_until
               (λ c, Nameserver.is_char c "#" || Nameserver.is_char c scc) s
        else skip_until (λ c, Nameserver.is_char c "#") s in
      let s := take p s in
      (* trim trailing whitespace *)
      let s := take (trim_end s p) s in
      (* skip leading whitespace *)
      let p := Nameserver.drop_while Nameserver.ISSPACE s in
      match p with
      | [] => None                                   (* empty line *)
      | _ :: _ =>
          let len := length opt in
          if (len =? 0)%nat then None                (* empty option *)
          else if negb (strncmp_eq p opt len) then None
          else
            (* skip over given option name *)
            let p := drop len p in
            match p with
            | [] => None                             (* no option value *)
            | c :: _ =>
                let last := Nameserver.char_at opt (len - 1) in
                if negb (Nameserver.is_char last ":")
                   && negb (Nameserver.is_char last "=")
                   && negb (Nameserver.ISSPACE c)
                then None
                else
                  (* skip over whitespace *)
                  match Nameserver.drop_while Nameserver.ISSPACE p with
                  | [] => None                       (* no option value *)
                  | v => Some v
                  end
            end
      end
  | _, _ => None
  end.

(** The [while ( *p )] loop of [config_lookup]: [l] is the text written
    to [lookups] so far. *)
Fixpoint config_lookup_loop (fuel : nat) (bindch altbindch filech : ascii)
  (p : list ascii) (l : list ascii) (found : bool)
  : outcome (list ascii * bool) :=
  match p with
  | [] => Done (l, found)
  | c :: _ =>
      match fuel with
      | O => OutOfFuel
      | S fuel =>
          let is_bind :=
            Nameserver.is_char c bindch || Nameserver.is_char c altbindch in
          let '(l, found) :=
            if (is_bind || Nameserver.is_char c filech)
               && (length l <? 2)%nat
            then (l ++ [if is_bind then "b"%char else "f"%char], true)
            else (l, found) in
          let p :=
            Nameserver.drop_while
              (λ c, negb (Nameserver.ISSPACE c)
                    && negb (Nameserver.is_char c ",")) p in
          let p :=
            Nameserver.drop_while
              (λ c, Nameserver.ISSPACE c || Nameserver.is_char c ",") p in
          config_lookup_loop fuel bindch altbindch filech p l found
      end
  end.

(** [config_lookup]: only the first letter of each word counts, [b] for
    DNS and [f] for the hosts file. *)
Definition config_lookup (ch : channel) (str : list ascii)
  (bindch : list ascii) (altbindch : option (list ascii))
  (filech : list ascii) (allocs : list bool)
  : outcome (ares_status_t * channel * list bool) :=
  let altbindch := default bindch altbindch in
  let str := Nameserver.c_str str in
  '(l, found) ← config_lookup_loop (length str)
                  (Nameserver.char_at bindch 0)
                  (Nameserver.char_at altbindch 0)
                  (Nameserver.char_at filech 0) str [] false;
  if negb found then Done (ARES_ENOTINITIALIZED, ch, allocs) else
  let '(ok, allocs) := Init.take_alloc allocs in     (* ares_strdup *)
  if ok then Done (ARES_SUCCESS, set_lookups (Some l) ch, allocs)
  else Done (ARES_ENOMEM, set_lookups None ch, allocs).

(** [ntohl] of the bytes of an [s_addr] in memory, and [htonl] back to
    them. *)
Definition ntohl (bytes : list Z) : Z :=
  nth 0 bytes 0 * 2 ^ 24 + nth 1 bytes 0 * 2 ^ 16 + nth 2 bytes 0 * 2 ^ 8
  + nth 3 bytes 0.

Definition htonl (x : Z) : list Z :=
  [ (x / 2 ^ 24) mod 256; (x / 2 ^ 16) mod 256; (x / 2 ^ 8) mod 256;
    x mod 256 ].

(** The class macros of [netinet/in.h]. *)
Definition IN_CLASSA (a : Z) : bool := Z.land a 2147483648 =? 0.
Definition IN_CLASSB (a : Z) : bool := Z.land a 3221225472 =? 2147483648.
Definition IN_CLASSA_NET : Z := 4278190080.   (* 0xff000000 *)
Definition IN_CLASSB_NET : Z := 4294901760.   (* 0xffff0000 *)
Definition IN_CLASSC_NET : Z := 4294967040.   (* 0xffffff00 *)

Definition set_pat_addr (a : list Z) (pat : apattern) : apattern :=
  {| pat_addr := a; pat_mask := pat_mask pat; pat_family := pat_family pat;
     pat_type := pat_type pat |}.

Definition set_pat_mask (m : list Z) (pat : apattern) : apattern :=
  {| pat_addr := pat_addr pat; pat_mask := m; pat_family := pat_family pat;
     pat_type := pat_type pat |}.

Definition set_pat_family (f : Z) (pat : apattern) : apattern :=
  {| pat_addr := pat_addr pat; pat_mask := pat_mask pat; pat_family := f;
     pat_type := pat_type pat |}.

Definition set_pat_type (t : Z) (pat : apattern) : apattern :=
  {| pat_addr := pat_addr pat; pat_mask := pat_mask pat;
     pat_family := pat_family pat; pat_type := t |}.

(** A store to the member of [n] bytes of a union: the bytes of the
    union after the member stay as they were. *)
Definition store_member (n : nat) (bytes union : list Z) : list Z :=
  take n bytes ++ drop n union.

(** A call that is given the member of [n] bytes of a union as [dst]:
    the number it returns and the union afterwards. *)
Definition on_member (n : nat) (call : list Z → Z * list Z)
  (union : list Z) : Z * list Z :=
  let '(r, bytes) := call (take n union) in (r, store_member n bytes union).

(** An [unsigned short] as its two bytes in memory and back, on the
    little-endian host of [Init.htons]. *)
Definition ushort_bytes (x : Z) : list Z := [x mod 256; (x / 256) mod 256].

Definition ushort_of (bytes : list Z) : Z :=
  nth 0 bytes 0 + 256 * nth 1 bytes 0.

(** [natural_mask]: reads [addrV4] and stores [mask.addr4]. *)
Definition natural_mask (pat : apattern) : apattern :=
  let addr := ntohl (pat_addr pat) in
  let store (net : Z) :=
    set_pat_mask (store_member 4 (htonl net) (pat_mask pat)) pat in
  if IN_CLASSA addr then store IN_CLASSA_NET
  else if IN_CLASSB addr then store IN_CLASSB_NET
  else store IN_CLASSC_NET.

(** [sortlist_alloc]: [None] stands for the [NULL] list. *)
Definition sortlist_alloc (sortlist : option (list apattern)) (nsort : Z)
  (pat : apattern) (allocs : list bool)
  : bool * option (list apattern) * Z * list bool :=
  let '(ok, allocs) := Init.take_alloc allocs in     (* ares_realloc *)
  if negb ok then (false, sortlist, nsort, allocs)
  else (true,
        Some (take (Z.to_nat nsort) (default [] sortlist) ++ [pat]),
        size_wrap (nsort + 1), allocs).

(** [memcpy(buf, src, len); buf[len] = 0] into [char buf[size]]: a write
    past the end of the buffer is undefined. *)
Definition store_text (size : nat) (text : list ascii)
  : outcome (list ascii) :=
  if (size <=? length text)%nat then Undefined else Done text.

(** Where [while ( *q && *q != ';' && !ISSPACE( *q )) q++] halts. *)
Definition item_end (s : list ascii) : nat :=
  skip_until (λ c, Nameserver.is_char c ";" || Nameserver.ISSPACE c) s.

Section sortlist.
(** [ares_inet_pton(AF_INET, src, dst)] and [ares_inet_net_pton] for
    each family, which these files call and do not define: from the text
    and the bytes at [dst], the number returned and the bytes at [dst]
    afterwards.  A call that fails may have written to [dst] too. *)
Variable ares_inet_pton4 : list ascii → list Z → Z * list Z.
Variable ares_inet_net_pton4 : list ascii → list Z → Z * list Z.
Variable ares_inet_net_pton6 : list ascii → list Z → Z * list Z.

(** [ip_addr]: 0 or -1, and the four bytes at [addr] afterwards. *)
Definition ip_addr (ipbuf : list ascii) (len : Z) (addr : list Z)
  : Z * list Z :=
  (* Four octets and three periods yields at most 15 characters. *)
  if 15 <? len then (-1, addr) else
  let '(r, addr) := ares_inet_pton4 ipbuf addr in
  if r <? 1 then (-1, addr) else (0, addr).

(** The mask of a plain IPv4 entry: the text after the slash when it
    reads as an address, else the natural mask.  [text] is the text from
    [str] on and [len] is [q - str]. *)
Definition sortlist_mask (pat : apattern) (has_pfx : bool)
  (text : list ascii) (len : nat) : outcome (ares_status_t + apattern) :=
  if has_pfx then
    if (17 - 1 <=? len)%nat then Done (inl ARES_EBADSTR) else
    ipbuf ← store_text 17 (take len text);
    let '(r, mask) :=
      on_member 4 (ip_addr ipbuf (Z.of_nat len)) (pat_mask pat) in
    let pat := set_pat_mask mask pat in
    if negb (r =? 0) then Done (inr (natural_mask pat))
    else Done (inr pat)
  else Done (inr (natural_mask pat)).

(** One round of the loop of [config_sortlist] on the text [str]: the
    status when the round fails, else the pattern buffer, the list and
    the text left after it.  Every call of a parser writes to the member
    of [pat] it is given; [sortlist_alloc] copies the whole of [pat]. *)
Definition config_sortlist_item (pat : apattern)
  (sortlist : option (list apattern)) (nsort : Z) (str : list ascii)
  (allocs : list bool)
  : outcome (ares_status_t * list bool
             + apattern * option (list apattern) * Z * list ascii
               * list bool) :=
  let add (pat : apattern) (rest : list ascii) :=
    let '(ok, sortlist, nsort, allocs) :=
      sortlist_alloc sortlist nsort pat allocs in
    if ok then inr (pat, sortlist, nsort, rest, allocs)
    else inl (ARES_ENOMEM, allocs) in
  let next (rest : list ascii) :=
    Nameserver.drop_while Nameserver.ISSPACE rest in
  (* Find just the IP *)
  let len :=
    skip_until (λ c, Nameserver.is_char c "/" || Nameserver.is_char c ";"
                     || Nameserver.ISSPACE c) str in
  if (17 - 1 <=? len)%nat then Done (inl (ARES_EBADSTR, allocs)) else
  ipbuf ← store_text 17 (take len str);
  (* Find the prefix *)
  let slash := Nameserver.is_char (Nameserver.char_at str len) "/" in
  let q := if slash then (len + item_end (drop len str))%nat else len in
  if slash && (32 <=? q)%nat then Done (inl (ARES_EBADSTR, allocs)) else
  ipbufpfx ← (if slash then store_text 32 (take q str) else Done []);
  (* str = str2 *)
  let start := if slash then S len else O in
  let has_pfx := negb (Nameserver.is_char (Nameserver.char_at ipbufpfx 0) NUL) in
  (* Lets see if it is CIDR; first we'll try IPv6 *)
  let '(bits6, addr) :=
    on_member 16 (ares_inet_net_pton6 (if has_pfx then ipbufpfx else ipbuf))
      (pat_addr pat) in
  let pat := set_pat_addr addr pat in
  if 0 <? bits6 then
    let pat := set_pat_type PATTERN_CIDR pat in
    let pat :=
      set_pat_mask (store_member 2 (ushort_bytes (u16 bits6)) (pat_mask pat))
        pat in
    let pat := set_pat_family AF_INET6 pat in
    Done (add pat (next (drop q str)))
  else
  let '(bits4, addr) :=
    if has_pfx
    then on_member 4 (ares_inet_net_pton4 ipbufpfx) (pat_addr pat)
    else (0, pat_addr pat) in
  let pat := set_pat_addr addr pat in
  if has_pfx && (0 <? bits4) then
    let pat := set_pat_type PATTERN_CIDR pat in
    let pat :=
      set_pat_mask (store_member 2 (ushort_bytes (u16 bits4)) (pat_mask pat))
        pat in
    let pat := set_pat_family AF_INET pat in
    Done (add pat (next (drop q str)))
  else
    (* See if it is just a regular IP *)
    let '(r, addr) :=
      on_member 4 (ip_addr ipbuf (Z.of_nat (q - start))) (pat_addr pat) in
    let pat := set_pat_addr addr pat in
    if r =? 0 then
      r ← sortlist_mask pat has_pfx (drop start str) (q - start);
      match r with
      | inl status => Done (inl (status, allocs))
      | inr pat =>
          Done (add (set_pat_type PATTERN_MASK (set_pat_family AF_INET pat))
                  (next (drop q str)))
      end
    else
      let q := (q + item_end (drop q str))%nat in
      Done (inr (pat, sortlist, nsort, next (drop q str), allocs)).

(** The [while ( *str && *str != ';')] loop of [config_sortlist], one
    entry per unit of fuel.  A failed round frees the list. *)
Fixpoint config_sortlist_fuel (fuel : nat) (pat : apattern)
  (sortlist : option (list apattern)) (nsort : Z) (str : list ascii)
  (allocs : list bool)
  : outcome (ares_status_t * option (list apattern) * Z * list bool) :=
  match str with
  | [] => Done (ARES_SUCCESS, sortlist, nsort, allocs)
  | c :: _ =>
      if Nameserver.is_char c ";"
      then Done (ARES_SUCCESS, sortlist, nsort, allocs)
      else
        match fuel with
        | O => OutOfFuel
        | S fuel =>
            r ← config_sortlist_item pat sortlist nsort str allocs;
            match r with
            | inl (status, allocs) => Done (status, None, nsort, allocs)
            | inr (pat, sortlist, nsort, str, allocs) =>
                config_sortlist_fuel fuel pat sortlist nsort str allocs
            end
        end
  end.

(** [config_sortlist]: [pat] stands for the contents of the pattern
    buffer on entry, which the function does not initialise.  Every
    round consumes a character. *)
Definition config_sortlist (pat : apattern) (str : list ascii)
  (allocs : list bool)
  : outcome (ares_status_t * option (list apattern) * Z * list bool) :=
  config_sortlist_fuel (length (Nameserver.c_str str)) pat None 0
    (Nameserver.c_str str) allocs.

(** [ares_set_sortlist]: a [NULL] channel is [None]. *)
Definition ares_set_sortlist (pat : apattern) (ch : option channel)
  (sortstr : list ascii) (allocs : list bool)
  : outcome (ares_status_t * option channel * list bool) :=
  match ch with
  | None => Done (ARES_ENODATA, None, allocs)
  | Some ch =>
      '(status, sortlist, nsort, allocs) ←
        config_sortlist pat sortstr allocs;
      if bool_decide (status = ARES_SUCCESS) && bool_decide (is_Some sortlist)
      then Done (status, Some (set_sortlist sortlist nsort ch), allocs)
      else Done (status, Some ch, allocs)
  end.
End sortlist.

End Config.

(** * Vocabulary of the properties *)

(** ** Frames of the dispatcher's steps *)

(** The fields no function of the dispatcher writes. *)
Definition same_config (ch ch' : ares_channel) : Prop :=
  timeout ch' = timeout ch ∧ tries ch' = tries ch
  ∧ nservers ch' = nservers ch ∧ udp_max_queries ch' = udp_max_queries ch
  ∧ ednspsz ch' = ednspsz ch ∧ flags ch' = flags ch
  ∧ idx <$> servers ch' = idx <$> servers ch.

(** Skip flags are only ever set. *)
Definition skip_mono (l l' : list query_server_info) : Prop :=
  ∀ i info, l !! i = Some info →
    ∃ info', l' !! i = Some info'
      ∧ (si_skip_server info = true → si_skip_server info' = true).

(** The query is as before but for its per-server state. *)
Definition query_kept (q q' : query) : Prop :=
  ∃ infos, q' = set_server_info infos q ∧ skip_mono (server_info q) infos.

(** Connection [c] is gone for good and the list [l] belongs to no live
    connection. *)
Definition detached (ch : ares_channel) (c l : nat) : Prop :=
  conns ch !! c = None ∧ (c < next_conn ch)%nat ∧ (l < next_conn ch)%nat
  ∧ ∀ c' cn, conns ch !! c' = Some cn → queries_to_conn cn ≠ Some l.

(** What every step before the final one of [ares__send_query] keeps. *)
Record prestep (qr : nat) (ch ch' : ares_channel) : Prop := Build_prestep {
  pre_config : same_config ch ch';
  pre_others : ∀ r, r ≠ qr → queries ch' !! r = queries ch !! r;
  pre_query : ∀ q, queries ch !! qr = Some q →
              ∃ q', queries ch' !! qr = Some q' ∧ query_kept q q';
  pre_callbacks : callbacks (env ch') = callbacks (env ch);
  pre_conns : ∀ c, is_Some (conns ch !! c) → is_Some (conns ch' !! c);
  pre_detached : ∀ c l, detached ch c l →
                 detached ch' c l ∧ llists ch' !! l = llists ch !! l
}.

(** ** The shape of [ares__send_query]

    Whatever [next_server] is, [ares__send_query] takes some steps that
    keep the frame and then is stuck, or hands the query to
    [next_server], or ends it with an error, or enqueues it. *)
Abbreviation next_fn :=
  (ares_channel → nat → timeval → outcome (ares_status_t * ares_channel)).

Inductive send_shape (qr : nat) (now : timeval) (ch : ares_channel)
  (run : next_fn → outcome (ares_status_t * ares_channel)) : Prop :=
| shape_stuck (o : outcome (ares_status_t * ares_channel)) :
    (∀ r, o ≠ Done r) → (o ≠ OutOfFuel) → (∀ next, run next = o) →
    send_shape qr now ch run
| shape_next (ch1 : ares_channel) :
    prestep qr ch ch1 → (∀ next, run next = next ch1 qr now) →
    send_shape qr now ch run
| shape_end (ch1 : ares_channel) (st st' : ares_status_t) :
    prestep qr ch ch1 → st ≠ ARES_SUCCESS → st' ≠ ARES_SUCCESS →
    (∀ next, run next = (ch2 ← end_query ch1 qr st None 0; Done (st', ch2))) →
    send_shape qr now ch run
| shape_enqueue (ch1 : ares_channel) (conn : nat) :
    prestep qr ch ch1 →
    (∀ next, run next = send_query_enqueue ch1 qr now conn) →
    send_shape qr now ch run.

(** ** Where [ares__send_query] and [next_server] leave the query *)

(** What moving a query on keeps of it. *)
Record query_moved (q q' : query) : Prop := Build_query_moved {
  moved_arg : arg q' = arg q;
  moved_error : error_status q' = error_status q;
  moved_node : node_queries_to_conn q' = node_queries_to_conn q;
  moved_skip : skip_mono (server_info q) (server_info q');
  moved_count : 0 ≤ try_count q → 0 ≤ try_count q'
}.

(** What of a query is the same once it has been sent again. *)
Record query_resent (q q' : query) : Prop := Build_query_resent {
  resent_arg : arg q' = arg q;
  resent_error : error_status q' = error_status q;
  resent_skip : skip_mono (server_info q) (server_info q');
  resent_count : 0 ≤ try_count q → 0 ≤ try_count q'
}.

(** The frame of a step on the way: everything [prestep] says but for
    the query itself. *)
Record frame (qr : nat) (ch ch' : ares_channel) : Prop := Build_frame {
  frame_config : same_config ch ch';
  frame_others : ∀ r, r ≠ qr → queries ch' !! r = queries ch !! r;
  frame_callbacks : callbacks (env ch') = callbacks (env ch);
  frame_conns : ∀ c, is_Some (conns ch !! c) → is_Some (conns ch' !! c);
  frame_detached : ∀ c l, detached ch c l →
                   detached ch' c l ∧ llists ch' !! l = llists ch !! l
}.

(** The query has been ended: it is gone from the store and its callback
    has been called once, with no answer. *)
Definition query_ended (qr : nat) (q : query) (ch : ares_channel)
  (st : ares_status_t) (ch' : ares_channel) : Prop :=
  queries ch' !! qr = None
  ∧ ∃ ev, callbacks (env ch') = callbacks (env ch) ++ [ev]
      ∧ cb_query ev = qr ∧ cb_arg ev = arg q ∧ cb_abuf ev = None
      ∧ (error_status q ≠ ARES_SUCCESS →
         cb_status ev ≠ ARES_SUCCESS ∧ st ≠ ARES_SUCCESS).

(** The query has been sent: it waits on a live connection until its new
    deadline and no callback has been called. *)
Definition query_sent (qr : nat) (now : timeval) (q : query)
  (ch : ares_channel) (st : ares_status_t) (ch' : ares_channel) : Prop :=
  st = ARES_SUCCESS ∧ callbacks (env ch') = callbacks (env ch)
  ∧ ∃ q' conn, queries ch' !! qr = Some q' ∧ q_conn q' = Some conn
      ∧ is_Some (conns ch' !! conn) ∧ query_resent q q'
      ∧ q_timeout q'
        = timeadd now (timeplus_for (timeout ch) (try_count q') (nservers ch)).

Record finished (qr : nat) (now : timeval) (q : query) (ch : ares_channel)
  (st : ares_status_t) (ch' : ares_channel) : Prop := Build_finished {
  fin_config : same_config ch ch';
  fin_others : ∀ r, r ≠ qr → queries ch' !! r = queries ch !! r;
  fin_conns : ∀ c, is_Some (conns ch !! c) → is_Some (conns ch' !! c);
  fin_detached : ∀ c l, detached ch c l →
    detached ch' c l
    ∧ llists ch' !! l
      = if decide (node_queries_to_conn q = Some l)
        then remove_node qr <$> llists ch !! l else llists ch !! l;
  fin_query : query_ended qr q ch st ch' ∨ query_sent qr now q ch st ch'
}.

(** ** Fuel *)

(** The rounds [next_server] can still make: the distance of the
    incremented [try_count] from [nservers * tries]. *)
Definition rounds_left (ch : ares_channel) (qr : nat) : nat :=
  match queries ch !! qr with
  | Some q =>
      Z.to_nat (size_wrap (nservers ch * tries ch)
                - size_wrap (try_count q + 1))
  | None => 0
  end.

(** ** next_server against its description *)

(** The query after [k] rounds of the loop. *)
Definition advance (n : Z) (k : nat) (q : query) : query :=
  set_q_server ((q_server q + Z.of_nat k) mod n)
    (set_try_count (try_count q + Z.of_nat k) q).

(** Whether the [k]-th server after the current one is an acceptable
    candidate: not skipped and, over TCP, not the connection the query
    was already sent on. *)
Definition usable_at (ch : ares_channel) (q : query) (k : nat) : bool :=
  let i := Z.to_nat ((q_server q + Z.of_nat k) mod nservers ch) in
  match servers ch !! i, server_info q !! i with
  | Some server, Some info => server_usable q info server
  | _, _ => false
  end.

(** The candidates left are those reached before [try_count] gets to
    [nservers * tries]; the first acceptable one is chosen. *)
Definition first_usable (ch : ares_channel) (q : query) : option nat :=
  List.find (usable_at ch q)
    (seq 1 (Z.to_nat (nservers ch * tries ch - try_count q - 1))).

(** [next_server] as the design document describes it. *)
Definition next_server_described (ch : ares_channel) (qr : nat)
  (now : timeval) : outcome (ares_status_t * ares_channel) :=
  q ← get_query ch qr;
  match first_usable ch q with
  | Some k =>
      ares__send_query (upd_query qr (advance (nservers ch) k) ch) qr now
  | None =>
      ch ← end_query ch qr (error_status q) None 0;
      Done (error_status q, ch)
  end.

(** The state [next_server] is called in: the counters are in the range
    of [size_t] without wrapping and the server tables cover the
    configured servers. *)
Record retry_ready (ch : ares_channel) (q : query) : Prop := Build_retry_ready {
  ready_nservers : 0 < nservers ch < 2 ^ 64;
  ready_tries : 0 ≤ tries ch ∧ nservers ch * tries ch < 2 ^ 64;
  ready_count : 0 ≤ try_count q < 2 ^ 64 - 1;
  ready_server : 0 ≤ q_server q < nservers ch;
  ready_servers : nservers ch ≤ Z.of_nat (length (servers ch));
  ready_info : nservers ch ≤ Z.of_nat (length (server_info q))
}.

(** ** Channels fit for dispatch *)

(** The tables the dispatcher indexes cover what it looks up: the server
    table has [n] servers, each at its index; every query points at a
    server and has a slot for each; the connections linked in a server
    are live. *)
Record dispatch_fit (n : Z) (srvs : list server_state)
  (qs : gmap nat query) (cs : gmap nat server_connection) : Prop :=
  Build_dispatch_fit {
  fit_nservers : 0 < n ∧ n = Z.of_nat (length srvs);
  fit_idx : ∀ i srv, srvs !! i = Some srv → idx srv = Z.of_nat i;
  fit_queries : ∀ qr q, qs !! qr = Some q →
                0 ≤ q_server q < n ∧ n ≤ Z.of_nat (length (server_info q));
  fit_conns : ∀ i srv c, srvs !! i = Some srv →
              c ∈ connections srv ∨ tcp_conn srv = Some c → is_Some (cs !! c)
}.

Definition dispatch_ready (ch : ares_channel) : Prop :=
  dispatch_fit (nservers ch) (servers ch) (queries ch) (conns ch).

(** A step of the dispatcher is safe when it is not undefined and leaves
    the channel fit for the next one. *)
Definition safe (o : outcome (ares_status_t * ares_channel)) : Prop :=
  match o with
  | Done (_, ch') => dispatch_ready ch'
  | Undefined => False
  | OutOfFuel => True
  end.

(** What [next_server] has to be for [ares__send_query] to be safe. *)
Definition safe_next (qr : nat) (now : timeval) (next : next_fn) : Prop :=
  ∀ ch, dispatch_ready ch → is_Some (queries ch !! qr) →
        safe (next ch qr now).

(** ** A channel to run the dispatcher on *)

Definition example_server (i : Z) : server_state :=
  {| idx := i;
     addr := {| family := AF_INET; addr_bytes := [192; 0; 2; i + 1];
                addr_udp_port := 0; addr_tcp_port := 0 |};
     connections := []; tcp_conn := None; tcp_parser := []; tcp_send := [];
     srv_tcp_connection_generation := i + 1 |}.

(** The request for [example.com. A IN] with id 0x1234 and an OPT RR that
    advertises 1280 bytes, behind its two length bytes. *)
Definition example_request : list Z :=
  [0; 40;
   18; 52; 1; 0; 0; 1; 0; 0; 0; 0; 0; 1;
   7; 101; 120; 97; 109; 112; 108; 101; 3; 99; 111; 109; 0; 0; 1; 0; 1;
   0; 0; 41; 5; 0; 0; 0; 0; 0; 0; 0].

Definition example_query (retries_off : bool) : query :=
  {| qid := 4660; q_timeout := {| tv_sec := 0; tv_usec := 0 |};
     node_queries_by_timeout := false; node_queries_to_conn := None;
     node_all_queries := true; q_conn := None;
     tcpbuf := example_request; tcplen := 42; qlen := 40; arg := 7;
     try_count := 0; q_server := 0;
     server_info :=
       [ {| si_skip_server := false; si_tcp_connection_generation := 0 |};
         {| si_skip_server := false; si_tcp_connection_generation := 0 |} ];
     using_tcp := false; error_status := ARES_ECONNREFUSED; timeouts := 0;
     no_retries := retries_off |}.

Definition quiet_world : world :=
  {| callbacks := []; sock_state := []; sent := []; io_open := [];
     io_write := []; io_alloc := [] |}.

(** Two servers, three tries, the given timeout, one query. *)
Definition example_channel_with (chtimeout chflags : Z) (q : query)
  : ares_channel :=
  {| flags := chflags; timeout := chtimeout; tries := 3; ednspsz := 1280;
     udp_max_queries := 0;
     servers := [example_server 0; example_server 1]; nservers := 2;
     tcp_connection_generation := 2;
     all_queries := [0%nat]; queries_by_qid := {[ 4660 := 0%nat ]};
     queries_by_timeout := []; connnode_by_socket := ∅;
     queries := {[ 0%nat := q ]};
     conns := ∅; llists := ∅; next_conn := 0; env := quiet_world |}.

(** A timeout of one second and the query before its first send. *)
Definition example_channel (chflags : Z) (retries_off : bool) : ares_channel :=
  example_channel_with 1000 chflags (example_query retries_off).

Definition time0 : timeval := {| tv_sec := 100; tv_usec := 0 |}.

(** The channel a computation leaves, or the given one when it is not
    [Done]. *)
Definition channel_after {A : Type} (ch : ares_channel)
  (o : outcome (A * ares_channel)) : ares_channel :=
  match o with
  | Done (_, ch') => ch'
  | _ => ch
  end.

(** ** handle_error *)

(** The connection [conn] of the channel holds the queries [qs] in its
    list [l], each linked there and carrying an error status; the list
    belongs to this connection alone and the connection is linked once in
    its server, whose index is [sid]. *)
Record error_ready (ch : ares_channel) (conn : nat) (c : server_connection)
  (l : nat) (qs : list nat) (sid : Z) : Prop := Build_error_ready {
  er_conn : conns ch !! conn = Some c;
  er_list : queries_to_conn c = Some l;
  er_queries : llists ch !! l = Some qs;
  er_nodup : NoDup qs;
  er_nodes : ∀ qr, qr ∈ qs →
             ∃ q, queries ch !! qr = Some q
               ∧ node_queries_to_conn q = Some l
               ∧ error_status q ≠ ARES_SUCCESS;
  er_fresh : (conn < next_conn ch)%nat ∧ (l < next_conn ch)%nat;
  er_owner : ∀ c' cn, conns ch !! c' = Some cn →
             queries_to_conn cn = Some l → c' = conn;
  er_server : ∃ srv, servers ch !! conn_server c = Some srv
                ∧ idx srv = sid ∧ NoDup (connections srv)
}.

(** Where [handle_error] leaves a query of the failed connection: sent
    again on another, live connection, with the failed server flagged
    when there are several servers; or ended, its callback called with an
    error and no answer. *)
Definition requeued (ch ch' : ares_channel) (evs : list callback_event)
  (conn : nat) (sid : Z) (qr : nat) : Prop :=
  (∃ q' c', queries ch' !! qr = Some q' ∧ q_conn q' = Some c' ∧ c' ≠ conn
     ∧ is_Some (conns ch' !! c')
     ∧ (1 < nservers ch →
        ∃ info, server_info q' !! Z.to_nat sid = Some info
          ∧ si_skip_server info = true))
  ∨ (queries ch' !! qr = None
     ∧ ∃ ev, ev ∈ evs ∧ cb_query ev = qr ∧ cb_abuf ev = None
         ∧ cb_status ev ≠ ARES_SUCCESS).

(** ** Channels fit for requeueing *)

(** What [handle_error] needs besides [error_ready] to run to its end:
    the channel is fit for dispatch but for the failed connection, which
    is linked in its own server only; and the queries that wait on it
    point at that server, as the [assert] of the loop demands. *)
Record requeue_ready (ch : ares_channel) (conn : nat)
  (c : server_connection) (qs : list nat) (sid : Z) : Prop :=
  Build_requeue_ready {
  rr_nservers : 0 < nservers ch
                ∧ nservers ch = Z.of_nat (length (servers ch));
  rr_idx : ∀ i srv, servers ch !! i = Some srv → idx srv = Z.of_nat i;
  rr_queries : ∀ qr q, queries ch !! qr = Some q →
               0 ≤ q_server q < nservers ch
               ∧ nservers ch ≤ Z.of_nat (length (server_info q));
  rr_conns : ∀ i srv c', servers ch !! i = Some srv →
             c' ∈ connections srv ∨ tcp_conn srv = Some c' → c' ≠ conn →
             is_Some (conns ch !! c');
  rr_own : ∀ i srv, servers ch !! i = Some srv →
           conn ∈ connections srv ∨ tcp_conn srv = Some conn →
           i = conn_server c;
  rr_tcp : ∀ srv, servers ch !! conn_server c = Some srv →
           tcp_conn srv = Some conn → is_tcp c = true;
  rr_server : ∀ qr q, qr ∈ qs → queries ch !! qr = Some q → q_server q = sid
}.

(** ** Answers *)

(** A C string in lower case, up to its terminator. *)
Fixpoint lower (s : string) : string :=
  match s with
  | EmptyString => EmptyString
  | String c s =>
      if decide (c = NUL) then EmptyString else String (tolower c) (lower s)
  end.

(** Two questions agree: both have a name, the names are equal up to
    case, and type and class are identical. *)
Definition same_question (a b : dns_question) : Prop :=
  ∃ an bn, qd_name a = Some an ∧ qd_name b = Some bn
    ∧ lower an = lower bn
    ∧ qd_type a = qd_type b ∧ qd_class a = qd_class b.

(** The question section of the answer equals that of the request. *)
Definition questions_agree (qrec arec : ares_dns_record_t) : Prop :=
  Forall2 same_question (dns_questions qrec) (dns_questions arec).

(** The source address of a datagram differs from the address of the
    server: another family, or other address bytes. *)
Definition address_differs (sa : sockaddr) (aa : ares_addr) : Prop :=
  sa_family sa ≠ family aa
  ∨ (family aa = AF_INET ∧ take 4 (addr_bytes aa) ≠ take 4 (sa_addr sa))
  ∨ (family aa = AF_INET6 ∧ take 16 (addr_bytes aa) ≠ take 16 (sa_addr sa)).

(** The answer is for the request of the query: the request parses and
    the question sections agree. *)
Definition answers_question
  (ares_dns_parse : list Z → option ares_dns_record_t) (q : query)
  (arec : ares_dns_record_t) : Prop :=
  ∃ qrec, ares_dns_parse (qbuf q) = Some qrec ∧ questions_agree qrec arec.

(** The response is one of those [process_answer] drops. *)
Definition dropped_answer
  (ares_dns_parse : list Z → option ares_dns_record_t)
  (ch : ares_channel) (abuf : list Z) : Prop :=
  ares_dns_parse abuf = None
  ∨ (∃ arec, ares_dns_parse abuf = Some arec
       ∧ queries_by_qid ch !! dns_id arec = None)
  ∨ (∃ arec qr q, ares_dns_parse abuf = Some arec
       ∧ queries_by_qid ch !! dns_id arec = Some qr
       ∧ queries ch !! qr = Some q
       ∧ ¬ answers_question ares_dns_parse q arec).

(** The response passes the checks of [process_answer]: it parses, a
    live query is registered under its id, and it answers the question
    of that query. *)
Definition valid_answer
  (ares_dns_parse : list Z → option ares_dns_record_t)
  (ch : ares_channel) (abuf : list Z)
  (arec : ares_dns_record_t) (qr : nat) (q : query) : Prop :=
  ares_dns_parse abuf = Some arec
  ∧ queries_by_qid ch !! dns_id arec = Some qr
  ∧ queries ch !! qr = Some q
  ∧ answers_question ares_dns_parse q arec.

(** ** A reader of DNS messages for the examples

    The properties above hold for every parser.  To run the dispatcher on
    real packets the examples use this reader of RFC 1035 messages: the
    header, the questions (names without compression) and the types of
    the records of the additional section. *)

Definition be16 (hi lo : Z) : Z := hi * 256 + lo.

(** A name: its labels joined by dots, and the bytes after it.  A
    compression pointer ends the name. *)
Fixpoint wire_name (fuel : nat) (buf : list Z) : option (string * list Z) :=
  match fuel with
  | O => None
  | S fuel =>
      match buf with
      | [] => None
      | len :: rest =>
          if len =? 0 then Some (EmptyString, rest)
          else if 192 <=? len then
            match rest with
            | [] => None
            | _ :: rest => Some (EmptyString, rest)
            end
          else
            let n := Z.to_nat len in
            if (length rest <? n)%nat then None else
            let label :=
              String.string_of_list_ascii
                (map (λ b, ascii_of_N (Z.to_N b)) (take n rest)) in
            match wire_name fuel (drop n rest) with
            | None => None
            | Some (tail, rest) =>
                Some (match tail with
                      | EmptyString => label
                      | _ => String.append label (String "." tail)
                      end, rest)
            end
      end
  end.

Fixpoint wire_questions (n : nat) (buf : list Z)
  : option (list dns_question * list Z) :=
  match n with
  | O => Some ([], buf)
  | S n =>
      match wire_name (length buf) buf with
      | Some (name, t1 :: t2 :: c1 :: c2 :: rest) =>
          match wire_questions n rest with
          | Some (qs, rest) =>
              Some ({| qd_name := Some name; qd_type := be16 t1 t2;
                       qd_class := be16 c1 c2 |} :: qs, rest)
          | None => None
          end
      | _ => None
      end
  end.

(** The types of [n] resource records. *)
Fixpoint wire_records (n : nat) (buf : list Z) : option (list Z * list Z) :=
  match n with
  | O => Some ([], buf)
  | S n =>
      match wire_name (length buf) buf with
      | Some (_, t1 :: t2 :: _ :: _ :: _ :: _ :: _ :: _ :: l1 :: l2 :: rest) =>
          let rdlen := Z.to_nat (be16 l1 l2) in
          if (length rest <? rdlen)%nat then None else
          match wire_records n (drop rdlen rest) with
          | Some (types, rest) => Some (be16 t1 t2 :: types, rest)
          | None => None
          end
      | _ => None
      end
  end.

Definition wire_parse (buf : list Z) : option ares_dns_record_t :=
  match buf with
  | i1 :: i2 :: f1 :: f2 :: q1 :: q2 :: a1 :: a2 :: n1 :: n2 :: r1 :: r2
    :: body =>
      match wire_questions (Z.to_nat (be16 q1 q2)) body with
      | None => None
      | Some (qs, body) =>
          match wire_records (Z.to_nat (be16 a1 a2 + be16 n1 n2)) body with
          | None => None
          | Some (_, body) =>
              match wire_records (Z.to_nat (be16 r1 r2)) body with
              | None => None
              | Some (additional, _) =>
                  Some {| dns_id := be16 i1 i2;
                          dns_flags :=
                            (* QR AA TC RD of the first flag byte, RA AD CD
                               of the second, as ARES_FLAG_* bits *)
                            (f1 / 128) mod 2 + 2 * ((f1 / 4) mod 2)
                            + 4 * ((f1 / 2) mod 2) + 8 * (f1 mod 2)
                            + 16 * ((f2 / 128) mod 2)
                            + 32 * ((f2 / 32) mod 2)
                            + 64 * ((f2 / 16) mod 2);
                          dns_rcode := f2 mod 16;
                          dns_questions := qs;
                          dns_additional := additional |}
              end
          end
      end
  | _ => None
  end.

(** A response to [example_request]: the header with QR and RD set and
    the flag byte and response code given, and the question. *)
Definition example_response (tc : bool) (rcode : Z) : list Z :=
  [18; 52; (if tc then 131 else 129); 128 + rcode; 0; 1; 0; 0; 0; 0; 0; 0;
   7; 69; 88; 65; 77; 80; 76; 69; 3; 99; 111; 109; 0; 0; 1; 0; 1].

(** ** Truncated answers *)

(** The answer is larger than the channel takes, or says it was cut. *)
Definition truncated (ch : ares_channel) (arec : ares_dns_record_t)
  (alen : Z) : bool :=
  has_flag (dns_flags arec) ARES_FLAG_TC
  || ((if has_flag (flags ch) ARES_FLAG_EDNS then ednspsz ch else PACKETSZ)
      <? alen).

(** The condition of the EDNS branch, which comes first in
    [process_answer]. *)
Definition edns_refused (ch : ares_channel) (arec : ares_dns_record_t)
  : bool :=
  has_flag (flags ch) ARES_FLAG_EDNS
  && (dns_rcode arec =? ARES_RCODE_FORMAT_ERROR) && negb (has_opt_rr arec).

(** The channel once the answered query is off the list of its
    connection. *)
Definition answered (ch : ares_channel) (qr : nat) (q : query)
  : ares_channel :=
  upd_query qr (set_node_queries_to_conn None)
    (ares__llist_node_destroy (node_queries_to_conn q) qr ch).

(** The truncation branch as the specification words it: switch the
    query to TCP and send it again, whatever it was using. *)
Definition truncation_upgrade_described (ch : ares_channel) (qr : nat)
  (q : query) (s : Z) (now : timeval) : outcome ares_channel :=
  '(_, ch1) ← ares__send_query
                (upd_query qr (set_using_tcp true) (answered ch qr q)) qr now;
  ares__check_cleanup_conn ch1 s.

(** ** Runs of the dispatcher *)

(** The example channel after the first send of its query. *)
Definition sent_channel (chflags : Z) : ares_channel :=
  channel_after (example_channel chflags false)
    (ares__send_query (example_channel chflags false) 0 time0).

(** The UDP connection that send opened, and the query as it waits on
    it. *)
Definition example_connection : server_connection :=
  {| conn_server := 0; fd := 0; is_tcp := false; total_queries := 1;
     queries_to_conn := Some 0%nat |}.

Definition sent_query : query :=
  set_q_conn (Some 0%nat)
    (set_node_queries_to_conn (Some 0%nat)
       (set_node_queries_by_timeout true
          (set_q_timeout {| tv_sec := 101; tv_usec := 0 |}
             (example_query false)))).

(** The channel a step leaves, or the given one when it is not [Done]. *)
Definition channel_of (ch : ares_channel) (o : outcome ares_channel)
  : ares_channel :=
  match o with
  | Done ch' => ch'
  | _ => ch
  end.

(** The channel once a truncated answer has moved the query to TCP. *)
Definition tcp_channel : ares_channel :=
  channel_of (sent_channel 0)
    (process_answer wire_parse (sent_channel 0) (example_response true 0)
       0 false time0).

(** The example channel with a timeout of [2 ^ 30] ms and its query on
    the second pass through the two servers. *)
Definition slow_channel : ares_channel :=
  example_channel_with (2 ^ 30) 0 (set_try_count 2 (example_query false)).

(** [timeplus] as the words on overflow read: the timeout is shifted when
    the bits shifted out of a word of [width] bits are all zero. *)
Definition timeplus_described (width timeout shift : Z) : Z :=
  if Z.shiftr timeout (width - shift) =? 0
  then Z.shiftl timeout shift
  else timeout.

(** ** Readers of addresses for the examples

    The properties of the server strings hold for every [ares_inet_pton].
    The examples run on a reader of dotted quads and on a table of two
    IPv6 literals. *)

Fixpoint dotted_quad (acc : option Z) (parts : list Z) (s : list ascii)
  : option (list Z) :=
  match s with
  | [] =>
      match acc with
      | Some n => if (length parts =? 3)%nat then Some (parts ++ [n]) else None
      | None => None
      end
  | c :: s =>
      if Nameserver.isdigit c then
        let n := default 0 acc * 10 + (char_code c - 48) in
        if 255 <? n then None else dotted_quad (Some n) parts s
      else if Nameserver.is_char c "." then
        match acc with
        | Some n => dotted_quad None (parts ++ [n]) s
        | None => None
        end
      else None
  end.

Definition example_pton4 (s : list ascii) : option (list Z) :=
  dotted_quad None [] s.

Definition example_pton6 (s : list ascii) : option (list Z) :=
  if decide (s = String.list_ascii_of_string "fec0::1")
  then Some [254; 192; 0; 0; 0; 0; 0; 0; 0; 0; 0; 0; 0; 0; 0; 1]
  else if decide (s = String.list_ascii_of_string "2001:db8::1")
  then Some [32; 1; 13; 184; 0; 0; 0; 0; 0; 0; 0; 0; 0; 0; 0; 1]
  else None.

Definition example_parse (s : string) : Nameserver.parsed :=
  Nameserver.parse_dnsaddrport example_pton4 example_pton6
    (String.list_ascii_of_string s) (String.length s).

Definition example_host (fam : Z) (bytes : list Z) : ares_addr :=
  {| family := fam; addr_bytes := bytes; addr_udp_port := 0;
     addr_tcp_port := 0 |}.

(** ** Server strings, token by token *)

(** The tokens of a text in the words of the design document: the
    maximal runs of characters that are neither white space nor commas,
    in order, each with the text that follows it.  [token] holds the
    characters of the token read so far. *)
Fixpoint tokens_of (token s : list ascii) : list (list ascii * list ascii) :=
  match s with
  | [] => match token with [] => [] | _ :: _ => [(token, [])] end
  | c :: s' =>
      if Nameserver.is_separator c
      then match token with
           | [] => tokens_of [] s'
           | _ :: _ => (token, s) :: tokens_of [] s'
           end
      else tokens_of (token ++ [c]) s'
  end.

(** The server a token stands for, if [parse_dnsaddrport] reads the
    token as a server address: zeroed but for the address and the port,
    in network byte order, as UDP and TCP port. *)
Definition token_server (pton4 pton6 : list ascii → option (list Z))
  (t : list ascii * list ascii) : option server_state :=
  match Nameserver.parse_dnsaddrport pton4 pton6 (t.1 ++ t.2) (length t.1)
  with
  | Nameserver.Parsed host port =>
      Some (Init.zero_server
              {| family := family host; addr_bytes := addr_bytes host;
                 addr_udp_port := Init.htons port;
                 addr_tcp_port := Init.htons port |})
  | Nameserver.Rejected _ => None
  end.

(** The servers of the tokens of a text that are read as server
    addresses, in the order of the text; the other tokens leave
    nothing. *)
Definition accepted_servers (pton4 pton6 : list ascii → option (list Z))
  (str : list ascii) : list server_state :=
  omap (token_server pton4 pton6) (tokens_of [] (Nameserver.c_str str)).

(** ** Deadlines and their order *)

(** A time whose microseconds are below one second, as [timeadd] leaves
    them. *)
Definition normalised (t : timeval) : Prop := 0 ≤ tv_usec t < 1000000.

(** [a] is strictly before [b]: seconds first, then microseconds. *)
Definition earlier (a b : timeval) : Prop :=
  tv_sec a < tv_sec b ∨ (tv_sec a = tv_sec b ∧ tv_usec a < tv_usec b).

(** ** Ending and detaching *)

(** The node handles of a live query record its memberships: the lists
    hold a query at most once, and a query is only in a list it keeps a
    node of. *)
Record query_linked (ch : ares_channel) (qr : nat) (q : query) : Prop :=
  Build_query_linked {
  linked_timeout : NoDup (queries_by_timeout ch)
                   ∧ (qr ∈ queries_by_timeout ch →
                      node_queries_by_timeout q = true);
  linked_all : NoDup (all_queries ch)
               ∧ (qr ∈ all_queries ch → node_all_queries q = true);
  linked_conn : ∀ l qs, llists ch !! l = Some qs →
                NoDup qs ∧ (qr ∈ qs → node_queries_to_conn q = Some l)
}.

(** A detached query: its three node handles are [NULL]. *)
Definition unlinked (q : query) : query :=
  set_node_all_queries false
    (set_node_queries_to_conn None (set_node_queries_by_timeout false q)).

(** The channel once [ares_detach_query] has unlinked the query. *)
Definition detach_done (ch : ares_channel) (qr : nat) (q : query)
  : ares_channel :=
  upd_query qr unlinked
    (ares__llist_node_destroy_all (node_all_queries q) qr
       (ares__llist_node_destroy (node_queries_to_conn q) qr
          (ares__slist_node_destroy (node_queries_by_timeout q) qr
             (set_queries_by_qid (delete (qid q) (queries_by_qid ch)) ch)))).

(** ** What a send leaves, and which answers reach the callback *)

(** Every registered socket belongs to a live connection that still has
    its list of queries. *)
Definition sockets_ready (ch : ares_channel) : Prop :=
  ∀ s cn, connnode_by_socket ch !! s = Some cn →
    ∃ c l, conns ch !! cn = Some c ∧ queries_to_conn c = Some l
      ∧ is_Some (llists ch !! l).

(** The condition of the truncation branch of [process_answer]. *)
Definition truncation_branch (ch : ares_channel) (arec : ares_dns_record_t)
  (alen : Z) (tcp : bool) : bool :=
  truncated ch arec alen && negb tcp
  && negb (has_flag (flags ch) ARES_FLAG_IGNTC).

(** The condition of the response-code branch. *)
Definition rcode_filtered (ch : ares_channel) (arec : ares_dns_record_t)
  : bool :=
  negb (has_flag (flags ch) ARES_FLAG_NOCHECKRESP)
  && ((dns_rcode arec =? ARES_RCODE_SERVER_FAILURE)
      || (dns_rcode arec =? ARES_RCODE_NOT_IMPLEMENTED)
      || (dns_rcode arec =? ARES_RCODE_REFUSED)).

(** The error a filtered response code is recorded as. *)
Definition rcode_status (rcode : Z) : ares_status_t :=
  if rcode =? ARES_RCODE_SERVER_FAILURE then ARES_ESERVFAIL
  else if rcode =? ARES_RCODE_NOT_IMPLEMENTED then ARES_ENOTIMP
  else ARES_EREFUSED.

(** ** IPv6 prefixes *)

(** Bit [k] of an address in network order, counted from the most
    significant bit of the first byte. *)
Definition addr_bit (a : list Z) (k : Z) : bool :=
  Z.testbit (nth (Z.to_nat (k / 8)) a 0) (7 - k mod 8).

(** The mask [ares_ipv6_subnet_matches] builds for a prefix length. *)
Definition subnet_mask (netmask : Z) : list Z :=
  let whole := Z.to_nat (netmask / 8) in
  let mask := replicate whole 255 ++ replicate (16 - whole) 0 in
  if negb (netmask mod 8 =? 0)
  then <[whole := u8 (Z.shiftl 255 (8 - netmask mod 8))]> mask
  else mask.

(** The bits of the mask, checked for every prefix length, byte and
    bit. *)
Definition subnet_mask_checked : bool :=
  forallb
    (λ n, forallb
            (λ i, let m := nth i (subnet_mask (Z.of_nat n)) 0 in
                  (0 <=? m) && (m <? 256)
                  && forallb
                       (λ j, bool_decide
                               (Z.testbit m (Z.of_nat j)
                                = (8 * Z.of_nat i + 7 - Z.of_nat j
                                   <? Z.of_nat n)))
                       (seq 0 8))
            (seq 0 16))
    (seq 0 129).

(** ** Server strings that are accepted *)

(** What [parse_dnsaddrport] makes of an address text and a port once
    they are cut out of the string: the IPv4 reading first, then the
    IPv6 reading unless it is blacklisted. *)
Definition address_of (pton4 pton6 : list ascii → option (list Z))
  (ip : list ascii) (port : Z) : Nameserver.parsed :=
  match pton4 ip with
  | Some bytes => Nameserver.Parsed (example_host AF_INET bytes) port
  | None =>
      match pton6 ip with
      | Some bytes =>
          if Nameserver.ares_ipv6_server_blacklisted bytes
          then Nameserver.Rejected ARES_EBADSTR
          else Nameserver.Parsed (example_host AF_INET6 bytes) port
      | None => Nameserver.Rejected ARES_EBADSTR
      end
  end.

(** ** Options of the resolver *)

(** The three options of [set_options] that carry a number. *)
Inductive scalar_option : Type := Opt_ndots | Opt_retrans | Opt_retry.

Definition option_name (o : scalar_option) : list ascii :=
  String.list_ascii_of_string
    match o with
    | Opt_ndots => "ndots:"
    | Opt_retrans => "retrans:"
    | Opt_retry => "retry:"
    end.

Definition option_field (o : scalar_option) (ch : Config.channel) : Z :=
  match o with
  | Opt_ndots => Config.ndots ch
  | Opt_retrans => Config.timeout ch
  | Opt_retry => Config.tries ch
  end.

(** What [set_options] leaves of a channel: a number that is set and a
    rotation decided by the caller are kept, rotation is only ever
    turned on, and nothing else is written. *)
Record options_kept (ch ch' : Config.channel) : Prop := Build_options_kept {
  kept_scalar : ∀ o, option_field o ch ≠ 0 →
                option_field o ch' = option_field o ch;
  kept_rotate : has_flag (Config.optmask ch)
                  (Z.lor Config.ARES_OPT_ROTATE Config.ARES_OPT_NOROTATE)
                = true → Config.rotate ch' = Config.rotate ch;
  kept_rotating : Config.rotate ch = true → Config.rotate ch' = true;
  kept_rest : Config.optmask ch' = Config.optmask ch
              ∧ Config.domains ch' = Config.domains ch
              ∧ Config.ndomains ch' = Config.ndomains ch
              ∧ Config.sortlist ch' = Config.sortlist ch
              ∧ Config.nsort ch' = Config.nsort ch
              ∧ Config.lookups ch' = Config.lookups ch
              ∧ Config.nservers ch' = Config.nservers ch
}.

(** ** Configuration lines *)

(** The comment characters of [try_config]: [#], and [scc] when it is
    not NUL. *)
Definition comment_char (scc c : ascii) : bool :=
  Nameserver.is_char c "#"
  || (negb (Nameserver.is_char scc NUL) && Nameserver.is_char c scc).

Definition white (l : list ascii) : Prop :=
  Forall (λ c, Nameserver.ISSPACE c = true) l.

(** A configuration line that holds the value [v] of the option [opt]:
    white space, the option name, white space (which may be missing
    after a name that ends with [:] or [=]), the value, white space and
    then the end of the line or a comment. *)
Definition config_line (scc : ascii) (line opt v : list ascii) : Prop :=
  ∃ ws sep ws2 tail,
    line = ws ++ opt ++ sep ++ v ++ ws2 ++ tail
    ∧ white ws ∧ white sep ∧ white ws2
    ∧ (tail = [] ∨ comment_char scc (Nameserver.char_at tail 0) = true)
    ∧ Forall (λ c, comment_char scc c = false)
        (ws ++ opt ++ sep ++ v ++ ws2)
    ∧ opt ≠ [] ∧ Nameserver.ISSPACE (Nameserver.char_at opt 0) = false
    ∧ v ≠ [] ∧ Nameserver.ISSPACE (Nameserver.char_at v 0) = false
    ∧ Nameserver.ISSPACE (Nameserver.char_at v (length v - 1)) = false
    ∧ (sep ≠ []
       ∨ Nameserver.char_at opt (length opt - 1) = ":"%char
       ∨ Nameserver.char_at opt (length opt - 1) = "="%char).

(** ** The lookup order *)

(** The letters of a lookup order. *)
Definition lookup_letters (l : list ascii) : Prop :=
  (1 ≤ length l ≤ 2)%nat ∧ Forall (λ c, c = "b"%char ∨ c = "f"%char) l.

(** ** The sort list *)

(** An entry of the sort list as its [type] reads it: a network with its
    count of bits in [mask.bits], or an IPv4 address with a mask. *)
Definition pattern_ok (e : Config.apattern) : Prop :=
  (Config.pat_type e = Config.PATTERN_CIDR
   ∧ 0 ≤ Config.ushort_of (Config.pat_mask e) < 65536
   ∧ (Config.pat_family e = AF_INET ∨ Config.pat_family e = AF_INET6))
  ∨ (Config.pat_type e = Config.PATTERN_MASK
     ∧ Config.pat_family e = AF_INET).

(** What a round of [config_sortlist] leaves: the list as it was, or one
    more entry at its end. *)
Definition sortlist_step (sl : option (list Config.apattern)) (n : Z)
  (sl' : option (list Config.apattern)) (n' : Z)
  (allocs allocs' : list bool) : Prop :=
  (sl' = sl ∧ n' = n ∧ allocs' = allocs)
  ∨ (∃ e, pattern_ok e
      ∧ sl' = Some (take (Z.to_nat n) (default [] sl) ++ [e])
      ∧ n' = size_wrap (n + 1)
      ∧ Init.take_alloc allocs = (true, allocs')).

(** The list and its count as [config_sortlist] keeps them: the count is
    the length, and the list is [NULL] when it has no entry. *)
Definition sortlist_inv (sl : option (list Config.apattern)) (n : Z)
  : Prop :=
  n = Z.of_nat (length (default [] sl))
  ∧ Forall pattern_ok (default [] sl)
  ∧ sl ≠ Some [].

(** The results of [config_sortlist] on a text of [len] characters. *)
Definition sortlist_result (len : nat) (allocs : list bool)
  (st : ares_status_t) (sl : option (list Config.apattern)) (n : Z)
  : Prop :=
  (st = ARES_SUCCESS ∧ sortlist_inv sl n ∧ n ≤ Z.of_nat len)
  ∨ (st = ARES_EBADSTR ∧ sl = None)
  ∨ (st = ARES_ENOMEM ∧ sl = None ∧ false ∈ allocs).

(** The bytes of the members of an entry that its [family] and its
    [type] select. *)
Definition pattern_addr (e : Config.apattern) : list Z :=
  take (if Config.pat_family e =? AF_INET6 then 16%nat else 4%nat)
    (Config.pat_addr e).

Definition pattern_mask (e : Config.apattern) : list Z :=
  take (if Config.pat_type e =? Config.PATTERN_CIDR then 2%nat else 4%nat)
    (Config.pat_mask e).

(** Entries that read the same: the bytes of the unions that the
    selected members do not cover may differ. *)
Definition same_entry (e e' : Config.apattern) : Prop :=
  Config.pat_type e = Config.pat_type e'
  ∧ Config.pat_family e = Config.pat_family e'
  ∧ pattern_addr e = pattern_addr e'
  ∧ pattern_mask e = pattern_mask e'.

(** Lists that read the same, entry by entry. *)
Definition same_sortlist (sl sl' : option (list Config.apattern)) : Prop :=
  option_Forall2 (Forall2 same_entry) sl sl'.

(** Rounds of the loop of [config_sortlist] that end the same, with
    lists that read the same. *)
Definition same_round
  (r r' : outcome (ares_status_t * list bool
                   + Config.apattern * option (list Config.apattern) * Z
                     * list ascii * list bool)) : Prop :=
  match r, r' with
  | Done (inl a), Done (inl b) => a = b
  | Done (inr (_, sl, n, s, a)), Done (inr (_, sl', n', s', a')) =>
      same_sortlist sl sl' ∧ n = n' ∧ s = s' ∧ a = a'
  | Undefined, Undefined | OutOfFuel, OutOfFuel => True
  | _, _ => False
  end.

(** A parser that pays no attention to what [dst] holds: the number it
    returns is the same for every [dst], and from [least] on it has
    stored [n] bytes, the same for every [dst]. *)
Definition ignores_dst (n : nat) (least : Z)
  (parse : list ascii → list Z → Z * list Z) : Prop :=
  ∀ s d d',
    (parse s d).1 = (parse s d').1
    ∧ (least ≤ (parse s d).1 →
       length (parse s d).2 = n ∧ (parse s d).2 = (parse s d').2).

(** The reader of dotted quads as [ares_inet_pton(AF_INET, ...)], and
    parsers of networks that know one network each.  The parser of IPv4
    networks has cleared [dst] when it fails. *)
Definition example_inet_pton4 (s : list ascii) (dst : list Z)
  : Z * list Z :=
  match example_pton4 s with
  | Some bytes => (1, bytes)
  | None => (0, dst)
  end.

Definition example_net_pton4 (s : list ascii) (dst : list Z)
  : Z * list Z :=
  if decide (s = String.list_ascii_of_string "10.0.0.0/8")
  then (8, [10; 0; 0; 0])
  else (-1, repeat 0 (length dst)).

Definition example_net_pton6 (s : list ascii) (dst : list Z)
  : Z * list Z :=
  if decide (s = String.list_ascii_of_string "fe80::/10")
  then (10, [254; 128; 0; 0; 0; 0; 0; 0; 0; 0; 0; 0; 0; 0; 0; 0])
  else (-1, dst).

Definition example_config : Config.channel :=
  {| Config.timeout := 0; Config.tries := 0; Config.ndots := 0;
     Config.rotate := false; Config.optmask := 0;
     Config.domains := None; Config.ndomains := 0;
     Config.sortlist := None; Config.nsort := 0;
     Config.lookups := None; Config.nservers := 0 |}.

(** Two states of the pattern buffer on entry. *)
Definition example_pattern : Config.apattern :=
  {| Config.pat_addr := repeat 0 16; Config.pat_mask := repeat 0 16;
     Config.pat_family := 0; Config.pat_type := 0 |}.

Definition example_pattern' : Config.apattern :=
  {| Config.pat_addr := repeat 170 16; Config.pat_mask := repeat 85 16;
     Config.pat_family := 7; Config.pat_type := 9 |}.

(** What a round of the loop returns. *)
Definition item_result (sl : option (list Config.apattern)) (n : Z)
  (str : list ascii) (allocs : list bool)
  (r : ares_status_t * list bool
       + Config.apattern * option (list Config.apattern) * Z * list ascii
         * list bool) : Prop :=
  match r with
  | inl (st, allocs') =>
      (st = ARES_EBADSTR ∧ allocs' = allocs)
      ∨ (st = ARES_ENOMEM ∧ head allocs = Some false
         ∧ allocs' = tail allocs)
  | inr (_, sl', n', str', allocs') =>
      (length str' < length str)%nat
      ∧ sortlist_step sl n sl' n' allocs allocs'
  end.

(** ** Natural masks *)

(** The class tests of [natural_mask] on every first octet. *)
Definition class_checked : bool :=
  forallb (λ a, Bool.eqb (Z.land a 128 * 2 ^ 24 =? 0) (a <? 128)
                && Bool.eqb (Z.land a 192 * 2 ^ 24 =? 128 * 2 ^ 24)
                     ((128 <=? a) && (a <? 192)))
    (map Z.of_nat (seq 0 256)).

(** ** The socket list and the timeouts *)

(** The sockets of a list of connections, in order, without
    [ARES_SOCKET_BAD]. *)
Definition conn_sockets (ch : ares_channel) (nodes : list nat) : list Z :=
  flat_map (λ cn, match conns ch !! cn with
                  | Some c => if fd c =? ARES_SOCKET_BAD then [] else [fd c]
                  | None => []
                  end) nodes.

(** The open sockets of a channel, server by server. *)
Definition open_sockets (ch : ares_channel) : list Z :=
  flat_map (λ srv, conn_sockets ch (connections srv)) (servers ch).

(** The queries of [queries_by_timeout] are in the order of their
    deadlines. *)
Definition timeouts_sorted (ch : ares_channel) : Prop :=
  ∀ i j qi qj a b,
    (i ≤ j)%nat →
    queries_by_timeout ch !! i = Some qi →
    queries_by_timeout ch !! j = Some qj →
    queries ch !! qi = Some a → queries ch !! qj = Some b →
    ares_query_timeout_cmp_cb (q_timeout a) (q_timeout b) ≤ 0.

(** The query as [process_timeouts] marks it. *)
Definition timed_out (q : query) : query :=
  set_timeouts (size_wrap (timeouts q + 1))
    (set_error_status ARES_ETIMEOUT q).

(** No try is left for the query: [next_server] ends it. *)
Definition tries_exhausted (ch : ares_channel) (q : query) : bool :=
  negb ((size_wrap (try_count q + 1) <? size_wrap (nservers ch * tries ch))
        && negb (no_retries q)).

(** The channel with one query sent, once all tries of the query are
    used up. *)
Definition exhausted_channel : ares_channel :=
  upd_query 0 (set_try_count 5) (sent_channel 0).

(** ** A pass over the timeouts *)

(** The bound of [next_server] on [try_count]. *)
Definition tries_limit (ch : ares_channel) : Z :=
  size_wrap (nservers ch * tries ch).

(** The passes [process_timeouts] can still make over a query: one to
    end it and one for each try it has left. *)
Definition passes_left (limit : Z) (q : query) : nat :=
  if (0 <=? try_count q) && (try_count q <? limit)
  then Z.to_nat (limit - try_count q)
  else S (Z.to_nat limit).

Definition passes_left_all (limit : Z) (qs : gmap nat query) : nat :=
  sum_list (passes_left limit <$> (map_to_list qs).*2).

(** The query has been tried once more and tries are left. *)
Definition tried_again (ch : ares_channel) (q q' : query) : Prop :=
  size_wrap (try_count q + 1) < tries_limit ch
  ∧ size_wrap (try_count q + 1) ≤ try_count q' < tries_limit ch.

(** What a pass over the timeouts may report: errors, without answers,
    for queries of the channel. *)
Definition timeout_report (ch : ares_channel) (ev : callback_event) : Prop :=
  cb_abuf ev = None ∧ cb_status ev ≠ ARES_SUCCESS
  ∧ is_Some (queries ch !! cb_query ev).

(** * Properties *)

(** ** Reasoning about outcomes *)

Lemma bind_Done {A B : Type} (m : outcome A) (f : A → outcome B) (r : B) :
  m ≫= f = Done r → ∃ a, m = Done a ∧ f a = Done r.
Proof. destruct m; simpl; intros H; try discriminate. eauto. Qed.

Lemma deref_Done {A : Type} (o : option A) (a : A) :
  deref o = Done a ↔ o = Some a.
Proof. destruct o; simpl; split; intros H; congruence. Qed.

Lemma time_t_of_small (x : Z) : 0 ≤ x < 2 ^ 63 → time_t_of x = x.
Proof.
  intros Hx. unfold time_t_of.
  destruct (x <? 2 ^ 63) eqn:E; [done|]. apply Z.ltb_ge in E. lia.
Qed.

Lemma usecs_timeadd (now : timeval) (ms : Z) :
  0 ≤ ms < 2 ^ 63 → usecs (timeadd now ms) = usecs now + 1000 * ms.
Proof.
  intros Hms. unfold timeadd, usecs.
  pose proof (Z.div_mod ms 1000 ltac:(lia)).
  pose proof (Z.mod_pos_bound ms 1000 ltac:(lia)).
  rewrite (time_t_of_small ms) by done.
  rewrite (time_t_of_small (ms mod 1000 * 1000)) by lia.
  rewrite Z.quot_div_nonneg by lia.
  destruct (1000000 <=? _); simpl; lia.
Qed.

Lemma timeplus_for_spec (timeout try_count nservers : Z) :
  0 ≤ timeout → 0 ≤ try_count → 0 < nservers →
  timeplus_for timeout try_count nservers
  = if timeout * 2 ^ (try_count / nservers) <? 2 ^ 31
    then timeout * 2 ^ (try_count / nservers) else timeout.
Proof.
  intros Ht Hc Hn. unfold timeplus_for, INT_BITS, size_wrap.
  assert (Hs : 0 ≤ try_count / nservers) by (apply Z.div_pos; lia).
  set (shift := try_count / nservers) in *.
  destruct (shift <=? 32 - 1) eqn:Hle; simpl.
  - apply Z.leb_le in Hle.
    rewrite Z.shiftr_div_pow2 by lia. rewrite Z.shiftl_mul_pow2 by lia.
    assert (Hp : 2 ^ 31 = 2 ^ (32 - 1 - shift) * 2 ^ shift).
    { rewrite <- Z.pow_add_r by lia. f_equal. lia. }
    assert (0 < 2 ^ shift) by (apply Z.pow_pos_nonneg; lia).
    assert (0 < 2 ^ (32 - 1 - shift)) by (apply Z.pow_pos_nonneg; lia).
    destruct (timeout / 2 ^ (32 - 1 - shift) =? 0) eqn:Hz.
    + apply Z.eqb_eq in Hz. apply Z.div_small_iff in Hz; [|lia].
      destruct Hz as [Hz|Hz]; [|lia].
      assert (timeout * 2 ^ shift < 2 ^ 31) by (rewrite Hp; nia).
      destruct (timeout * 2 ^ shift <? 2 ^ 31) eqn:E; [|apply Z.ltb_ge in E; lia].
      apply Z.mod_small. split; [nia|]. 
      assert (2 ^ 31 < 2 ^ 64) by (apply Z.pow_lt_mono_r; lia). lia.
    + apply Z.eqb_neq in Hz.
      assert (2 ^ (32 - 1 - shift) ≤ timeout).
      { destruct (Z_lt_le_dec timeout (2 ^ (32 - 1 - shift))); [|done].
        exfalso. apply Hz. apply Z.div_small. lia. }
      destruct (timeout * 2 ^ shift <? 2 ^ 31) eqn:E; [|done].
      apply Z.ltb_lt in E. rewrite Hp in E. nia.
  - apply Z.leb_gt in Hle.
    destruct (timeout * 2 ^ shift <? 2 ^ 31) eqn:E; [|done].
    apply Z.ltb_lt in E.
    assert (2 ^ 31 < 2 ^ shift) by (apply Z.pow_lt_mono_r; lia).
    assert (timeout = 0) as -> by nia. lia.
Qed.

(** ** skip_server *)

(** C7. [skip_server] sets the query's skip flag for the server exactly
    when the channel has more than one server: with several servers the
    flag of that server is true afterwards and the other entries are as
    before; with a single server the channel is left as it was, so the
    flag is never set and the query may retry the same server. *)
Theorem skip_server_iff_several_servers (ch : ares_channel) (qr : nat)
  (server : server_state) (q : query) (info : query_server_info) :
  queries ch !! qr = Some q →
  server_info q !! Z.to_nat (idx server) = Some info →
  ∃ ch', skip_server ch qr server = Done ch'
    ∧ (1 < nservers ch →
       ∃ q', queries ch' !! qr = Some q'
         ∧ server_info q' !! Z.to_nat (idx server)
           = Some {| si_skip_server := true;
                     si_tcp_connection_generation :=
                       si_tcp_connection_generation info |}
         ∧ (∀ j, j ≠ Z.to_nat (idx server) →
                 server_info q' !! j = server_info q !! j))
    ∧ (nservers ch ≤ 1 → ch' = ch).
Proof.
  intros Hq Hinfo. unfold skip_server.
  destruct (1 <? nservers ch) eqn:Hn.
  - apply Z.ltb_lt in Hn. unfold get_query. rewrite Hq. simpl. rewrite Hinfo. simpl.
    eexists. split; [reflexivity|]. split; [|lia].
    intros _. unfold upd_query. simpl. rewrite lookup_alter_eq, Hq. simpl.
    eexists. split; [reflexivity|]. simpl. split.
    + rewrite list_lookup_alter_eq, Hinfo. reflexivity.
    + intros j Hj. by rewrite list_lookup_alter_ne.
  - apply Z.ltb_ge in Hn. eexists. split; [reflexivity|]. split; [lia|done].
Qed.

(** ** Frames: each step keeps what it does not write *)

(** Decompose a hypothesis saying that a computation is [Done]. *)
Ltac inv_done H :=
  repeat first
    [ discriminate H
    | match type of H with
      | Done _ = Done _ => injection H as H
      | mbind _ _ = Done _ =>
          let a := fresh "a" in
          let E := fresh "E" in
          apply bind_Done in H as (a & E & H)
      | deref _ = Done _ => apply deref_Done in H
      | (let '(_, _) := ?p in _) = Done _ =>
          let E := fresh "E" in destruct p eqn:E
      | (if ?b then _ else _) = Done _ =>
          let E := fresh "E" in destruct b eqn:E
      | (match ?x with _ => _ end) = Done _ =>
          let E := fresh "E" in destruct x eqn:E
      end ].

Lemma skip_mono_refl l : skip_mono l l.
Proof. intros i info H. eauto. Qed.

Lemma skip_mono_trans l1 l2 l3 :
  skip_mono l1 l2 → skip_mono l2 l3 → skip_mono l1 l3.
Proof.
  intros H1 H2 i info Hi. destruct (H1 i info Hi) as (info' & Hi' & Hs).
  destruct (H2 i info' Hi') as (info'' & Hi'' & Hs'). eauto.
Qed.

Lemma query_kept_refl q : query_kept q q.
Proof. exists (server_info q). split; [by destruct q | apply skip_mono_refl]. Qed.

Lemma query_kept_trans q1 q2 q3 :
  query_kept q1 q2 → query_kept q2 q3 → query_kept q1 q3.
Proof.
  intros (i1 & -> & H1) (i2 & -> & H2). exists i2. split; [done|].
  simpl in H2. eapply skip_mono_trans; eauto.
Qed.

Lemma prestep_refl qr ch : prestep qr ch ch.
Proof.
  split; try done.
  - intros q Hq. eauto using query_kept_refl.
Qed.

Lemma prestep_trans qr ch1 ch2 ch3 :
  prestep qr ch1 ch2 → prestep qr ch2 ch3 → prestep qr ch1 ch3.
Proof.
  intros [C1 O1 Q1 B1 N1 D1] [C2 O2 Q2 B2 N2 D2]. split.
  - unfold same_config in *. intuition congruence.
  - intros r Hr. rewrite O2, O1; done.
  - intros q Hq. destruct (Q1 q Hq) as (q' & Hq' & K1).
    destruct (Q2 q' Hq') as (q'' & Hq'' & K2). eauto using query_kept_trans.
  - congruence.
  - eauto.
  - intros c l Hd. destruct (D1 c l Hd) as [Hd1 E1].
    destruct (D2 c l Hd1) as [Hd2 E2]. split; [done | congruence].
Qed.

(** A step that only touches the environment's scripts and logs other
    than the callback log. *)
Lemma prestep_set_env qr ch e :
  callbacks e = callbacks (env ch) → prestep qr ch (set_env e ch).
Proof.
  intros He. split; simpl; try done.
  - intros q Hq. eauto using query_kept_refl.
Qed.

Lemma alloc_prestep qr ch ok ch' : alloc ch = (ok, ch') → prestep qr ch ch'.
Proof.
  unfold alloc. destruct (io_alloc (env ch)); intros [= <- <-].
  - apply prestep_refl.
  - by apply prestep_set_env.
Qed.

Lemma ares__socket_write_prestep qr s data ch n ch' :
  ares__socket_write s data ch = (n, ch') → prestep qr ch ch'.
Proof.
  unfold ares__socket_write.
  destruct (io_write (env ch)) as [|[] rest]; intros [= <- <-];
    split; simpl; try done; intros q Hq; eauto using query_kept_refl.
Qed.

Lemma map_idx_alter (f : server_state → server_state) (i : nat)
  (l : list server_state) :
  (∀ s, idx (f s) = idx s) → idx <$> alter f i l = idx <$> l.
Proof.
  intros Hf. revert i. induction l as [|s l IH]; intros [|i]; simpl; [done..| |].
  - by rewrite Hf.
  - f_equal. apply IH.
Qed.

Lemma upd_server_prestep qr i f ch :
  (∀ s, idx (f s) = idx s) → prestep qr ch (upd_server i f ch).
Proof.
  intros Hf. split; simpl; try done.
  - repeat split; simpl; try done. by apply map_idx_alter.
  - intros q Hq; eauto using query_kept_refl.
Qed.

Lemma SOCK_STATE_CALLBACK_prestep qr ch s r w :
  prestep qr ch (SOCK_STATE_CALLBACK ch s r w).
Proof.
  split; simpl; try done. intros q Hq; eauto using query_kept_refl.
Qed.

Lemma ares__buf_append_prestep qr i data ch st ch' :
  ares__buf_append i data ch = (st, ch') → prestep qr ch ch'.
Proof.
  unfold ares__buf_append. destruct (alloc ch) as [ok ch1] eqn:E.
  apply (alloc_prestep qr) in E.
  destruct ok; intros [= <- <-]; [|done].
  eapply prestep_trans; [done|by apply upd_server_prestep].
Qed.

Lemma upd_query_kept_prestep qr f ch :
  (∀ q, query_kept q (f q)) → prestep qr ch (upd_query qr f ch).
Proof.
  intros Hf. split; simpl; try done.
  - intros r Hr. by rewrite lookup_alter_ne.
  - intros q Hq. rewrite lookup_alter_eq, Hq. simpl. eauto.
Qed.

Lemma skip_server_prestep qr ch server ch' :
  skip_server ch qr server = Done ch' → prestep qr ch ch'.
Proof.
  unfold skip_server. intros H. inv_done H; subst; [|apply prestep_refl].
  apply upd_query_kept_prestep. intros q. eexists. split; [reflexivity|].
  intros i info Hi. rewrite list_lookup_alter.
  destruct (decide (i = Z.to_nat (idx server))) as [->|Hne].
  - rewrite decide_True by done. rewrite Hi. simpl. eauto.
  - rewrite decide_False by done. eauto.
Qed.

Lemma ares__open_connection_prestep qr ch sidx tcp st ch' :
  ares__open_connection ch sidx tcp = Done (st, ch') → prestep qr ch ch'.
Proof.
  unfold ares__open_connection. intros H.
  apply bind_Done in H as (srv & _ & H).
  set (r := match io_open (env ch) with
            | [] => (ARES_SUCCESS, Z.of_nat (next_conn ch), ch)
            | (st, s) :: rest => (st, s, set_env (set_io_open rest (env ch)) ch)
            end) in *.
  assert (Hr : prestep qr ch r.2 ∧ next_conn r.2 = next_conn ch
               ∧ conns r.2 = conns ch ∧ llists r.2 = llists ch).
  { subst r. destruct (io_open (env ch)) as [|[st0 s0] rest]; simpl.
    - split; [apply prestep_refl|done].
    - split; [by apply prestep_set_env|done]. }
  destruct r as [[st1 s1] ch1]. simpl in Hr. destruct Hr as (Hp & Hn & Hc & Hl).
  destruct st1; inv_done H; subst; try done.
  eapply prestep_trans; [exact Hp|].
  eapply prestep_trans; [|apply SOCK_STATE_CALLBACK_prestep].
  eapply prestep_trans; [|apply upd_server_prestep; intros s; by destruct tcp].
  assert (Hgoal : prestep qr ch1
    (set_connnode_by_socket (<[s1:=next_conn ch1]> (connnode_by_socket ch1))
       (set_llists (<[next_conn ch1:=[]]> (llists ch1))
          (set_conns
             (<[next_conn ch1:={| conn_server := sidx; fd := s1;
                  is_tcp := tcp; total_queries := 0;
                  queries_to_conn := Some (next_conn ch1) |}]> (conns ch1))
             (set_next_conn (S (next_conn ch1)) ch1))))).
  { split; simpl; try done.
    - intros q Hq. eauto using query_kept_refl.
    - intros c Hc'. destruct (decide (c = next_conn ch1)) as [->|Hne];
        [rewrite lookup_insert_eq; eauto | by rewrite lookup_insert_ne].
    - intros c l (Hd1 & Hd2 & Hd3 & Hd4). split.
      + repeat split; simpl; try lia.
        * rewrite lookup_insert_ne by lia. done.
        * intros c' cn. destruct (decide (c' = next_conn ch1)) as [->|Hne].
          -- rewrite lookup_insert_eq. intros [= <-]. simpl. intros [= Heq]. lia.
          -- rewrite lookup_insert_ne by done. apply Hd4.
      + rewrite lookup_insert_ne by lia. done. }
  destruct tcp; [|exact Hgoal].
  eapply prestep_trans; [exact Hgoal|].
  split; simpl; try done. intros q Hq. eauto using query_kept_refl.
Qed.

(** ** The shape of a send *)

Lemma send_shape_pre qr now ch ch1 run :
  prestep qr ch ch1 → send_shape qr now ch1 run → send_shape qr now ch run.
Proof.
  intros Hp [o H1 H2 H3|ch2 Hp2 H|ch2 st st' Hp2 Hs Hs' H|ch2 conn Hp2 H].
  - by eapply shape_stuck.
  - eapply shape_next; [exact (prestep_trans _ _ _ _ Hp Hp2)|done].
  - eapply shape_end; [exact (prestep_trans _ _ _ _ Hp Hp2)|exact Hs|exact Hs'|exact H].
  - eapply shape_enqueue; [exact (prestep_trans _ _ _ _ Hp Hp2)|done].
Qed.

Lemma send_shape_ext qr now ch run run' :
  (∀ next, run' next = run next) →
  send_shape qr now ch run → send_shape qr now ch run'.
Proof.
  intros He [o H1 H2 H3|ch2 Hp2 H|ch2 st st' Hp2 Hs Hs' H|ch2 conn Hp2 H].
  - eapply shape_stuck; [done|done|]. intros; by rewrite He.
  - eapply shape_next; [done|]. intros; by rewrite He.
  - eapply shape_end; [exact Hp2|exact Hs|exact Hs'|]. intros; by rewrite He.
  - eapply shape_enqueue; [done|]. intros; by rewrite He.
Qed.

(** Sequencing after a step that does not depend on [next_server]. *)
Lemma send_shape_bind {A : Type} qr now ch (m : outcome A)
  (f : A → next_fn → outcome (ares_status_t * ares_channel)) :
  m ≠ OutOfFuel →
  (∀ a, m = Done a → send_shape qr now ch (f a)) →
  send_shape qr now ch (λ next, m ≫= λ a, f a next).
Proof.
  intros Hf H. destruct m as [a| |]; simpl.
  - eapply send_shape_ext; [|apply (H a eq_refl)]. done.
  - by eapply (shape_stuck _ _ _ _ Undefined).
  - done.
Qed.

Ltac shape_bind :=
  lazymatch goal with
  | |- send_shape ?qr ?now ?ch (λ next, mbind (λ a, @?f a next) ?m) =>
      apply (send_shape_bind qr now ch m f)
  end.

Lemma deref_fuel {A : Type} (o : option A) : deref o ≠ OutOfFuel.
Proof. by destruct o. Qed.

Lemma get_server_fuel ch i : get_server ch i ≠ OutOfFuel.
Proof. unfold get_server. destruct (i <? 0); [done|apply deref_fuel]. Qed.

Lemma skip_server_fuel ch qr server : skip_server ch qr server ≠ OutOfFuel.
Proof.
  unfold skip_server, get_query. destruct (1 <? nservers ch); [|done].
  destruct (queries ch !! qr); simpl; [|done].
  by destruct (server_info q !! _).
Qed.

Lemma ares__open_connection_fuel ch sidx tcp :
  ares__open_connection ch sidx tcp ≠ OutOfFuel.
Proof.
  unfold ares__open_connection. destruct (servers ch !! sidx); simpl; [|done].
  destruct (io_open (env ch)) as [|[[] ?] ?]; done.
Qed.

Lemma after_open_shape qr now ch sidx status
  (good : ares_channel → next_fn → outcome (ares_status_t * ares_channel)) :
  send_shape qr now ch (good ch) →
  send_shape qr now ch
    (λ next, after_open next ch qr now sidx status (λ ch, good ch next)).
Proof.
  intros Hgood.
  assert (Hretry : send_shape qr now ch
            (λ next, server ← get_server ch sidx;
                     ch ← skip_server ch qr server; next ch qr now)).
  { shape_bind; [apply get_server_fuel|]. intros server _.
    shape_bind; [apply skip_server_fuel|]. intros ch1 Hs.
    eapply shape_next; [exact (skip_server_prestep _ _ _ _ Hs)|intros ?; reflexivity]. }
  destruct status; simpl; try exact Hgood; try exact Hretry;
    (eapply shape_end; [apply prestep_refl| | |intros ?; reflexivity]; discriminate).
Qed.

Lemma send_query_tcp_shape qr now ch q :
  send_shape qr now ch (λ _ : next_fn, send_query_tcp ch qr now q).
Proof.
  unfold send_query_tcp.
  shape_bind; [apply get_server_fuel|]. intros server _.
  shape_bind; [apply deref_fuel|]. intros conn _.
  destruct (ares__buf_append _ _ ch) as [status ch1] eqn:E.
  apply (ares__buf_append_prestep qr) in E.
  apply (send_shape_pre _ _ _ ch1); [done|].
  destruct (decide (status = ARES_SUCCESS)) as [->|Hne].
  - destruct (decide (length (tcp_send server) = 0%nat)).
    + shape_bind.
      { unfold get_query, get_conn. by destruct (conns ch1 !! conn). }
      intros ch2 H2. inv_done H2. subst ch2.
      eapply send_shape_pre; [apply SOCK_STATE_CALLBACK_prestep|].
      shape_bind; [apply deref_fuel|]. intros _ _.
      eapply shape_enqueue; [|intros ?; reflexivity].
      apply upd_query_kept_prestep. intros q0. eexists. split; [reflexivity|].
      intros i info Hi. rewrite list_lookup_alter. case_decide; subst.
      * rewrite Hi. simpl. eauto.
      * eauto.
    + shape_bind; [done|]. intros ch2 [= <-].
      shape_bind; [apply deref_fuel|]. intros _ _.
      eapply shape_enqueue; [|intros ?; reflexivity].
      apply upd_query_kept_prestep. intros q0. eexists. split; [reflexivity|].
      intros i info Hi. rewrite list_lookup_alter. case_decide; subst.
      * rewrite Hi. simpl. eauto.
      * eauto.
  - eapply shape_end; [apply prestep_refl| | |intros ?; reflexivity]; [exact Hne|discriminate].
Qed.

Lemma send_query_udp_shape qr now ch q conn :
  send_shape qr now ch (λ next, send_query_udp next ch qr now q conn).
Proof.
  unfold send_query_udp.
  shape_bind.
  { unfold get_conn. apply deref_fuel. }
  intros c _.
  destruct (ares__socket_write _ _ ch) as [count ch1] eqn:E.
  apply (ares__socket_write_prestep qr) in E.
  apply (send_shape_pre _ _ _ ch1); [done|].
  destruct (count =? -1).
  - shape_bind; [apply get_server_fuel|]. intros server _.
    shape_bind; [apply skip_server_fuel|]. intros ch2 Hs.
    eapply shape_next; [exact (skip_server_prestep _ _ _ _ Hs)|intros ?; reflexivity].
  - eapply shape_enqueue; [apply prestep_refl|intros ?; reflexivity].
Qed.

Lemma send_query_with_shape qr now ch :
  send_shape qr now ch (λ next, send_query_with next ch qr now).
Proof.
  unfold send_query_with.
  shape_bind; [apply deref_fuel|]. intros q _.
  shape_bind; [apply get_server_fuel|]. intros server _.
  destruct (using_tcp q).
  - destruct (tcp_conn server).
    + apply send_query_tcp_shape.
    + shape_bind; [apply ares__open_connection_fuel|].
      intros [status ch1] Ho. apply (ares__open_connection_prestep qr) in Ho.
      apply (send_shape_pre _ _ _ ch1); [done|].
      apply (after_open_shape qr now ch1 (q_server q) status
               (λ ch _, send_query_tcp ch qr now q)).
      apply send_query_tcp_shape.
  - shape_bind.
    { unfold reusable_udp_conn, get_conn.
      destruct (head (connections server)); [|done].
      destruct (conns ch !! n); simpl; [|done]. by repeat case_match. }
    intros [conn|] _.
    + apply send_query_udp_shape.
    + shape_bind; [apply ares__open_connection_fuel|].
      intros [status ch1] Ho. apply (ares__open_connection_prestep qr) in Ho.
      apply (send_shape_pre _ _ _ ch1); [done|].
      apply (after_open_shape qr now ch1 (q_server q) status
               (λ ch next, server ← get_server ch (q_server q);
                           conn ← deref (head (connections server));
                           send_query_udp next ch qr now q conn)).
      shape_bind; [apply get_server_fuel|]. intros server1 _.
      shape_bind; [apply deref_fuel|]. intros conn _.
      apply send_query_udp_shape.
Qed.

(** ** Ending a query *)

Lemma query_moved_refl q : query_moved q q.
Proof. split; try done. apply skip_mono_refl. Qed.

Lemma query_moved_trans q1 q2 q3 :
  query_moved q1 q2 → query_moved q2 q3 → query_moved q1 q3.
Proof.
  intros [A1 E1 N1 S1 C1] [A2 E2 N2 S2 C2]. split; try congruence; eauto.
  eapply skip_mono_trans; eauto.
Qed.

Lemma query_kept_moved q q' : query_kept q q' → query_moved q q'.
Proof. intros (infos & -> & Hs). by split. Qed.

Lemma prestep_frame qr ch ch' : prestep qr ch ch' → frame qr ch ch'.
Proof. intros [C O Q B N D]. by split. Qed.

Lemma upd_query_frame qr f ch : frame qr ch (upd_query qr f ch).
Proof. split; simpl; try done. intros r Hr. by rewrite lookup_alter_ne. Qed.

Lemma finished_compose qr now q q1 ch ch1 st ch' :
  frame qr ch ch1 → query_moved q q1 →
  finished qr now q1 ch1 st ch' → finished qr now q ch st ch'.
Proof.
  intros [C O B N D] [MA ME MN MS MC] [FC FO FN FD FQ].
  assert (Hcfg : same_config ch ch')
    by (unfold same_config in *; intuition congruence).
  split.
  - exact Hcfg.
  - intros r Hr. rewrite FO, O; done.
  - eauto.
  - intros c l Hd. destruct (D c l Hd) as [Hd1 E1].
    destruct (FD c l Hd1) as [Hd2 E2]. split; [done|].
    rewrite E2, MN, E1. done.
  - destruct FQ as [(Hn & ev & He & Hq & Ha & Hb & Hst)|
                    (Hst & Hcb & q' & conn & Hq' & Hc & Hl & Hm & Ht)].
    + left. split; [done|]. exists ev. rewrite He, B.
      repeat split; try congruence; apply Hst; congruence.
    + right. split; [done|]. split; [congruence|].
      exists q', conn. repeat split; try done.
      * destruct Hm; congruence.
      * destruct Hm; congruence.
      * destruct Hm. eapply skip_mono_trans; eauto.
      * destruct Hm; eauto.
      * destruct C as (Ct & _ & Cn & _). rewrite <- Ct, <- Cn. exact Ht.
Qed.

Lemma detached_llists_alter ch c l l0 f :
  detached ch c l → detached (set_llists (alter f l0 (llists ch)) ch) c l.
Proof. intros (H1 & H2 & H3 & H4). repeat split; done. Qed.

Lemma ares_detach_query_spec ch qr q ch' :
  queries ch !! qr = Some q →
  ares_detach_query ch qr = Done ch' →
  same_config ch ch'
  ∧ (∀ r, r ≠ qr → queries ch' !! r = queries ch !! r)
  ∧ env ch' = env ch ∧ conns ch' = conns ch ∧ next_conn ch' = next_conn ch
  ∧ llists ch' = (match node_queries_to_conn q with
                  | Some l => alter (remove_node qr) l (llists ch)
                  | None => llists ch end)
  ∧ queries ch' !! qr
    = Some (set_node_all_queries false
              (set_node_queries_to_conn None
                 (set_node_queries_by_timeout false q))).
Proof.
  intros Hq H. unfold ares_detach_query, get_query in H. rewrite Hq in H.
  simpl in H. injection H as <-.
  unfold ares__llist_node_destroy_all, ares__llist_node_destroy,
    ares__slist_node_destroy, upd_query.
  destruct (node_all_queries q), (node_queries_to_conn q),
    (node_queries_by_timeout q); simpl;
    (split; [done|]); (split; [intros r Hr; by rewrite lookup_alter_ne|]);
    rewrite lookup_alter_eq, Hq; done.
Qed.

Lemma end_query_finished qr now q ch st st' ch' :
  queries ch !! qr = Some q →
  end_query ch qr st None 0 = Done ch' →
  (error_status q ≠ ARES_SUCCESS → st ≠ ARES_SUCCESS ∧ st' ≠ ARES_SUCCESS) →
  finished qr now q ch st' ch'.
Proof.
  intros Hq H Hst. unfold end_query in H.
  apply bind_Done in H as (ch1 & Hd1 & H).
  destruct (ares_detach_query_spec _ _ _ _ Hq Hd1)
    as (C1 & O1 & E1 & N1 & X1 & L1 & Q1).
  unfold get_query in H. rewrite Q1 in H. simpl in H.
  unfold ares__free_query in H.
  apply bind_Done in H as (ch2 & Hd2 & H). injection H as <-.
  match type of Hd2 with ares_detach_query ?c _ = _ =>
    assert (Hq2 : queries c !! qr
                  = Some (set_node_all_queries false
                            (set_node_queries_to_conn None
                               (set_node_queries_by_timeout false q))))
      by exact Q1;
    destruct (ares_detach_query_spec _ _ _ _ Hq2 Hd2)
      as (C2 & O2 & E2 & N2 & X2 & L2 & Q2)
  end.
  simpl in *.
  assert (Hll : llists ch2 = llists ch1) by exact L2.
  split; simpl.
  - unfold same_config in *. simpl in *. intuition congruence.
  - intros r Hr. rewrite lookup_delete_ne by done. rewrite O2, O1; done.
  - intros c Hc. rewrite N2, N1. done.
  - intros c l (D1 & D2 & D3 & D4).
    split.
    + repeat split; simpl; rewrite ?N2, ?N1, ?X2, ?X1; try done.
    + rewrite Hll, L1. destruct (node_queries_to_conn q) as [l0|].
      * destruct (decide (Some l0 = Some l)) as [[= ->]|Hne].
        -- by rewrite lookup_alter_eq.
        -- rewrite lookup_alter_ne; [done|congruence].
      * rewrite decide_False by done. done.
  - left. split; simpl.
    + apply lookup_delete_eq.
    + eexists. rewrite E2. simpl. rewrite E1. split; [reflexivity|].
      simpl. repeat split; try done; by apply Hst.
Qed.

(** ** Enqueueing a query *)

Lemma frame_refl qr ch : frame qr ch ch.
Proof. by split. Qed.

Lemma frame_trans qr ch1 ch2 ch3 :
  frame qr ch1 ch2 → frame qr ch2 ch3 → frame qr ch1 ch3.
Proof.
  intros [C1 O1 B1 N1 D1] [C2 O2 B2 N2 D2]. split.
  - unfold same_config in *. intuition congruence.
  - intros r Hr. rewrite O2, O1; done.
  - congruence.
  - eauto.
  - intros c l Hd. destruct (D1 c l Hd) as [Hd1 E1].
    destruct (D2 c l Hd1) as [Hd2 E2]. split; [done | congruence].
Qed.

Lemma ares__slist_node_destroy_frame qr node r ch :
  frame qr ch (ares__slist_node_destroy node r ch).
Proof. unfold ares__slist_node_destroy. destruct node; by split. Qed.

Lemma ares__slist_insert_frame qr r t ch node ch' :
  ares__slist_insert r t ch = (node, ch') →
  frame qr ch ch' ∧ queries ch' = queries ch ∧ conns ch' = conns ch
  ∧ llists ch' = llists ch.
Proof.
  unfold ares__slist_insert, alloc.
  destruct (io_alloc (env ch)) as [|[] rest]; intros [= <- <-]; simpl;
    (split; [by split|done]).
Qed.

Lemma send_query_enqueue_finished qr now q ch conn st ch' :
  queries ch !! qr = Some q →
  send_query_enqueue ch qr now conn = Done (st, ch') →
  finished qr now q ch st ch'.
Proof.
  intros Hq H. unfold send_query_enqueue, get_query in H. rewrite Hq in H.
  simpl in H. destruct (nservers ch =? 0) eqn:Hn; [discriminate|].
  set (t := timeadd now (timeplus_for (timeout ch) (try_count q) (nservers ch)))
    in *.
  set (ch1 := ares__slist_node_destroy (node_queries_by_timeout q) qr ch) in *.
  assert (F1 : frame qr ch ch1) by apply ares__slist_node_destroy_frame.
  assert (Q1 : queries ch1 = queries ch ∧ conns ch1 = conns ch
               ∧ llists ch1 = llists ch ∧ next_conn ch1 = next_conn ch)
    by (subst ch1; unfold ares__slist_node_destroy;
        by destruct (node_queries_by_timeout q)).
  destruct Q1 as (Q1 & N1 & L1 & X1). clearbody ch1.
  destruct (ares__slist_insert qr t (upd_query qr (set_q_timeout t) ch1))
    as [node ch3] eqn:E3.
  assert (X3 : next_conn ch3 = next_conn ch1).
  { unfold ares__slist_insert, alloc in E3.
    destruct (io_alloc (env _)) as [|[] ?]; by injection E3 as <- <-. }
  destruct (ares__slist_insert_frame qr _ _ _ _ _ E3) as (F3 & Q3 & N3 & L3).
  simpl in Q3, N3, L3.
  assert (F4 : frame qr ch (upd_query qr (set_node_queries_by_timeout node) ch3)).
  { eapply frame_trans; [exact F1|]. eapply frame_trans; [apply upd_query_frame|].
    eapply frame_trans; [exact F3|]. apply upd_query_frame. }
  assert (Q4 : queries (upd_query qr (set_node_queries_by_timeout node) ch3) !! qr
               = Some (set_node_queries_by_timeout node (set_q_timeout t q))).
  { simpl. rewrite lookup_alter_eq, Q3, lookup_alter_eq, Q1, Hq. done. }
  set (ch4 := upd_query qr (set_node_queries_by_timeout node) ch3) in *.
  assert (C4 : conns ch4 = conns ch ∧ llists ch4 = llists ch
               ∧ next_conn ch4 = next_conn ch).
  { subst ch4. simpl. rewrite N3, L3, X3. simpl. done. }
  destruct C4 as (N4 & L4 & X4). clearbody ch4.
  destruct node; simpl in H.
  - (* the query joins the list of the connection *)
    set (ch5 := ares__llist_node_destroy (node_queries_to_conn q) qr ch4) in *.
    assert (L5 : ∀ l, llists ch5 !! l
                      = if decide (node_queries_to_conn q = Some l)
                        then remove_node qr <$> llists ch4 !! l
                        else llists ch4 !! l).
    { intros l. subst ch5. unfold ares__llist_node_destroy.
      destruct (node_queries_to_conn q) as [l0|]; simpl.
      - destruct (decide (Some l0 = Some l)) as [[= ->]|Hne].
        + by rewrite lookup_alter_eq.
        + rewrite lookup_alter_ne; [done|congruence].
      - done. }
    assert (S5 : same_config ch4 ch5 ∧ queries ch5 = queries ch4
                 ∧ conns ch5 = conns ch4 ∧ next_conn ch5 = next_conn ch4
                 ∧ env ch5 = env ch4).
    { subst ch5. unfold ares__llist_node_destroy.
      by destruct (node_queries_to_conn q). }
    destruct S5 as (C5 & Q5 & N5 & X5 & E5). clearbody ch5.
    apply bind_Done in H as (c & Hc & H).
    unfold get_conn in Hc. apply deref_Done in Hc.
    rewrite N5, N4 in Hc.
    destruct (ares__llist_insert_last (queries_to_conn c) qr ch5)
      as [lnode ch6] eqn:E6.
    injection H as <- <-.
    assert (S6 : same_config ch4 ch6 ∧ queries ch6 = queries ch4
                 ∧ conns ch6 = conns ch4 ∧ next_conn ch6 = next_conn ch4
                 ∧ callbacks (env ch6) = callbacks (env ch4)
                 ∧ ∀ l, queries_to_conn c ≠ Some l →
                        llists ch6 !! l
                        = if decide (node_queries_to_conn q = Some l)
                          then remove_node qr <$> llists ch4 !! l
                          else llists ch4 !! l).
    { unfold ares__llist_insert_last, alloc in E6.
      destruct (queries_to_conn c) as [lc|].
      - destruct (io_alloc (env ch5)) as [|[] rest];
          injection E6 as <- <-; simpl; rewrite ?E5;
          (split; [exact C5|]); (split; [exact Q5|]); (split; [exact N5|]);
          (split; [exact X5|]); (split; [done|]); intros l Hl;
          rewrite ?lookup_alter_ne by congruence; apply L5.
      - injection E6 as <- <-.
        (split; [exact C5|]); (split; [exact Q5|]); (split; [exact N5|]);
        (split; [exact X5|]); (split; [by rewrite E5|]). intros l _. apply L5. }
    destruct S6 as (C6 & Q6 & N6 & X6 & B6 & L6).
    destruct F4 as [FC FO FB FN FD].
    split; simpl.
    + destruct FC as (? & ? & ? & ? & ? & ? & ?),
        C6 as (? & ? & ? & ? & ? & ? & ?).
      repeat split; simpl; congruence.
    + intros r Hr. rewrite lookup_alter_ne by done. rewrite Q6. by apply FO.
    + intros c0 Hc0. rewrite lookup_alter, N6, N4.
      destruct (decide (conn = c0)) as [<-|Hne]; [|exact Hc0].
      rewrite Hc. simpl. eauto.
    + intros c0 l (D1 & D2 & D3 & D4). split.
      * repeat split; simpl; rewrite ?X6, ?X4; try done.
        -- rewrite lookup_alter, N6, N4.
           destruct (decide (conn = c0)) as [<-|Hne]; [|done]. congruence.
        -- intros c1 cn. rewrite lookup_alter, N6, N4.
           destruct (decide (conn = c1)) as [<-|Hne]; [|apply D4].
           rewrite Hc. simpl. intros [= <-]. simpl. by eapply D4.
      * rewrite L6, L4; [done|]. by eapply D4.
    + right. split; [done|]. split; [simpl; congruence|].
      eexists _, conn. simpl.
      rewrite lookup_alter_eq, Q6, Q4. simpl.
      split; [reflexivity|]. simpl. split; [done|]. split.
      { rewrite lookup_alter_eq, N6, N4, Hc. simpl. eauto. }
      split; [|done]. split; simpl; try done. apply skip_mono_refl.
  - (* the allocation of the skip-list node failed *)
    apply bind_Done in H as (ch5 & He & H). injection H as <- <-.
    eapply finished_compose; [exact F4| |].
    2:{ eapply end_query_finished; [exact Q4|exact He|]. intros _. done. }
    split; simpl; try done. apply skip_mono_refl.
Qed.

(** ** What [ares__send_query] and [next_server] leave *)

Lemma send_query_with_finished (next : next_fn) qr now ch q st ch' :
  (∀ ch1 q1 st ch', queries ch1 !! qr = Some q1 →
     next ch1 qr now = Done (st, ch') → finished qr now q1 ch1 st ch') →
  queries ch !! qr = Some q →
  send_query_with next ch qr now = Done (st, ch') →
  finished qr now q ch st ch'.
Proof.
  intros Hnext Hq H.
  destruct (send_query_with_shape qr now ch)
    as [o H1 H2 Hr|ch1 Hp Hr|ch1 st0 st1 Hp Hs0 Hs1 Hr|ch1 conn Hp Hr];
    rewrite Hr in H.
  - by destruct (H1 (st, ch')).
  - destruct (pre_query _ _ _ Hp q Hq) as (q1 & Hq1 & Hk).
    eapply finished_compose; [by apply prestep_frame|by apply query_kept_moved|].
    by eapply Hnext.
  - destruct (pre_query _ _ _ Hp q Hq) as (q1 & Hq1 & Hk).
    apply bind_Done in H as (ch2 & He & H). injection H as <- <-.
    eapply finished_compose; [by apply prestep_frame|by apply query_kept_moved|].
    by eapply end_query_finished.
  - destruct (pre_query _ _ _ Hp q Hq) as (q1 & Hq1 & Hk).
    eapply finished_compose; [by apply prestep_frame|by apply query_kept_moved|].
    by eapply send_query_enqueue_finished.
Qed.

(** One round of the loop of [next_server]. *)
Lemma next_server_fuel_eq fuel ch qr now :
  next_server_fuel fuel ch qr now
  = (q ← get_query ch qr;
     let count := size_wrap (try_count q + 1) in
     let ch := upd_query qr (set_try_count count) ch in
     if (count <? size_wrap (nservers ch * tries ch)) && negb (no_retries q)
     then
       match fuel with
       | O => OutOfFuel
       | S fuel =>
           if nservers ch =? 0 then Undefined else
           let next := size_wrap (q_server q + 1) mod nservers ch in
           let ch := upd_query qr (set_q_server next) ch in
           server ← get_server ch next;
           info ← deref (server_info q !! Z.to_nat next);
           if server_usable q info server
           then send_query_with (next_server_fuel fuel) ch qr now
           else next_server_fuel fuel ch qr now
       end
     else
       ch ← end_query ch qr (error_status q) None 0;
       Done (error_status q, ch)).
Proof. by destruct fuel. Qed.

Lemma size_wrap_range z : 0 ≤ size_wrap z < 2 ^ 64.
Proof. unfold size_wrap. apply Z.mod_pos_bound. lia. Qed.

Lemma next_server_fuel_finished fuel qr now :
  ∀ ch q st ch', queries ch !! qr = Some q →
    next_server_fuel fuel ch qr now = Done (st, ch') →
    finished qr now q ch st ch'.
Proof.
  induction fuel as [|fuel IH]; intros ch q st ch' Hq H;
    rewrite next_server_fuel_eq in H; unfold get_query in H;
    rewrite Hq in H; simpl in H;
    set (count := size_wrap (try_count q + 1)) in *;
    pose proof (size_wrap_range (try_count q + 1)) as Hcount;
    destruct ((count <? size_wrap (nservers ch * tries ch))
              && negb (no_retries q)) eqn:Htest; try discriminate.
  1,3: (apply bind_Done in H as (ch2 & He & H); injection H as <- <-;
        eapply finished_compose;
          [apply (upd_query_frame qr (set_try_count count))| |
           eapply end_query_finished; [|exact He|]];
          [|simpl; rewrite lookup_alter_eq, Hq; reflexivity|simpl; done];
        split; simpl; try done; [apply skip_mono_refl|intros _; subst count; lia]).
  destruct (nservers ch =? 0); [discriminate|].
  set (next := size_wrap (q_server q + 1) mod nservers ch) in *.
  apply bind_Done in H as (server & Hsrv & H).
  apply bind_Done in H as (info & Hinfo & H).
  set (ch2 := upd_query qr (set_q_server next)
                (upd_query qr (set_try_count count) ch)) in *.
  assert (Hq2 : queries ch2 !! qr
                = Some (set_q_server next (set_try_count count q))).
  { subst ch2. simpl. by rewrite !lookup_alter_eq, Hq. }
  assert (F2 : frame qr ch ch2).
  { eapply frame_trans; apply upd_query_frame. }
  assert (M2 : query_moved q (set_q_server next (set_try_count count q))).
  { split; simpl; try done; [apply skip_mono_refl|intros _; subst count; lia]. }
  clearbody ch2.
  eapply finished_compose; [exact F2|exact M2|].
  destruct (server_usable q info server).
  - eapply send_query_with_finished; [|exact Hq2|exact H].
    intros ch1 q1 st1 ch1' Hq1 H1. by eapply IH.
  - by eapply IH.
Qed.

Lemma next_server_finished qr now ch q st ch' :
  queries ch !! qr = Some q →
  next_server ch qr now = Done (st, ch') →
  finished qr now q ch st ch'.
Proof. apply next_server_fuel_finished. Qed.

Lemma ares__send_query_finished qr now ch q st ch' :
  queries ch !! qr = Some q →
  ares__send_query ch qr now = Done (st, ch') →
  finished qr now q ch st ch'.
Proof.
  apply send_query_with_finished. intros ch1 q1 st1 ch1'.
  apply next_server_finished.
Qed.

(** ** Termination of [next_server] *)

Lemma prestep_rounds_left qr ch ch' :
  prestep qr ch ch' → is_Some (queries ch !! qr) →
  rounds_left ch' qr = rounds_left ch qr.
Proof.
  intros [C O Q B N D] [q Hq]. destruct (Q q Hq) as (q' & Hq' & i & -> & _).
  unfold rounds_left. rewrite Hq, Hq'. simpl.
  destruct C as (_ & -> & -> & _). done.
Qed.

Lemma bind_fuel {A B : Type} (m : outcome A) (f : A → outcome B) :
  m ≠ OutOfFuel → (∀ a, f a ≠ OutOfFuel) → m ≫= f ≠ OutOfFuel.
Proof. intros Hm Hf. destruct m; simpl; [apply Hf|done|done]. Qed.

Lemma ares_detach_query_fuel ch qr : ares_detach_query ch qr ≠ OutOfFuel.
Proof.
  unfold ares_detach_query. apply bind_fuel; [apply deref_fuel|done].
Qed.

Lemma end_query_fuel ch qr st abuf alen :
  end_query ch qr st abuf alen ≠ OutOfFuel.
Proof.
  unfold end_query. apply bind_fuel; [apply ares_detach_query_fuel|].
  intros ch1. apply bind_fuel; [apply deref_fuel|]. intros q.
  unfold ares__free_query. apply bind_fuel; [apply ares_detach_query_fuel|done].
Qed.

Lemma send_query_enqueue_fuel ch qr now conn :
  send_query_enqueue ch qr now conn ≠ OutOfFuel.
Proof.
  unfold send_query_enqueue. apply bind_fuel; [apply deref_fuel|]. intros q.
  destruct (nservers ch =? 0); [done|].
  destruct (ares__slist_insert _ _ _) as [[] ch3]; simpl.
  - apply bind_fuel; [apply deref_fuel|]. intros c.
    by destruct (ares__llist_insert_last _ _ _).
  - apply bind_fuel; [apply end_query_fuel|done].
Qed.

(** With enough fuel the loop never runs out of it, and more fuel changes
    nothing. *)
Lemma next_server_fuel_enough qr now n :
  ∀ m ch, (rounds_left ch qr ≤ n)%nat → (rounds_left ch qr ≤ m)%nat →
    next_server_fuel n ch qr now = next_server_fuel m ch qr now
    ∧ next_server_fuel n ch qr now ≠ OutOfFuel.
Proof.
  induction n as [|n IH]; intros m ch Hn Hm;
    rewrite (next_server_fuel_eq _ ch), (next_server_fuel_eq m ch);
    unfold get_query; unfold rounds_left in Hn, Hm;
    (destruct (queries ch !! qr) as [q|] eqn:Hq; simpl; [|done]);
    set (count := size_wrap (try_count q + 1)) in *;
    set (limit := size_wrap (nservers ch * tries ch)) in *;
    pose proof (size_wrap_range (try_count q + 1)) as Hcount;
    pose proof (size_wrap_range (nservers ch * tries ch)) as Hlimit;
    fold count in Hcount; fold limit in Hlimit;
    (destruct (count <? limit) eqn:Hlt; simpl;
     [apply Z.ltb_lt in Hlt|
      split; [done|]; apply bind_fuel; [apply end_query_fuel|done]]);
    (destruct (no_retries q); simpl;
     [split; [done|]; apply bind_fuel; [apply end_query_fuel|done]|]).
  - lia.
  - destruct m as [|m]; [lia|].
    destruct (nservers ch =? 0); [done|].
    set (next := size_wrap (q_server q + 1) mod nservers ch).
    set (ch2 := upd_query qr (set_q_server next)
                  (upd_query qr (set_try_count count) ch)).
    assert (Hleft : rounds_left ch2 qr = Z.to_nat (limit - count - 1)).
    { unfold rounds_left. subst ch2. simpl. rewrite !lookup_alter_eq, Hq.
      simpl. fold limit. unfold size_wrap at 1. rewrite Z.mod_small by lia.
      f_equal. lia. }
    assert (Hn2 : (rounds_left ch2 qr ≤ n)%nat) by lia.
    assert (Hm2 : (rounds_left ch2 qr ≤ m)%nat) by lia.
    assert (Hq2 : is_Some (queries ch2 !! qr)).
    { subst ch2. simpl. rewrite !lookup_alter_eq, Hq. simpl. eauto. }
    clearbody ch2.
    destruct (get_server ch2 next) as [server| |] eqn:Hsrv; simpl; try done.
    2:{ by apply get_server_fuel in Hsrv. }
    destruct (server_info q !! Z.to_nat next) as [info|]; simpl; [|done].
    destruct (server_usable q info server); [|by apply IH].
    destruct (send_query_with_shape qr now ch2)
      as [o H1 H2 Hr|ch1 Hp Hr|ch1 st0 st1 Hp Hs0 Hs1 Hr|ch1 conn Hp Hr];
      rewrite !Hr.
    + done.
    + apply IH; by rewrite (prestep_rounds_left _ _ _ Hp Hq2).
    + split; [done|]. apply bind_fuel; [apply end_query_fuel|done].
    + split; [done|]. apply send_query_enqueue_fuel.
Qed.

Lemma next_server_rounds_enough ch qr :
  (rounds_left ch qr ≤ next_server_rounds ch)%nat.
Proof.
  unfold rounds_left, next_server_rounds. destruct (queries ch !! qr); [|lia].
  pose proof (size_wrap_range (try_count q + 1)). lia.
Qed.

Lemma next_server_total ch qr now : next_server ch qr now ≠ OutOfFuel.
Proof.
  unfold next_server.
  by apply (next_server_fuel_enough qr now _ (next_server_rounds ch));
    apply next_server_rounds_enough.
Qed.

Lemma next_server_fuel_next_server n ch qr now :
  (rounds_left ch qr ≤ n)%nat →
  next_server_fuel n ch qr now = next_server ch qr now.
Proof.
  intros Hn. unfold next_server.
  by apply next_server_fuel_enough; [|apply next_server_rounds_enough].
Qed.

Lemma send_query_with_ext (next1 next2 : next_fn) qr now ch :
  (∀ ch1, prestep qr ch ch1 → next1 ch1 qr now = next2 ch1 qr now) →
  send_query_with next1 ch qr now = send_query_with next2 ch qr now.
Proof.
  intros H.
  destruct (send_query_with_shape qr now ch)
    as [o H1 H2 Hr|ch1 Hp Hr|ch1 st0 st1 Hp Hs0 Hs1 Hr|ch1 conn Hp Hr];
    rewrite !Hr; auto.
Qed.

Lemma ares__send_query_total ch qr now : ares__send_query ch qr now ≠ OutOfFuel.
Proof.
  unfold ares__send_query.
  destruct (send_query_with_shape qr now ch)
    as [o H1 H2 Hr|ch1 Hp Hr|ch1 st0 st1 Hp Hs0 Hs1 Hr|ch1 conn Hp Hr];
    rewrite !Hr.
  - done.
  - apply next_server_total.
  - apply bind_fuel; [apply end_query_fuel|done].
  - apply send_query_enqueue_fuel.
Qed.

(** ** [next_server] and its description *)

(** Ending a query does not depend on its retry state. *)
Lemma end_query_upd_query ch qr (f : query → query) st abuf alen :
  (∀ q, qid (f q) = qid q ∧ arg (f q) = arg q ∧ timeouts (f q) = timeouts q
        ∧ node_queries_by_timeout (f q) = node_queries_by_timeout q
        ∧ node_queries_to_conn (f q) = node_queries_to_conn q
        ∧ node_all_queries (f q) = node_all_queries q) →
  end_query (upd_query qr f ch) qr st abuf alen = end_query ch qr st abuf alen.
Proof.
  intros Hf. unfold end_query, ares__free_query, ares_detach_query, get_query.
  simpl. rewrite lookup_alter_eq.
  destruct (queries ch !! qr) as [q|] eqn:Hq; simpl; [|done].
  destruct (Hf q) as (Hi & Ha & Ht & -> & -> & ->).
  unfold ares__llist_node_destroy_all, ares__llist_node_destroy,
    ares__slist_node_destroy.
  destruct (node_all_queries q), (node_queries_to_conn q),
    (node_queries_by_timeout q); simpl;
    repeat (rewrite ?lookup_alter_eq, ?Hq; simpl); rewrite ?Ha, ?Ht, ?Hi;
    rewrite ?delete_alter, ?decide_True by done; reflexivity.
Qed.

Lemma find_seq_S (f : nat → bool) (a m : nat) :
  List.find f (seq (S a) m) = S <$> List.find (λ k, f (S k)) (seq a m).
Proof.
  revert a. induction m as [|m IH]; intros a; simpl; [done|].
  destruct (f (S a)); [done|]. apply IH.
Qed.

Lemma find_pointwise (f g : nat → bool) (l : list nat) :
  (∀ k, f k = g k) → List.find f l = List.find g l.
Proof. intros H. induction l as [|k l IH]; simpl; [done|]. by rewrite H, IH. Qed.

Lemma upd_query_upd_query qr f g ch :
  upd_query qr f (upd_query qr g ch) = upd_query qr (f ∘ g) ch.
Proof. unfold upd_query. simpl. by rewrite alter_alter_eq. Qed.

Lemma upd_query_ext qr f g ch :
  (∀ q, queries ch !! qr = Some q → f q = g q) →
  upd_query qr f ch = upd_query qr g ch.
Proof. intros H. unfold upd_query. f_equal. apply alter_ext. intros q Hq. by apply H. Qed.

Lemma next_server_fuel_described qr now (r : nat) :
  ∀ n ch q,
    queries ch !! qr = Some q → no_retries q = false → retry_ready ch q →
    r = Z.to_nat (nservers ch * tries ch - try_count q - 1) →
    (rounds_left ch qr ≤ n)%nat →
    next_server_fuel n ch qr now = next_server_described ch qr now.
Proof.
  induction r as [|r IH]; intros n ch q Hq Hnr [Hn [Ht Hl] Hc Hs Hsl Hil] Hr Hfuel;
    rewrite next_server_fuel_eq; unfold next_server_described, get_query;
    rewrite Hq; simpl; rewrite Hnr; simpl;
    unfold first_usable; rewrite <- Hr;
    unfold rounds_left in Hfuel; rewrite Hq in Hfuel;
    assert (Hw1 : size_wrap (try_count q + 1) = try_count q + 1)
      by (apply Z.mod_small; lia);
    assert (Hw2 : size_wrap (nservers ch * tries ch) = nservers ch * tries ch)
      by (apply Z.mod_small; nia);
    rewrite Hw1, Hw2 in *; rewrite Bool.andb_true_r.
  - (* no candidate is left *)
    destruct (try_count q + 1 <? nservers ch * tries ch) eqn:Hlt;
      [apply Z.ltb_lt in Hlt; lia|].
    simpl. rewrite end_query_upd_query; [done|]. intros q0. by repeat split.
  - destruct (try_count q + 1 <? nservers ch * tries ch) eqn:Hlt;
      [apply Z.ltb_lt in Hlt|apply Z.ltb_ge in Hlt; lia].
    destruct n as [|n]; [lia|].
    destruct (nservers ch =? 0) eqn:Hz; [apply Z.eqb_eq in Hz; lia|].
    assert (Hw3 : size_wrap (q_server q + 1) = q_server q + 1)
      by (apply Z.mod_small; lia).
    rewrite Hw3.
    set (next := (q_server q + 1) mod nservers ch).
    assert (Hnext : 0 ≤ next < nservers ch) by (apply Z.mod_pos_bound; lia).
    set (ch2 := upd_query qr (set_q_server next)
                  (upd_query qr (set_try_count (try_count q + 1)) ch)).
    assert (Hch2 : ch2 = upd_query qr (advance (nservers ch) 1) ch).
    { subst ch2. rewrite upd_query_upd_query. apply upd_query_ext.
      intros q0 Hq0. rewrite Hq in Hq0. injection Hq0 as <-. done. }
    assert (Hq2 : queries ch2 !! qr = Some (advance (nservers ch) 1 q)).
    { rewrite Hch2. simpl. by rewrite lookup_alter_eq, Hq. }
    unfold get_server. destruct (next <? 0) eqn:Hneg; [apply Z.ltb_lt in Hneg; lia|].
    assert (Hsrv : is_Some (servers ch !! Z.to_nat next))
      by (apply lookup_lt_is_Some; lia).
    assert (Hinf : is_Some (server_info q !! Z.to_nat next))
      by (apply lookup_lt_is_Some; lia).
    destruct Hsrv as [server Hsrv], Hinf as [info Hinf].
    change (servers ch2) with (servers ch).
    rewrite Hsrv, Hinf. simpl.
    assert (Hu1 : usable_at ch q 1 = server_usable q info server).
    { unfold usable_at. change (Z.of_nat 1) with 1. fold next.
      by rewrite Hsrv, Hinf. }
    change (seq 1 (S r)) with (1%nat :: seq 2 r). cbn [List.find].
    rewrite Hu1.
    assert (Hleft : (rounds_left ch2 qr ≤ n)%nat).
    { unfold rounds_left. rewrite Hq2. simpl.
      replace (nservers ch2) with (nservers ch) by (by rewrite Hch2).
      replace (tries ch2) with (tries ch) by (by rewrite Hch2).
      rewrite Hw2. unfold size_wrap. rewrite Z.mod_small by lia. lia. }
    destruct (server_usable q info server) eqn:Huse.
    + (* the first candidate is acceptable *)
      rewrite <- Hch2. unfold ares__send_query.
      apply send_query_with_ext. intros ch1 Hp.
      apply next_server_fuel_next_server.
      rewrite (prestep_rounds_left _ _ _ Hp); [done|]. by rewrite Hq2.
    + (* it is skipped: the loop goes on from the next server *)
      assert (Hready2 : retry_ready ch2 (advance (nservers ch) 1 q)).
      { rewrite Hch2. split; simpl; try done; try lia. }
      rewrite (IH n ch2 _ Hq2 Hnr Hready2); [|rewrite Hch2; simpl; lia|done].
      unfold next_server_described, get_query. rewrite Hq2. simpl.
      unfold first_usable.
      replace (nservers ch2) with (nservers ch) by (by rewrite Hch2).
      replace (tries ch2) with (tries ch) by (by rewrite Hch2).
      simpl. change (Z.of_nat 1) with 1.
      replace (Z.to_nat (nservers ch * tries ch - (try_count q + 1) - 1))
        with r by lia.
      rewrite (find_seq_S (usable_at ch q) 1 r).
      assert (Hshift : ∀ k, usable_at ch2 (advance (nservers ch) 1 q) k
                            = usable_at ch q (S k)).
      { intros k. unfold usable_at. simpl.
        replace (nservers ch2) with (nservers ch) by (by rewrite Hch2).
        replace (servers ch2) with (servers ch) by (by rewrite Hch2).
        assert (Hmod : ((q_server q + Z.of_nat 1) mod nservers ch + Z.of_nat k)
                       mod nservers ch
                       = (q_server q + Z.of_nat (S k)) mod nservers ch).
        { rewrite Zplus_mod_idemp_l. f_equal. lia. }
        rewrite Hmod. done. }
      rewrite (find_pointwise _ _ _ Hshift).
      destruct (List.find (λ k, usable_at ch q (S k)) (seq 1 r)) as [k|]; simpl.
      * assert (Heq : upd_query qr (advance (nservers ch) k) ch2
                      = upd_query qr (advance (nservers ch) (S k)) ch);
          [|by rewrite Heq].
        rewrite Hch2, upd_query_upd_query. apply upd_query_ext.
        intros q0 _. unfold advance, set_q_server, set_try_count. simpl.
        f_equal; try lia. rewrite Zplus_mod_idemp_l. f_equal. lia.
      * rewrite Hch2, end_query_upd_query; [done|]. intros q0. by repeat split.
Qed.

(** ** The dispatcher does not get stuck *)

Lemma fit_alter_query n srvs qs cs qr f :
  dispatch_fit n srvs qs cs →
  (∀ q, qs !! qr = Some q →
        0 ≤ q_server (f q) < n ∧ n ≤ Z.of_nat (length (server_info (f q)))) →
  dispatch_fit n srvs (alter f qr qs) cs.
Proof.
  intros [Hn Hi Hq Hc] Hf. split; try done.
  intros r q'. destruct (decide (r = qr)) as [->|Hne].
  - rewrite lookup_alter_eq. destruct (qs !! qr) as [q|] eqn:E; [|done].
    intros [= <-]. by apply Hf.
  - rewrite lookup_alter_ne by done. apply Hq.
Qed.

Lemma fit_alter_query_kept n srvs qs cs qr f :
  dispatch_fit n srvs qs cs →
  (∀ q, q_server (f q) = q_server q
        ∧ length (server_info (f q)) = length (server_info q)) →
  dispatch_fit n srvs (alter f qr qs) cs.
Proof.
  intros Hfit Hf. apply fit_alter_query; [done|]. intros q Hq.
  destruct (Hf q) as [-> ->]. by apply (fit_queries _ _ _ _ Hfit qr).
Qed.

Lemma fit_delete_query n srvs qs cs qr :
  dispatch_fit n srvs qs cs → dispatch_fit n srvs (delete qr qs) cs.
Proof.
  intros [Hn Hi Hq Hc]. split; try done.
  intros r q' [_ H]%lookup_delete_Some. by apply (Hq r).
Qed.

Lemma fit_alter_server n srvs qs cs i f :
  dispatch_fit n srvs qs cs →
  (∀ s, idx (f s) = idx s ∧ connections (f s) = connections s
        ∧ tcp_conn (f s) = tcp_conn s) →
  dispatch_fit n (alter f i srvs) qs cs.
Proof.
  intros [Hn Hi Hq Hc] Hf. split; try done.
  - by rewrite length_alter.
  - intros j srv. destruct (decide (j = i)) as [->|Hne].
    + rewrite list_lookup_alter_eq.
      destruct (srvs !! i) as [s|] eqn:E; [|done]. intros [= <-].
      destruct (Hf s) as (-> & _). by apply Hi.
    + rewrite list_lookup_alter_ne by done. apply Hi.
  - intros j srv c. destruct (decide (j = i)) as [->|Hne].
    + rewrite list_lookup_alter_eq.
      destruct (srvs !! i) as [s|] eqn:E; [|done]. intros [= <-].
      destruct (Hf s) as (_ & -> & ->). by apply (Hc i).
    + rewrite list_lookup_alter_ne by done. apply Hc.
Qed.

Lemma fit_open n srvs qs cs i cid c f :
  dispatch_fit n srvs qs cs →
  (∀ s, idx (f s) = idx s
        ∧ ∀ c', c' ∈ connections (f s) ∨ tcp_conn (f s) = Some c' →
                c' = cid ∨ c' ∈ connections s ∨ tcp_conn s = Some c') →
  dispatch_fit n (alter f i srvs) qs (<[cid := c]> cs).
Proof.
  intros [Hn Hi Hq Hc] Hf.
  assert (Hlive : ∀ j srv c', srvs !! j = Some srv →
            c' ∈ connections srv ∨ tcp_conn srv = Some c' →
            is_Some (<[cid := c]> cs !! c')).
  { intros j srv c' Hs Hin. destruct (decide (c' = cid)) as [->|Hne].
    - rewrite lookup_insert_eq. eauto.
    - rewrite lookup_insert_ne by done. by apply (Hc j srv). }
  split; try done.
  - by rewrite length_alter.
  - intros j srv. destruct (decide (j = i)) as [->|Hne].
    + rewrite list_lookup_alter_eq.
      destruct (srvs !! i) as [s|] eqn:E; [|done]. intros [= <-].
      destruct (Hf s) as (-> & _). by apply Hi.
    + rewrite list_lookup_alter_ne by done. apply Hi.
  - intros j srv c'. destruct (decide (j = i)) as [->|Hne].
    + rewrite list_lookup_alter_eq.
      destruct (srvs !! i) as [s|] eqn:E; [|done]. intros [= <-] Hin.
      destruct (Hf s) as (_ & Hsub).
      destruct (Hsub c' Hin) as [->|Hold].
      * rewrite lookup_insert_eq. eauto.
      * by apply (Hlive i s).
    + rewrite list_lookup_alter_ne by done. apply Hlive.
Qed.

Lemma dispatch_ready_server ch i :
  dispatch_ready ch → 0 ≤ i < nservers ch →
  ∃ srv, servers ch !! Z.to_nat i = Some srv ∧ idx srv = i
    ∧ get_server ch i = Done srv.
Proof.
  intros [[Hn Hlen] Hi _ _] Hr.
  destruct (lookup_lt_is_Some_2 (servers ch) (Z.to_nat i)) as [srv Hs]; [lia|].
  exists srv. split; [done|]. split; [rewrite (Hi _ _ Hs); lia|].
  unfold get_server. destruct (i <? 0) eqn:E; [apply Z.ltb_lt in E; lia|].
  by rewrite Hs.
Qed.

Lemma skip_server_ready ch qr i server q :
  dispatch_ready ch → queries ch !! qr = Some q →
  servers ch !! i = Some server →
  ∃ ch', skip_server ch qr server = Done ch' ∧ dispatch_ready ch'
    ∧ is_Some (queries ch' !! qr).
Proof.
  intros Hr Hq Hs. unfold skip_server.
  destruct (1 <? nservers ch); [|by eauto].
  unfold get_query. rewrite Hq. simpl.
  destruct Hr as [[Hn Hlen] Hi Hqs Hc].
  destruct (Hqs qr q Hq) as [Hsrv Hinfo].
  pose proof (lookup_lt_Some _ _ _ Hs) as Hlt.
  rewrite (Hi _ _ Hs), Nat2Z.id.
  destruct (lookup_lt_is_Some_2 (server_info q) i) as [info Hinf]; [lia|].
  rewrite Hinf. simpl. eexists. split; [reflexivity|]. split.
  - apply fit_alter_query; [by split|]. intros q0 Hq0. simpl.
    rewrite length_alter. rewrite Hq in Hq0. injection Hq0 as <-. done.
  - simpl. rewrite lookup_alter_eq, Hq. simpl. eauto.
Qed.

Lemma end_query_ready ch qr st abuf alen :
  dispatch_ready ch → is_Some (queries ch !! qr) →
  ∃ ch', end_query ch qr st abuf alen = Done ch' ∧ dispatch_ready ch'.
Proof.
  intros Hr [q Hq]. unfold end_query.
  destruct (ares_detach_query ch qr) as [ch1| |] eqn:Hd1.
  2,3: unfold ares_detach_query, get_query in Hd1; by rewrite Hq in Hd1.
  simpl.
  destruct (ares_detach_query_spec _ _ _ _ Hq Hd1)
    as (C1 & O1 & E1 & N1 & X1 & L1 & Q1).
  unfold get_query. rewrite Q1. simpl. unfold ares__free_query.
  match goal with |- context [ares_detach_query ?c qr] =>
    destruct (ares_detach_query c qr) as [ch2| |] eqn:Hd2;
    [|unfold ares_detach_query, get_query in Hd2; simpl in Hd2;
      by rewrite Q1 in Hd2..]
  end.
  simpl. eexists. split; [reflexivity|].
  unfold ares_detach_query, get_query in Hd1, Hd2. simpl in Hd2.
  rewrite Hq in Hd1. rewrite Q1 in Hd2. simpl in Hd1, Hd2.
  injection Hd1 as <-. injection Hd2 as <-.
  unfold dispatch_ready.
  unfold ares__llist_node_destroy_all, ares__llist_node_destroy,
    ares__slist_node_destroy.
  destruct (node_all_queries q), (node_queries_to_conn q),
    (node_queries_by_timeout q); simpl;
    apply fit_delete_query; repeat (apply fit_alter_query_kept; [|done]);
    exact Hr.
Qed.

Lemma fit_alter_conn n srvs qs cs c f :
  dispatch_fit n srvs qs cs → dispatch_fit n srvs qs (alter f c cs).
Proof.
  intros [Hn Hi Hq Hc]. split; try done.
  intros i srv c' Hs Hin. destruct (Hc i srv c' Hs Hin) as [x Hx].
  destruct (decide (c' = c)) as [->|Hne].
  - rewrite lookup_alter_eq, Hx. simpl. eauto.
  - rewrite lookup_alter_ne by done. eauto.
Qed.

Lemma alloc_tables ch ok ch' :
  alloc ch = (ok, ch') →
  nservers ch' = nservers ch ∧ servers ch' = servers ch
  ∧ queries ch' = queries ch ∧ conns ch' = conns ch.
Proof.
  unfold alloc. destruct (io_alloc (env ch)); intros [= <- <-]; done.
Qed.

Lemma send_query_enqueue_safe ch qr now conn :
  dispatch_ready ch → is_Some (queries ch !! qr) →
  is_Some (conns ch !! conn) →
  safe (send_query_enqueue ch qr now conn).
Proof.
  intros Hr [q Hq] [c Hc]. unfold send_query_enqueue, get_query.
  rewrite Hq. simpl.
  destruct (nservers ch =? 0) eqn:E.
  { apply Z.eqb_eq in E. destruct Hr as [[? _] _ _ _]. lia. }
  unfold ares__slist_insert.
  match goal with |- context [alloc ?c0] =>
    destruct (alloc c0) as [ok ch2] eqn:Ha;
    destruct (alloc_tables _ _ _ Ha) as (N2 & S2 & Q2 & C2);
    assert (R2 : dispatch_ready ch2);
    [unfold dispatch_ready; rewrite N2, S2, Q2, C2;
     unfold ares__slist_node_destroy;
     destruct (node_queries_by_timeout q); simpl;
     (apply fit_alter_query_kept; [exact Hr|done])|];
    assert (Hq2 : is_Some (queries ch2 !! qr));
    [rewrite Q2; unfold ares__slist_node_destroy;
     destruct (node_queries_by_timeout q); simpl;
     rewrite lookup_alter_eq, Hq; simpl; eauto|];
    assert (Hc2 : conns ch2 !! conn = Some c);
    [rewrite C2; unfold ares__slist_node_destroy;
     by destruct (node_queries_by_timeout q)|]
  end.
  clear Ha. destruct ok; simpl.
  - unfold ares__llist_node_destroy, get_conn.
    destruct (node_queries_to_conn q) as [l0|]; simpl; rewrite Hc2; simpl.
    all: unfold ares__llist_insert_last;
      destruct (queries_to_conn c) as [l|]; simpl.
    all: try match goal with |- context [alloc ?c0] =>
      destruct (alloc c0) as [ok ch3] eqn:Ha;
      destruct (alloc_tables _ _ _ Ha) as (N3 & S3 & Q3 & C3);
      simpl in N3, S3, Q3, C3; destruct ok; simpl
    end.
    all: unfold dispatch_ready; simpl; rewrite ?N3, ?S3, ?Q3, ?C3.
    all: apply fit_alter_conn;
      repeat (apply fit_alter_query_kept; [|done]); exact R2.
  - destruct Hq2 as [q2 Hq2].
    match goal with |- context [end_query ?c0 qr ?s ?a ?n] =>
      destruct (end_query_ready c0 qr s a n) as (ch3 & -> & R3)
    end; [| |exact R3].
    + unfold dispatch_ready. simpl.
      apply fit_alter_query_kept; [exact R2|done].
    + simpl. rewrite lookup_alter_eq, Hq2. simpl. eauto.
Qed.

Lemma ares__open_connection_ready ch sidx tcp :
  dispatch_ready ch → (sidx < length (servers ch))%nat →
  ∃ st ch', ares__open_connection ch sidx tcp = Done (st, ch')
    ∧ dispatch_ready ch' ∧ queries ch' = queries ch
    ∧ (st = ARES_SUCCESS →
       ∃ srv cid, servers ch' !! sidx = Some srv
         ∧ (if tcp then tcp_conn srv = Some cid
            else head (connections srv) = Some cid)).
Proof.
  intros Hr Hlt. unfold ares__open_connection.
  destruct (lookup_lt_is_Some_2 (servers ch) sidx Hlt) as [srv Hs].
  rewrite Hs. simpl.
  assert (Hopen : ∀ ch0 s,
            nservers ch0 = nservers ch → servers ch0 = servers ch →
            queries ch0 = queries ch → conns ch0 = conns ch →
            let cid := next_conn ch0 in
            let c := {| conn_server := sidx; fd := s; is_tcp := tcp;
                        total_queries := 0; queries_to_conn := Some cid |} in
            let ch1 := set_next_conn (S cid) ch0 in
            let ch1 := set_conns (<[cid := c]> (conns ch1)) ch1 in
            let ch1 := set_llists (<[cid := []]> (llists ch1)) ch1 in
            let ch1 :=
              set_connnode_by_socket (<[s := cid]> (connnode_by_socket ch1))
                ch1 in
            let gen := size_wrap (tcp_connection_generation ch1 + 1) in
            let ch1 :=
              if tcp then set_tcp_connection_generation gen ch1 else ch1 in
            let ch1 :=
              upd_server sidx
                (λ srv,
                   if tcp
                   then set_srv_tcp_connection_generation gen
                          (set_tcp_conn (Some cid)
                             (set_connections (connections srv ++ [cid]) srv))
                   else set_connections (cid :: connections srv) srv) ch1 in
            let ch' := SOCK_STATE_CALLBACK ch1 s true false in
            dispatch_ready ch' ∧ queries ch' = queries ch
            ∧ ∃ srv cid, servers ch' !! sidx = Some srv
                ∧ (if tcp then tcp_conn srv = Some cid
                   else head (connections srv) = Some cid)).
  { intros ch0 s N0 S0 Q0 C0. cbv zeta.
    unfold SOCK_STATE_CALLBACK, upd_server, dispatch_ready.
    destruct tcp; cbn; rewrite ?N0, ?S0, ?Q0, ?C0.
    - split; [|split; [done|]].
      + apply fit_open; [exact Hr|]. intros s0. simpl.
        split; [done|]. intros c' [Hin|[= <-]]; [|by left].
        apply elem_of_app in Hin as [Hin|Hin%list_elem_of_singleton];
          [right; by left|by left].
      + rewrite list_lookup_alter_eq, Hs. simpl. eauto.
    - split; [|split; [done|]].
      + apply fit_open; [exact Hr|]. intros s0. simpl.
        split; [done|]. intros c' [Hin|Ht]; [|right; by right].
        apply elem_of_cons in Hin as [->|Hin]; [by left|right; by left].
      + rewrite list_lookup_alter_eq, Hs. simpl. eauto. }
  destruct (io_open (env ch)) as [|[st s] rest]; cbv iota beta.
  - destruct (Hopen ch (Z.of_nat (next_conn ch))) as (R & Q & F); try done.
    eexists _, _. split; [reflexivity|]. split; [exact R|].
    split; [exact Q|]. intros _. exact F.
  - destruct (decide (st = ARES_SUCCESS)) as [->|Hne].
    + destruct (Hopen (set_env (set_io_open rest (env ch)) ch) s)
        as (R & Q & F); try done.
      eexists _, _. split; [reflexivity|]. split; [exact R|].
      split; [exact Q|]. intros _. exact F.
    + exists st, (set_env (set_io_open rest (env ch)) ch).
      split; [by destruct st|]. split; [exact Hr|]. split; [done|done].
Qed.

Lemma ares__socket_write_tables s data ch count ch' :
  ares__socket_write s data ch = (count, ch') →
  nservers ch' = nservers ch ∧ servers ch' = servers ch
  ∧ queries ch' = queries ch ∧ conns ch' = conns ch.
Proof.
  unfold ares__socket_write.
  destruct (io_write (env ch)) as [|[] rest]; intros [= <- <-]; done.
Qed.

Lemma ares__buf_append_ready sidx data ch st ch' :
  ares__buf_append sidx data ch = (st, ch') →
  dispatch_ready ch →
  dispatch_ready ch' ∧ queries ch' = queries ch ∧ conns ch' = conns ch.
Proof.
  unfold ares__buf_append. intros H Hr.
  destruct (alloc ch) as [ok ch1] eqn:Ha.
  destruct (alloc_tables _ _ _ Ha) as (N & S & Q & C).
  assert (R1 : dispatch_ready ch1).
  { unfold dispatch_ready. by rewrite N, S, Q, C. }
  destruct ok; injection H as <- <-; [|done].
  split; [|done]. unfold dispatch_ready. simpl.
  by apply fit_alter_server.
Qed.

Lemma send_query_tcp_safe ch qr now q srv conn :
  dispatch_ready ch → queries ch !! qr = Some q →
  servers ch !! Z.to_nat (q_server q) = Some srv →
  tcp_conn srv = Some conn →
  safe (send_query_tcp ch qr now q).
Proof.
  intros Hr Hq Hs Ht. unfold send_query_tcp.
  destruct (fit_queries _ _ _ _ Hr qr q Hq) as [Hrange Hinfo].
  destruct (dispatch_ready_server ch (q_server q) Hr Hrange)
    as (srv' & Hs' & _ & ->).
  rewrite Hs in Hs'. injection Hs' as <-. simpl. rewrite Ht. simpl.
  destruct (ares__buf_append _ _ ch) as [st ch1] eqn:Hb.
  destruct (ares__buf_append_ready _ _ _ _ _ Hb Hr) as (R1 & Q1 & C1).
  destruct (fit_conns _ _ _ _ Hr _ srv conn Hs (or_intror Ht)) as [c Hc].
  destruct (decide (st = ARES_SUCCESS)) as [->|Hne].
  - assert (Hstep : ∃ ch2,
              (if decide (length (tcp_send srv) = 0%nat)
               then c ← get_conn ch1 conn;
                    Done (SOCK_STATE_CALLBACK ch1 (fd c) true true)
               else Done ch1) = Done ch2
              ∧ dispatch_ready ch2 ∧ queries ch2 = queries ch1
              ∧ conns ch2 = conns ch1).
    { destruct (decide _); [|by eauto].
      unfold get_conn. rewrite C1, Hc. simpl. eauto. }
    destruct Hstep as (ch2 & -> & R2 & Q2 & C2). simpl.
    destruct (lookup_lt_is_Some_2 (server_info q) (Z.to_nat (q_server q)))
      as [info Hi]; [lia|].
    rewrite Hi. simpl. apply send_query_enqueue_safe.
    + unfold dispatch_ready. simpl.
      apply fit_alter_query_kept; [exact R2|]. intros q0. simpl.
      by rewrite length_alter.
    + simpl. rewrite lookup_alter_eq, Q2, Q1, Hq. simpl. eauto.
    + simpl. rewrite C2, C1, Hc. eauto.
  - destruct (end_query_ready ch1 qr st None 0 R1) as (ch2 & -> & R2);
      [rewrite Q1, Hq; eauto|exact R2].
Qed.

Lemma send_query_udp_safe next ch qr now q conn :
  safe_next qr now next →
  dispatch_ready ch → queries ch !! qr = Some q →
  is_Some (conns ch !! conn) →
  safe (send_query_udp next ch qr now q conn).
Proof.
  intros Hnext Hr Hq [c Hc]. unfold send_query_udp, get_conn.
  rewrite Hc. simpl.
  destruct (ares__socket_write _ _ ch) as [count ch1] eqn:Hw.
  destruct (ares__socket_write_tables _ _ _ _ _ Hw) as (N & S & Q & C).
  assert (R1 : dispatch_ready ch1).
  { unfold dispatch_ready. by rewrite N, S, Q, C. }
  destruct (fit_queries _ _ _ _ Hr qr q Hq) as [Hrange Hinfo].
  destruct (count =? -1).
  - rewrite <- N in Hrange.
    destruct (dispatch_ready_server ch1 (q_server q) R1 Hrange)
      as (srv & Hs & _ & ->). simpl.
    destruct (skip_server_ready ch1 qr (Z.to_nat (q_server q)) srv q R1)
      as (ch2 & -> & R2 & Hq2);
      [by rewrite Q|exact Hs|].
    simpl. by apply Hnext.
  - apply send_query_enqueue_safe; [exact R1| |].
    + rewrite Q, Hq. eauto.
    + rewrite C, Hc. eauto.
Qed.

Lemma after_open_safe next ch qr now q status good :
  safe_next qr now next →
  dispatch_ready ch → queries ch !! qr = Some q →
  (status = ARES_SUCCESS → safe (good ch)) →
  safe (after_open next ch qr now (q_server q) status good).
Proof.
  intros Hnext Hr Hq Hgood.
  destruct (fit_queries _ _ _ _ Hr qr q Hq) as [Hrange Hinfo].
  assert (Hskip : safe (server ← get_server ch (q_server q);
                        ch1 ← skip_server ch qr server;
                        next ch1 qr now)).
  { destruct (dispatch_ready_server ch (q_server q) Hr Hrange)
      as (srv & Hs & _ & ->). simpl.
    destruct (skip_server_ready ch qr (Z.to_nat (q_server q)) srv q Hr Hq Hs)
      as (ch2 & -> & R2 & Hq2).
    simpl. by apply Hnext. }
  assert (Hend : ∀ st, safe (ch1 ← end_query ch qr st None 0;
                             Done (st, ch1))).
  { intros st. destruct (end_query_ready ch qr st None 0 Hr)
      as (ch2 & -> & R2); [rewrite Hq; eauto|exact R2]. }
  unfold after_open. destruct status; try apply Hend; try exact Hskip.
  by apply Hgood.
Qed.

Lemma send_query_with_safe next ch qr now :
  safe_next qr now next →
  dispatch_ready ch → is_Some (queries ch !! qr) →
  safe (send_query_with next ch qr now).
Proof.
  intros Hnext Hr [q Hq]. unfold send_query_with, get_query.
  rewrite Hq. simpl.
  destruct (fit_queries _ _ _ _ Hr qr q Hq) as [Hrange Hinfo].
  destruct (dispatch_ready_server ch (q_server q) Hr Hrange)
    as (srv & Hs & _ & ->). simpl.
  pose proof (lookup_lt_Some _ _ _ Hs) as Hlt.
  destruct (using_tcp q).
  - destruct (tcp_conn srv) as [conn|] eqn:Ht.
    + by apply (send_query_tcp_safe ch qr now q srv conn).
    + destruct (ares__open_connection_ready ch (Z.to_nat (q_server q)) true
                  Hr Hlt) as (st & ch1 & -> & R1 & Q1 & Hnew).
      simpl. apply after_open_safe; [done|done|by rewrite Q1|].
      intros Hst. destruct (Hnew Hst) as (srv1 & cid & Hs1 & Ht1).
      apply (send_query_tcp_safe ch1 qr now q srv1 cid); try done.
      by rewrite Q1.
  - unfold reusable_udp_conn.
    assert (Hopen : safe ('(status, ch1) ← ares__open_connection ch
                                             (Z.to_nat (q_server q)) false;
                          after_open next ch1 qr now (q_server q) status
                            (λ ch2,
                               server ← get_server ch2 (q_server q);
                               conn ← deref (head (connections server));
                               send_query_udp next ch2 qr now q conn))).
    { destruct (ares__open_connection_ready ch (Z.to_nat (q_server q)) false
                  Hr Hlt) as (st & ch1 & -> & R1 & Q1 & Hnew).
      simpl. apply after_open_safe; [done|done|by rewrite Q1|].
      intros Hst. destruct (Hnew Hst) as (srv1 & cid & Hs1 & Hh1).
      assert (Hrange1 : 0 ≤ q_server q < nservers ch1).
      { apply (fit_queries _ _ _ _ R1 qr q). by rewrite Q1. }
      destruct (dispatch_ready_server ch1 (q_server q) R1 Hrange1)
        as (srv' & Hs' & _ & ->).
      rewrite Hs1 in Hs'. injection Hs' as <-. simpl. rewrite Hh1. simpl.
      apply send_query_udp_safe; [done|done|by rewrite Q1|].
      apply (fit_conns _ _ _ _ R1 _ srv1 cid Hs1). left.
      destruct (connections srv1); [done|]. injection Hh1 as ->. by left. }
    destruct (head (connections srv)) as [conn|] eqn:Hh; simpl;
      [|exact Hopen].
    assert (Hlive : is_Some (conns ch !! conn)).
    { apply (fit_conns _ _ _ _ Hr _ srv conn Hs). left.
      destruct (connections srv); [done|]. injection Hh as ->. by left. }
    destruct Hlive as [c Hc]. unfold get_conn. rewrite Hc. simpl.
    destruct (is_tcp c); simpl; [exact Hopen|].
    destruct (_ && _); simpl; [exact Hopen|].
    apply send_query_udp_safe; try done.
Qed.

Lemma next_server_fuel_safe qr now fuel :
  safe_next qr now (next_server_fuel fuel).
Proof.
  induction fuel as [|fuel IH]; intros ch Hr [q Hq].
  - simpl. unfold get_query. rewrite Hq. simpl.
    destruct (_ && _); [done|].
    destruct (end_query_ready
                (upd_query qr (set_try_count (size_wrap (try_count q + 1))) ch)
                qr (error_status q) None 0) as (ch2 & -> & R2); [| |exact R2].
    + unfold dispatch_ready. simpl. by apply fit_alter_query_kept.
    + simpl. rewrite lookup_alter_eq, Hq. simpl. eauto.
  - cbn [next_server_fuel]. unfold get_query. rewrite Hq. simpl.
    set (ch1 := upd_query qr _ ch).
    assert (R1 : dispatch_ready ch1).
    { unfold dispatch_ready. simpl. by apply fit_alter_query_kept. }
    assert (Hq1 : is_Some (queries ch1 !! qr)).
    { simpl. rewrite lookup_alter_eq, Hq. simpl. eauto. }
    destruct (_ && _).
    + destruct (nservers ch =? 0) eqn:E.
      { apply Z.eqb_eq in E. destruct Hr as [[? _] _ _ _]. lia. }
      destruct (fit_queries _ _ _ _ Hr qr q Hq) as [Hrange Hinfo].
      set (next := size_wrap (q_server q + 1) mod nservers ch).
      assert (Hnext : 0 ≤ next < nservers ch)
        by (apply Z.mod_pos_bound; lia).
      set (ch2 := upd_query qr (set_q_server next) ch1).
      assert (R2 : dispatch_ready ch2).
      { unfold dispatch_ready. simpl. apply fit_alter_query; [exact R1|].
        intros q0 Hq0. simpl. split; [exact Hnext|].
        subst ch1. simpl in Hq0. rewrite lookup_alter_eq, Hq in Hq0.
        simpl in Hq0. injection Hq0 as <-. exact Hinfo. }
      destruct (dispatch_ready_server ch2 next R2 Hnext)
        as (srv & Hs & _ & ->). simpl.
      destruct (lookup_lt_is_Some_2 (server_info q) (Z.to_nat next))
        as [info Hi]; [lia|].
      rewrite Hi. simpl.
      assert (Hq2 : is_Some (queries ch2 !! qr)).
      { destruct Hq1 as [q1 Hq1]. simpl. rewrite lookup_alter_eq.
        simpl in Hq1. rewrite Hq1. simpl. eauto. }
      destruct (server_usable q info srv).
      * by apply send_query_with_safe.
      * by apply IH.
    + destruct (end_query_ready ch1 qr (error_status q) None 0 R1 Hq1)
        as (ch3 & -> & R3). exact R3.
Qed.

(** On a channel fit for dispatch [next_server] returns, and leaves the
    channel fit. *)
Lemma next_server_returns ch qr now :
  dispatch_ready ch → is_Some (queries ch !! qr) →
  ∃ st ch', next_server ch qr now = Done (st, ch') ∧ dispatch_ready ch'.
Proof.
  intros Hr Hq.
  pose proof (next_server_fuel_safe qr now (next_server_rounds ch) ch Hr Hq)
    as Hsafe.
  pose proof (next_server_total ch qr now) as Htot.
  unfold next_server in *.
  destruct (next_server_fuel _ ch qr now) as [[st ch']| |]; [eauto|done|done].
Qed.

Lemma ares__send_query_returns ch qr now :
  dispatch_ready ch → is_Some (queries ch !! qr) →
  ∃ st ch', ares__send_query ch qr now = Done (st, ch') ∧ dispatch_ready ch'.
Proof.
  intros Hr Hq.
  assert (Hsafe : safe (ares__send_query ch qr now)).
  { apply send_query_with_safe; [|done|done].
    intros ch1 R1 Hq1. unfold next_server. by apply next_server_fuel_safe. }
  pose proof (ares__send_query_total ch qr now) as Htot.
  destruct (ares__send_query ch qr now) as [[st ch']| |]; [eauto|done|done].
Qed.

(** ** The deadline of a sent query *)

(** C2, as amended.  When [ares__send_query] enqueues the query, the new
    deadline is [now] plus [timeplus]: with [shift = try_count / nservers],
    the channel timeout shifted left by [shift] when the shifted value
    stays below [2 ^ 31] (the guard is written for an [int]: no bit of
    the timeout at or above bit [31 - shift] may be set), else the
    channel timeout unchanged.  With [nservers = 2] and [timeout = 1000]
    the six attempts that [tries = 3] allows wait 1000, 1000, 2000, 2000,
    4000 and 4000 ms. *)
Theorem send_query_deadline (ch : ares_channel) (qr : nat) (now : timeval)
  (q : query) (ch' : ares_channel) (q' : query) :
  0 ≤ timeout ch → 0 < nservers ch →
  queries ch !! qr = Some q → 0 ≤ try_count q →
  ares__send_query ch qr now = Done (ARES_SUCCESS, ch') →
  queries ch' !! qr = Some q' →
  let shift := try_count q' / nservers ch in
  let timeplus :=
    if timeout ch * 2 ^ shift <? 2 ^ 31 then timeout ch * 2 ^ shift
    else timeout ch in
  q_timeout q' = timeadd now timeplus
  ∧ (timeout ch < 2 ^ 63 →
     usecs (q_timeout q') = usecs now + 1000 * timeplus)
  ∧ map (λ try_count, timeplus_for 1000 try_count 2) [0; 1; 2; 3; 4; 5]
    = [1000; 1000; 2000; 2000; 4000; 4000].
Proof.
  intros Ht Hn Hq Hc H Hq' shift timeplus.
  destruct (ares__send_query_finished _ _ _ _ _ _ Hq H) as [_ _ _ _ Hfin].
  destruct Hfin as [[Hnone _]|(_ & _ & q1 & conn & Hq1 & _ & _ & Hm & Hd)];
    [congruence|].
  rewrite Hq' in Hq1. injection Hq1 as <-.
  assert (Hdead : q_timeout q' = timeadd now timeplus).
  { rewrite Hd. f_equal. apply timeplus_for_spec; try done.
    by apply (resent_count _ _ Hm). }
  split; [exact Hdead|]. split; [|reflexivity].
  intros Hlt. rewrite Hdead. apply usecs_timeadd.
  assert (0 ≤ shift).
  { apply Z.div_pos; [|done]. by apply (resent_count _ _ Hm). }
  assert (0 < 2 ^ shift) by (apply Z.pow_pos_nonneg; lia).
  subst timeplus.
  destruct (timeout ch * 2 ^ shift <? 2 ^ 31) eqn:E; [|lia].
  apply Z.ltb_lt in E. split; [nia|lia].
Qed.

(** ** next_server *)

(** C3, as amended.  For a query whose [no_retries] flag is clear,
    [next_server] does what its description says: it steps [try_count] and
    the server index (modulo [nservers]) over the candidates left before
    [try_count] reaches [nservers * tries], skips the servers flagged for
    the query and, over TCP, those whose connection generation is the one
    the query recorded, calls [ares__send_query] on the first acceptable
    candidate and ends the query with its [error_status] when there is
    none.  A query whose [no_retries] flag is set is ended at once with
    its [error_status].  In both cases the loop ends, and on a channel
    whose tables cover what the dispatcher looks up it returns. *)
Theorem next_server_as_described (ch : ares_channel) (qr : nat)
  (now : timeval) (q : query) :
  queries ch !! qr = Some q → retry_ready ch q →
  (no_retries q = false →
   next_server ch qr now = next_server_described ch qr now)
  ∧ (no_retries q = true →
     next_server ch qr now
     = (ch' ← end_query ch qr (error_status q) None 0;
        Done (error_status q, ch')))
  ∧ next_server ch qr now ≠ OutOfFuel
  ∧ (dispatch_ready ch →
     ∃ st ch', next_server ch qr now = Done (st, ch')).
Proof.
  intros Hq Hready. split; [|split; [|split]]; [intros Hnr|intros Hnr| |].
  3: apply next_server_total.
  3:{ intros Hr. destruct (next_server_returns ch qr now Hr) as (st & ch' & H & _);
        [rewrite Hq|]; eauto. }
  - eapply next_server_fuel_described; eauto.
    apply next_server_rounds_enough.
  - unfold next_server. rewrite next_server_fuel_eq. unfold get_query.
    rewrite Hq. simpl. rewrite Hnr, Bool.andb_false_r.
    rewrite end_query_upd_query; [done|]. intros q0. by repeat split.
Qed.

(** ** The example channel *)

Example example_first_send :
  ∃ ch', ares__send_query (example_channel 0 false) 0 time0
         = Done (ARES_SUCCESS, ch')
    ∧ (q_timeout <$> queries ch' !! 0%nat)
      = Some {| tv_sec := 101; tv_usec := 0 |}
    ∧ sent (env ch') = [(0, drop 2 example_request)].
Proof. eexists. split; [vm_compute; reflexivity|]. vm_compute. done. Qed.

(** ** The requeue loop of [handle_error] *)

Lemma remove_node_head qr l : remove_node qr (qr :: l) = l.
Proof. simpl. by rewrite decide_True. Qed.

Lemma remove_node_not_in (x : nat) (l : list nat) :
  NoDup l → x ∉ remove_node x l.
Proof.
  induction l as [|y l IH]; intros Hnd; simpl; [apply not_elem_of_nil|].
  apply NoDup_cons in Hnd as [Hy Hnd].
  destruct (decide (y = x)) as [->|Hne]; [done|].
  apply not_elem_of_cons. split; [congruence|]. by apply IH.
Qed.

Lemma skip_server_spec ch qr server q ch' :
  queries ch !! qr = Some q →
  skip_server ch qr server = Done ch' →
  prestep qr ch ch'
  ∧ (1 < nservers ch →
     ∃ q' info, queries ch' !! qr = Some q'
       ∧ server_info q' !! Z.to_nat (idx server) = Some info
       ∧ si_skip_server info = true).
Proof.
  intros Hq H. split; [by eapply skip_server_prestep|].
  intros Hn. unfold skip_server in H.
  destruct (1 <? nservers ch) eqn:E; [|apply Z.ltb_ge in E; lia].
  unfold get_query in H. rewrite Hq in H. simpl in H.
  destruct (server_info q !! Z.to_nat (idx server)) as [info|] eqn:Hi;
    [|discriminate].
  simpl in H. injection H as <-. simpl. rewrite lookup_alter_eq, Hq. simpl.
  eexists _, _. split; [reflexivity|]. simpl.
  rewrite list_lookup_alter_eq, Hi. simpl. done.
Qed.

Lemma same_config_idx ch ch' i :
  same_config ch ch' → idx <$> servers ch' !! i = idx <$> servers ch !! i.
Proof.
  intros (_ & _ & _ & _ & _ & _ & H).
  by rewrite <- !list_lookup_fmap, H.
Qed.

Lemma handle_error_requeue_spec conn l sidx sid now :
  ∀ fuel ch qs,
    detached ch conn l → llists ch !! l = Some qs → NoDup qs →
    (length qs ≤ fuel)%nat →
    idx <$> servers ch !! sidx = Some sid →
    (∀ qr, qr ∈ qs →
       ∃ q, queries ch !! qr = Some q ∧ node_queries_to_conn q = Some l
         ∧ error_status q ≠ ARES_SUCCESS) →
    handle_error_requeue fuel ch l sidx now ≠ OutOfFuel
    ∧ ∀ ch', handle_error_requeue fuel ch l sidx now = Done ch' →
        detached ch' conn l ∧ llists ch' !! l = Some [] ∧ same_config ch ch'
        ∧ (∀ r, r ∉ qs → queries ch' !! r = queries ch !! r)
        ∧ (∀ c0, is_Some (conns ch !! c0) → is_Some (conns ch' !! c0))
        ∧ ∃ evs, callbacks (env ch') = callbacks (env ch) ++ evs
            ∧ ∀ qr, qr ∈ qs → requeued ch ch' evs conn sid qr.
Proof.
  induction fuel as [|fuel IH]; intros ch qs Hd Hl Hnd Hlen Hsid Hnodes;
    simpl; rewrite Hl; simpl.
  - destruct qs as [|qr rest]; [|simpl in Hlen; lia].
    split; [done|]. intros ch' [= <-].
    split; [exact Hd|]. split; [exact Hl|]. split; [by repeat split|].
    split; [done|]. split; [done|].
    exists (@nil callback_event). rewrite app_nil_r. split; [done|].
    intros qr Hin. by apply elem_of_nil in Hin.
  - destruct qs as [|qr rest].
    { split; [done|]. intros ch' [= <-].
      split; [exact Hd|]. split; [exact Hl|]. split; [by repeat split|].
      split; [done|]. split; [done|].
      exists (@nil callback_event). rewrite app_nil_r. split; [done|].
      intros qr Hin. by apply elem_of_nil in Hin. }
    destruct (Hnodes qr) as (q & Hq & Hnode & Herr); [by left|].
    unfold get_query. rewrite Hq. simpl.
    destruct (servers ch !! sidx) as [srv|] eqn:Hsrv; [|done]. simpl.
    simpl in Hsid. injection Hsid as Hsid.
    destruct (q_server q =? idx srv); simpl; [|done].
    destruct (skip_server ch qr srv) as [ch1| |] eqn:Hskip; simpl; [|done|].
    2:{ by apply skip_server_fuel in Hskip. }
    destruct (skip_server_spec _ _ _ _ _ Hq Hskip) as [Hp Hflag].
    destruct (pre_query _ _ _ Hp q Hq) as (q1 & Hq1 & Hk).
    destruct (next_server ch1 qr now) as [[st ch2]| |] eqn:Hnext; simpl;
      [|done|].
    2:{ by apply next_server_total in Hnext. }
    pose proof (next_server_finished _ _ _ _ _ _ Hq1 Hnext)
      as [FC FO FN FD FQ].
    destruct (pre_detached _ _ _ Hp conn l Hd) as [Hd1 Hl1].
    destruct (FD conn l Hd1) as [Hd2 Hl2].
    assert (Hnode1 : node_queries_to_conn q1 = Some l).
    { destruct Hk as (infos & -> & _). exact Hnode. }
    rewrite decide_True in Hl2 by exact Hnode1.
    rewrite Hl1, Hl in Hl2. simpl in Hl2. rewrite decide_True in Hl2 by done.
    apply NoDup_cons in Hnd as [Hnotin Hnd].
    assert (Hcfg2 : same_config ch ch2).
    { destruct (pre_config _ _ _ Hp) as (? & ? & ? & ? & ? & ? & ?).
      destruct FC as (? & ? & ? & ? & ? & ? & ?).
      repeat split; congruence. }
    assert (Hrest : ∀ r, r ≠ qr → queries ch2 !! r = queries ch !! r).
    { intros r Hr. rewrite FO by done. by apply (pre_others _ _ _ Hp). }
    destruct (IH ch2 rest Hd2 Hl2 Hnd) as [Hfuel Hdone].
    { simpl in Hlen. lia. }
    { rewrite (same_config_idx _ _ _ Hcfg2), Hsrv. simpl. by rewrite Hsid. }
    { intros r Hr. destruct (Hnodes r) as (q0 & Hq0 & Hn0 & He0); [by right|].
      exists q0. rewrite Hrest; [done|]. intros ->. done. }
    split; [exact Hfuel|]. intros ch' Hrun.
    destruct (Hdone ch' Hrun) as (Hd' & Hl' & Hcfg' & Hoth' & Hcon' & evs & Hev' & Hreq').
    split; [exact Hd'|]. split; [exact Hl'|]. split.
    { destruct Hcfg2 as (? & ? & ? & ? & ? & ? & ?).
      destruct Hcfg' as (? & ? & ? & ? & ? & ? & ?).
      repeat split; congruence. }
    split.
    { intros r Hr. apply not_elem_of_cons in Hr as [Hr1 Hr2].
      rewrite Hoth' by done. by apply Hrest. }
    split.
    { intros c0 Hc0. apply Hcon', FN. by apply (pre_conns _ _ _ Hp). }
    assert (Hn2 : nservers ch2 = nservers ch) by (by destruct Hcfg2 as (_ & _ & -> & _)).
    destruct FQ as [(Hnone & ev & Hcb & Hevq & Heva & Hevb & Hevs)|
                    (Hst & Hcb & q' & c' & Hq' & Hc' & Hlive & Hm & _)].
    + (* the query was ended *)
      exists (ev :: evs). split.
      { rewrite Hev', Hcb, (pre_callbacks _ _ _ Hp), <- app_assoc. done. }
      intros r Hr. apply elem_of_cons in Hr as [->|Hr].
      * right. rewrite Hoth' by done. split; [done|].
        exists ev. split; [by left|]. repeat split; try done.
        apply Hevs. destruct Hk as (infos & -> & _). exact Herr.
      * destruct (Hreq' r Hr) as [(q0 & c0 & ? & ? & ? & ? & Hs0)|
                                  (? & ev0 & ? & ?)].
        -- left. exists q0, c0. repeat split; try done.
           intros Hn. apply Hs0. by rewrite Hn2.
        -- right. split; [done|]. exists ev0. split; [by right|done].
    + (* the query was sent again *)
      exists evs. split.
      { rewrite Hev', Hcb, (pre_callbacks _ _ _ Hp). done. }
      intros r Hr. apply elem_of_cons in Hr as [->|Hr].
      * left. exists q', c'. rewrite Hoth' by done.
        split; [done|]. split; [done|]. split.
        { intros ->. destruct Hlive as [x Hx]. destruct Hd2 as (Hnone & _).
          congruence. }
        split; [by apply Hcon'|].
        intros Hn. destruct (Hflag Hn) as (q1' & info & Hq1' & Hi & Hs).
        rewrite Hq1 in Hq1'. injection Hq1' as <-.
        rewrite <- Hsid.
        destruct (resent_skip _ _ Hm _ _ Hi) as (info' & Hi' & Hs').
        exists info'. split; [done|]. by apply Hs'.
      * destruct (Hreq' r Hr) as [(q0 & c0 & ? & ? & ? & ? & Hs0)|
                                  (? & ev0 & ? & ?)].
        -- left. exists q0, c0. repeat split; try done.
           intros Hn. apply Hs0. by rewrite Hn2.
        -- right. split; [done|]. exists ev0. split; [done|done].
Qed.

(** ** [handle_error] returns *)

Lemma remove_node_elem (x y : nat) (l : list nat) :
  y ∈ remove_node x l → y ∈ l.
Proof.
  induction l as [|z l IH]; simpl; [done|].
  destruct (decide (z = x)); [by right|].
  intros [->|H]%elem_of_cons; [by left|right; by apply IH].
Qed.

Lemma handle_error_requeue_returns conn l sidx sid now :
  ∀ fuel ch qs,
    detached ch conn l → llists ch !! l = Some qs → NoDup qs →
    (length qs ≤ fuel)%nat →
    idx <$> servers ch !! sidx = Some sid →
    (∀ qr, qr ∈ qs →
       ∃ q, queries ch !! qr = Some q ∧ node_queries_to_conn q = Some l
         ∧ q_server q = sid) →
    dispatch_ready ch →
    ∃ ch', handle_error_requeue fuel ch l sidx now = Done ch'.
Proof.
  induction fuel as [|fuel IH]; intros ch qs Hd Hl Hnd Hlen Hsid Hnodes Hr;
    simpl; rewrite Hl; simpl.
  - destruct qs as [|qr rest]; [eauto|simpl in Hlen; lia].
  - destruct qs as [|qr rest]; [eauto|].
    destruct (Hnodes qr) as (q & Hq & Hnode & Hserver); [by left|].
    unfold get_query. rewrite Hq. simpl.
    destruct (servers ch !! sidx) as [srv|] eqn:Hsrv; [|done]. simpl.
    simpl in Hsid. injection Hsid as Hsid.
    rewrite Hserver, Hsid, Z.eqb_refl. simpl.
    destruct (skip_server_ready ch qr sidx srv q Hr Hq Hsrv)
      as (ch1 & Hskip & R1 & Hq1').
    rewrite Hskip. simpl.
    destruct (skip_server_spec _ _ _ _ _ Hq Hskip) as [Hp _].
    destruct (pre_query _ _ _ Hp q Hq) as (q1 & Hq1 & Hk).
    destruct (next_server_returns ch1 qr now R1 Hq1')
      as (st & ch2 & Hnext & R2).
    rewrite Hnext. simpl.
    pose proof (next_server_finished _ _ _ _ _ _ Hq1 Hnext)
      as [FC FO FN FD FQ].
    destruct (pre_detached _ _ _ Hp conn l Hd) as [Hd1 Hl1].
    destruct (FD conn l Hd1) as [Hd2 Hl2].
    assert (Hnode1 : node_queries_to_conn q1 = Some l).
    { destruct Hk as (infos & -> & _). exact Hnode. }
    rewrite decide_True in Hl2 by exact Hnode1.
    rewrite Hl1, Hl in Hl2. simpl in Hl2. rewrite decide_True in Hl2 by done.
    apply NoDup_cons in Hnd as [Hnotin Hnd].
    assert (Hcfg2 : same_config ch ch2).
    { destruct (pre_config _ _ _ Hp) as (? & ? & ? & ? & ? & ? & ?).
      destruct FC as (? & ? & ? & ? & ? & ? & ?).
      repeat split; congruence. }
    assert (Hrest : ∀ r, r ≠ qr → queries ch2 !! r = queries ch !! r).
    { intros r Hne. rewrite FO by done. by apply (pre_others _ _ _ Hp). }
    apply (IH ch2 rest); try done.
    + simpl in Hlen. lia.
    + rewrite (same_config_idx _ _ _ Hcfg2), Hsrv. simpl. by rewrite Hsid.
    + intros r Hin. destruct (Hnodes r) as (q0 & Hq0 & Hn0 & Hs0); [by right|].
      exists q0. rewrite Hrest; [done|]. by intros ->.
Qed.

Lemma handle_error_returns ch conn now c l qs sid :
  error_ready ch conn c l qs sid → requeue_ready ch conn c qs sid →
  ∃ ch', handle_error ch conn now = Done ch'.
Proof.
  intros [Hc Hlist Hqs Hnd Hnodes [Hf1 Hf2] Hown (srv & Hsrv & Hsid & Hnds)]
    [[Hn Hlen] Hidx Hqr Hcs Hmine Htcp Hserver].
  unfold handle_error, get_conn. rewrite Hc. simpl. rewrite Hlist.
  unfold ares__close_connection, get_conn. simpl.
  rewrite lookup_alter_eq, Hc. simpl.
  set (ch1 := set_conns _ _).
  assert (Hl1 : llists ch1 = llists ch) by done.
  assert (Hq1 : queries ch1 = queries ch) by done.
  assert (Hother : ∀ c', c' ≠ conn → conns ch1 !! c' = conns ch !! c').
  { intros c' Hne. subst ch1. simpl.
    rewrite lookup_delete_ne, lookup_alter_ne by done. done. }
  assert (Hd1 : detached ch1 conn l).
  { repeat split; try done.
    - subst ch1. simpl. apply lookup_delete_eq.
    - intros c' cn Hc' Heq. destruct (decide (c' = conn)) as [->|Hne].
      + subst ch1. simpl in Hc'. by rewrite lookup_delete_eq in Hc'.
      + rewrite Hother in Hc' by done. by apply Hne, (Hown c' cn). }
  assert (Hidx1 : idx <$> servers ch1 !! conn_server c = Some sid).
  { subst ch1. simpl. rewrite list_lookup_alter_eq, Hsrv. simpl.
    destruct (is_tcp c); simpl; by rewrite Hsid. }
  assert (R1 : dispatch_ready ch1).
  { subst ch1. unfold dispatch_ready. simpl. split.
    - by rewrite length_alter.
    - intros i s. destruct (decide (i = conn_server c)) as [->|Hi].
      + rewrite list_lookup_alter_eq, Hsrv. simpl. intros [= <-].
        destruct (is_tcp c); simpl; by apply Hidx.
      + rewrite list_lookup_alter_ne by done. apply Hidx.
    - exact Hqr.
    - intros i s c'. destruct (decide (i = conn_server c)) as [->|Hi].
      + rewrite list_lookup_alter_eq, Hsrv. simpl. intros [= <-] Hin.
        assert (c' ≠ conn ∧ (c' ∈ connections srv ∨ tcp_conn srv = Some c'))
          as [Hne Hold].
        { destruct (is_tcp c) eqn:Etcp; simpl in Hin;
            destruct Hin as [Hin|Hin]; try done.
          - split; [|left; by apply (remove_node_elem conn)].
            intros ->. by apply (remove_node_not_in conn (connections srv)).
          - split; [|left; by apply (remove_node_elem conn)].
            intros ->. by apply (remove_node_not_in conn (connections srv)).
          - split; [|by right]. intros ->.
            by specialize (Htcp srv Hsrv Hin). }
        rewrite lookup_delete_ne, lookup_alter_ne by done.
        by apply (Hcs (conn_server c) srv).
      + rewrite list_lookup_alter_ne by done. intros Hs0 Hin.
        assert (c' ≠ conn) by (intros ->; by apply Hi, (Hmine i s)).
        rewrite lookup_delete_ne, lookup_alter_ne by done.
        by apply (Hcs i s). }
  clearbody ch1. rewrite ?Hl1, Hqs. simpl.
  destruct (handle_error_requeue_returns conn l (conn_server c) sid now
              (length qs) ch1 qs) as [ch2 ->]; try done.
  - by rewrite Hl1.
  - intros qr Hin. destruct (Hnodes qr Hin) as (q & Hq & Hnode & _).
    exists q. rewrite Hq1. split; [done|]. split; [done|].
    by apply (Hserver qr).
  - simpl. eauto.
Qed.

(** C4. [handle_error] on a connection [conn] terminates, on a channel
    whose tables cover what the dispatcher looks up it returns, and when
    it returns: the connection was closed and removed from
    [connnode_by_socket], from its server's list and from the store before
    the first requeue, with its queries still waiting in the stolen list
    and no callback called; every query that waited on it was passed to
    [skip_server] for that server and to [next_server], so that it is now
    either sent again on another live connection or ended with an error
    callback; and nothing is left on the failed connection, which no
    longer exists. *)
Theorem handle_error_requeues (ch : ares_channel) (conn : nat) (now : timeval)
  (c : server_connection) (l : nat) (qs : list nat) (sid : Z) :
  error_ready ch conn c l qs sid →
  (requeue_ready ch conn c qs sid →
   ∃ ch', handle_error ch conn now = Done ch')
  ∧ handle_error ch conn now ≠ OutOfFuel
  ∧ ∀ ch', handle_error ch conn now = Done ch' →
      (∃ ch1 ch2,
         ares__close_connection
           (upd_conn conn (set_queries_to_conn None) ch) conn = Done ch1
         ∧ conns ch1 !! conn = None
         ∧ connnode_by_socket ch1 !! fd c = None
         ∧ (∃ srv1, servers ch1 !! conn_server c = Some srv1
              ∧ conn ∉ connections srv1)
         ∧ queries ch1 = queries ch ∧ llists ch1 !! l = Some qs
         ∧ callbacks (env ch1) = callbacks (env ch)
         ∧ handle_error_requeue (length qs) ch1 l (conn_server c) now
           = Done ch2
         ∧ ch' = set_llists (delete l (llists ch2)) ch2)
      ∧ conns ch' !! conn = None ∧ llists ch' !! l = None
      ∧ ∃ evs, callbacks (env ch') = callbacks (env ch) ++ evs
          ∧ ∀ qr, qr ∈ qs → requeued ch ch' evs conn sid qr.
Proof.
  intros Her. split; [by apply handle_error_returns with l|].
  destruct Her
    as [Hc Hlist Hqs Hnd Hnodes [Hf1 Hf2] Hown (srv & Hsrv & Hsid & Hnds)].
  unfold handle_error, get_conn. rewrite Hc. simpl. rewrite Hlist.
  unfold ares__close_connection, get_conn. simpl.
  rewrite lookup_alter_eq, Hc. simpl.
  set (ch1 := set_conns _ _).
  assert (Hconn1 : conns ch1 !! conn = None)
    by (subst ch1; simpl; apply lookup_delete_eq).
  assert (Hother : ∀ c', c' ≠ conn → conns ch1 !! c' = conns ch !! c').
  { intros c' Hne. subst ch1. simpl.
    rewrite lookup_delete_ne, lookup_alter_ne by done. done. }
  assert (Hsock1 : connnode_by_socket ch1 !! fd c = None)
    by (subst ch1; simpl; apply lookup_delete_eq).
  assert (Hq1 : queries ch1 = queries ch) by done.
  assert (Hl1 : llists ch1 = llists ch) by done.
  assert (Hcb1 : callbacks (env ch1) = callbacks (env ch)) by done.
  assert (Hx1 : next_conn ch1 = next_conn ch) by done.
  assert (Hcfg1 : same_config ch ch1).
  { subst ch1. repeat split; simpl. apply map_idx_alter. intros s.
    by destruct (is_tcp c). }
  assert (Hsrv1 : ∃ srv1, servers ch1 !! conn_server c = Some srv1
                    ∧ conn ∉ connections srv1).
  { subst ch1. simpl. rewrite list_lookup_alter_eq, Hsrv. simpl.
    eexists. split; [reflexivity|].
    destruct (is_tcp c); simpl; by apply remove_node_not_in. }
  assert (Hd1 : detached ch1 conn l).
  { repeat split; rewrite ?Hx1; try done.
    intros c' cn Hc' Heq. destruct (decide (c' = conn)) as [->|Hne];
      [congruence|].
    rewrite Hother in Hc' by done. by apply Hne, (Hown c' cn). }
  clearbody ch1. rewrite ?Hl1, Hqs. simpl.
  destruct (handle_error_requeue_spec conn l (conn_server c) sid now
              (length qs) ch1 qs Hd1) as [Hfuel Hdone].
  { by rewrite Hl1. }
  { done. }
  { done. }
  { rewrite (same_config_idx _ _ _ Hcfg1), Hsrv. simpl. by rewrite Hsid. }
  { intros qr Hin. rewrite Hq1. by apply Hnodes. }
  split.
  { by destruct (handle_error_requeue _ _ _ _ _). }
  intros ch' H. apply bind_Done in H as (ch2 & Hrun & H). injection H as <-.
  destruct (Hdone ch2 Hrun)
    as (Hd2 & Hl2 & Hcfg2 & Hoth2 & Hcon2 & evs & Hev2 & Hreq2).
  split.
  { exists ch1, ch2. rewrite Hl1. by repeat split. }
  simpl. split; [by destruct Hd2|]. split; [apply lookup_delete_eq|].
  exists evs. split; [by rewrite Hev2, Hcb1|].
  intros qr Hin.
  destruct (Hreq2 qr Hin) as [(q' & c' & ? & ? & ? & ? & Hs)|Hend].
  - left. exists q', c'. repeat split; try done. intros Hn. apply Hs.
    by destruct Hcfg1 as (_ & _ & -> & _).
  - right. exact Hend.
Qed.

(** ** Comparing questions *)

Lemma tolower_NUL c : tolower c = NUL ↔ c = NUL.
Proof.
  split; [|by intros ->].
  unfold tolower, char_code, NUL.
  destruct c as [[] [] [] [] [] [] [] []]; vm_compute; congruence.
Qed.

Lemma char_code_inj c d : char_code c = char_code d → c = d.
Proof.
  unfold char_code. intros H. apply Nat2Z.inj' in H || idtac.
  apply N2Z.inj in H.
  rewrite <- (ascii_N_embedding c), <- (ascii_N_embedding d). by rewrite H.
Qed.

Lemma char_code_NUL c : char_code c = 0 ↔ c = NUL.
Proof.
  split; [|by intros ->]. intros H. apply char_code_inj. exact H.
Qed.

Lemma strcasecmp_zero (a b : string) :
  strcasecmp a b = 0 ↔ lower a = lower b.
Proof.
  revert b. induction a as [|c a IH]; intros [|d b]; simpl.
  - done.
  - destruct (decide (d = NUL)) as [->|Hd]; [done|].
    split; [|discriminate].
    intros H. exfalso. apply Hd, tolower_NUL, char_code_NUL. lia.
  - destruct (decide (c = NUL)) as [->|Hc]; [done|].
    split; [|discriminate].
    intros H. exfalso. by apply Hc, tolower_NUL, char_code_NUL.
  - destruct (decide (tolower c = tolower d)) as [Heq|Hne].
    + destruct (decide (c = NUL)) as [->|Hc].
      * assert (d = NUL) as ->
          by (apply tolower_NUL; rewrite <- Heq; reflexivity).
        by rewrite decide_True.
      * destruct (decide (d = NUL)) as [->|Hd].
        { exfalso. apply Hc, tolower_NUL. rewrite Heq. reflexivity. }
        rewrite IH. split; [intros ->; by rewrite Heq|]. by intros [= _ ->].
    + split.
      * intros H. exfalso. apply Hne. apply char_code_inj. lia.
      * destruct (decide (c = NUL)) as [->|Hc], (decide (d = NUL)) as [->|Hd];
          try discriminate.
        -- done.
        -- intros [= H _]. done.
Qed.

Lemma same_questions_from_agree qrec arec (n : nat) :
  ∀ i, same_questions_from qrec arec i n = true ↔
    ∀ j, (j < n)%nat →
      ∃ a b, dns_questions qrec !! (i + j)%nat = Some a
        ∧ dns_questions arec !! (i + j)%nat = Some b ∧ same_question a b.
Proof.
  induction n as [|n IH]; intros i; simpl.
  - split; [intros _ j Hj; lia|done].
  - unfold ares_dns_record_query_get.
    assert (Hstep : (∀ j, (j < S n)%nat →
                ∃ a b, dns_questions qrec !! (i + j)%nat = Some a
                  ∧ dns_questions arec !! (i + j)%nat = Some b
                  ∧ same_question a b)
             ↔ (∃ a b, dns_questions qrec !! i = Some a
                  ∧ dns_questions arec !! i = Some b ∧ same_question a b)
               ∧ (∀ j, (j < n)%nat →
                   ∃ a b, dns_questions qrec !! (S i + j)%nat = Some a
                     ∧ dns_questions arec !! (S i + j)%nat = Some b
                     ∧ same_question a b)).
    { split.
      - intros H. split.
        + specialize (H 0%nat ltac:(lia)). by rewrite Nat.add_0_r in H.
        + intros j Hj. specialize (H (S j) ltac:(lia)).
          by rewrite Nat.add_succ_r in H.
      - intros [H0 H] [|j] Hj.
        + by rewrite Nat.add_0_r.
        + rewrite Nat.add_succ_r. apply H. lia. }
    rewrite Hstep, <- IH. clear Hstep IH.
    destruct (dns_questions qrec !! i) as [[[qn|] qt qc]|];
      [| |]; try (split; [done|]; intros [(a & b & [= <-] & _ & an & bn & Ha & _) _];
                   simpl in Ha; done);
      try (split; [done|]; by intros [(a & b & Ha & _) _]).
    destruct (dns_questions arec !! i) as [[[an|] atp ac]|];
      try (split; [done|]; intros [(a & b & _ & [= <-] & an' & bn & _ & Hb & _) _];
           simpl in Hb; done);
      try (split; [done|]; by intros [(a & b & _ & Hb & _) _]).
    destruct (strcasecmp qn an =? 0) eqn:Hs; simpl.
    + apply Z.eqb_eq, strcasecmp_zero in Hs.
      destruct (qt =? atp) eqn:Ht; simpl.
      * apply Z.eqb_eq in Ht. destruct (qc =? ac) eqn:Hc; simpl.
        -- apply Z.eqb_eq in Hc. split; [|by intros [_ ?]].
           intros H. split; [|done]. eexists _, _. split; [done|].
           split; [done|]. exists qn, an. by repeat split.
        -- apply Z.eqb_neq in Hc. split; [done|].
           intros [(a & b & [= <-] & [= <-] & x & y & _ & _ & _ & _ & Hcl) _].
           simpl in Hcl. done.
      * apply Z.eqb_neq in Ht. split; [done|].
        intros [(a & b & [= <-] & [= <-] & x & y & _ & _ & _ & Hty & _) _].
        simpl in Hty. done.
    + apply Z.eqb_neq in Hs. split; [done|].
      intros [(a & b & [= <-] & [= <-] & x & y & [= <-] & [= <-] & Hlo & _) _].
      by apply strcasecmp_zero in Hlo.
Qed.

Section answer_properties.
Variable ares_dns_parse : list Z → option ares_dns_record_t.

Lemma same_questions_agree (q : query) (arec : ares_dns_record_t) :
  same_questions ares_dns_parse (qbuf q) arec = true
  ↔ answers_question ares_dns_parse q arec.
Proof.
  unfold same_questions, answers_question, questions_agree.
  destruct (ares_dns_parse (qbuf q)) as [qrec|];
    [|split; [done|by intros (? & ? & _)]].
  destruct (length (dns_questions qrec) =? length (dns_questions arec))%nat
    eqn:Hlen; simpl.
  - apply Nat.eqb_eq in Hlen.
    rewrite same_questions_from_agree. split.
    + intros H. exists qrec. split; [done|].
      apply Forall2_same_length_lookup_2; [done|].
      intros j a b Ha Hb.
      destruct (H j) as (a' & b' & Ha' & Hb' & Hab).
      { by apply lookup_lt_Some in Ha. }
      simpl in Ha', Hb'. congruence.
    + intros (qrec' & [= <-] & HF) j Hj. simpl.
      destruct (lookup_lt_is_Some_2 (dns_questions qrec) j Hj) as [a Ha].
      destruct (Forall2_lookup_l _ _ _ _ _ HF Ha) as (b & Hb & Hab).
      eauto.
  - apply Nat.eqb_neq in Hlen. split; [done|].
    intros (qrec' & [= <-] & HF). by apply Forall2_length in HF.
Qed.
End answer_properties.

(** ** Validation of answers *)

Lemma address_differs_not_same (sa : sockaddr) (aa : ares_addr) :
  address_differs sa aa → same_address sa aa = false.
Proof.
  unfold same_address. intros [Hf|[[Hf Ha]|[Hf Ha]]].
  - by apply Z.eqb_neq in Hf as ->.
  - destruct (sa_family sa =? family aa); [|done].
    rewrite Hf. simpl. by apply bool_decide_eq_false.
  - destruct (sa_family sa =? family aa); [|done].
    rewrite Hf. simpl. by apply bool_decide_eq_false.
Qed.

Lemma ares__close_connection_callbacks ch conn ch' :
  ares__close_connection ch conn = Done ch' →
  callbacks (env ch') = callbacks (env ch) ∧ queries ch' = queries ch.
Proof.
  unfold ares__close_connection, get_conn. intros H.
  apply bind_Done in H as (c & _ & H). injection H as <-.
  by destruct (queries_to_conn c).
Qed.

Lemma ares__check_cleanup_conn_callbacks ch s ch' :
  ares__check_cleanup_conn ch s = Done ch' →
  callbacks (env ch') = callbacks (env ch) ∧ queries ch' = queries ch.
Proof.
  unfold ares__check_cleanup_conn. intros H.
  destruct (connnode_by_socket ch !! s) as [conn|]; [|by injection H as <-].
  apply bind_Done in H as (c & _ & H). apply bind_Done in H as (l & _ & H).
  apply bind_Done in H as (qs & _ & H).
  destruct qs; [|by injection H as <-].
  destruct (_ && _); [|by injection H as <-].
  by apply ares__close_connection_callbacks in H.
Qed.

Lemma ares__check_cleanup_conn_fuel ch s :
  ares__check_cleanup_conn ch s ≠ OutOfFuel.
Proof.
  unfold ares__check_cleanup_conn, ares__close_connection, get_conn, deref.
  repeat (case_match; simpl; try done).
Qed.

Section answer_theorems.
Variable ares_dns_parse : list Z → option ares_dns_record_t.

(** C1. [process_answer] changes the channel, and so calls a callback,
    only for a payload that parses, whose id is that of a live query in
    [queries_by_qid] and whose question section equals that of the
    request (same count; per question, names equal up to case and
    identical type and class).  A payload failing one of these checks
    leaves the channel as it was: it is dropped silently and the query
    stays in flight.  On UDP a datagram whose source address differs
    from the server's is dropped before [process_answer] is reached,
    and the loop goes on with the next datagram. *)
Theorem process_answer_validates (ch : ares_channel) (conn : nat)
  (c : server_connection) :
  conns ch !! conn = Some c →
  (∀ abuf tcp now ch',
     process_answer ares_dns_parse ch abuf conn tcp now = Done ch' →
     ch' ≠ ch → ∃ arec qr q, valid_answer ares_dns_parse ch abuf arec qr q)
  ∧ (∀ abuf tcp now,
       dropped_answer ares_dns_parse ch abuf →
       process_answer ares_dns_parse ch abuf conn tcp now = Done ch)
  ∧ (∀ server buf from script errno s now,
       fd c ≠ ARES_SOCKET_BAD →
       servers ch !! conn_server c = Some server →
       address_differs from (addr server) →
       read_udp_packets_loop ares_dns_parse (Recv_data buf from :: script)
         errno ch conn s now
       = match connnode_by_socket ch !! s with
         | Some _ =>
             read_udp_packets_loop ares_dns_parse script errno ch conn s now
         | None => Done ch
         end).
Proof.
  intros Hc. split; [|split].
  - intros abuf tcp now ch' H Hne.
    unfold process_answer, get_conn in H. rewrite Hc in H. simpl in H.
    destruct (ares_dns_parse abuf) as [arec|] eqn:Hp; [|by injection H].
    destruct (queries_by_qid ch !! dns_id arec) as [qr|] eqn:Hid;
      [|by injection H].
    unfold get_query in H.
    destruct (queries ch !! qr) as [q|] eqn:Hq; [|done]. simpl in H.
    destruct (same_questions ares_dns_parse (qbuf q) arec) eqn:Hs;
      [|by injection H].
    exists arec, qr, q. repeat split; try done.
    by apply same_questions_agree.
  - intros abuf tcp now Hdrop.
    unfold process_answer, get_conn. rewrite Hc. simpl.
    destruct Hdrop as [->|[(arec & -> & ->)|(arec & qr & q & -> & -> & Hq & Hno)]];
      try done.
    unfold get_query. rewrite Hq. simpl.
    destruct (same_questions ares_dns_parse (qbuf q) arec) eqn:Hs; [|done].
    by apply same_questions_agree in Hs.
  - intros server buf from script errno s now Hfd Hsrv Hdiff.
    simpl. unfold get_conn. rewrite Hc. simpl.
    apply Z.eqb_neq in Hfd. rewrite Hfd, Hsrv. simpl.
    rewrite (address_differs_not_same _ _ Hdiff). simpl.
    by destruct (decide _).
Qed.
End answer_theorems.

(** ** The reader of DNS messages on the examples *)

Example wire_parse_request :
  wire_parse (drop 2 example_request)
  = Some {| dns_id := 4660; dns_flags := 8; dns_rcode := 0;
            dns_questions :=
              [ {| qd_name := Some "example.com"%string; qd_type := 1;
                   qd_class := 1 |} ];
            dns_additional := [41] |}.
Proof. vm_compute. reflexivity. Qed.

Example wire_parse_response :
  wire_parse (example_response true 0)
  = Some {| dns_id := 4660; dns_flags := 1 + 4 + 8 + 16; dns_rcode := 0;
            dns_questions :=
              [ {| qd_name := Some "EXAMPLE.com"%string; qd_type := 1;
                   qd_class := 1 |} ];
            dns_additional := [] |}.
Proof. vm_compute. reflexivity. Qed.

(** ** The EDNS branch *)

Lemma has_flag_lxor (x flag : Z) (n : Z) :
  flag = 2 ^ n → 0 ≤ n → has_flag x flag = true →
  has_flag (Z.lxor x flag) flag = false.
Proof.
  intros -> Hn H. unfold has_flag in *.
  apply Bool.negb_true_iff, Z.eqb_neq in H.
  apply Bool.negb_false_iff, Z.eqb_eq.
  apply Z.bits_inj'. intros i Hi.
  rewrite Z.land_spec, Z.lxor_spec, Z.bits_0.
  destruct (decide (i = n)) as [->|Hne].
  - rewrite Z.pow2_bits_true by done.
    destruct (Z.testbit x n) eqn:Hb; [done|].
    exfalso. apply H. apply Z.bits_inj'. intros j Hj.
    rewrite Z.land_spec, Z.bits_0.
    destruct (decide (j = n)) as [->|Hne]; [by rewrite Hb|].
    by rewrite Z.pow2_bits_false, Bool.andb_false_r.
  - by rewrite Z.pow2_bits_false, Bool.andb_false_r.
Qed.

Lemma be16_bytes (n : Z) :
  0 ≤ n < 65536 →
  0 ≤ Z.land (Z.shiftr n 8) 255 < 256 ∧ 0 ≤ Z.land n 255 < 256
  ∧ 256 * Z.land (Z.shiftr n 8) 255 + Z.land n 255 = n.
Proof.
  intros Hn. change 255 with (Z.ones 8).
  rewrite !Z.land_ones, Z.shiftr_div_pow2 by lia.
  change (2 ^ 8) with 256.
  pose proof (Z.mod_pos_bound n 256 ltac:(lia)).
  pose proof (Z.mod_pos_bound (n / 256) 256 ltac:(lia)).
  assert (n / 256 < 256) by (apply Z.div_lt_upper_bound; lia).
  assert (0 ≤ n / 256) by (apply Z.div_pos; lia).
  rewrite (Z.mod_small (n / 256)) by lia.
  pose proof (Z.div_mod n 256 ltac:(lia)). lia.
Qed.

Lemma edns_request_bytes (buf : list Z) (hi lo : Z) (n : nat) :
  (14 ≤ n ≤ length buf)%nat →
  let buf' := take n (<[13%nat:=0]> (<[12%nat:=0]> (<[1%nat:=lo]>
                (<[0%nat:=hi]> buf)))) in
  buf' !! 0%nat = Some hi ∧ buf' !! 1%nat = Some lo
  ∧ buf' !! 12%nat = Some 0 ∧ buf' !! 13%nat = Some 0
  ∧ (∀ i, (2 ≤ i < n)%nat → i ≠ 12%nat → i ≠ 13%nat → buf' !! i = buf !! i)
  ∧ length buf' = n.
Proof.
  intros Hn buf'. subst buf'.
  repeat split.
  - rewrite lookup_take_lt by lia.
    rewrite 3 list_lookup_insert_ne by lia.
    apply list_lookup_insert_eq. lia.
  - rewrite lookup_take_lt by lia.
    rewrite 2 list_lookup_insert_ne by lia.
    apply list_lookup_insert_eq. rewrite length_insert. lia.
  - rewrite lookup_take_lt by lia.
    rewrite list_lookup_insert_ne by lia.
    apply list_lookup_insert_eq. rewrite !length_insert. lia.
  - rewrite lookup_take_lt by lia.
    apply list_lookup_insert_eq. rewrite !length_insert. lia.
  - intros i Hi H12 H13. rewrite lookup_take_lt by lia.
    by rewrite 4 list_lookup_insert_ne by lia.
  - rewrite length_take, !length_insert. lia.
Qed.

Section resend_theorems.
Variable ares_dns_parse : list Z → option ares_dns_record_t.

(** C5. When the channel has EDNS enabled and a valid response has
    rcode FORMERR and no OPT record in its additional section,
    [process_answer] clears the channel's EDNS flag, takes the fixed
    EDNS size (11 bytes) off [tcplen] and [qlen], writes the reduced
    length big-endian into the two prefix bytes, zeroes ARCOUNT, keeps
    the rest of the request, and hands the query to [ares__send_query]
    without calling the callback itself; the step ends, the send
    returns on a channel whose tables cover what the dispatcher looks
    up, and when the query is still live afterwards no callback has
    been called at all. *)
Theorem process_answer_edns_fallback (ch : ares_channel) (abuf : list Z)
  (conn : nat) (c : server_connection) (tcp : bool) (now : timeval)
  (arec : ares_dns_record_t) (qr : nat) (q : query) :
  conns ch !! conn = Some c →
  valid_answer ares_dns_parse ch abuf arec qr q →
  has_flag (flags ch) ARES_FLAG_EDNS = true →
  dns_rcode arec = ARES_RCODE_FORMAT_ERROR → has_opt_rr arec = false →
  25 ≤ tcplen q ≤ 65537 → 11 ≤ qlen q < 2 ^ 64 →
  (Z.to_nat (tcplen q) ≤ length (tcpbuf q))%nat →
  head (io_alloc (env ch)) ≠ Some false →
  ∃ ch1 q1,
    process_answer ares_dns_parse ch abuf conn tcp now
    = ('(_, ch2) ← ares__send_query ch1 qr now;
       ares__check_cleanup_conn ch2 (fd c))
    ∧ flags ch1 = Z.lxor (flags ch) ARES_FLAG_EDNS
    ∧ has_flag (flags ch1) ARES_FLAG_EDNS = false
    ∧ queries ch1 !! qr = Some q1
    ∧ tcplen q1 = tcplen q - 11 ∧ qlen q1 = qlen q - 11
    ∧ (∃ hi lo, tcpbuf q1 !! 0%nat = Some hi ∧ tcpbuf q1 !! 1%nat = Some lo
         ∧ 0 ≤ hi < 256 ∧ 0 ≤ lo < 256
         ∧ 256 * hi + lo = tcplen q1 - 2)
    ∧ tcpbuf q1 !! 12%nat = Some 0 ∧ tcpbuf q1 !! 13%nat = Some 0
    ∧ (∀ i, (2 ≤ i < Z.to_nat (tcplen q1))%nat → i ≠ 12%nat → i ≠ 13%nat →
            tcpbuf q1 !! i = tcpbuf q !! i)
    ∧ length (tcpbuf q1) = Z.to_nat (tcplen q1)
    ∧ callbacks (env ch1) = callbacks (env ch)
    ∧ process_answer ares_dns_parse ch abuf conn tcp now ≠ OutOfFuel
    ∧ (dispatch_ready ch →
       ∃ st ch2, ares__send_query ch1 qr now = Done (st, ch2))
    ∧ (∀ ch', process_answer ares_dns_parse ch abuf conn tcp now = Done ch' →
              is_Some (queries ch' !! qr) →
              callbacks (env ch') = callbacks (env ch)).
Proof.
  intros Hc (Hp & Hid & Hq & Hans) Hedns Hrc Hopt Htl Hql Hlen Halloc.
  apply same_questions_agree in Hans.
  unfold process_answer, get_conn, get_query.
  rewrite Hc, Hp. simpl. rewrite Hid, Hq. simpl. rewrite Hans. simpl.
  change (flags (ares__llist_node_destroy (node_queries_to_conn q) qr ch))
    with (flags ch)
    || (unfold ares__llist_node_destroy; destruct (node_queries_to_conn q);
        simpl).
  all: rewrite Hedns, Hrc, Hopt; simpl.
  all: unfold process_answer_edns; simpl.
  all: assert (Hl14 : (length (tcpbuf q) <? 14)%nat = false)
         by (apply Nat.ltb_ge; lia); rewrite Hl14.
  all: unfold alloc; simpl.
  all: destruct (be16_bytes (tcplen q - 2 - 11) ltac:(lia)) as (Hhi & Hlo & Hbe).
  all: assert (Hfl : has_flag (Z.lxor (flags ch) ARES_FLAG_EDNS) ARES_FLAG_EDNS
                     = false) by (by apply (has_flag_lxor _ _ 8)).
  all: destruct (io_alloc (env ch)) as [|[] rest] eqn:Hal; [| |by destruct Halloc];
       simpl.
  all: eexists _, _; (split; [reflexivity|]); simpl;
       rewrite !lookup_alter_eq, ?Hq; simpl;
       (split; [reflexivity|]); (split; [exact Hfl|]);
       (split; [reflexivity|]);
       cbn [tcpbuf tcplen qlen set_tcpbuf set_qlen set_tcplen
            set_node_queries_to_conn].
  all: unfold EDNSFIXEDSZ, size_wrap;
       rewrite ?(Z.mod_small (tcplen q - 2)) by lia;
       rewrite ?(Z.mod_small (tcplen q - 2 - 11)) by lia;
       rewrite ?(Z.mod_small (tcplen q - 11)) by lia;
       rewrite ?(Z.mod_small (qlen q - 11)) by lia.
  all: (split; [reflexivity|]); (split; [reflexivity|]).
  all: destruct (edns_request_bytes (tcpbuf q)
                  (Z.land ((tcplen q - 2 - 11) ≫ 8) 255)
                  (Z.land (tcplen q - 2 - 11) 255)
                  (Z.to_nat (tcplen q - 11)) ltac:(lia))
         as (B0 & B1 & B12 & B13 & Brest & Blen).
  all: split; [eexists _, _; split; [exact B0|]; split; [exact B1|];
               split; [exact Hhi|]; split; [exact Hlo|]; lia|].
  all: split; [exact B12|]; split; [exact B13|]; split; [exact Brest|].
  all: split; [exact Blen|].
  all: split; [reflexivity|].
  all: split;
    [apply bind_fuel;
     [apply ares__send_query_total
     |intros [? ?]; apply ares__check_cleanup_conn_fuel]|].
  all: split;
    [intros Hr;
     match goal with |- ∃ st ch2, ares__send_query ?c0 _ _ = _ =>
       destruct (ares__send_query_returns c0 qr now)
         as (st & ch2 & Hrun & _); [| |by eauto]
     end;
     [unfold dispatch_ready; simpl;
      repeat (apply fit_alter_query_kept; [|done]); exact Hr
     |simpl; rewrite !lookup_alter_eq, Hq; simpl; eauto]|].
  all: intros ch' H [q' Hq'];
    apply bind_Done in H as ([st ch2] & Hsend & Hclean);
    apply ares__check_cleanup_conn_callbacks in Hclean as [Hcb Hqs];
    match type of Hsend with ares__send_query ?c0 _ _ = _ =>
      assert (Hq0 : is_Some (queries c0 !! qr))
        by (simpl; rewrite !lookup_alter_eq, Hq; simpl; eauto);
      destruct Hq0 as [q0 Hq0];
      destruct (ares__send_query_finished _ _ _ _ _ _ Hq0 Hsend)
        as [_ _ _ _ [[Hnone _]|(_ & Hsame & _)]]
    end;
    [rewrite Hqs in Hq'; congruence|];
    rewrite Hcb, Hsame; reflexivity.
Qed.
End resend_theorems.

(** ** The truncation branch *)

Lemma answered_flags ch qr q : flags (answered ch qr q) = flags ch.
Proof.
  unfold answered, ares__llist_node_destroy.
  by destruct (node_queries_to_conn q).
Qed.

Lemma answered_ednspsz ch qr q : ednspsz (answered ch qr q) = ednspsz ch.
Proof.
  unfold answered, ares__llist_node_destroy.
  by destruct (node_queries_to_conn q).
Qed.

Lemma answered_callbacks ch qr q :
  callbacks (env (answered ch qr q)) = callbacks (env ch).
Proof.
  unfold answered, ares__llist_node_destroy.
  by destruct (node_queries_to_conn q).
Qed.

Lemma answered_query ch qr q :
  queries ch !! qr = Some q →
  queries (answered ch qr q) !! qr = Some (set_node_queries_to_conn None q).
Proof.
  intros Hq. unfold answered, ares__llist_node_destroy.
  destruct (node_queries_to_conn q); simpl; by rewrite lookup_alter_eq, Hq.
Qed.

Section truncation_theorems.
Variable ares_dns_parse : list Z → option ares_dns_record_t.

Lemma process_answer_truncated (ch : ares_channel) (abuf : list Z)
  (conn : nat) (c : server_connection) (now : timeval)
  (arec : ares_dns_record_t) (qr : nat) (q : query) :
  conns ch !! conn = Some c →
  valid_answer ares_dns_parse ch abuf arec qr q →
  truncated ch arec (Z.of_nat (length abuf)) = true →
  has_flag (flags ch) ARES_FLAG_IGNTC = false →
  edns_refused ch arec = false →
  process_answer ares_dns_parse ch abuf conn false now
  = if using_tcp q
    then ares__check_cleanup_conn (answered ch qr q) (fd c)
    else truncation_upgrade_described ch qr q (fd c) now.
Proof.
  intros Hc (Hp & Hid & Hq & Hans) Htr Hign Hed.
  apply same_questions_agree in Hans.
  unfold process_answer, get_conn, get_query.
  rewrite Hc, Hp. simpl. rewrite Hid, Hq. simpl. rewrite Hans. simpl.
  unfold truncation_upgrade_described, answered, ares__llist_node_destroy.
  unfold edns_refused in Hed. unfold truncated in Htr.
  destruct (node_queries_to_conn q); simpl; rewrite Hed, Htr, Hign; simpl;
    destruct (using_tcp q); simpl; try done;
    match goal with
    | |- context [ares__send_query ?a ?b ?c] =>
        by destruct (ares__send_query a b c) as [[]| |]
    end.
Qed.

(** C6, as amended.  A valid response received over UDP that is
    truncated (TC bit set, or longer than [packetsz]: the channel's
    [ednspsz] with EDNS, 512 without) on a channel without IGNTC, and
    that does not take the EDNS branch, is never passed to the callback.
    A query not yet using TCP is switched to TCP and sent again with
    [ares__send_query], which returns on a channel whose tables cover
    what the dispatcher looks up; a query already using TCP is not sent
    again. *)
Theorem process_answer_truncation (ch : ares_channel) (abuf : list Z)
  (conn : nat) (c : server_connection) (now : timeval)
  (arec : ares_dns_record_t) (qr : nat) (q : query) :
  conns ch !! conn = Some c →
  valid_answer ares_dns_parse ch abuf arec qr q →
  truncated ch arec (Z.of_nat (length abuf)) = true →
  has_flag (flags ch) ARES_FLAG_IGNTC = false →
  edns_refused ch arec = false →
  (using_tcp q = false →
   process_answer ares_dns_parse ch abuf conn false now
   = truncation_upgrade_described ch qr q (fd c) now)
  ∧ (using_tcp q = true →
     process_answer ares_dns_parse ch abuf conn false now
     = ares__check_cleanup_conn (answered ch qr q) (fd c))
  ∧ process_answer ares_dns_parse ch abuf conn false now ≠ OutOfFuel
  ∧ (dispatch_ready ch →
     ∃ st ch1,
       ares__send_query (upd_query qr (set_using_tcp true) (answered ch qr q))
         qr now = Done (st, ch1))
  ∧ (∀ ch', process_answer ares_dns_parse ch abuf conn false now = Done ch' →
       ∃ evs, callbacks (env ch') = callbacks (env ch) ++ evs
         ∧ Forall (λ ev, cb_abuf ev = None) evs).
Proof.
  intros Hc Hv Htr Hign Hed.
  rewrite (process_answer_truncated _ _ _ _ _ _ _ _ Hc Hv Htr Hign Hed).
  destruct Hv as (Hp & Hid & Hq & Hans).
  split; [by intros ->|]. split; [by intros ->|]. split; [|split].
  - destruct (using_tcp q); [apply ares__check_cleanup_conn_fuel|].
    unfold truncation_upgrade_described. apply bind_fuel.
    + apply ares__send_query_total.
    + intros [st ch1]. apply ares__check_cleanup_conn_fuel.
  - intros Hr.
    destruct (ares__send_query_returns
                (upd_query qr (set_using_tcp true) (answered ch qr q)) qr now)
      as (st & ch1 & Hrun & _); [| |by eauto].
    + unfold dispatch_ready, answered, ares__llist_node_destroy.
      destruct (node_queries_to_conn q); simpl;
        repeat (apply fit_alter_query_kept; [|done]); exact Hr.
    + unfold upd_query at 1. cbn [queries set_queries].
      rewrite lookup_alter_eq, (answered_query _ _ _ Hq). simpl. eauto.
  - intros ch' H. destruct (using_tcp q).
    + apply ares__check_cleanup_conn_callbacks in H as [H _].
      exists (@nil callback_event). rewrite H, answered_callbacks.
      split; [by rewrite app_nil_r|constructor].
    + unfold truncation_upgrade_described in H.
      apply bind_Done in H as ([st ch1] & Hsend & Hclean).
      apply ares__check_cleanup_conn_callbacks in Hclean as [Hcb _].
      assert (Hq0 : queries (upd_query qr (set_using_tcp true)
                               (answered ch qr q)) !! qr
                    = Some (set_using_tcp true
                              (set_node_queries_to_conn None q)))
        by (unfold upd_query at 1; cbn [queries set_queries];
            by rewrite lookup_alter_eq, answered_query).
      destruct (ares__send_query_finished _ _ _ _ _ _ Hq0 Hsend)
        as [_ _ _ _ [[_ (ev & Hev & _ & _ & Hnone & _)]|(_ & Hsame & _)]].
      * exists [ev]. rewrite Hcb, Hev.
        change (env (upd_query ?r ?f ?c0)) with (env c0).
        rewrite answered_callbacks. split; [done|]. by constructor.
      * exists (@nil callback_event). rewrite Hcb, Hsame.
        change (env (upd_query ?r ?f ?c0)) with (env c0).
        rewrite answered_callbacks. split; [by rewrite app_nil_r|constructor].
Qed.
End truncation_theorems.

(** ** Runs on the example channel *)

Lemma sent_channel_conn (chflags : Z) :
  conns (sent_channel chflags) = {[ 0%nat := example_connection ]}.
Proof. vm_compute. reflexivity. Qed.

Lemma sent_channel_query (chflags : Z) :
  queries (sent_channel chflags) = {[ 0%nat := sent_query ]}.
Proof. vm_compute. reflexivity. Qed.

Lemma sent_channel_error_ready :
  error_ready (sent_channel 0) 0 example_connection 0 [0%nat] 0.
Proof.
  split.
  - by rewrite sent_channel_conn.
  - reflexivity.
  - vm_compute. reflexivity.
  - apply NoDup_singleton.
  - intros qr ->%list_elem_of_singleton. exists sent_query.
    by rewrite sent_channel_query.
  - vm_compute. lia.
  - intros c' cn. rewrite sent_channel_conn.
    by intros [-> _]%lookup_singleton_Some.
  - exists (set_connections [0%nat] (example_server 0)).
    split; [vm_compute; reflexivity|]. split; [reflexivity|].
    apply NoDup_singleton.
Qed.

(** The witness of C1: a payload that does not parse, on the channel
    that waits for the answer. *)
Lemma process_answer_validates_witness :
  conns (sent_channel 0) !! 0%nat = Some example_connection
  ∧ process_answer wire_parse (sent_channel 0) [18; 52; 129] 0 false time0
    = Done (sent_channel 0).
Proof.
  split; [vm_compute; reflexivity|].
  apply (proj1 (proj2 (process_answer_validates wire_parse (sent_channel 0) 0
                         example_connection ltac:(vm_compute; reflexivity)))).
  left. vm_compute. reflexivity.
Defined.

(** The witness of C2: the first send of the example query. *)
Lemma send_query_deadline_witness :
  ares__send_query (example_channel 0 false) 0 time0
  = Done (ARES_SUCCESS, sent_channel 0)
  ∧ q_timeout sent_query = timeadd time0 1000.
Proof.
  split; [vm_compute; reflexivity|].
  apply (proj1 (send_query_deadline (example_channel 0 false) 0 time0
                  (example_query false) (sent_channel 0) sent_query
                  ltac:(simpl; lia) ltac:(simpl; lia)
                  ltac:(vm_compute; reflexivity)
                  ltac:(simpl; lia) ltac:(vm_compute; reflexivity)
                  ltac:(vm_compute; reflexivity))).
Defined.

(** The counterexample of C2: a timeout of [2 ^ 30] ms on the second
    pass ([shift = 1]).  No set bit is shifted out, of an [int] or of the
    [size_t] that holds the timeout, so that the words of the claim
    double the timeout; the code leaves it as it is, since the doubled
    value is not below [2 ^ 31]. *)
Lemma send_query_deadline_sign_bit :
  ∃ ch' q',
    ares__send_query slow_channel 0 time0 = Done (ARES_SUCCESS, ch')
    ∧ queries ch' !! 0%nat = Some q'
    ∧ try_count q' / nservers slow_channel = 1
    ∧ timeplus_described 32 (timeout slow_channel) 1 = 2 ^ 31
    ∧ timeplus_described 64 (timeout slow_channel) 1 = 2 ^ 31
    ∧ q_timeout q' = timeadd time0 (2 ^ 30)
    ∧ q_timeout q' ≠ timeadd time0 (2 ^ 31).
Proof.
  eexists _, _. split; [vm_compute; reflexivity|].
  split; [vm_compute; reflexivity|]. by vm_compute.
Qed.

(** The witness of C3: the example query, whose [no_retries] is clear. *)
Lemma next_server_as_described_witness :
  queries (example_channel 0 false) !! 0%nat = Some (example_query false)
  ∧ next_server (example_channel 0 false) 0 time0
    = next_server_described (example_channel 0 false) 0 time0.
Proof.
  split; [reflexivity|].
  apply (proj1 (next_server_as_described (example_channel 0 false) 0 time0
                  (example_query false) ltac:(reflexivity)
                  ltac:(split; simpl; lia))).
  reflexivity.
Defined.

(** The counterexample of C3: the same query with [no_retries] set.
    The second server is an acceptable candidate and the description
    sends the query to it; [next_server] ends the query at once. *)
Lemma next_server_no_retries :
  ∃ ch_code ch_described,
    no_retries (example_query true) = true
    ∧ first_usable (example_channel 0 true) (example_query true) = Some 1%nat
    ∧ next_server (example_channel 0 true) 0 time0
      = Done (ARES_ECONNREFUSED, ch_code)
    ∧ queries ch_code !! 0%nat = None
    ∧ sent (env ch_code) = []
    ∧ next_server_described (example_channel 0 true) 0 time0
      = Done (ARES_SUCCESS, ch_described)
    ∧ is_Some (queries ch_described !! 0%nat)
    ∧ sent (env ch_described) = [(0, drop 2 example_request)].
Proof.
  eexists _, _. split; [reflexivity|]. split; [vm_compute; reflexivity|].
  split; [vm_compute; reflexivity|]. split; [vm_compute; reflexivity|].
  split; [vm_compute; reflexivity|]. split; [vm_compute; reflexivity|].
  split; [|vm_compute; reflexivity]. vm_compute. eauto.
Qed.

Lemma sent_channel_requeue_ready :
  requeue_ready (sent_channel 0) 0 example_connection [0%nat] 0.
Proof.
  assert (Hs : servers (sent_channel 0)
               = [set_connections [0%nat] (example_server 0);
                  example_server 1]) by (vm_compute; reflexivity).
  split.
  - vm_compute. by split.
  - rewrite Hs. intros [|[|i]] srv; simpl; try done; by intros [= <-].
  - intros qr q. rewrite sent_channel_query.
    intros [_ <-]%lookup_singleton_Some. vm_compute. by repeat split.
  - rewrite Hs. intros [|[|i]] srv c'; simpl; try done; intros [= <-];
      simpl; intros [Hin|Hin] Hne; try done.
    + by apply list_elem_of_singleton in Hin.
    + by apply elem_of_nil in Hin.
  - rewrite Hs. intros [|[|i]] srv; simpl; try done; intros [= <-];
      simpl; intros [Hin|Hin]; try done.
    by apply elem_of_nil in Hin.
  - rewrite Hs. simpl. by intros srv [= <-].
  - intros qr q _. rewrite sent_channel_query.
    by intros [_ <-]%lookup_singleton_Some.
Qed.

(** The witness of C4: the connection of the example channel fails and
    its query goes to the second server. *)
Lemma handle_error_requeues_witness :
  ∃ ch', handle_error (sent_channel 0) 0 time0 = Done ch'
    ∧ conns ch' !! 0%nat = None ∧ llists ch' !! 0%nat = None
    ∧ ∃ evs, callbacks (env ch') = callbacks (env (sent_channel 0)) ++ evs
        ∧ requeued (sent_channel 0) ch' evs 0 0 0.
Proof.
  destruct (handle_error_requeues (sent_channel 0) 0 time0 example_connection
              0 [0%nat] 0 sent_channel_error_ready) as (Hret & _ & Hdone).
  destruct (Hret sent_channel_requeue_ready) as [ch' Hrun].
  exists ch'. split; [exact Hrun|].
  destruct (Hdone ch' Hrun) as (_ & Hc & Hl & evs & Hev & Hreq).
  split; [exact Hc|]. split; [exact Hl|]. exists evs. split; [exact Hev|].
  apply Hreq. by left.
Defined.

(** The witness of C5: a server answers the EDNS request with FORMERR
    and no OPT record. *)
Lemma process_answer_edns_fallback_witness :
  ∃ ch1 q1,
    process_answer wire_parse (sent_channel ARES_FLAG_EDNS)
      (example_response false ARES_RCODE_FORMAT_ERROR) 0 false time0
    = ('(_, ch2) ← ares__send_query ch1 0 time0;
       ares__check_cleanup_conn ch2 0)
    ∧ flags ch1 = 0 ∧ queries ch1 !! 0%nat = Some q1
    ∧ tcplen q1 = 31 ∧ qlen q1 = 29.
Proof.
  destruct (process_answer_edns_fallback wire_parse
              (sent_channel ARES_FLAG_EDNS)
              (example_response false ARES_RCODE_FORMAT_ERROR) 0
              example_connection false time0
              {| dns_id := 4660; dns_flags := 1 + 8 + 16; dns_rcode := 1;
                 dns_questions :=
                   [ {| qd_name := Some "EXAMPLE.com"%string; qd_type := 1;
                        qd_class := 1 |} ];
                 dns_additional := [] |} 0 sent_query)
    as (ch1 & q1 & Hrun & Hflags & _ & Hq1 & Htl & Hql & _).
  - vm_compute. reflexivity.
  - split; [vm_compute; reflexivity|]. split; [vm_compute; reflexivity|].
    split; [vm_compute; reflexivity|].
    apply same_questions_agree. vm_compute. reflexivity.
  - reflexivity.
  - reflexivity.
  - reflexivity.
  - simpl. lia.
  - simpl. lia.
  - simpl. lia.
  - vm_compute. discriminate.
  - exists ch1, q1. split; [exact Hrun|]. split; [exact Hflags|].
    split; [exact Hq1|]. split; [exact Htl|exact Hql].
Defined.

(** The witness of C6: the first truncated answer to the example query,
    which moves it to TCP. *)
Lemma process_answer_truncation_witness :
  using_tcp sent_query = false
  ∧ process_answer wire_parse (sent_channel 0) (example_response true 0)
      0 false time0
    = truncation_upgrade_described (sent_channel 0) 0 sent_query 0 time0.
Proof.
  split; [reflexivity|].
  apply (proj1 (process_answer_truncation wire_parse (sent_channel 0)
                  (example_response true 0) 0 example_connection time0
                  {| dns_id := 4660; dns_flags := 1 + 4 + 8 + 16;
                     dns_rcode := 0;
                     dns_questions :=
                       [ {| qd_name := Some "EXAMPLE.com"%string;
                            qd_type := 1; qd_class := 1 |} ];
                     dns_additional := [] |} 0 sent_query
                  ltac:(vm_compute; reflexivity)
                  ltac:(split; [vm_compute; reflexivity|];
                        split; [vm_compute; reflexivity|];
                        split; [vm_compute; reflexivity|];
                        apply same_questions_agree; vm_compute; reflexivity)
                  ltac:(reflexivity) ltac:(reflexivity) ltac:(reflexivity))).
  reflexivity.
Defined.

(** The counterexample of C6: a second truncated answer reaches the UDP
    socket once the query is on TCP.  The claim has the query sent again;
    [process_answer] takes the query off the list of its connection and
    sends nothing. *)
Lemma process_answer_truncation_already_tcp :
  ∃ q arec ch_code ch_claimed,
    wire_parse (example_response true 0) = Some arec
    ∧ queries_by_qid tcp_channel !! dns_id arec = Some 0%nat
    ∧ queries tcp_channel !! 0%nat = Some q
    ∧ same_questions wire_parse (qbuf q) arec = true
    ∧ truncated tcp_channel arec 29 = true
    ∧ has_flag (flags tcp_channel) ARES_FLAG_IGNTC = false
    ∧ using_tcp q = true
    ∧ process_answer wire_parse tcp_channel (example_response true 0)
        0 false time0 = Done ch_code
    ∧ (tcp_send <$> servers ch_code) = (tcp_send <$> servers tcp_channel)
    ∧ sent (env ch_code) = sent (env tcp_channel)
    ∧ truncation_upgrade_described tcp_channel 0 q 0 time0 = Done ch_claimed
    ∧ (tcp_send <$> servers ch_claimed) ≠ (tcp_send <$> servers tcp_channel).
Proof.
  eexists _, _, _, _. split; [vm_compute; reflexivity|].
  split; [vm_compute; reflexivity|]. split; [vm_compute; reflexivity|].
  split; [vm_compute; reflexivity|]. split; [vm_compute; reflexivity|].
  split; [vm_compute; reflexivity|]. split; [vm_compute; reflexivity|].
  split; [vm_compute; reflexivity|]. split; [vm_compute; reflexivity|].
  split; [vm_compute; reflexivity|]. split; [vm_compute; reflexivity|].
  vm_compute. discriminate.
Qed.

(** The witness of C7: the two servers of the example channel. *)
Lemma skip_server_iff_several_servers_witness :
  ∃ ch', skip_server (example_channel 0 false) 0 (example_server 0) = Done ch'
    ∧ (si_skip_server <$> (server_info <$> queries ch' !! 0%nat) ≫= (.!! 0%nat))
      = Some true.
Proof.
  destruct (skip_server_iff_several_servers (example_channel 0 false) 0
              (example_server 0) (example_query false)
              {| si_skip_server := false; si_tcp_connection_generation := 0 |}
              ltac:(reflexivity) ltac:(reflexivity))
    as (ch' & Hrun & Hset & _).
  exists ch'. split; [exact Hrun|].
  destruct (Hset ltac:(simpl; lia)) as (q' & Hq' & Hinfo & _).
  change (Z.to_nat (idx (example_server 0))) with 0%nat in Hinfo.
  rewrite Hq'. simpl. by rewrite Hinfo.
Defined.

(** ** Channel bootstrap *)

Lemma htons_NAMESERVER_PORT : Init.htons NAMESERVER_PORT = 13568.
Proof. reflexivity. Qed.

Lemma default_domains_keeps ch hostnames allocs ch' allocs' :
  Init.default_domains ch hostnames allocs = (inl ch', allocs') →
  Init.timeout ch' = Init.timeout ch ∧ Init.tries ch' = Init.tries ch
  ∧ Init.ndots ch' = Init.ndots ch ∧ Init.udp_port ch' = Init.udp_port ch
  ∧ Init.tcp_port ch' = Init.tcp_port ch ∧ Init.ednspsz ch' = Init.ednspsz ch
  ∧ Init.servers ch' = Init.servers ch ∧ Init.nservers ch' = Init.nservers ch
  ∧ Init.lookups ch' = Init.lookups ch ∧ Init.nsort ch' = Init.nsort ch.
Proof.
  unfold Init.default_domains. intros H.
  repeat (case_match; simplify_eq); by repeat split.
Qed.

(** The built-in defaults: when [init_by_defaults] succeeds, each scalar
    still zero holds its default, a channel without servers has the one
    server 127.0.0.1 and a channel without lookups has [fb]. *)
Lemma init_by_defaults_success ch hostnames allocs ch' allocs' :
  Init.init_by_defaults ch hostnames allocs = (ARES_SUCCESS, ch', allocs') →
  Init.timeout ch' = (if Init.timeout ch =? 0 then 2000 else Init.timeout ch)
  ∧ Init.tries ch' = (if Init.tries ch =? 0 then 3 else Init.tries ch)
  ∧ Init.ndots ch' = (if Init.ndots ch =? 0 then 1 else Init.ndots ch)
  ∧ Init.udp_port ch'
    = (if Init.udp_port ch =? 0 then Init.htons 53 else Init.udp_port ch)
  ∧ Init.tcp_port ch'
    = (if Init.tcp_port ch =? 0 then Init.htons 53 else Init.tcp_port ch)
  ∧ Init.ednspsz ch'
    = (if Init.ednspsz ch =? 0 then 1280 else Init.ednspsz ch)
  ∧ Init.lookups ch'
    = Some (default "fb"%string (Init.lookups ch))
  ∧ (if Init.nservers ch =? 0
     then Init.servers ch' = Some [Init.default_server]
          ∧ Init.nservers ch' = 1
     else Init.servers ch' = Init.servers ch
          ∧ Init.nservers ch' = Init.nservers ch).
Proof.
  unfold Init.init_by_defaults. intros H.
  destruct (Init.nservers (Init.seed_scalars ch) =? 0) eqn:Hn;
    change (Init.nservers (Init.seed_scalars ch)) with (Init.nservers ch) in Hn;
    rewrite Hn.
  - destruct (Init.take_alloc allocs) as [[] allocs1]; [|done].
    destruct (Init.ndomains _ =? 0).
    + destruct (Init.default_domains _ _ _) as [[ch1|ch1] allocs2] eqn:Hd;
        [|done].
      apply default_domains_keeps in Hd
        as (Ht & Hr & Hd & Hu & Hp & He & Hs & Hns & Hl & Hso).
      destruct (Init.nsort ch1 =? 0); simpl in H;
        rewrite ?Hl in H; simpl in H;
        (destruct (Init.lookups ch) as [l|] eqn:Hlk;
         [|destruct (Init.take_alloc allocs2) as [[] allocs3]; [|done]]);
        simplify_eq; simpl; rewrite ?Ht, ?Hr, ?Hd, ?Hu, ?Hp, ?He, ?Hs, ?Hns,
          ?Hl, ?Hlk; by repeat split.
    + destruct (Init.nsort _ =? 0); simpl in H;
        (destruct (Init.lookups ch) as [l|] eqn:Hlk;
         [|destruct (Init.take_alloc allocs1) as [[] allocs3]; [|done]]);
        simplify_eq; simpl; rewrite ?Hlk; by repeat split.
  - destruct (Init.ndomains _ =? 0).
    + destruct (Init.default_domains _ _ _) as [[ch1|ch1] allocs2] eqn:Hd;
        [|done].
      apply default_domains_keeps in Hd
        as (Ht & Hr & Hd & Hu & Hp & He & Hs & Hns & Hl & Hso).
      destruct (Init.nsort ch1 =? 0); simpl in H;
        rewrite ?Hl in H; simpl in H;
        (destruct (Init.lookups ch) as [l|] eqn:Hlk;
         [|destruct (Init.take_alloc allocs2) as [[] allocs3]; [|done]]);
        simplify_eq; simpl; rewrite ?Ht, ?Hr, ?Hd, ?Hu, ?Hp, ?He, ?Hs, ?Hns,
          ?Hl, ?Hlk; by repeat split.
    + destruct (Init.nsort _ =? 0); simpl in H;
        (destruct (Init.lookups ch) as [l|] eqn:Hlk;
         [|destruct (Init.take_alloc allocs) as [[] allocs3]; [|done]]);
        simplify_eq; simpl; rewrite ?Hlk; by repeat split.
Qed.

(** When [init_by_defaults] fails it is for want of memory, and it leaves
    a channel without servers and without lookups, also when a source of
    higher precedence had configured some. *)
Lemma init_by_defaults_failure ch hostnames allocs st ch' allocs' :
  Init.init_by_defaults ch hostnames allocs = (st, ch', allocs') →
  st ≠ ARES_SUCCESS →
  st = ARES_ENOMEM ∧ Init.nservers ch' = 0 ∧ Init.servers ch' = None
  ∧ Init.lookups ch' = None.
Proof.
  unfold Init.init_by_defaults. intros H Hst.
  repeat (case_match; simplify_eq); by repeat split.
Qed.

Section init_theorems.
Variable ares__init_by_options : Init.channel → ares_status_t * Init.channel.
Variable init_by_environment : Init.channel → ares_status_t * Init.channel.
Variable init_by_resolv_conf : Init.channel → ares_status_t * Init.channel.

(** C8. [ares_init_options] can report success on a channel without the
    defaults.  When an allocation of [init_by_defaults] fails,
    [init_by_defaults] frees the server table, resets [nservers] to 0 and
    returns [ARES_ENOMEM]; [ares_init_options] replaces that status by
    the one of [ares__init_servers_state], which has no server to set up
    and succeeds.  The caller gets [ARES_SUCCESS] and a channel with
    [nservers = 0], no server table and no lookups. *)
Theorem ares_init_options_loses_defaults_failure
  (hostnames : list Init.gethostname_result) (allocs allocs' : list bool)
  (ch1 ch2 ch3 ch4 : Init.channel) (st2 st3 st4 : ares_status_t) :
  ares__init_by_options Init.zeroed = (ARES_SUCCESS, ch1) →
  init_by_environment ch1 = (st2, ch2) →
  (if bool_decide (st2 = ARES_SUCCESS) then init_by_resolv_conf ch2
   else (st2, ch2)) = (st3, ch3) →
  Init.init_by_defaults ch3 hostnames allocs = (st4, ch4, allocs') →
  st4 ≠ ARES_SUCCESS →
  Init.ares_init_options ares__init_by_options init_by_environment
    init_by_resolv_conf true hostnames
    ([true; true; true; true; true; true] ++ allocs)
  = Done (ARES_SUCCESS, Some ch4)
  ∧ Init.nservers ch4 = 0 ∧ Init.servers ch4 = None
  ∧ Init.lookups ch4 = None.
Proof.
  intros H1 H2 H3 H4 Hst.
  destruct (init_by_defaults_failure _ _ _ _ _ _ H4 Hst)
    as (_ & Hn & Hs & Hl).
  split; [|done].
  unfold Init.ares_init_options, Init.init_sources. simpl.
  rewrite H1. simpl. rewrite H2, H3, H4, Hn.
  rewrite Bool.andb_false_r.
  unfold Init.ares__init_servers_state. rewrite Hn. reflexivity.
Qed.
End init_theorems.

(** The run of C8 with sources that configure nothing, when the
    allocation of the default server fails. *)
Lemma ares_init_options_loses_defaults_failure_run :
  ∃ ch,
    Init.ares_init_options (λ ch, (ARES_SUCCESS, ch)) (λ ch, (ARES_SUCCESS, ch))
      (λ ch, (ARES_SUCCESS, ch)) true []
      [true; true; true; true; true; true; false]
    = Done (ARES_SUCCESS, Some ch)
    ∧ Init.nservers ch = 0 ∧ Init.servers ch = None
    ∧ Init.lookups ch = None.
Proof.
  eexists.
  apply (ares_init_options_loses_defaults_failure
           (λ ch, (ARES_SUCCESS, ch)) (λ ch, (ARES_SUCCESS, ch))
           (λ ch, (ARES_SUCCESS, ch)) [] [false] [] Init.zeroed Init.zeroed
           Init.zeroed _ ARES_SUCCESS ARES_SUCCESS ARES_ENOMEM);
    [reflexivity|reflexivity|reflexivity|vm_compute; reflexivity|discriminate].
Defined.

(** With memory to spare the same call gives the defaults. *)
Example ares_init_options_defaults :
  ∃ ch,
    Init.ares_init_options (λ ch, (ARES_SUCCESS, ch)) (λ ch, (ARES_SUCCESS, ch))
      (λ ch, (ARES_SUCCESS, ch)) true [] []
    = Done (ARES_SUCCESS, Some ch)
    ∧ Init.timeout ch = 2000 ∧ Init.tries ch = 3 ∧ Init.ndots ch = 1
    ∧ Init.udp_port ch = 13568 ∧ Init.tcp_port ch = 13568
    ∧ Init.ednspsz ch = 1280 ∧ Init.lookups ch = Some "fb"%string
    ∧ Init.nservers ch = 1
    ∧ (addr <$> default [] (Init.servers ch))
      = [ {| family := AF_INET; addr_bytes := [127; 0; 0; 1];
             addr_udp_port := 0; addr_tcp_port := 0 |} ].
Proof. eexists. split; [vm_compute; reflexivity|]. by repeat split. Qed.

(** ** Server address strings *)

Lemma drop_while_length (f : ascii → bool) (p : list ascii) :
  (length (Nameserver.drop_while f p) ≤ length p)%nat.
Proof. induction p as [|c p IH]; simpl; [lia|]. destruct (f c); simpl; lia. Qed.

Lemma drop_while_head (f : ascii → bool) (p : list ascii) c t :
  Nameserver.drop_while f p = c :: t → f c = false.
Proof.
  induction p as [|d p IH]; simpl; [done|].
  destruct (f d) eqn:Hd; [exact IH|]. by intros [= -> ->].
Qed.

Lemma drop_while_stops (f : ascii → bool) (p : list ascii) :
  f (Nameserver.char_at p 0) = false → Nameserver.drop_while f p = p.
Proof.
  destruct p as [|c p]; [done|]. unfold Nameserver.char_at. simpl.
  by intros ->.
Qed.

Lemma drop_while_app (f : ascii → bool) (token rest : list ascii) :
  Forall (λ c, f c = true) token →
  Nameserver.drop_while f (token ++ rest) = Nameserver.drop_while f rest.
Proof.
  induction 1 as [|c token Hc _ IH]; simpl; [done|]. by rewrite Hc.
Qed.

Lemma c_str_no_NUL (s : list ascii) : NUL ∉ s → Nameserver.c_str s = s.
Proof.
  induction s as [|c s IH]; simpl; [done|]. intros Hn.
  unfold Nameserver.is_char. rewrite bool_decide_eq_false_2.
  - f_equal. apply IH. intros ?. apply Hn. by right.
  - intros ->. apply Hn. by left.
Qed.

Lemma c_str_length (s : list ascii) :
  (length (Nameserver.c_str s) ≤ length s)%nat.
Proof.
  induction s as [|c s IH]; simpl; [lia|].
  destruct (Nameserver.is_char c NUL); simpl; lia.
Qed.

Lemma memchr_S (str : list ascii) (from n : nat) (c : ascii) :
  Nameserver.memchr str from (S n) c
  = if Nameserver.is_char (Nameserver.char_at str from) c then Some from
    else Nameserver.memchr str (S from) n c.
Proof. reflexivity. Qed.

Lemma memchr_found (c : ascii) (pre ip rest : list ascii) :
  c ∉ ip →
  Nameserver.memchr (pre ++ ip ++ c :: rest) (length pre) (S (length ip)) c
  = Some (length pre + length ip)%nat.
Proof.
  revert pre. induction ip as [|d ip IH]; intros pre Hn;
    rewrite memchr_S; unfold Nameserver.char_at, Nameserver.is_char;
    rewrite app_nth2, Nat.sub_diag by lia; cbn [app nth length].
  - rewrite bool_decide_eq_true_2 by done. f_equal. lia.
  - rewrite bool_decide_eq_false_2 by (intros ->; apply Hn; by left).
    specialize (IH (pre ++ [d])). rewrite <- app_assoc in IH.
    cbn [app] in IH. rewrite length_app in IH. cbn [length] in IH.
    replace (S (length pre)) with (length pre + 1)%nat by lia.
    rewrite IH; [f_equal; lia|]. intros ?. apply Hn. by right.
Qed.

(** fec0::/10 is the set of addresses whose first byte is 0xfe and whose
    second byte has its two top bits set. *)
Lemma ares_ipv6_server_blacklisted_fec0 (ipaddr : list Z) :
  Nameserver.ares_ipv6_server_blacklisted ipaddr
  = (Z.land (nth 0 ipaddr 0) 255 =? 254)
    && (Z.land (nth 1 ipaddr 0) 192 =? 192).
Proof.
  unfold Nameserver.ares_ipv6_server_blacklisted, Nameserver.blacklist,
    Nameserver.ares_ipv6_subnet_matches.
  cbn -[Z.land nth]. rewrite !Z.land_0_r. cbn -[Z.land nth].
  rewrite !Bool.andb_true_r, Bool.orb_false_r.
  change (Z.land 254 255) with 254. change (Z.land 192 192) with 192.
  by rewrite (Z.eqb_sym 254), (Z.eqb_sym 192).
Qed.

Section nameserver_theorems.
Variable ares_inet_pton4 : list ascii → option (list Z).
Variable ares_inet_pton6 : list ascii → option (list Z).

(** An IPv6 server that is accepted is not in fec0::/10. *)
Lemma parse_dnsaddrport_fields_blacklist str addr_start addr_end port host p :
  Nameserver.parse_dnsaddrport_fields ares_inet_pton4 ares_inet_pton6
    str addr_start addr_end port = Nameserver.Parsed host p →
  family host = AF_INET6 →
  Nameserver.ares_ipv6_server_blacklisted (addr_bytes host) = false.
Proof.
  unfold Nameserver.parse_dnsaddrport_fields. intros H Hf.
  repeat (case_match; simplify_eq); simpl in *; try done.
  all: by apply Bool.negb_true_iff.
Qed.

(** A string that parses without a port part gives port 0. *)
Lemma parse_dnsaddrport_fields_no_port str addr_start addr_end host p :
  Nameserver.parse_dnsaddrport_fields ares_inet_pton4 ares_inet_pton6
    str addr_start addr_end None = Nameserver.Parsed host p →
  p = 0.
Proof.
  unfold Nameserver.parse_dnsaddrport_fields. intros H.
  repeat (case_match; simplify_eq); reflexivity.
Qed.

(** C9. [parse_dnsaddrport] rejects the form [[addr]]: for a token that
    is an address between brackets with nothing after the closing
    bracket, the test that looks for a port always goes on to read the
    character after the token, finds no colon there and gives
    [ARES_EBADSTR], whatever the address is. *)
Theorem parse_dnsaddrport_rejects_brackets_without_port
  (ip rest : list ascii) :
  "]"%char ∉ ip → head rest ≠ Some ":"%char →
  Nameserver.parse_dnsaddrport ares_inet_pton4 ares_inet_pton6
    ("["%char :: ip ++ "]"%char :: rest) (length ip + 2)
  = Nameserver.Rejected ARES_EBADSTR.
Proof.
  intros Hip Hrest. unfold Nameserver.parse_dnsaddrport.
  change (Nameserver.char_at ("["%char :: ip ++ "]"%char :: rest) 0)
    with "["%char.
  replace (length ip + 2 =? 0)%nat with false
    by (symmetry; apply Nat.eqb_neq; lia).
  change (Nameserver.is_char "[" "[") with true. cbn [negb andb orb].
  replace (length ip + 2 - 1)%nat with (S (length ip)) by lia.
  pose proof (memchr_found "]" ["["%char] ip rest Hip) as Hm.
  change (["["%char] ++ ip ++ "]"%char :: rest)
    with ("["%char :: ip ++ "]"%char :: rest) in Hm.
  change (length ["["%char]) with 1%nat in Hm. rewrite Hm.
  replace (1 + length ip <? length ip + 2)%nat with true
    by (symmetry; apply Nat.ltb_lt; lia).
  replace (Nameserver.char_at ("["%char :: ip ++ "]"%char :: rest)
             (S (1 + length ip)))
    with (Nameserver.char_at rest 0).
  - unfold Nameserver.char_at, Nameserver.is_char.
    rewrite bool_decide_eq_false_2; [done|].
    destruct rest as [|c rest]; simpl in *; [done|]. congruence.
  - unfold Nameserver.char_at. cbn [nth Nat.add].
    rewrite app_nth2 by lia.
    replace (S (length ip) - length ip)%nat with 1%nat by lia. done.
Qed.

(** Rounds enough for the text give the same result. *)
Lemma config_nameserver_fuel_enough (fuel fuel' : nat) :
  ∀ p servers nservers allocs,
    (length p ≤ fuel)%nat → (length p ≤ fuel')%nat →
    Nameserver.config_nameserver_fuel ares_inet_pton4 ares_inet_pton6
      fuel servers nservers p allocs
    = Nameserver.config_nameserver_fuel ares_inet_pton4 ares_inet_pton6
        fuel' servers nservers p allocs.
Proof.
  revert fuel'. induction fuel as [|fuel IH]; intros fuel' p servers nservers
    allocs Hf Hf'.
  - destruct p; [|simpl in Hf; lia]. by destruct fuel'.
  - destruct fuel' as [|fuel'].
    { destruct p; [done|simpl in Hf'; lia]. }
    cbn [Nameserver.config_nameserver_fuel].
    pose proof (drop_while_length Nameserver.is_separator p) as Hl.
    destruct (Nameserver.drop_while Nameserver.is_separator p)
      as [|c t] eqn:Hp; [done|].
    pose proof (drop_while_head _ _ _ _ Hp) as Hc.
    set (p2 := Nameserver.drop_while _ (c :: t)).
    assert (Hl2 : (length p2 ≤ length t)%nat).
    { subst p2. cbn [Nameserver.drop_while]. rewrite Hc. simpl.
      apply drop_while_length. }
    simpl in Hl.
    destruct (Nameserver.parse_dnsaddrport _ _ _ _); [|apply IH; lia].
    destruct (Init.take_alloc allocs) as [[] allocs1]; simpl; [|done].
    apply IH; lia.
Qed.

Lemma tokens_of_run (token run rest : list ascii) :
  Forall (λ c, Nameserver.is_separator c = false) run →
  tokens_of token (run ++ rest) = tokens_of (token ++ run) rest.
Proof.
  intros Hrun. revert token.
  induction Hrun as [|c run Hc _ IH]; intros token; simpl.
  - by rewrite app_nil_r.
  - rewrite Hc, IH. by rewrite <- app_assoc.
Qed.

Lemma tokens_of_separators (ws rest : list ascii) :
  Forall (λ c, Nameserver.is_separator c = true) ws →
  tokens_of [] (ws ++ rest) = tokens_of [] rest.
Proof. induction 1 as [|c ws Hc _ IH]; simpl; [done|]. by rewrite Hc. Qed.

Lemma tokens_of_end (token rest : list ascii) :
  token ≠ [] →
  rest = [] ∨ Nameserver.is_separator (Nameserver.char_at rest 0) = true →
  tokens_of token rest = (token, rest) :: tokens_of [] rest.
Proof.
  intros Htok [->|Hsep]; [by destruct token|].
  destruct rest as [|c rest]; [by destruct token|].
  change (Nameserver.is_separator c = true) in Hsep. simpl. rewrite Hsep.
  by destruct token.
Qed.

(** The first token of a text that starts with one. *)
Lemma tokens_of_first (ws token rest : list ascii) :
  Forall (λ c, Nameserver.is_separator c = true) ws →
  token ≠ [] →
  Forall (λ c, Nameserver.is_separator c = false) token →
  rest = [] ∨ Nameserver.is_separator (Nameserver.char_at rest 0) = true →
  tokens_of [] (ws ++ token ++ rest) = (token, rest) :: tokens_of [] rest.
Proof.
  intros Hws Hne Htok Hrest.
  rewrite tokens_of_separators, tokens_of_run by done. simpl.
  by apply tokens_of_end.
Qed.

Lemma drop_while_cut (f : ascii → bool) (p : list ascii) :
  ∃ ws, p = ws ++ Nameserver.drop_while f p ∧ Forall (λ c, f c = true) ws
    ∧ (Nameserver.drop_while f p = []
       ∨ f (Nameserver.char_at (Nameserver.drop_while f p) 0) = false).
Proof.
  induction p as [|c p (ws & E & Hw & Hend)]; simpl.
  - exists []. by eauto.
  - destruct (f c) eqn:Hc.
    + exists (c :: ws). split; [simpl; by f_equal|]. split; [by constructor|done].
    + exists []. split; [done|]. split; [done|]. by right.
Qed.

(** What the loop of [config_nameserver] leaves: the servers it was
    given, then those of the first [k] accepted tokens. *)
Lemma config_nameserver_fuel_tokens (fuel : nat) :
  ∀ p servers allocs,
    (length p ≤ fuel)%nat →
    Z.of_nat (length servers + length p) < 2 ^ 64 →
    let accepted :=
      omap (token_server ares_inet_pton4 ares_inet_pton6) (tokens_of [] p) in
    ∃ status k allocs',
      Nameserver.config_nameserver_fuel ares_inet_pton4 ares_inet_pton6
        fuel servers (Z.of_nat (length servers)) p allocs
      = Done (status, servers ++ take k accepted,
              Z.of_nat (length servers + k), allocs')
      ∧ (k ≤ length accepted)%nat
      ∧ (false ∉ take k allocs)
      ∧ ((status = ARES_SUCCESS ∧ k = length accepted
          ∧ allocs' = drop k allocs)
         ∨ (status = ARES_ENOMEM ∧ (k < length accepted)%nat
            ∧ allocs !! k = Some false ∧ allocs' = drop (S k) allocs)).
Proof.
  induction fuel as [|fuel IH]; intros p servers allocs Hf Hw accepted.
  - destruct p; [|simpl in Hf; lia]. subst accepted. simpl.
    exists ARES_SUCCESS, 0%nat, allocs. rewrite app_nil_r, Nat.add_0_r.
    split; [done|]. split; [done|]. split; [apply not_elem_of_nil|].
    left. by rewrite drop_0.
  - cbn [Nameserver.config_nameserver_fuel].
    destruct (drop_while_cut Nameserver.is_separator p)
      as (ws & Ep & Hws & _).
    pose proof (drop_while_length Nameserver.is_separator p) as Hl.
    destruct (Nameserver.drop_while Nameserver.is_separator p)
      as [|c t] eqn:Hp.
    { subst accepted. rewrite Ep, tokens_of_separators by done. simpl.
      exists ARES_SUCCESS, 0%nat, allocs. rewrite app_nil_r, Nat.add_0_r.
      split; [done|]. split; [done|]. split; [apply not_elem_of_nil|].
      left. by rewrite drop_0. }
    pose proof (drop_while_head _ _ _ _ Hp) as Hc.
    destruct (drop_while_cut (λ c, negb (Nameserver.is_separator c)) (c :: t))
      as (token & Et & Htok & Hend).
    set (p2 := Nameserver.drop_while _ (c :: t)) in *.
    assert (Hl2 : (length p2 ≤ length t)%nat).
    { subst p2. cbn [Nameserver.drop_while]. rewrite Hc. simpl.
      apply drop_while_length. }
    assert (Hne : token ≠ []).
    { intros ->. simpl in Et. rewrite <- Et in Hl2. simpl in Hl2. lia. }
    assert (Htok' : Forall (λ c, Nameserver.is_separator c = false) token).
    { eapply Forall_impl; [exact Htok|]. intros ? ?. by apply negb_true_iff. }
    assert (Hend' : p2 = []
              ∨ Nameserver.is_separator (Nameserver.char_at p2 0) = true).
    { destruct Hend as [?|He]; [by left|right]. by apply negb_false_iff. }
    clearbody p2.
    assert (Hlen : (length (c :: t) - length p2)%nat = length token).
    { pose proof (f_equal length Et) as E. rewrite length_app in E. lia. }
    assert (Htokens : tokens_of [] p = (token, p2) :: tokens_of [] p2).
    { rewrite Ep, Et. by apply tokens_of_first. }
    subst accepted. rewrite Htokens. cbn [omap list_omap].
    rewrite Hlen, Et. simpl in Hl.
    assert (Hlp : (length p2 ≤ fuel)%nat) by lia.
    assert (Hts : token_server ares_inet_pton4 ares_inet_pton6 (token, p2)
                  = match Nameserver.parse_dnsaddrport ares_inet_pton4
                            ares_inet_pton6 (token ++ p2) (length token) with
                    | Nameserver.Parsed host port =>
                        Some (Init.zero_server
                                {| family := family host;
                                   addr_bytes := addr_bytes host;
                                   addr_udp_port := Init.htons port;
                                   addr_tcp_port := Init.htons port |})
                    | Nameserver.Rejected _ => None
                    end) by reflexivity.
    destruct (Nameserver.parse_dnsaddrport _ _ _ _) as [host port|st];
      rewrite Hts; clear Hts.
    + set (srv := Init.zero_server _).
      set (accepted := omap _ (tokens_of [] p2)).
      destruct allocs as [|ok allocs1]; [|destruct ok]; simpl.
      * rewrite Nat2Z.id, firstn_all.
        destruct (IH p2 (servers ++ [srv]) [] Hlp)
          as (status & k & allocs' & Hrun & Hk & Hno & Hst).
        { rewrite length_app. simpl. lia. }
        rewrite length_app in Hrun. simpl in Hrun.
        unfold size_wrap. rewrite Z.mod_small by lia.
        replace (Z.of_nat (length servers) + 1)
          with (Z.of_nat (length servers + 1)) by lia.
        rewrite Hrun. exists status, (S k), allocs'.
        rewrite <- app_assoc. cbv zeta in Hk, Hst. fold accepted in Hk, Hst.
        cbn [take app length].
        split; [do 4 f_equal; lia|]. split; [lia|].
        split; [apply not_elem_of_nil|].
        destruct Hst as [(-> & -> & ->)|(_ & _ & Hf' & _)]; [|done].
        left. by rewrite !drop_nil.
      * rewrite Nat2Z.id, firstn_all.
        destruct (IH p2 (servers ++ [srv]) allocs1 Hlp)
          as (status & k & allocs' & Hrun & Hk & Hno & Hst).
        { rewrite length_app. simpl. lia. }
        rewrite length_app in Hrun. simpl in Hrun.
        unfold size_wrap. rewrite Z.mod_small by lia.
        replace (Z.of_nat (length servers) + 1)
          with (Z.of_nat (length servers + 1)) by lia.
        rewrite Hrun. exists status, (S k), allocs'.
        rewrite <- app_assoc. cbv zeta in Hk, Hst. fold accepted in Hk, Hst.
        cbn [take app length drop lookup list_lookup].
        split; [do 4 f_equal; lia|]. split; [lia|].
        split.
        { intros [Hin|Hin]%elem_of_cons; [done|by apply Hno]. }
        destruct Hst as [(-> & -> & ->)|(-> & ? & ? & ->)];
          [by left|right]. repeat split; try done. lia.
      * exists ARES_ENOMEM, 0%nat, allocs1.
        cbn [take]. rewrite app_nil_r, Nat.add_0_r.
        split; [done|]. split; [lia|]. split; [apply not_elem_of_nil|].
        right. repeat split; try done. cbn [length]. lia.
    + destruct (IH p2 servers allocs Hlp)
        as (status & k & allocs' & Hrun & H); [lia|].
      by exists status, k, allocs'.
Qed.

(** C10. [config_nameserver] returns for every string with the servers
    it was given followed by those of the tokens [parse_dnsaddrport]
    accepts, in the order of the text: a token it rejects (a blacklisted
    fec0::/10 address is one) leaves nothing and the tokens after it are
    read as before.  The status is never a syntax error.  It is
    [ARES_SUCCESS] when every accepted token found memory, whether or not
    there was one; else it is [ARES_ENOMEM], and the array holds the
    servers given and those of the accepted tokens before the one whose
    allocation failed. *)
Theorem config_nameserver_only_fails_on_memory
  (servers : list server_state) (str : list ascii) (allocs : list bool) :
  Z.of_nat (length servers + length str) < 2 ^ 64 →
  ∃ status k allocs',
    Nameserver.config_nameserver ares_inet_pton4 ares_inet_pton6
      servers (Z.of_nat (length servers)) str allocs
    = Done (status,
            servers
            ++ take k (accepted_servers ares_inet_pton4 ares_inet_pton6 str),
            Z.of_nat (length servers + k), allocs')
    ∧ (false ∉ take k allocs)
    ∧ ((status = ARES_SUCCESS
        ∧ k = length (accepted_servers ares_inet_pton4 ares_inet_pton6 str)
        ∧ allocs' = drop k allocs)
       ∨ (status = ARES_ENOMEM
          ∧ (k < length
                   (accepted_servers ares_inet_pton4 ares_inet_pton6 str))%nat
          ∧ allocs !! k = Some false ∧ allocs' = drop (S k) allocs)).
Proof.
  intros Hw. unfold Nameserver.config_nameserver, accepted_servers.
  pose proof (c_str_length str) as Hl.
  destruct (config_nameserver_fuel_tokens (length (Nameserver.c_str str))
              (Nameserver.c_str str) servers allocs)
    as (status & k & allocs' & Hrun & _ & Hno & Hst); [lia|lia|].
  by exists status, k, allocs'.
Qed.
End nameserver_theorems.

(** ** Server strings on examples *)

(** The forms without brackets and with a port are read. *)
Example parse_dnsaddrport_forms :
  example_parse "1.2.3.4"
  = Nameserver.Parsed (example_host AF_INET [1; 2; 3; 4]) 0
  ∧ example_parse "[1.2.3.4]:53"
    = Nameserver.Parsed (example_host AF_INET [1; 2; 3; 4]) 53
  ∧ example_parse "[2001:db8::1]:5353"
    = Nameserver.Parsed
        (example_host AF_INET6
           [32; 1; 13; 184; 0; 0; 0; 0; 0; 0; 0; 0; 0; 0; 0; 1]) 5353
  ∧ example_parse "2001:db8::1"
    = Nameserver.Parsed
        (example_host AF_INET6
           [32; 1; 13; 184; 0; 0; 0; 0; 0; 0; 0; 0; 0; 0; 0; 1]) 0
  ∧ example_parse "fec0::1" = Nameserver.Rejected ARES_EBADSTR
  ∧ example_parse "[fec0::1]:53" = Nameserver.Rejected ARES_EBADSTR.
Proof. vm_compute. by repeat split. Qed.

(** The bracketed form without a port is not read, an empty port and a
    port that is no number are read as port 0. *)
Example parse_dnsaddrport_brackets :
  example_parse "[1.2.3.4]" = Nameserver.Rejected ARES_EBADSTR
  ∧ example_parse "[2001:db8::1]" = Nameserver.Rejected ARES_EBADSTR
  ∧ example_parse "[1.2.3.4]:"
    = Nameserver.Parsed (example_host AF_INET [1; 2; 3; 4]) 0
  ∧ example_parse "[1.2.3.4]:dns"
    = Nameserver.Parsed (example_host AF_INET [1; 2; 3; 4]) 0.
Proof. vm_compute. by repeat split. Qed.

(** The witness of C9: [[1.2.3.4]] at the end of the text. *)
Lemma parse_dnsaddrport_rejects_brackets_without_port_witness :
  Nameserver.parse_dnsaddrport example_pton4 example_pton6
    (String.list_ascii_of_string "[1.2.3.4]") 9
  = Nameserver.Rejected ARES_EBADSTR.
Proof.
  apply (parse_dnsaddrport_rejects_brackets_without_port example_pton4
           example_pton6 (String.list_ascii_of_string "1.2.3.4") []).
  - apply (bool_decide_unpack _). vm_compute. exact I.
  - discriminate.
Defined.

(** The servers of a list with a blacklisted server and one in brackets
    without a port: the three others. *)
Example accepted_servers_example :
  accepted_servers example_pton4 example_pton6
    (String.list_ascii_of_string
       "1.2.3.4, fec0::1 [5.6.7.8]:53 [9.9.9.9] 8.8.4.4")
  = [ Init.zero_server (example_host AF_INET [1; 2; 3; 4]);
      Init.zero_server
        {| family := AF_INET; addr_bytes := [5; 6; 7; 8];
           addr_udp_port := 13568; addr_tcp_port := 13568 |};
      Init.zero_server (example_host AF_INET [8; 8; 4; 4]) ].
Proof. vm_compute. reflexivity. Qed.

(** The witness of C10: that list, with memory for two servers. *)
Lemma config_nameserver_only_fails_on_memory_witness :
  ∃ status k allocs',
    Nameserver.config_nameserver example_pton4 example_pton6
      [] (Z.of_nat (length (@nil server_state)))
      (String.list_ascii_of_string
         "1.2.3.4, fec0::1 [5.6.7.8]:53 [9.9.9.9] 8.8.4.4")
      [true; true; false]
    = Done (status,
            []
            ++ take k
                 (accepted_servers example_pton4 example_pton6
                    (String.list_ascii_of_string
                       "1.2.3.4, fec0::1 [5.6.7.8]:53 [9.9.9.9] 8.8.4.4")),
            Z.of_nat (length (@nil server_state) + k), allocs')
    ∧ (false ∉ take k [true; true; false])
    ∧ ((status = ARES_SUCCESS
        ∧ k = length
                (accepted_servers example_pton4 example_pton6
                   (String.list_ascii_of_string
                      "1.2.3.4, fec0::1 [5.6.7.8]:53 [9.9.9.9] 8.8.4.4"))
        ∧ allocs' = drop k [true; true; false])
       ∨ (status = ARES_ENOMEM
          ∧ (k < length
                   (accepted_servers example_pton4 example_pton6
                      (String.list_ascii_of_string
                         "1.2.3.4, fec0::1 [5.6.7.8]:53 [9.9.9.9] 8.8.4.4")))%nat
          ∧ [true; true; false] !! k = Some false
          ∧ allocs' = drop (S k) [true; true; false])).
Proof.
  apply (config_nameserver_only_fails_on_memory example_pton4 example_pton6
           []
           (String.list_ascii_of_string
              "1.2.3.4, fec0::1 [5.6.7.8]:53 [9.9.9.9] 8.8.4.4")
           [true; true; false]).
  vm_compute. reflexivity.
Defined.

Example config_nameserver_run :
  Nameserver.config_nameserver example_pton4 example_pton6 [] 0
    (String.list_ascii_of_string "1.2.3.4, fec0::1 [5.6.7.8]:53 [9.9.9.9]")
    []
  = Done (ARES_SUCCESS,
          [ Init.zero_server (example_host AF_INET [1; 2; 3; 4]);
            Init.zero_server
              {| family := AF_INET; addr_bytes := [5; 6; 7; 8];
                 addr_udp_port := 13568; addr_tcp_port := 13568 |} ],
          2, []).
Proof. vm_compute. reflexivity. Qed.

(** When the second allocation fails the first server is still there. *)
Example config_nameserver_no_memory :
  Nameserver.config_nameserver example_pton4 example_pton6 [] 0
    (String.list_ascii_of_string "1.2.3.4, fec0::1 [5.6.7.8]:53 [9.9.9.9]")
    [true; false]
  = Done (ARES_ENOMEM,
          [ Init.zero_server (example_host AF_INET [1; 2; 3; 4]) ], 1, []).
Proof. vm_compute. reflexivity. Qed.

(** ** Deadlines and their order *)

Lemma timeval_eq (a b : timeval) :
  tv_sec a = tv_sec b → tv_usec a = tv_usec b → a = b.
Proof. destruct a, b; simpl; congruence. Qed.

Lemma ares_query_timeout_cmp_cb_cases (a b : timeval) :
  (ares_query_timeout_cmp_cb a b = -1 ∧ earlier a b)
  ∨ (ares_query_timeout_cmp_cb a b = 0 ∧ a = b)
  ∨ (ares_query_timeout_cmp_cb a b = 1 ∧ earlier b a).
Proof.
  unfold ares_query_timeout_cmp_cb, earlier.
  repeat case_match;
    repeat match goal with
           | H : (_ <? _) = true |- _ => apply Z.ltb_lt in H
           | H : (_ <? _) = false |- _ => apply Z.ltb_ge in H
           end;
    first [ left; split; [done|lia]
          | right; right; split; [done|lia]
          | right; left; split; [done|apply timeval_eq; lia] ].
Qed.

Lemma earlier_irrefl (a : timeval) : ¬ earlier a a.
Proof. unfold earlier. lia. Qed.

Lemma ares__timedout_earlier (now check : timeval) :
  ares__timedout now check = false ↔ earlier now check.
Proof.
  unfold ares__timedout, earlier. cbv zeta.
  repeat case_match;
    repeat match goal with
           | H : (_ <? _) = true |- _ => apply Z.ltb_lt in H
           | H : (_ <? _) = false |- _ => apply Z.ltb_ge in H
           | H : (_ <=? _) = true |- _ => apply Z.leb_le in H
           | H : (_ <=? _) = false |- _ => apply Z.leb_gt in H
           end; split; intros; try done; try lia.
Qed.

(** X1.  [ares_query_timeout_cmp_cb], the comparator that keeps
    [queries_by_timeout] sorted, is a total order on deadlines: swapping
    the arguments negates the result, the result is 0 exactly for equal
    deadlines, negative exactly when the first deadline is earlier
    (seconds first, then microseconds), and "not later than" is
    transitive. *)
Theorem ares_query_timeout_cmp_cb_total_order (a b c : timeval) :
  ares_query_timeout_cmp_cb a b = - ares_query_timeout_cmp_cb b a
  ∧ (ares_query_timeout_cmp_cb a b = 0 ↔ a = b)
  ∧ (ares_query_timeout_cmp_cb a b < 0 ↔ earlier a b)
  ∧ (ares_query_timeout_cmp_cb a b ≤ 0 → ares_query_timeout_cmp_cb b c ≤ 0 →
     ares_query_timeout_cmp_cb a c ≤ 0).
Proof.
  pose proof (earlier_irrefl a) as Ha.
  destruct (ares_query_timeout_cmp_cb_cases a b) as [[E1 H1]|[[E1 H1]|[E1 H1]]];
    destruct (ares_query_timeout_cmp_cb_cases b a) as [[E2 H2]|[[E2 H2]|[E2 H2]]];
    destruct (ares_query_timeout_cmp_cb_cases b c) as [[E3 H3]|[[E3 H3]|[E3 H3]]];
    destruct (ares_query_timeout_cmp_cb_cases a c) as [[E4 H4]|[[E4 H4]|[E4 H4]]];
    rewrite ?E1, ?E2, ?E3, ?E4; subst;
    unfold earlier in *;
    (repeat split; intros; subst; try done; try lia).
Qed.

(** X2.  [ares__timedout] agrees with the order of the deadline list: a
    deadline has timed out at [now] exactly when the comparator does not
    put it after [now]; hence once a deadline has not timed out, no
    deadline sorted after it has, which is what lets [process_timeouts]
    stop at the first query that has not timed out. *)
Theorem ares__timedout_follows_order (now t1 t2 : timeval) :
  (ares__timedout now t1 = true ↔ ares_query_timeout_cmp_cb t1 now ≤ 0)
  ∧ (ares_query_timeout_cmp_cb t1 t2 ≤ 0 → ares__timedout now t1 = false →
     ares__timedout now t2 = false).
Proof.
  split.
  - destruct (ares__timedout now t1) eqn:E.
    + split; [intros _|done].
      destruct (ares_query_timeout_cmp_cb_cases t1 now)
        as [[E1 H1]|[[E1 H1]|[E1 H1]]]; rewrite E1; try lia.
      apply ares__timedout_earlier in H1. congruence.
    + split; [done|]. apply ares__timedout_earlier in E.
      destruct (ares_query_timeout_cmp_cb_cases t1 now)
        as [[E1 H1]|[[E1 H1]|[E1 H1]]]; rewrite E1; try lia;
        unfold earlier in *; subst; lia.
  - intros H12 H1. apply ares__timedout_earlier in H1.
    apply ares__timedout_earlier.
    destruct (ares_query_timeout_cmp_cb_cases t1 t2)
      as [[E1 H2]|[[E1 H2]|[E1 H2]]]; rewrite E1 in H12; try lia;
      unfold earlier in *; subst; try done; lia.
Qed.

(** X3.  A deadline set by [timeadd] expires after exactly the given
    number of milliseconds: for a count below [2 ^ 63] added to a
    normalised time, the result is normalised, lies [1000 * ms]
    microseconds after [now], and [ares__timedout] holds of it at a
    normalised time [t] exactly when [t] is at least that late. *)
Theorem timeadd_deadline (now t : timeval) (ms : Z) :
  normalised now → normalised t → 0 ≤ ms < 2 ^ 63 →
  normalised (timeadd now ms)
  ∧ usecs (timeadd now ms) = usecs now + 1000 * ms
  ∧ (ares__timedout t (timeadd now ms) = true
     ↔ usecs now + 1000 * ms ≤ usecs t).
Proof.
  intros Hn Ht Hms.
  assert (Hnorm : normalised (timeadd now ms)).
  { unfold normalised, timeadd in *. cbv zeta.
    assert (0 ≤ ms mod 1000 < 1000) by (apply Z.mod_pos_bound; lia).
    rewrite (time_t_of_small (ms mod 1000 * 1000)) by lia.
    case_match; simpl;
      repeat match goal with
           | H : (_ <=? _) = true |- _ => apply Z.leb_le in H
           | H : (_ <=? _) = false |- _ => apply Z.leb_gt in H
           end; lia. }
  pose proof (usecs_timeadd now ms Hms) as Hu.
  split; [done|]. split; [done|].
  rewrite <- Hu. set (d := timeadd now ms) in *. clearbody d.
  destruct (ares__timedout t d) eqn:E.
  - split; [intros _|done].
    destruct (decide (usecs d ≤ usecs t)) as [|Hlt]; [done|].
    assert (earlier t d) as Hd.
    { unfold earlier, usecs, normalised in *. lia. }
    apply ares__timedout_earlier in Hd. congruence.
  - apply ares__timedout_earlier in E.
    unfold earlier, usecs, normalised in *. split; [done|lia].
Qed.

(** The witness of X3: one second added to the time of the examples. *)
Lemma timeadd_deadline_witness :
  normalised (timeadd time0 1000)
  ∧ usecs (timeadd time0 1000) = usecs time0 + 1000 * 1000
  ∧ (ares__timedout {| tv_sec := 101; tv_usec := 0 |} (timeadd time0 1000)
     = true
     ↔ usecs time0 + 1000 * 1000 ≤ usecs {| tv_sec := 101; tv_usec := 0 |}).
Proof.
  apply (timeadd_deadline time0 {| tv_sec := 101; tv_usec := 0 |} 1000);
    unfold normalised; simpl; lia.
Defined.

(** ** Ending and detaching *)

Lemma ares_detach_query_run (ch : ares_channel) (qr : nat) (q : query) :
  queries ch !! qr = Some q →
  ares_detach_query ch qr = Done (detach_done ch qr q).
Proof.
  intros Hq. unfold ares_detach_query, get_query. rewrite Hq. reflexivity.
Qed.

Lemma detach_done_fields (ch : ares_channel) (qr : nat) (q : query) :
  queries (detach_done ch qr q) = alter unlinked qr (queries ch)
  ∧ queries_by_qid (detach_done ch qr q) = delete (qid q) (queries_by_qid ch)
  ∧ queries_by_timeout (detach_done ch qr q)
    = (if node_queries_by_timeout q
       then remove_node qr (queries_by_timeout ch) else queries_by_timeout ch)
  ∧ all_queries (detach_done ch qr q)
    = (if node_all_queries q
       then remove_node qr (all_queries ch) else all_queries ch)
  ∧ llists (detach_done ch qr q)
    = match node_queries_to_conn q with
      | Some l => alter (remove_node qr) l (llists ch)
      | None => llists ch
      end
  ∧ conns (detach_done ch qr q) = conns ch
  ∧ servers (detach_done ch qr q) = servers ch
  ∧ connnode_by_socket (detach_done ch qr q) = connnode_by_socket ch
  ∧ env (detach_done ch qr q) = env ch
  ∧ nservers (detach_done ch qr q) = nservers ch
  ∧ udp_max_queries (detach_done ch qr q) = udp_max_queries ch.
Proof.
  unfold detach_done, ares__llist_node_destroy_all, ares__llist_node_destroy,
    ares__slist_node_destroy.
  by destruct (node_all_queries q), (node_queries_to_conn q),
    (node_queries_by_timeout q).
Qed.

Lemma detach_done_query (ch : ares_channel) (qr : nat) (q : query) :
  queries ch !! qr = Some q →
  queries (detach_done ch qr q) !! qr = Some (unlinked q).
Proof.
  intros Hq. destruct (detach_done_fields ch qr q) as (-> & _).
  by rewrite lookup_alter_eq, Hq.
Qed.

Lemma detach_done_again (ch : ares_channel) (qr : nat) (q : query) :
  queries ch !! qr = Some q →
  detach_done (detach_done ch qr q) qr (unlinked q) = detach_done ch qr q.
Proof.
  intros Hq. set (ch1 := detach_done ch qr q).
  assert (Hid : queries_by_qid ch1 = delete (qid q) (queries_by_qid ch)).
  { unfold ch1. by destruct (detach_done_fields ch qr q) as (_ & -> & _). }
  assert (Hup : upd_query qr unlinked ch1 = ch1).
  { unfold ch1, detach_done. rewrite upd_query_upd_query.
    apply upd_query_ext. intros q0 _. by destruct q0. }
  clearbody ch1. unfold detach_done. simpl.
  assert (delete (qid q) (queries_by_qid ch1) = queries_by_qid ch1) as ->.
  { rewrite Hid. apply map_eq. intros i.
    destruct (decide (i = qid q)) as [->|Hi].
    - by rewrite !lookup_delete_eq.
    - by rewrite !lookup_delete_ne. }
  assert (set_queries_by_qid (queries_by_qid ch1) ch1 = ch1) as ->
    by (by destruct ch1).
  exact Hup.
Qed.

Lemma end_query_run (ch : ares_channel) (qr : nat) (q : query)
  (status : ares_status_t) (abuf : option (list Z)) (alen : Z) :
  queries ch !! qr = Some q →
  end_query ch qr status abuf alen
  = Done (set_queries (delete qr (queries ch))
            (log_callback
               {| cb_query := qr; cb_arg := arg q; cb_status := status;
                  cb_timeouts := int_of (timeouts q); cb_abuf := abuf;
                  cb_alen := int_of alen |}
               (detach_done ch qr q))).
Proof.
  intros Hq. unfold end_query.
  rewrite (ares_detach_query_run ch qr q Hq). simpl.
  unfold get_query. rewrite (detach_done_query ch qr q Hq). simpl.
  set (ev := {| cb_query := qr |}).
  unfold ares__free_query.
  rewrite (ares_detach_query_run _ qr (unlinked q))
    by apply (detach_done_query ch qr q Hq).
  change (detach_done (log_callback ev (detach_done ch qr q)) qr (unlinked q))
    with (log_callback ev
            (detach_done (detach_done ch qr q) qr (unlinked q))).
  rewrite (detach_done_again ch qr q Hq).
  cbn [mbind outcome_bind]. f_equal.
  change (queries (log_callback ev (detach_done ch qr q)))
    with (queries (detach_done ch qr q)).
  destruct (detach_done_fields ch qr q) as (-> & _). f_equal.
  apply map_eq. intros i. destruct (decide (i = qr)) as [->|Hi].
  - by rewrite !lookup_delete_eq.
  - rewrite !lookup_delete_ne by congruence.
    by rewrite lookup_alter_ne by congruence.
Qed.

(** X4.  [ares_detach_query] may be repeated: it clears the three node
    handles of the query, so detaching a query that has just been
    detached changes nothing.  [end_query] relies on this when it
    detaches the query and then lets [ares__free_query] detach it
    again. *)
Theorem ares_detach_query_idempotent (ch : ares_channel) (qr : nat)
  (q : query) :
  queries ch !! qr = Some q →
  ∃ ch1, ares_detach_query ch qr = Done ch1
    ∧ queries ch1 !! qr = Some (unlinked q)
    ∧ ares_detach_query ch1 qr = Done ch1.
Proof.
  intros Hq. exists (detach_done ch qr q).
  split; [by apply ares_detach_query_run|].
  split; [by apply detach_done_query|].
  rewrite (ares_detach_query_run _ qr (unlinked q))
    by (by apply detach_done_query).
  by rewrite detach_done_again.
Qed.

(** The witness of X4: the query of the example channel after its
    first send. *)
Lemma ares_detach_query_idempotent_witness :
  ∃ ch1, ares_detach_query (sent_channel 0) 0 = Done ch1
    ∧ queries ch1 !! 0%nat = Some (unlinked sent_query)
    ∧ ares_detach_query ch1 0 = Done ch1.
Proof.
  apply (ares_detach_query_idempotent (sent_channel 0) 0 sent_query).
  vm_compute. reflexivity.
Defined.

(** X5.  [end_query] calls the callback of the query exactly once, with
    the status and the answer as given, and with the length of the
    answer and the query's count of timeouts each converted to [int],
    and leaves no trace of the query: it is gone from the store, from
    [queries_by_qid] under its id, from the deadline list, from
    [all_queries] and from every connection's list, while the
    connections and servers are as before. *)
Theorem end_query_calls_back_once (ch : ares_channel) (qr : nat) (q : query)
  (status : ares_status_t) (abuf : option (list Z)) (alen : Z) :
  queries ch !! qr = Some q → query_linked ch qr q →
  ∃ ch', end_query ch qr status abuf alen = Done ch'
    ∧ callbacks (env ch')
      = callbacks (env ch)
        ++ [ {| cb_query := qr; cb_arg := arg q; cb_status := status;
                cb_timeouts := int_of (timeouts q); cb_abuf := abuf;
                cb_alen := int_of alen |} ]
    ∧ queries ch' = delete qr (queries ch)
    ∧ queries_by_qid ch' = delete (qid q) (queries_by_qid ch)
    ∧ (qr ∉ queries_by_timeout ch') ∧ (qr ∉ all_queries ch')
    ∧ (∀ l qs, llists ch' !! l = Some qs → qr ∉ qs)
    ∧ conns ch' = conns ch ∧ servers ch' = servers ch.
Proof.
  intros Hq [[Ht1 Ht2] [Ha1 Ha2] Hl].
  rewrite (end_query_run ch qr q status abuf alen Hq).
  eexists. split; [reflexivity|].
  destruct (detach_done_fields ch qr q)
    as (_ & Hid & Hbt & Hall & Hll & Hcs & Hss & _ & Henv & _).
  set (D := detach_done ch qr q) in *. clearbody D. simpl.
  rewrite Hid, Hbt, Hall, Hcs, Hss, Henv.
  repeat split.
  - destruct (node_queries_by_timeout q).
    + by apply remove_node_not_in.
    + intros Hin. by specialize (Ht2 Hin).
  - destruct (node_all_queries q).
    + by apply remove_node_not_in.
    + intros Hin. by specialize (Ha2 Hin).
  - intros l qs. rewrite Hll. intros Hqs Hin.
    destruct (node_queries_to_conn q) as [l0|] eqn:En.
    + destruct (decide (l = l0)) as [->|Hne].
      * rewrite lookup_alter_eq in Hqs.
        destruct (llists ch !! l0) as [qs0|] eqn:E0; [|done].
        simpl in Hqs. injection Hqs as <-.
        destruct (Hl l0 qs0 E0) as [Hnd _].
        by apply (remove_node_not_in qr qs0 Hnd).
      * rewrite lookup_alter_ne in Hqs by done.
        destruct (Hl l qs Hqs) as [_ Hn]. specialize (Hn Hin). congruence.
    + destruct (Hl l qs Hqs) as [_ Hn]. by specialize (Hn Hin).
Qed.

Lemma sent_channel_linked : query_linked (sent_channel 0) 0 sent_query.
Proof.
  assert (queries_by_timeout (sent_channel 0) = [0%nat]) as Ht
    by (vm_compute; reflexivity).
  assert (all_queries (sent_channel 0) = [0%nat]) as Ha
    by (vm_compute; reflexivity).
  assert (llists (sent_channel 0) = {[ 0%nat := [0%nat] ]}) as Hl
    by (vm_compute; reflexivity).
  split.
  - rewrite Ht. split; [apply NoDup_singleton|done].
  - rewrite Ha. split; [apply NoDup_singleton|done].
  - intros l qs. rewrite Hl. intros [<- <-]%lookup_singleton_Some.
    split; [apply NoDup_singleton|done].
Qed.

(** The witness of X5: an answer of one byte ends the query of the
    example channel. *)
Lemma end_query_calls_back_once_witness :
  ∃ ch', end_query (sent_channel 0) 0 ARES_SUCCESS (Some [7]) 1 = Done ch'
    ∧ callbacks (env ch')
      = callbacks (env (sent_channel 0))
        ++ [ {| cb_query := 0; cb_arg := arg sent_query;
                cb_status := ARES_SUCCESS;
                cb_timeouts := int_of (timeouts sent_query);
                cb_abuf := Some [7]; cb_alen := int_of 1 |} ]
    ∧ queries ch' = delete 0%nat (queries (sent_channel 0))
    ∧ queries_by_qid ch'
      = delete (qid sent_query) (queries_by_qid (sent_channel 0))
    ∧ (0%nat ∉ queries_by_timeout ch') ∧ (0%nat ∉ all_queries ch')
    ∧ (∀ l qs, llists ch' !! l = Some qs → 0%nat ∉ qs)
    ∧ conns ch' = conns (sent_channel 0)
    ∧ servers ch' = servers (sent_channel 0).
Proof.
  apply (end_query_calls_back_once (sent_channel 0) 0 sent_query).
  - vm_compute. reflexivity.
  - apply sent_channel_linked.
Defined.

(** ** What a send leaves, and which answers reach the callback *)

Lemma ares__check_cleanup_conn_returns (ch : ares_channel) (s : Z) :
  sockets_ready ch → ∃ ch', ares__check_cleanup_conn ch s = Done ch'.
Proof.
  intros Hr. unfold ares__check_cleanup_conn.
  destruct (connnode_by_socket ch !! s) as [cn|] eqn:Hs; [|by eauto].
  destruct (Hr s cn Hs) as (c & l & Hc & Hl & [qs Hqs]).
  unfold get_conn. rewrite Hc. simpl. rewrite Hl. simpl. rewrite Hqs. simpl.
  destruct qs; [|by eauto].
  destruct (_ && _); [|by eauto].
  unfold ares__close_connection, get_conn. rewrite Hc. simpl. by eauto.
Qed.

(** X6.  On a channel whose tables cover what the dispatcher looks up,
    [ares__send_query] returns, keeps every other query as it was, and
    does one of two things, never both: it reports [ARES_SUCCESS], calls
    no callback and leaves the query waiting on a live connection with
    its deadline set from [now]; or it ends the query, which is then
    gone from the store, with exactly one call of its callback, without
    an answer and, for a query that carries an error status, with an
    error. *)
Theorem ares__send_query_ends_or_enqueues (ch : ares_channel) (qr : nat)
  (now : timeval) (q : query) :
  dispatch_ready ch → queries ch !! qr = Some q →
  ∃ st ch', ares__send_query ch qr now = Done (st, ch')
    ∧ dispatch_ready ch'
    ∧ (∀ r, r ≠ qr → queries ch' !! r = queries ch !! r)
    ∧ ((st = ARES_SUCCESS
        ∧ callbacks (env ch') = callbacks (env ch)
        ∧ ∃ q' conn, queries ch' !! qr = Some q' ∧ q_conn q' = Some conn
            ∧ is_Some (conns ch' !! conn)
            ∧ q_timeout q'
              = timeadd now
                  (timeplus_for (timeout ch) (try_count q') (nservers ch)))
       ∨ (queries ch' !! qr = None
          ∧ ∃ ev, callbacks (env ch') = callbacks (env ch) ++ [ev]
              ∧ cb_query ev = qr ∧ cb_arg ev = arg q ∧ cb_abuf ev = None
              ∧ (error_status q ≠ ARES_SUCCESS →
                 cb_status ev ≠ ARES_SUCCESS ∧ st ≠ ARES_SUCCESS))).
Proof.
  intros Hr Hq.
  destruct (ares__send_query_returns ch qr now Hr) as (st & ch' & Hrun & Hr');
    [by eauto|].
  exists st, ch'. split; [done|]. split; [done|].
  destruct (ares__send_query_finished qr now ch q st ch' Hq Hrun)
    as [_ Ho _ _ [Hend|Hsent]].
  - split; [done|]. right. exact Hend.
  - split; [done|]. left.
    destruct Hsent as (-> & Hcb & q' & conn & Hq' & Hconn & Hlive & _ & Ht).
    repeat split; try done. by exists q', conn.
Qed.

Lemma example_channel_ready (chflags : Z) (retries_off : bool) :
  dispatch_ready (example_channel chflags retries_off).
Proof.
  split; simpl.
  - split; [lia|reflexivity].
  - intros [|[|i]] srv; simpl; intros [= <-]; reflexivity.
  - intros qr q [<- <-]%lookup_singleton_Some. simpl. lia.
  - intros [|[|i]] srv c; simpl; intros [= <-]; simpl;
      intros [Hin|Hin]; [by apply elem_of_nil in Hin|done
                        |by apply elem_of_nil in Hin|done].
Qed.

(** The witness of X6: the first send on the example channel. *)
Lemma ares__send_query_ends_or_enqueues_witness :
  ∃ st ch', ares__send_query (example_channel 0 false) 0 time0 = Done (st, ch')
    ∧ dispatch_ready ch'
    ∧ (∀ r, r ≠ 0%nat →
         queries ch' !! r = queries (example_channel 0 false) !! r)
    ∧ ((st = ARES_SUCCESS
        ∧ callbacks (env ch') = callbacks (env (example_channel 0 false))
        ∧ ∃ q' conn, queries ch' !! 0%nat = Some q' ∧ q_conn q' = Some conn
            ∧ is_Some (conns ch' !! conn)
            ∧ q_timeout q'
              = timeadd time0
                  (timeplus_for (timeout (example_channel 0 false))
                     (try_count q') (nservers (example_channel 0 false))))
       ∨ (queries ch' !! 0%nat = None
          ∧ ∃ ev, callbacks (env ch')
                  = callbacks (env (example_channel 0 false)) ++ [ev]
              ∧ cb_query ev = 0%nat ∧ cb_arg ev = arg (example_query false)
              ∧ cb_abuf ev = None
              ∧ (error_status (example_query false) ≠ ARES_SUCCESS →
                 cb_status ev ≠ ARES_SUCCESS ∧ st ≠ ARES_SUCCESS))).
Proof.
  apply (ares__send_query_ends_or_enqueues (example_channel 0 false) 0 time0
           (example_query false)).
  - apply example_channel_ready.
  - vm_compute. reflexivity.
Defined.

Lemma rcode_status_error (rcode : Z) : rcode_status rcode ≠ ARES_SUCCESS.
Proof. unfold rcode_status. by repeat case_match. Qed.

Lemma sockets_ready_answered (ch : ares_channel) (qr : nat) (q : query) :
  sockets_ready ch → sockets_ready (answered ch qr q).
Proof.
  intros Hr s cn Hs.
  unfold answered, ares__llist_node_destroy in *.
  destruct (node_queries_to_conn q) as [l0|]; simpl in *;
    destruct (Hr s cn Hs) as (c & l & Hc & Hl & Hll); exists c, l;
    repeat split; try done.
  by apply lookup_alter_is_Some.
Qed.

Lemma sockets_ready_ended (ch : ares_channel) (qr : nat) (q : query)
  (ev : callback_event) :
  sockets_ready ch →
  sockets_ready
    (set_queries (delete qr (queries ch))
       (log_callback ev (detach_done ch qr q))).
Proof.
  intros Hr s cn.
  destruct (detach_done_fields ch qr q)
    as (_ & _ & _ & _ & Hll & Hcs & _ & Hsock & _).
  set (D := detach_done ch qr q) in *. clearbody D. simpl.
  rewrite Hsock, Hcs, Hll. intros Hs.
  destruct (Hr s cn Hs) as (c & l & Hc & Hl & Hlist). exists c, l.
  repeat split; try done.
  destruct (node_queries_to_conn q); [|done].
  by apply lookup_alter_is_Some.
Qed.

Section delivery_theorems.
Variable ares_dns_parse : list Z → option ares_dns_record_t.

Lemma process_answer_branches (ch : ares_channel) (abuf : list Z)
  (conn : nat) (c : server_connection) (tcp : bool) (now : timeval)
  (arec : ares_dns_record_t) (qr : nat) (q : query) :
  conns ch !! conn = Some c →
  valid_answer ares_dns_parse ch abuf arec qr q →
  edns_refused ch arec = false →
  truncation_branch ch arec (Z.of_nat (length abuf)) tcp = false →
  process_answer ares_dns_parse ch abuf conn tcp now
  = if rcode_filtered ch arec
    then process_answer_rcode (answered ch qr q) qr (conn_server c) (fd c)
           (dns_rcode arec) now
    else
      ch1 ← end_query (answered ch qr q) qr ARES_SUCCESS (Some abuf)
              (Z.of_nat (length abuf));
      ares__check_cleanup_conn ch1 (fd c).
Proof.
  intros Hc (Hp & Hid & Hq & Hans) Hed Htr.
  apply same_questions_agree in Hans.
  unfold process_answer, get_conn, get_query.
  rewrite Hc, Hp. simpl. rewrite Hid, Hq. simpl. rewrite Hans. simpl.
  unfold answered, ares__llist_node_destroy.
  unfold edns_refused in Hed. unfold truncation_branch, truncated in Htr.
  unfold rcode_filtered.
  destruct (node_queries_to_conn q); simpl; rewrite Hed, Htr; simpl; done.
Qed.

(** X7.  A valid answer that takes none of the special branches (not the
    EDNS fallback, not the truncation upgrade, not a filtered response
    code) ends the query: [process_answer] returns, the callback of the
    query is called exactly once, with [ARES_SUCCESS], the very bytes
    received, and their length and the query's count of timeouts each
    converted to [int], and the query is deleted from the store. *)
Theorem process_answer_delivers (ch : ares_channel) (abuf : list Z)
  (conn : nat) (c : server_connection) (tcp : bool) (now : timeval)
  (arec : ares_dns_record_t) (qr : nat) (q : query) :
  conns ch !! conn = Some c →
  valid_answer ares_dns_parse ch abuf arec qr q →
  sockets_ready ch →
  edns_refused ch arec = false →
  truncation_branch ch arec (Z.of_nat (length abuf)) tcp = false →
  rcode_filtered ch arec = false →
  ∃ ch', process_answer ares_dns_parse ch abuf conn tcp now = Done ch'
    ∧ callbacks (env ch')
      = callbacks (env ch)
        ++ [ {| cb_query := qr; cb_arg := arg q; cb_status := ARES_SUCCESS;
                cb_timeouts := int_of (timeouts q); cb_abuf := Some abuf;
                cb_alen := int_of (Z.of_nat (length abuf)) |} ]
    ∧ queries ch' = delete qr (queries ch).
Proof.
  intros Hc Hv Hr Hed Htr Hrc.
  rewrite (process_answer_branches ch abuf conn c tcp now arec qr q
             Hc Hv Hed Htr), Hrc.
  destruct Hv as (Hp & Hid & Hq & Hans).
  pose proof (answered_query ch qr q Hq) as Hq1.
  rewrite (end_query_run _ qr _ ARES_SUCCESS (Some abuf)
             (Z.of_nat (length abuf)) Hq1).
  cbn [mbind outcome_bind].
  set (ev := {| cb_query := qr |}).
  destruct (ares__check_cleanup_conn_returns
              (set_queries (delete qr (queries (answered ch qr q)))
                 (log_callback ev
                    (detach_done (answered ch qr q) qr
                       (set_node_queries_to_conn None q)))) (fd c))
    as [ch' Hrun].
  { apply sockets_ready_ended. by apply sockets_ready_answered. }
  exists ch'. split; [done|].
  apply ares__check_cleanup_conn_callbacks in Hrun as [-> ->].
  cbn [queries set_queries env log_callback set_env callbacks set_callbacks].
  destruct (detach_done_fields (answered ch qr q) qr
              (set_node_queries_to_conn None q))
    as (_ & _ & _ & _ & _ & _ & _ & _ & -> & _).
  rewrite answered_callbacks. split; [done|].
  unfold answered, upd_query. cbn [queries set_queries].
  assert (queries (ares__llist_node_destroy (node_queries_to_conn q) qr ch)
          = queries ch) as ->.
  { unfold ares__llist_node_destroy. by destruct (node_queries_to_conn q). }
  apply map_eq. intros i. destruct (decide (i = qr)) as [->|Hi].
  - by rewrite !lookup_delete_eq.
  - rewrite !lookup_delete_ne by congruence.
    by rewrite lookup_alter_ne by congruence.
Qed.

(** X8.  A valid answer with response code SERVFAIL, NOTIMP or REFUSED
    on a channel without [ARES_FLAG_NOCHECKRESP] (and outside the EDNS
    and truncation branches) is never handed to the callback.
    [process_answer] does not run out of rounds; when it returns, at
    most one callback has been called, without an answer and with an
    error status, and a query that is still live carries the error the
    response code maps to: [ARES_ESERVFAIL], [ARES_ENOTIMP] or
    [ARES_EREFUSED]. *)
Theorem process_answer_filters_rcode (ch : ares_channel) (abuf : list Z)
  (conn : nat) (c : server_connection) (tcp : bool) (now : timeval)
  (arec : ares_dns_record_t) (qr : nat) (q : query) :
  conns ch !! conn = Some c →
  valid_answer ares_dns_parse ch abuf arec qr q →
  edns_refused ch arec = false →
  truncation_branch ch arec (Z.of_nat (length abuf)) tcp = false →
  rcode_filtered ch arec = true →
  process_answer ares_dns_parse ch abuf conn tcp now ≠ OutOfFuel
  ∧ ∀ ch', process_answer ares_dns_parse ch abuf conn tcp now = Done ch' →
      (∃ evs, callbacks (env ch') = callbacks (env ch) ++ evs
         ∧ (length evs ≤ 1)%nat
         ∧ Forall (λ ev, cb_query ev = qr ∧ cb_abuf ev = None
                         ∧ cb_status ev ≠ ARES_SUCCESS) evs)
      ∧ (∀ q', queries ch' !! qr = Some q' →
           error_status q' = rcode_status (dns_rcode arec))
      ∧ (∀ r, r ≠ qr → queries ch' !! r = queries ch !! r).
Proof.
  intros Hc Hv Hed Htr Hrc.
  rewrite (process_answer_branches ch abuf conn c tcp now arec qr q
             Hc Hv Hed Htr), Hrc.
  destruct Hv as (Hp & Hid & Hq & Hans).
  pose proof (answered_query ch qr q Hq) as Hq0.
  unfold process_answer_rcode.
  fold (rcode_status (dns_rcode arec)).
  set (ch1 := upd_query qr (set_error_status (rcode_status (dns_rcode arec)))
                (answered ch qr q)).
  assert (Hq1 : queries ch1 !! qr
                = Some (set_error_status (rcode_status (dns_rcode arec))
                          (set_node_queries_to_conn None q))).
  { unfold ch1, upd_query. cbn [queries set_queries].
    by rewrite lookup_alter_eq, Hq0. }
  assert (Hcb1 : callbacks (env ch1) = callbacks (env ch)).
  { unfold ch1. change (env (upd_query ?r ?f ?c0)) with (env c0).
    apply answered_callbacks. }
  assert (Ho1 : ∀ r, r ≠ qr → queries ch1 !! r = queries ch !! r).
  { intros r Hr. unfold ch1, answered, upd_query. cbn [queries set_queries].
    rewrite !lookup_alter_ne by congruence.
    unfold ares__llist_node_destroy. by destruct (node_queries_to_conn q). }
  clearbody ch1. split.
  - apply bind_fuel; [apply deref_fuel|]. intros srv.
    apply bind_fuel; [apply skip_server_fuel|]. intros ch2.
    apply bind_fuel; [apply deref_fuel|]. intros q2.
    apply bind_fuel; [|intros; apply ares__check_cleanup_conn_fuel].
    destruct (_ =? _); [|done].
    apply bind_fuel; [apply next_server_total|]. by intros [].
  - intros ch' H.
    apply bind_Done in H as (srv & Hsrv & H).
    apply bind_Done in H as (ch2 & Hskip & H).
    apply bind_Done in H as (q2 & Hq2 & H).
    apply bind_Done in H as (ch3 & Hnext & Hclean).
    apply ares__check_cleanup_conn_callbacks in Hclean as [Hcb Hqs].
    apply deref_Done in Hq2.
    destruct (skip_server_prestep qr ch1 srv ch2 Hskip)
      as [_ Ho2 Hkept Hcb2 _ _].
    destruct (Hkept _ Hq1) as (q2' & Hq2' & infos & Hq2eq & _).
    assert (q2' = q2) as -> by congruence.
    assert (He2 : error_status q2 = rcode_status (dns_rcode arec))
      by (by rewrite Hq2eq).
    rewrite Hcb, Hqs.
    destruct (q_server q2 =? idx srv).
    + apply bind_Done in Hnext as ([st ch4] & Hnext & [= ->]).
      destruct (next_server_finished qr now ch2 q2 st ch3 Hq2 Hnext)
        as [_ Ho3 _ _ [[Hgone (ev & Hev & Hevq & _ & Hnone & Herr)]
                      |(_ & Hsame & q' & cn & Hq' & _ & _ & Hres & _)]].
      * split; [|split].
        -- exists [ev]. rewrite Hev, Hcb2, Hcb1. split; [done|].
           split; [simpl; lia|]. constructor; [|constructor].
           repeat split; try done. apply Herr. rewrite He2.
           apply rcode_status_error.
        -- intros q'. by rewrite Hgone.
        -- intros r Hr. by rewrite Ho3, Ho2, Ho1.
      * split; [|split].
        -- exists []. rewrite Hsame, Hcb2, Hcb1, app_nil_r.
           split; [done|]. split; [simpl; lia|constructor].
        -- intros q'' Hq''. assert (q'' = q') as -> by congruence.
           destruct Hres as [_ -> _ _]. done.
        -- intros r Hr. by rewrite Ho3, Ho2, Ho1.
    + injection Hnext as <-. split; [|split].
      * exists []. rewrite Hcb2, Hcb1, app_nil_r.
        split; [done|]. split; [simpl; lia|constructor].
      * intros q' Hq'. assert (q' = q2) as -> by congruence. done.
      * intros r Hr. by rewrite Ho2, Ho1.
Qed.
End delivery_theorems.

Lemma sent_channel_sockets_ready (chflags : Z) :
  sockets_ready (sent_channel chflags).
Proof.
  assert (connnode_by_socket (sent_channel chflags) = {[ 0 := 0%nat ]}) as Hs
    by (vm_compute; reflexivity).
  assert (llists (sent_channel chflags) = {[ 0%nat := [0%nat] ]}) as Hl
    by (vm_compute; reflexivity).
  intros s cn. rewrite Hs, sent_channel_conn, Hl.
  intros [<- <-]%lookup_singleton_Some.
  exists example_connection, 0%nat.
  rewrite !lookup_singleton_eq. by eauto.
Qed.

(** The witness of X7: the server answers the example query. *)
Lemma process_answer_delivers_witness :
  ∃ ch', process_answer wire_parse (sent_channel 0) (example_response false 0)
           0 false time0 = Done ch'
    ∧ callbacks (env ch')
      = callbacks (env (sent_channel 0))
        ++ [ {| cb_query := 0; cb_arg := arg sent_query;
                cb_status := ARES_SUCCESS;
                cb_timeouts := int_of (timeouts sent_query);
                cb_abuf := Some (example_response false 0);
                cb_alen
                := int_of (Z.of_nat (length (example_response false 0))) |} ]
    ∧ queries ch' = delete 0%nat (queries (sent_channel 0)).
Proof.
  apply (process_answer_delivers wire_parse (sent_channel 0)
           (example_response false 0) 0 example_connection false time0
           {| dns_id := 4660; dns_flags := 1 + 8 + 16; dns_rcode := 0;
              dns_questions :=
                [ {| qd_name := Some "EXAMPLE.com"%string; qd_type := 1;
                     qd_class := 1 |} ];
              dns_additional := [] |} 0 sent_query).
  - vm_compute. reflexivity.
  - split; [vm_compute; reflexivity|]. split; [vm_compute; reflexivity|].
    split; [vm_compute; reflexivity|].
    apply same_questions_agree. vm_compute. reflexivity.
  - apply sent_channel_sockets_ready.
  - reflexivity.
  - reflexivity.
  - reflexivity.
Defined.

(** The witness of X8: the server answers the example query with
    SERVFAIL; the query moves to the second server. *)
Lemma process_answer_filters_rcode_witness :
  ∃ ch', process_answer wire_parse (sent_channel 0)
           (example_response false ARES_RCODE_SERVER_FAILURE) 0 false time0
         = Done ch'
    ∧ callbacks (env ch') = callbacks (env (sent_channel 0))
    ∧ (q_server <$> queries ch' !! 0%nat) = Some 1
    ∧ ∀ q', queries ch' !! 0%nat = Some q' → error_status q' = ARES_ESERVFAIL.
Proof.
  destruct (process_answer_filters_rcode wire_parse (sent_channel 0)
              (example_response false ARES_RCODE_SERVER_FAILURE) 0
              example_connection false time0
              {| dns_id := 4660; dns_flags := 1 + 8 + 16; dns_rcode := 2;
                 dns_questions :=
                   [ {| qd_name := Some "EXAMPLE.com"%string; qd_type := 1;
                        qd_class := 1 |} ];
                 dns_additional := [] |} 0 sent_query)
    as [_ H].
  - vm_compute. reflexivity.
  - split; [vm_compute; reflexivity|]. split; [vm_compute; reflexivity|].
    split; [vm_compute; reflexivity|].
    apply same_questions_agree. vm_compute. reflexivity.
  - reflexivity.
  - reflexivity.
  - reflexivity.
  - assert (∃ ch', process_answer wire_parse (sent_channel 0)
                     (example_response false ARES_RCODE_SERVER_FAILURE)
                     0 false time0 = Done ch'
              ∧ callbacks (env ch') = callbacks (env (sent_channel 0))
              ∧ (q_server <$> queries ch' !! 0%nat) = Some 1)
      as (ch' & Hrun & Hcb & Hsrv).
    { eexists. split; [vm_compute; reflexivity|].
      split; vm_compute; reflexivity. }
    exists ch'. split; [exact Hrun|]. split; [exact Hcb|].
    split; [exact Hsrv|].
    exact (proj1 (proj2 (H ch' Hrun))).
Defined.

(** ** IPv6 prefixes *)

Lemma subnet_mask_checked_true : subnet_mask_checked = true.
Proof. vm_compute. reflexivity. Qed.

Lemma subnet_mask_bits (netmask : Z) (i : nat) (j : Z) :
  0 ≤ netmask ≤ 128 → (i < 16)%nat → 0 ≤ j →
  Z.testbit (nth i (subnet_mask netmask) 0) j
  = (j <? 8) && (8 * Z.of_nat i + 7 - j <? netmask).
Proof.
  intros Hn Hi Hj.
  pose proof subnet_mask_checked_true as H. unfold subnet_mask_checked in H.
  rewrite forallb_forall in H.
  specialize (H (Z.to_nat netmask)).
  rewrite Z2Nat.id in H by lia.
  assert (Hin : In (Z.to_nat netmask) (seq 0 129)) by (apply in_seq; lia).
  specialize (H Hin). rewrite forallb_forall in H.
  assert (Hin' : In i (seq 0 16)) by (apply in_seq; lia).
  specialize (H i Hin'). cbv zeta in H.
  set (m := nth i (subnet_mask netmask) 0) in *.
  apply andb_prop in H as [Hm H]. apply andb_prop in Hm as [Hm0 Hm1].
  apply Z.leb_le in Hm0. apply Z.ltb_lt in Hm1.
  destruct (Z.ltb_spec j 8) as [Hj8|Hj8]; simpl.
  - rewrite forallb_forall in H. specialize (H (Z.to_nat j)).
    rewrite Z2Nat.id in H by lia.
    assert (Hin'' : In (Z.to_nat j) (seq 0 8)) by (apply in_seq; lia).
    specialize (H Hin''). by apply bool_decide_eq_true in H.
  - rewrite <- (Z.mod_small m (2 ^ 8)) by lia.
    apply Z.mod_pow2_bits_high. lia.
Qed.

Lemma land_mask_eq (a b m : Z) :
  Z.land a m = Z.land b m
  ↔ ∀ j, 0 ≤ j → Z.testbit m j = true → Z.testbit a j = Z.testbit b j.
Proof.
  split.
  - intros H j Hj Hm.
    assert (Z.testbit (Z.land a m) j = Z.testbit (Z.land b m) j) as H'
      by (by rewrite H).
    rewrite !Z.land_spec, Hm, !andb_true_r in H'. exact H'.
  - intros H. apply Z.bits_inj'. intros j Hj. rewrite !Z.land_spec.
    destruct (Z.testbit m j) eqn:Hm.
    + by rewrite (H j Hj Hm).
    + by rewrite !andb_false_r.
Qed.

(** X9.  [ares_ipv6_subnet_matches] is a prefix match: for a mask of at
    most 128 bits it holds exactly when the address and the network base
    agree on their first [netmask] bits, counted from the most
    significant bit of the first byte; a mask of more than 128 bits
    matches nothing and a mask of 0 bits matches everything. *)
Theorem ares_ipv6_subnet_matches_prefix (netbase ipaddr : list Z)
  (netmask : Z) :
  0 ≤ netmask →
  (Nameserver.ares_ipv6_subnet_matches netbase netmask ipaddr = true
   ↔ netmask ≤ 128
     ∧ ∀ k, 0 ≤ k < netmask → addr_bit netbase k = addr_bit ipaddr k).
Proof.
  intros Hn0. unfold Nameserver.ares_ipv6_subnet_matches.
  destruct (Z.ltb_spec 128 netmask) as [Hbig|Hn];
    [split; [done|intros [? _]; lia]|].
  cbv zeta. fold (subnet_mask netmask).
  rewrite forallb_forall. split.
  - intros H. split; [done|]. intros k Hk. unfold addr_bit.
    assert (Hi : In (Z.to_nat (k / 8)) (seq 0 16)).
    { apply in_seq. split; [lia|].
      assert (k / 8 < 16) by (apply Z.div_lt_upper_bound; lia).
      assert (0 ≤ k / 8) by (apply Z.div_pos; lia). lia. }
    specialize (H _ Hi). apply Z.eqb_eq in H.
    assert (0 ≤ k mod 8 < 8) by (apply Z.mod_pos_bound; lia).
    apply (proj1 (land_mask_eq _ _ _) H); [lia|].
    rewrite subnet_mask_bits; [|lia|apply in_seq in Hi; lia|lia].
    assert (0 ≤ k / 8) by (apply Z.div_pos; lia).
    rewrite Z2Nat.id by lia.
    apply andb_true_intro. split; [apply Z.ltb_lt; lia|].
    apply Z.ltb_lt. pose proof (Z.div_mod k 8). lia.
  - intros [_ H] i Hi. apply in_seq in Hi. apply Z.eqb_eq.
    apply land_mask_eq. intros j Hj Hm.
    rewrite subnet_mask_bits in Hm by lia.
    apply andb_prop in Hm as [Hj8 Hlt].
    apply Z.ltb_lt in Hj8. apply Z.ltb_lt in Hlt.
    specialize (H (8 * Z.of_nat i + 7 - j)). unfold addr_bit in H.
    assert ((8 * Z.of_nat i + 7 - j) / 8 = Z.of_nat i) as Hd.
    { symmetry. apply (Z.div_unique _ 8 _ (7 - j)); lia. }
    assert ((8 * Z.of_nat i + 7 - j) mod 8 = 7 - j) as Hr.
    { symmetry. apply (Z.mod_unique _ 8 (Z.of_nat i)); lia. }
    rewrite Hd, Hr, Nat2Z.id in H.
    replace (7 - (7 - j)) with j in H by lia. apply H. lia.
Qed.

(** The witness of X9: the blacklisted prefix [fec0::/10] and an address
    in it. *)
Lemma ares_ipv6_subnet_matches_prefix_witness :
  Nameserver.ares_ipv6_subnet_matches
    [254; 192; 0; 0; 0; 0; 0; 0; 0; 0; 0; 0; 0; 0; 0; 0] 10
    [254; 255; 0; 0; 0; 0; 0; 0; 0; 0; 0; 0; 0; 0; 0; 1] = true
  ↔ 10 ≤ 128
    ∧ ∀ k, 0 ≤ k < 10 →
        addr_bit [254; 192; 0; 0; 0; 0; 0; 0; 0; 0; 0; 0; 0; 0; 0; 0] k
        = addr_bit [254; 255; 0; 0; 0; 0; 0; 0; 0; 0; 0; 0; 0; 0; 0; 1] k.
Proof.
  apply (ares_ipv6_subnet_matches_prefix
           [254; 192; 0; 0; 0; 0; 0; 0; 0; 0; 0; 0; 0; 0; 0; 0]
           [254; 255; 0; 0; 0; 0; 0; 0; 0; 0; 0; 0; 0; 0; 0; 1] 10).
  lia.
Defined.

(** ** Server strings that are accepted *)

Lemma size_wrap_pred_succ (n : Z) :
  0 ≤ n < 2 ^ 64 → size_wrap (size_wrap (n - 1) + 1) = n.
Proof.
  intros Hn. unfold size_wrap. rewrite Zplus_mod_idemp_l.
  replace (n - 1 + 1) with n by lia. apply Z.mod_small. lia.
Qed.

Lemma substring_app (pre mid post : list ascii) :
  Nameserver.substring (pre ++ mid ++ post) (length pre) (length mid) = mid.
Proof.
  unfold Nameserver.substring, Nameserver.char_at.
  apply list_eq. intros i. rewrite list_lookup_fmap.
  destruct (decide (i < length mid)%nat) as [Hi|Hi].
  - rewrite lookup_seq_lt by done. simpl.
    rewrite app_nth2 by lia.
    replace (length pre + i - length pre)%nat with i by lia.
    rewrite app_nth1 by done.
    destruct (lookup_lt_is_Some_2 mid i Hi) as [c Hc]. rewrite Hc.
    f_equal. by apply nth_lookup_Some with (d := NUL) in Hc.
  - rewrite lookup_seq_ge by lia. simpl. symmetry.
    apply lookup_ge_None. lia.
Qed.

Lemma memchr_first (c : ascii) (ip rest : list ascii) :
  c ∉ ip →
  ∀ (pre : list ascii) (n : nat), (length ip < n)%nat →
    Nameserver.memchr (pre ++ ip ++ c :: rest) (length pre) n c
    = Some (length pre + length ip)%nat.
Proof.
  induction ip as [|d ip IH]; intros Hn pre n Hlen.
  - destruct n as [|n]; [simpl in Hlen; lia|]. rewrite memchr_S.
    unfold Nameserver.char_at. rewrite app_nth2 by lia.
    rewrite Nat.sub_diag. cbn [app nth length].
    unfold Nameserver.is_char. rewrite bool_decide_eq_true_2 by done.
    f_equal. lia.
  - destruct n as [|n]; [simpl in Hlen; lia|]. rewrite memchr_S.
    unfold Nameserver.char_at. rewrite app_nth2 by lia.
    rewrite Nat.sub_diag. cbn [app nth length].
    unfold Nameserver.is_char. rewrite bool_decide_eq_false_2.
    + specialize (IH ltac:(intros ?; apply Hn; by right) (pre ++ [d]) n).
      rewrite <- app_assoc in IH. cbn [app] in IH.
      rewrite length_app in IH. cbn [length] in IH.
      replace (S (length pre)) with (length pre + 1)%nat by lia.
      rewrite IH by (simpl in Hlen; lia). f_equal. lia.
    + intros ->. apply Hn. by left.
Qed.

Section accepted_theorems.
Variable ares_inet_pton4 : list ascii → option (list Z).
Variable ares_inet_pton6 : list ascii → option (list Z).

Lemma parse_dnsaddrport_fields_cut (pre ip mid port rest : list ascii)
  (with_port : bool) :
  NUL ∉ ip → (length ip ≤ 45)%nat → NUL ∉ port → (length port ≤ 5)%nat →
  Nameserver.parse_dnsaddrport_fields ares_inet_pton4 ares_inet_pton6
    (pre ++ ip ++ mid ++ port ++ rest)
    (Z.of_nat (length pre)) (Z.of_nat (length pre + length ip) - 1)
    (if with_port
     then Some (Z.of_nat (length pre + length ip + length mid),
                Z.of_nat (length pre + length ip + length mid + length port)
                - 1)
     else None)
  = address_of ares_inet_pton4 ares_inet_pton6 ip
      (if with_port then u16 (Nameserver.atoi port) else 0).
Proof.
  intros Hip Hlen Hport Hplen. unfold Nameserver.parse_dnsaddrport_fields.
  replace (Z.of_nat (length pre + length ip) - 1 - Z.of_nat (length pre))
    with (Z.of_nat (length ip) - 1) by lia.
  rewrite size_wrap_pred_succ by lia. cbv zeta.
  unfold Nameserver.INET6_ADDRSTRLEN.
  replace (46 <? Z.of_nat (length ip) + 1) with false
    by (symmetry; apply Z.ltb_ge; lia).
  rewrite !Nat2Z.id, substring_app, (c_str_no_NUL ip Hip).
  unfold address_of, example_host.
  destruct with_port.
  - replace (Z.of_nat (length pre + length ip + length mid + length port) - 1
             - Z.of_nat (length pre + length ip + length mid))
      with (Z.of_nat (length port) - 1) by lia.
    rewrite size_wrap_pred_succ by lia.
    replace (6 <? Z.of_nat (length port) + 1) with false
      by (symmetry; apply Z.ltb_ge; lia).
    rewrite !Nat2Z.id.
    replace (pre ++ ip ++ mid ++ port ++ rest)
      with ((pre ++ ip ++ mid) ++ port ++ rest)
      by (by rewrite <- !app_assoc).
    replace (length pre + length ip + length mid)%nat
      with (length (pre ++ ip ++ mid)) by (rewrite !length_app; lia).
    rewrite substring_app, (c_str_no_NUL port Hport).
    destruct (ares_inet_pton4 ip) as [b4|]; [done|].
    destruct (ares_inet_pton6 ip) as [b6|]; [|done].
    by destruct (Nameserver.ares_ipv6_server_blacklisted b6).
  - destruct (ares_inet_pton4 ip) as [b4|]; [done|].
    destruct (ares_inet_pton6 ip) as [b6|]; [|done].
    by destruct (Nameserver.ares_ipv6_server_blacklisted b6).
Qed.

(** X10.  The two forms [parse_dnsaddrport] accepts.  For an address
    text of at most 45 characters, [[addr]:port] with a port text of at
    most five characters and a bare [addr] that starts with a
    hexadecimal digit or a colon are read alike: the address is accepted
    when [ares_inet_pton] reads it as IPv4, or as IPv6 outside the
    blacklist, and rejected with [ARES_EBADSTR] otherwise.  The port is
    the value [atoi] gives the port text, reduced to 16 bits, and 0 for
    a bare address. *)
Theorem parse_dnsaddrport_accepts (ip port rest : list ascii) :
  NUL ∉ ip → (length ip ≤ 45)%nat →
  ("]"%char ∉ ip → NUL ∉ port → (length port ≤ 5)%nat →
   Nameserver.parse_dnsaddrport ares_inet_pton4 ares_inet_pton6
     ("["%char :: ip ++ "]"%char :: ":"%char :: port ++ rest)
     (length ip + length port + 3)
   = address_of ares_inet_pton4 ares_inet_pton6 ip
       (u16 (Nameserver.atoi port)))
  ∧ (Nameserver.isxdigit (Nameserver.char_at ip 0)
     || Nameserver.is_char (Nameserver.char_at ip 0) ":" = true →
     Nameserver.parse_dnsaddrport ares_inet_pton4 ares_inet_pton6
       (ip ++ rest) (length ip)
     = address_of ares_inet_pton4 ares_inet_pton6 ip 0).
Proof.
  intros Hnul Hlen. split.
  - intros Hip Hport Hplen. unfold Nameserver.parse_dnsaddrport.
    change (Nameserver.char_at
              ("["%char :: ip ++ "]"%char :: ":"%char :: port ++ rest) 0)
      with "["%char.
    replace (length ip + length port + 3 =? 0)%nat with false
      by (symmetry; apply Nat.eqb_neq; lia).
    change (Nameserver.is_char "[" "[") with true. cbn [negb andb orb].
    pose proof (memchr_first "]" ip (":"%char :: port ++ rest) Hip
                  ["["%char] (length ip + length port + 3 - 1)) as Hm.
    change (["["%char] ++ ip ++ "]"%char :: ":"%char :: port ++ rest)
      with ("["%char :: ip ++ "]"%char :: ":"%char :: port ++ rest) in Hm.
    change (length ["["%char]) with 1%nat in Hm. rewrite Hm by lia.
    replace (1 + length ip <? length ip + length port + 3)%nat with true
      by (symmetry; apply Nat.ltb_lt; lia).
    replace (Nameserver.char_at
               ("["%char :: ip ++ "]"%char :: ":"%char :: port ++ rest)
               (S (1 + length ip)))
      with ":"%char.
    2:{ unfold Nameserver.char_at. cbn [nth Nat.add].
        rewrite app_nth2 by lia.
        replace (S (length ip) - length ip)%nat with 1%nat by lia. done. }
    change (Nameserver.is_char ":" ":") with true. cbn [negb].
    replace (S (1 + length ip) =? length ip + length port + 3)%nat with false
      by (symmetry; apply Nat.eqb_neq; lia).
    pose proof (parse_dnsaddrport_fields_cut ["["%char] ip
                  ["]"%char; ":"%char] port rest true Hnul Hlen Hport Hplen)
      as Hcut.
    cbn [length app] in Hcut.
    replace (Z.of_nat (1 + length ip) - 1)
      with (Z.of_nat (1 + length ip) - 1) by done.
    replace (Z.of_nat (S (1 + length ip)) + 1)
      with (Z.of_nat (1 + length ip + 2)) by lia.
    replace (Z.of_nat (length ip + length port + 3) - 1)
      with (Z.of_nat (1 + length ip + 2 + length port) - 1) by lia.
    exact Hcut.
  - intros Hfirst. unfold Nameserver.parse_dnsaddrport.
    assert (ip ≠ []) as Hne.
    { intros ->. by vm_compute in Hfirst. }
    replace (Nameserver.char_at (ip ++ rest) 0) with (Nameserver.char_at ip 0)
      by (by destruct ip).
    replace (length ip =? 0)%nat with false
      by (symmetry; apply Nat.eqb_neq; destruct ip; simpl; [done|lia]).
    assert (Nameserver.is_char (Nameserver.char_at ip 0) "[" = false) as Hb.
    { apply bool_decide_eq_false. intros Hc. rewrite Hc in Hfirst.
      by vm_compute in Hfirst. }
    rewrite Hb. cbn [negb orb andb].
    replace (negb (Nameserver.isxdigit (Nameserver.char_at ip 0))
             && negb (Nameserver.is_char (Nameserver.char_at ip 0) ":"))
      with false
      by (symmetry; rewrite <- negb_orb; by apply negb_false_iff).
    pose proof (parse_dnsaddrport_fields_cut [] ip [] [] rest false
                  Hnul Hlen ltac:(apply not_elem_of_nil)
                  ltac:(simpl; lia)) as Hcut.
    cbn [length app Nat.add] in Hcut. exact Hcut.
Qed.
End accepted_theorems.

(** The witness of X10: a server of the documentation range with a port
    and without. *)
Lemma parse_dnsaddrport_accepts_witness :
  Nameserver.parse_dnsaddrport example_pton4 example_pton6
    (String.list_ascii_of_string "[192.0.2.1]:5353") 16
  = Nameserver.Parsed (example_host AF_INET [192; 0; 2; 1]) 5353
  ∧ Nameserver.parse_dnsaddrport example_pton4 example_pton6
      (String.list_ascii_of_string "192.0.2.1") 9
    = Nameserver.Parsed (example_host AF_INET [192; 0; 2; 1]) 0.
Proof.
  destruct (parse_dnsaddrport_accepts example_pton4 example_pton6
              (String.list_ascii_of_string "192.0.2.1")
              (String.list_ascii_of_string "5353") [])
    as [H1 H2].
  - vm_compute. intros H. repeat (inversion H as [|? ? ? H']; clear H;
                                  rename H' into H); inversion H.
  - simpl. lia.
  - split.
    + apply H1.
      * vm_compute. intros H.
        repeat (inversion H as [|? ? ? H']; clear H; rename H' into H);
          inversion H.
      * vm_compute. intros H.
        repeat (inversion H as [|? ? ? H']; clear H; rename H' into H);
          inversion H.
      * simpl. lia.
    + apply H2. reflexivity.
Defined.

(** ** Servers of a new channel *)

Lemma take_alloc_ok (k : nat) (allocs : list bool) :
  false ∉ take (S k) allocs →
  Init.take_alloc allocs = (true, drop 1 allocs)
  ∧ false ∉ take k (drop 1 allocs).
Proof.
  destruct allocs as [|[] allocs]; simpl; intros H.
  - split; [done|]. rewrite take_nil. apply not_elem_of_nil.
  - split; [done|]. rewrite drop_0. intros ?. apply H. by right.
  - destruct H. by left.
Qed.

Lemma init_servers_from_spec (n : nat) :
  ∀ (i : nat) (ch : Init.channel) (srvs : list server_state)
    (allocs : list bool),
    Init.servers ch = Some srvs → (i + n ≤ length srvs)%nat →
    0 ≤ Init.tcp_connection_generation ch →
    Init.tcp_connection_generation ch + Z.of_nat n < 2 ^ 64 →
    false ∉ take (3 * n) allocs →
    ∃ ch' srvs',
      Init.init_servers_from n i ch allocs
      = Done (ARES_SUCCESS, ch', drop (3 * n) allocs)
      ∧ Init.servers ch' = Some srvs' ∧ length srvs' = length srvs
      ∧ Init.nservers ch' = Init.nservers ch
      ∧ Init.lookups ch' = Init.lookups ch
      ∧ Init.tcp_connection_generation ch'
        = Init.tcp_connection_generation ch + Z.of_nat n
      ∧ ∀ j srv, srvs !! j = Some srv →
          srvs' !! j
          = Some (if decide (i ≤ j < i + n)%nat
                  then set_srv_tcp_connection_generation
                         (Init.tcp_connection_generation ch
                          + Z.of_nat (j - i) + 1)
                         (set_idx (Z.of_nat j) srv)
                  else srv).
Proof.
  induction n as [|n IH]; intros i ch srvs allocs Hs Hlen Hg0 Hg Hal.
  - exists ch, srvs. simpl. rewrite drop_0, Z.add_0_r.
    repeat split; try done. intros j srv Hj.
    rewrite decide_False by lia. done.
  - cbn [Init.init_servers_from]. rewrite Hs. cbn [deref mbind outcome_bind].
    destruct (lookup_lt_is_Some_2 srvs i ltac:(lia)) as [server Hserver].
    rewrite Hserver. cbn [deref mbind outcome_bind].
    replace (3 * S n)%nat with (S (S (S (3 * n)))) in * by lia.
    destruct (take_alloc_ok _ _ Hal) as [-> Hal1].
    destruct (take_alloc_ok _ _ Hal1) as [-> Hal2].
    destruct (take_alloc_ok _ _ Hal2) as [-> Hal3].
    cbn [negb].
    set (gen := size_wrap (Init.tcp_connection_generation ch + 1)).
    assert (Hgen : gen = Init.tcp_connection_generation ch + 1).
    { unfold gen, size_wrap. apply Z.mod_small. lia. }
    set (server' := set_srv_tcp_connection_generation gen
                      (set_idx (Z.of_nat i) server)).
    set (ch1 := Init.set_servers (Some (<[i := server']> srvs))
                  (Init.nservers (Init.set_generation gen ch))
                  (Init.set_generation gen ch)).
    destruct (IH (S i) ch1 (<[i := server']> srvs)
                (drop 1 (drop 1 (drop 1 allocs))))
      as (ch' & srvs' & Hrun & Hs' & Hl' & Hn' & Hlk' & Hg' & Hall).
    + reflexivity.
    + rewrite length_insert. lia.
    + simpl. lia.
    + simpl. lia.
    + exact Hal3.
    + exists ch', srvs'. split.
      { rewrite Hrun. rewrite !drop_drop. by do 3 f_equal. }
      split; [done|]. split; [by rewrite Hl', length_insert|].
      split; [by rewrite Hn'|]. split; [by rewrite Hlk'|].
      split; [rewrite Hg'; simpl; lia|].
      intros j srv Hj. destruct (decide (j = i)) as [->|Hne].
      * assert (server = srv) as -> by congruence.
        rewrite (Hall i server') by (by rewrite list_lookup_insert_eq by lia).
        rewrite decide_False by lia. rewrite decide_True by lia.
        unfold server'. rewrite Hgen, Nat.sub_diag. do 2 f_equal. lia.
      * rewrite (Hall j srv) by (by rewrite list_lookup_insert_ne).
        destruct (decide (S i ≤ j < S i + n)%nat) as [Hin|Hout].
        -- rewrite decide_True by lia. simpl. rewrite Hgen.
           do 2 f_equal. lia.
        -- rewrite decide_False by lia. done.
Qed.

(** X11.  [ares__init_servers_state] numbers the servers: when the
    three allocations per server succeed, it reports [ARES_SUCCESS],
    every server has its position in the array as [idx] and its own
    connection generation, one more than the server before it, the
    channel's generation counter has advanced by the number of servers,
    and the addresses filled in before are kept. *)
Theorem ares__init_servers_state_numbers (ch : Init.channel)
  (srvs : list server_state) (allocs : list bool) :
  Init.servers ch = Some srvs →
  Init.nservers ch = Z.of_nat (length srvs) →
  0 ≤ Init.tcp_connection_generation ch →
  Init.tcp_connection_generation ch + Z.of_nat (length srvs) < 2 ^ 64 →
  false ∉ take (3 * length srvs) allocs →
  ∃ ch' srvs',
    Init.ares__init_servers_state ch allocs
    = Done (ARES_SUCCESS, ch', drop (3 * length srvs) allocs)
    ∧ Init.servers ch' = Some srvs' ∧ length srvs' = length srvs
    ∧ Init.tcp_connection_generation ch'
      = Init.tcp_connection_generation ch + Z.of_nat (length srvs)
    ∧ ∀ i srv, srvs !! i = Some srv →
        ∃ srv', srvs' !! i = Some srv' ∧ idx srv' = Z.of_nat i
          ∧ srv_tcp_connection_generation srv'
            = Init.tcp_connection_generation ch + Z.of_nat i + 1
          ∧ addr srv' = addr srv.
Proof.
  intros Hs Hn Hg0 Hg Hal. unfold Init.ares__init_servers_state.
  rewrite Hn, Nat2Z.id.
  destruct (init_servers_from_spec (length srvs) 0 ch srvs allocs
              Hs ltac:(lia) Hg0 Hg Hal)
    as (ch' & srvs' & Hrun & Hs' & Hl' & _ & _ & Hg' & Hall).
  exists ch', srvs'. repeat split; try done.
  intros i srv Hi. rewrite (Hall i srv Hi).
  pose proof (lookup_lt_Some _ _ _ Hi).
  rewrite decide_True by lia. eexists. split; [reflexivity|].
  simpl. rewrite Nat.sub_0_r. done.
Qed.

(** The witness of X11: two servers on a fresh channel. *)
Lemma ares__init_servers_state_numbers_witness :
  ∃ ch' srvs',
    Init.ares__init_servers_state
      (Init.set_servers
         (Some [Init.default_server; Init.default_server]) 2 Init.zeroed) []
    = Done (ARES_SUCCESS, ch', drop (3 * 2) [])
    ∧ Init.servers ch' = Some srvs' ∧ length srvs' = 2%nat
    ∧ Init.tcp_connection_generation ch' = 0 + 2
    ∧ ∀ i srv, [Init.default_server; Init.default_server] !! i = Some srv →
        ∃ srv', srvs' !! i = Some srv' ∧ idx srv' = Z.of_nat i
          ∧ srv_tcp_connection_generation srv' = 0 + Z.of_nat i + 1
          ∧ addr srv' = addr srv.
Proof.
  apply (ares__init_servers_state_numbers
           (Init.set_servers
              (Some [Init.default_server; Init.default_server]) 2 Init.zeroed)
           [Init.default_server; Init.default_server] []).
  - reflexivity.
  - reflexivity.
  - simpl. lia.
  - simpl. lia.
  - simpl. apply not_elem_of_nil.
Defined.

(** ** Servers added from a string *)

Section appended_theorems.
Variable ares_inet_pton4 : list ascii → option (list Z).
Variable ares_inet_pton6 : list ascii → option (list Z).

(** X12.  [config_nameserver] appends one server per accepted token.
    When the first token of the string is accepted by
    [parse_dnsaddrport], the array is grown by one zeroed server that
    carries the address and, as UDP and as TCP port, the port in
    network byte order; the servers before it are kept and the scan
    goes on after the token.  When the array cannot be grown the result
    is [ARES_ENOMEM] with the servers as they were. *)
Theorem config_nameserver_appends (servers : list server_state)
  (token rest : list ascii) (allocs : list bool) (host : ares_addr)
  (port : Z) :
  token ≠ [] →
  Forall (λ c, Nameserver.is_separator c = false) token →
  NUL ∉ token ++ rest →
  Nameserver.is_separator (Nameserver.char_at rest 0) = true ∨ rest = [] →
  Z.of_nat (length servers) + 1 < 2 ^ 64 →
  Nameserver.parse_dnsaddrport ares_inet_pton4 ares_inet_pton6
    (token ++ rest) (length token) = Nameserver.Parsed host port →
  Nameserver.config_nameserver ares_inet_pton4 ares_inet_pton6
    servers (Z.of_nat (length servers)) (token ++ rest) allocs
  = if (Init.take_alloc allocs).1
    then
      Nameserver.config_nameserver ares_inet_pton4 ares_inet_pton6
        (servers
         ++ [ Init.zero_server
                {| family := family host; addr_bytes := addr_bytes host;
                   addr_udp_port := Init.htons port;
                   addr_tcp_port := Init.htons port |} ])
        (Z.of_nat (length servers) + 1) rest (Init.take_alloc allocs).2
    else Done (ARES_ENOMEM, servers, Z.of_nat (length servers),
               (Init.take_alloc allocs).2).
Proof.
  intros Htok Hsep Hnul Hrest Hbound Hparse.
  unfold Nameserver.config_nameserver.
  assert (Hnr : NUL ∉ rest).
  { intros ?. apply Hnul. apply elem_of_app. by right. }
  rewrite (c_str_no_NUL _ Hnul), (c_str_no_NUL _ Hnr).
  destruct token as [|c token]; [done|].
  apply Forall_cons in Hsep as [Hc Hsep].
  cbn [length app Nameserver.config_nameserver_fuel Nameserver.drop_while].
  rewrite Hc. cbn [Nameserver.drop_while]. rewrite Hc. cbn [negb].
  rewrite (drop_while_app (λ c, negb (Nameserver.is_separator c)) token rest)
    by (eapply Forall_impl; [exact Hsep|]; by intros ? ->).
  assert (Hstop : Nameserver.drop_while
                    (λ c, negb (Nameserver.is_separator c)) rest = rest).
  { destruct Hrest as [Hr| ->]; [|done].
    apply drop_while_stops. by rewrite Hr. }
  rewrite Hstop.
  replace (length (c :: token ++ rest) - length rest)%nat
    with (length (c :: token)) by (simpl; rewrite length_app; lia).
  change (c :: token ++ rest) with ((c :: token) ++ rest).
  rewrite Hparse.
  destruct (Init.take_alloc allocs) as [[] allocs']; cbn [fst snd negb];
    [|done].
  rewrite Nat2Z.id, firstn_all.
  replace (size_wrap (Z.of_nat (length servers) + 1))
    with (Z.of_nat (length servers) + 1)
    by (symmetry; apply Z.mod_small; lia).
  apply config_nameserver_fuel_enough; rewrite ?length_app; lia.
Qed.
End appended_theorems.

(** The witness of X12: the first of two servers. *)
Lemma config_nameserver_appends_witness :
  Nameserver.config_nameserver example_pton4 example_pton6 [] 0
    (String.list_ascii_of_string "[192.0.2.1]:53 192.0.2.2") []
  = Nameserver.config_nameserver example_pton4 example_pton6
      [ Init.zero_server
          {| family := AF_INET; addr_bytes := [192; 0; 2; 1];
             addr_udp_port := Init.htons 53;
             addr_tcp_port := Init.htons 53 |} ]
      1 (String.list_ascii_of_string " 192.0.2.2") [].
Proof.
  apply (config_nameserver_appends example_pton4 example_pton6 []
           (String.list_ascii_of_string "[192.0.2.1]:53")
           (String.list_ascii_of_string " 192.0.2.2") []
           (example_host AF_INET [192; 0; 2; 1]) 53).
  - done.
  - vm_compute. repeat constructor.
  - vm_compute. intros H.
    repeat (inversion H as [|? ? ? H']; clear H; rename H' into H);
      inversion H.
  - left. reflexivity.
  - simpl. lia.
  - vm_compute. reflexivity.
Defined.

(** ** Errors of the configuration sources *)

Lemma take_alloc_spare (allocs : list bool) :
  false ∉ allocs →
  ∃ allocs', Init.take_alloc allocs = (true, allocs') ∧ false ∉ allocs'.
Proof.
  destruct allocs as [|[] allocs]; simpl; intros H.
  - by exists [].
  - exists allocs. split; [done|]. intros ?. apply H. by right.
  - destruct H. by left.
Qed.

Lemma gethostname_loop_spare (script : list Init.gethostname_result) :
  ∀ allocs, false ∉ allocs →
    ∃ name allocs', Init.gethostname_loop script allocs = (Some name, allocs')
      ∧ false ∉ allocs'.
Proof.
  induction script as [|[name| |] script IH]; intros allocs H; simpl;
    try by eauto.
  destruct (take_alloc_spare allocs H) as (allocs1 & -> & H1). by apply IH.
Qed.

Lemma default_domains_spare (ch : Init.channel)
  (hostnames : list Init.gethostname_result) (allocs : list bool) :
  false ∉ allocs →
  ∃ ch' allocs', Init.default_domains ch hostnames allocs = (inl ch', allocs')
    ∧ false ∉ allocs'.
Proof.
  intros H. unfold Init.default_domains.
  destruct (take_alloc_spare allocs H) as (allocs1 & -> & H1). cbn [negb].
  destruct (gethostname_loop_spare hostnames allocs1 H1)
    as (name & allocs2 & -> & H2).
  destruct (Init.after_dot name); [|by eauto].
  destruct (take_alloc_spare allocs2 H2) as (allocs3 & -> & H3). cbn [negb].
  destruct (take_alloc_spare allocs3 H3) as (allocs4 & -> & H4). cbn [negb].
  by eauto.
Qed.

Lemma init_by_defaults_spare (ch : Init.channel)
  (hostnames : list Init.gethostname_result) (allocs : list bool) :
  false ∉ allocs →
  ∃ ch' allocs',
    Init.init_by_defaults ch hostnames allocs = (ARES_SUCCESS, ch', allocs')
    ∧ false ∉ allocs'.
Proof.
  intros H. unfold Init.init_by_defaults.
  set (ch0 := Init.seed_scalars ch).
  assert (∃ ch1 allocs1,
            (if Init.nservers ch0 =? 0
             then let '(ok, allocs) := Init.take_alloc allocs in
                  if ok
                  then (inl (Init.set_servers (Some [Init.default_server]) 1
                               ch0), allocs)
                  else (inr (Init.set_servers None (Init.nservers ch0) ch0),
                        allocs)
             else (inl ch0, allocs))
            = (@inl Init.channel Init.channel ch1, allocs1)
            ∧ false ∉ allocs1) as (ch1 & allocs1 & -> & H1).
  { destruct (Init.nservers ch0 =? 0); [|by eauto].
    destruct (take_alloc_spare allocs H) as (allocs1 & -> & H1). by eauto. }
  assert (∃ ch2 allocs2,
            (if Init.ndomains ch1 =? 0
             then Init.default_domains ch1 hostnames allocs1
             else (inl ch1, allocs1))
            = (inl ch2, allocs2) ∧ false ∉ allocs2)
    as (ch2 & allocs2 & -> & H2).
  { destruct (Init.ndomains ch1 =? 0); [|by eauto].
    by apply default_domains_spare. }
  destruct (Init.lookups _); [by eauto|].
  destruct (take_alloc_spare allocs2 H2) as (allocs3 & -> & H3). by eauto.
Qed.

Lemma init_by_defaults_generation (ch : Init.channel)
  (hostnames : list Init.gethostname_result) (allocs : list bool)
  (st : ares_status_t) (ch' : Init.channel) (allocs' : list bool) :
  Init.init_by_defaults ch hostnames allocs = (st, ch', allocs') →
  Init.tcp_connection_generation ch' = Init.tcp_connection_generation ch.
Proof.
  unfold Init.init_by_defaults, Init.default_domains. intros H.
  repeat (case_match; simplify_eq); reflexivity.
Qed.

Section source_theorems.
Variable ares__init_by_options : Init.channel → ares_status_t * Init.channel.
Variable init_by_environment : Init.channel → ares_status_t * Init.channel.
Variable init_by_resolv_conf : Init.channel → ares_status_t * Init.channel.

(** X13.  [ares_init_options] does not report the errors of the
    environment and of the resolver configuration.  Once the caller's
    options are applied, whatever status [init_by_environment] and
    [init_by_resolv_conf] return is replaced by that of
    [init_by_defaults] and then by that of [ares__init_servers_state]:
    with memory to spare, and a server table that has the servers the
    channel counts, the call returns [ARES_SUCCESS] with a channel that
    has at least one server and a lookup order. *)
Theorem ares_init_options_ignores_source_errors
  (hostnames : list Init.gethostname_result) (allocs : list bool)
  (ch1 ch2 ch3 : Init.channel) (st2 st3 : ares_status_t) :
  ares__init_by_options Init.zeroed = (ARES_SUCCESS, ch1) →
  init_by_environment ch1 = (st2, ch2) →
  (if bool_decide (st2 = ARES_SUCCESS) then init_by_resolv_conf ch2
   else (st2, ch2)) = (st3, ch3) →
  Init.nservers ch3 = 0
  ∨ (∃ srvs, Init.servers ch3 = Some srvs
       ∧ Init.nservers ch3 = Z.of_nat (length srvs)) →
  0 ≤ Init.tcp_connection_generation ch3 →
  Init.tcp_connection_generation ch3 + Init.nservers ch3 + 1 < 2 ^ 64 →
  false ∉ allocs →
  ∃ ch,
    Init.ares_init_options ares__init_by_options init_by_environment
      init_by_resolv_conf true hostnames allocs
    = Done (ARES_SUCCESS, Some ch)
    ∧ 1 ≤ Init.nservers ch ∧ is_Some (Init.lookups ch).
Proof.
  intros H1 H2 H3 Hsrv Hg0 Hg Hal.
  unfold Init.ares_init_options. cbn [negb].
  destruct (take_alloc_spare allocs Hal) as (a1 & -> & Ha1). cbn [negb].
  destruct (take_alloc_spare a1 Ha1) as (a2 & -> & Ha2). cbn [negb].
  destruct (take_alloc_spare a2 Ha2) as (a3 & -> & Ha3). cbn [negb].
  destruct (take_alloc_spare a3 Ha3) as (a4 & -> & Ha4). cbn [negb].
  destruct (take_alloc_spare a4 Ha4) as (a5 & -> & Ha5). cbn [negb].
  destruct (take_alloc_spare a5 Ha5) as (a6 & -> & Ha6). cbn [negb].
  unfold Init.init_sources. rewrite H1. cbn [negb bool_decide decide_rel].
  rewrite bool_decide_eq_true_2 by done. cbn [negb].
  rewrite H2, H3.
  destruct (init_by_defaults_spare ch3 hostnames a6 Ha6)
    as (ch4 & a7 & Hd & Ha7).
  rewrite Hd.
  pose proof (init_by_defaults_generation _ _ _ _ _ _ Hd) as Hgen.
  destruct (init_by_defaults_success _ _ _ _ _ Hd)
    as (_ & _ & _ & _ & _ & _ & Hlook & Hservers).
  assert (∃ srvs, Init.servers ch4 = Some srvs
            ∧ Init.nservers ch4 = Z.of_nat (length srvs) ∧ srvs ≠ []
            ∧ Init.nservers ch4 ≤ Init.nservers ch3 + 1)
    as (srvs & Hs4 & Hn4 & Hne & Hle).
  { destruct (Init.nservers ch3 =? 0) eqn:E.
    - destruct Hservers as [-> ->]. exists [Init.default_server].
      apply Z.eqb_eq in E. rewrite E. by repeat split.
    - apply Z.eqb_neq in E. destruct Hservers as [Hs Hn].
      destruct Hsrv as [?|(srvs & Hs3 & Hn3)]; [done|].
      exists srvs. rewrite Hs, Hn, Hs3, Hn3. repeat split; try lia.
      intros ->. simpl in Hn3. lia. }
  set (ch5 := if has_flag (Init.flags ch4) ARES_FLAG_PRIMARY
                 && (1 <? Init.nservers ch4)
              then Init.set_servers (Init.servers ch4) 1 ch4 else ch4).
  assert (Hs5 : Init.servers ch5 = Some srvs)
    by (unfold ch5; by destruct (_ && _)).
  assert (Hg5 : Init.tcp_connection_generation ch5
                = Init.tcp_connection_generation ch3)
    by (unfold ch5; by destruct (_ && _)).
  assert (Hl5 : Init.lookups ch5 = Init.lookups ch4)
    by (unfold ch5; by destruct (_ && _)).
  assert (Hn5 : 1 ≤ Init.nservers ch5 ≤ Z.of_nat (length srvs)).
  { unfold ch5. destruct (_ && _); simpl.
    - destruct srvs; [done|]. simpl. lia.
    - destruct srvs; [done|]. rewrite Hn4. simpl. lia. }
  clearbody ch5.
  unfold Init.ares__init_servers_state.
  destruct (init_servers_from_spec (Z.to_nat (Init.nservers ch5)) 0 ch5 srvs
              a7 Hs5 ltac:(lia) ltac:(lia) ltac:(lia))
    as (ch & srvs' & Hrun & _ & _ & Hn & Hlk & _).
  { intros Hin. apply Ha7. by apply (subseteq_take _ _ _ Hin). }
  rewrite Hrun. cbn [mbind outcome_bind].
  rewrite bool_decide_eq_true_2 by done.
  exists ch. split; [done|]. rewrite Hn. split; [lia|].
  rewrite Hlk, Hl5, Hlook. by eauto.
Qed.
End source_theorems.

(** The witness of X13: an environment step that fails with
    [ARES_EFILE] on a channel without servers. *)
Lemma ares_init_options_ignores_source_errors_witness :
  ∃ ch,
    Init.ares_init_options (λ ch, (ARES_SUCCESS, ch)) (λ ch, (ARES_EFILE, ch))
      (λ ch, (ARES_SUCCESS, ch)) true [] []
    = Done (ARES_SUCCESS, Some ch)
    ∧ 1 ≤ Init.nservers ch ∧ is_Some (Init.lookups ch).
Proof.
  apply (ares_init_options_ignores_source_errors
           (λ ch, (ARES_SUCCESS, ch)) (λ ch, (ARES_EFILE, ch))
           (λ ch, (ARES_SUCCESS, ch)) [] [] Init.zeroed Init.zeroed
           Init.zeroed ARES_EFILE ARES_EFILE).
  - reflexivity.
  - reflexivity.
  - reflexivity.
  - left. reflexivity.
  - simpl. lia.
  - simpl. lia.
  - apply not_elem_of_nil.
Defined.

(** ** Options of the resolver *)

Lemma options_kept_refl (ch : Config.channel) : options_kept ch ch.
Proof. by split. Qed.

Lemma options_kept_trans (ch1 ch2 ch3 : Config.channel) :
  options_kept ch1 ch2 → options_kept ch2 ch3 → options_kept ch1 ch3.
Proof.
  intros [S1 R1 T1 (O1 & D1 & N1 & L1 & M1 & K1 & V1)]
         [S2 R2 T2 (O2 & D2 & N2 & L2 & M2 & K2 & V2)].
  split.
  - intros o Ho. rewrite S2, S1; [done|done|]. by rewrite S1.
  - intros H. rewrite R2, R1; [done|done|]. by rewrite O1.
  - intros H. by apply T2, T1.
  - repeat split; congruence.
Qed.

Lemma set_option_word_kept (ch : Config.channel) (p : list ascii)
  (wordlen : nat) :
  options_kept ch (Config.set_option_word ch p wordlen).
Proof.
  unfold Config.set_option_word.
  destruct (Config.try_option p wordlen _) as [v1|];
    destruct (Config.try_option p wordlen _) as [v2|];
    destruct (Config.try_option p wordlen _) as [v3|];
    destruct (Config.try_option p wordlen _) as [v4|];
    repeat match goal with
           | |- context [?a =? 0] => destruct (Z.eqb_spec a 0)
           | |- context [has_flag ?a ?b] => destruct (has_flag a b) eqn:?
           end; simpl in *;
    (split; [intros [] Ho; simpl in *; congruence| | |]; simpl; try done;
     intros; congruence).
Qed.

Lemma drop_while_shorter (f g : ascii → bool) (c : ascii) (p : list ascii) :
  (∀ d, f d = negb (g d)) →
  (length (Nameserver.drop_while g (Nameserver.drop_while f (c :: p)))
   ≤ length p)%nat.
Proof.
  intros Hfg. simpl. destruct (f c) eqn:Hc.
  - etrans; [apply drop_while_length|apply drop_while_length].
  - simpl. rewrite Hfg in Hc. apply negb_false_iff in Hc. rewrite Hc.
    apply drop_while_length.
Qed.

Lemma set_options_fuel_kept (fuel : nat) :
  ∀ (ch : Config.channel) (p : list ascii),
    (length p ≤ fuel)%nat →
    ∃ ch', Config.set_options_fuel fuel ch p = Done (ARES_SUCCESS, ch')
      ∧ options_kept ch ch'.
Proof.
  induction fuel as [|fuel IH]; intros ch p Hlen.
  - destruct p; [|simpl in Hlen; lia]. exists ch.
    split; [done|apply options_kept_refl].
  - destruct p as [|c p].
    { exists ch. split; [done|apply options_kept_refl]. }
    cbn [Config.set_options_fuel].
    set (q := Nameserver.drop_while _ (c :: p)).
    destruct (IH (Config.set_option_word ch (c :: p)
                    (length (c :: p) - length q))
                (Nameserver.drop_while Nameserver.ISSPACE q))
      as (ch' & Hrun & Hk).
    + pose proof (drop_while_shorter
                    (λ c, negb (Nameserver.ISSPACE c)) Nameserver.ISSPACE c p
                    ltac:(done)) as Hs.
      fold q in Hs. simpl in Hlen. lia.
    + exists ch'. split; [done|].
      eapply options_kept_trans; [apply set_option_word_kept|done].
Qed.

(** X14.  [set_options] only fills what is still unset.  Whatever the
    text, it returns [ARES_SUCCESS]; [ndots], the timeout and the number
    of tries keep a value that is not 0; the rotation flag is kept when
    the caller decided about rotation ([ARES_OPT_ROTATE] or
    [ARES_OPT_NOROTATE]) and is otherwise only ever turned on; no other
    field of the channel is written. *)
Theorem set_options_keeps_configured (ch : Config.channel)
  (str : list ascii) :
  ∃ ch', Config.set_options ch str = Done (ARES_SUCCESS, ch')
    ∧ (Config.ndots ch ≠ 0 → Config.ndots ch' = Config.ndots ch)
    ∧ (Config.timeout ch ≠ 0 → Config.timeout ch' = Config.timeout ch)
    ∧ (Config.tries ch ≠ 0 → Config.tries ch' = Config.tries ch)
    ∧ (has_flag (Config.optmask ch)
         (Z.lor Config.ARES_OPT_ROTATE Config.ARES_OPT_NOROTATE) = true →
       Config.rotate ch' = Config.rotate ch)
    ∧ (Config.rotate ch = true → Config.rotate ch' = true)
    ∧ Config.optmask ch' = Config.optmask ch
    ∧ Config.domains ch' = Config.domains ch
    ∧ Config.ndomains ch' = Config.ndomains ch
    ∧ Config.sortlist ch' = Config.sortlist ch
    ∧ Config.nsort ch' = Config.nsort ch
    ∧ Config.lookups ch' = Config.lookups ch
    ∧ Config.nservers ch' = Config.nservers ch.
Proof.
  unfold Config.set_options.
  destruct (set_options_fuel_kept (length (Nameserver.c_str str)) ch
              (Nameserver.c_str str) ltac:(lia))
    as (ch' & Hrun & [S R T (O & D & N & L & M & K & V)]).
  exists ch'. split; [done|].
  split; [apply (S Opt_ndots)|]. split; [apply (S Opt_retrans)|].
  split; [apply (S Opt_retry)|]. by repeat split.
Qed.

Lemma isdigit_plain (c : ascii) :
  Nameserver.isdigit c = true →
  Nameserver.ISSPACE c = false ∧ Nameserver.is_char c "-" = false
  ∧ Nameserver.is_char c "+" = false ∧ c ≠ NUL.
Proof.
  unfold Nameserver.isdigit, Nameserver.ISSPACE, Nameserver.is_char.
  intros [H1 H2]%andb_prop. apply Z.leb_le in H1, H2.
  repeat split.
  - apply orb_false_intro; [apply Z.eqb_neq; lia|].
    apply andb_false_intro2. apply Z.leb_gt. lia.
  - apply bool_decide_eq_false. intros ->. vm_compute in H1. by destruct H1.
  - apply bool_decide_eq_false. intros ->. vm_compute in H1. by destruct H1.
  - intros ->. vm_compute in H1. by destruct H1.
Qed.

Lemma atoi_digits_app (digits rest : list ascii) :
  Forall (λ c, Nameserver.isdigit c = true) digits →
  rest = [] ∨ Nameserver.isdigit (Nameserver.char_at rest 0) = false →
  ∀ acc, Nameserver.atoi_digits acc (digits ++ rest)
         = Nameserver.atoi_digits acc digits.
Proof.
  intros Hd Hrest.
  induction Hd as [|c digits Hc _ IH]; intros acc;
    cbn [app Nameserver.atoi_digits].
  - destruct Hrest as [->|Hr]; [done|]. destruct rest as [|d rest]; [done|].
    change (Nameserver.isdigit d = false) in Hr.
    cbn [Nameserver.atoi_digits]. by rewrite Hr.
  - by rewrite Hc, IH.
Qed.

Lemma strtoul_digits (digits rest : list ascii) :
  digits ≠ [] → Forall (λ c, Nameserver.isdigit c = true) digits →
  rest = [] ∨ Nameserver.isdigit (Nameserver.char_at rest 0) = false →
  Nameserver.atoi_digits 0 digits ≤ Config.ULONG_MAX →
  Config.strtoul (digits ++ rest) = Nameserver.atoi_digits 0 digits.
Proof.
  intros Hne Hd Hrest Hmax. unfold Config.strtoul.
  destruct digits as [|c digits]; [done|].
  apply Forall_cons in Hd as [Hc Hd].
  destruct (isdigit_plain c Hc) as (Hs & Hm & Hp & _).
  cbn [app Nameserver.drop_while]. rewrite Hs, Hm, Hp.
  change (c :: digits ++ rest) with ((c :: digits) ++ rest).
  rewrite (atoi_digits_app (c :: digits) rest); [|by constructor|done].
  destruct (Z.ltb_spec Config.ULONG_MAX
              (Nameserver.atoi_digits 0 (c :: digits))); [lia|done].
Qed.

Lemma c_str_app_keep (a b : list ascii) :
  NUL ∉ a → Nameserver.c_str (a ++ b) = a ++ Nameserver.c_str b.
Proof.
  induction a as [|c a IH]; intros Hn; [done|]. simpl.
  unfold Nameserver.is_char. rewrite bool_decide_eq_false_2.
  - rewrite IH; [done|]. intros ?. apply Hn. by right.
  - intros ->. apply Hn. by left.
Qed.

Lemma option_name_plain (o : scalar_option) :
(NUL ∉ option_name o)
  ∧ Forall (λ c, Nameserver.ISSPACE c = false) (option_name o)
  ∧ Nameserver.c_str (option_name o) = option_name o
  ∧ option_name o ≠ [].
Proof.
  assert (∀ l, forallb (λ c, negb (Nameserver.is_char c NUL)) l = true →
               NUL ∉ l) as Hnul.
  { intros l H Hin. rewrite forallb_forall in H.
    apply list_elem_of_In in Hin. specialize (H _ Hin).
    unfold Nameserver.is_char in H.
    by rewrite bool_decide_eq_true_2 in H. }
  assert (∀ l, forallb (λ c, negb (Nameserver.ISSPACE c)) l = true →
               Forall (λ c, Nameserver.ISSPACE c = false) l) as Hsp.
  { intros l H. apply Forall_forall. intros c Hin.
    rewrite forallb_forall in H. apply list_elem_of_In in Hin.
    specialize (H _ Hin). by apply negb_true_iff. }
  destruct o; (split; [by apply Hnul|split; [by apply Hsp|done]]).
Qed.

Lemma set_option_word_value (o : scalar_option) (ch : Config.channel)
  (digits rest : list ascii) :
  option_field o ch = 0 →
  digits ≠ [] → Forall (λ c, Nameserver.isdigit c = true) digits →
  rest = [] ∨ Nameserver.ISSPACE (Nameserver.char_at rest 0) = true →
  Nameserver.atoi_digits 0 digits ≤ Config.ULONG_MAX →
  option_field o
    (Config.set_option_word ch (option_name o ++ digits ++ rest)
       (length (option_name o ++ digits)))
  = Nameserver.atoi_digits 0 digits.
Proof.
  intros Hf Hne Hd Hrest Hmax.
  assert (Hrest' : rest = []
                   ∨ Nameserver.isdigit (Nameserver.char_at rest 0) = false).
  { destruct Hrest as [?|Hr]; [by left|right].
    destruct (Nameserver.isdigit (Nameserver.char_at rest 0)) eqn:E; [|done].
    apply isdigit_plain in E as (E & _). congruence. }
  pose proof (strtoul_digits digits rest Hne Hd Hrest' Hmax) as Hv.
  unfold Config.set_option_word, Config.try_option, Config.ares_strlen.
  destruct o; simpl in Hf |- *; rewrite ?Hf, ?andb_false_r; simpl;
    rewrite ?Hf; simpl; exact Hv.
Qed.

(** X15.  [set_options] reads the number of an option.  When the text
    starts with [ndots:], [retrans:] or [retry:] followed by decimal
    digits, the field is still 0 and the number is not 0 and fits an
    [unsigned long], the field receives that number, whatever follows in
    the text. *)
Theorem set_options_reads_value (o : scalar_option) (ch : Config.channel)
  (digits rest : list ascii) :
  option_field o ch = 0 →
  digits ≠ [] → Forall (λ c, Nameserver.isdigit c = true) digits →
  rest = [] ∨ Nameserver.ISSPACE (Nameserver.char_at rest 0) = true →
  Nameserver.atoi_digits 0 digits ≠ 0 →
  Nameserver.atoi_digits 0 digits ≤ Config.ULONG_MAX →
  ∃ ch', Config.set_options ch (option_name o ++ digits ++ rest)
         = Done (ARES_SUCCESS, ch')
    ∧ option_field o ch' = Nameserver.atoi_digits 0 digits.
Proof.
  intros Hf Hne Hd Hrest Hv0 Hmax. unfold Config.set_options.
  destruct (option_name_plain o) as (Hnul & Hsp & _ & Hnn).
  assert (Hdn : NUL ∉ digits).
  { intros Hin. rewrite Forall_forall in Hd. specialize (Hd _ Hin).
    by apply isdigit_plain in Hd as (_ & _ & _ & ?). }
  assert (Hds : Forall (λ c, Nameserver.ISSPACE c = false) digits).
  { eapply Forall_impl; [exact Hd|]. intros c Hc.
    by apply isdigit_plain in Hc as (? & _). }
  rewrite (c_str_app_keep _ _ Hnul), (c_str_app_keep _ _ Hdn).
  set (rest' := Nameserver.c_str rest).
  assert (Hrest' : rest' = []
                   ∨ Nameserver.ISSPACE (Nameserver.char_at rest' 0) = true).
  { destruct Hrest as [->|Hr]; [by left|].
    destruct rest as [|c rest]; [by left|]. right. unfold rest'. simpl in *.
    unfold Nameserver.is_char. rewrite bool_decide_eq_false_2; [done|].
    intros ->. by vm_compute in Hr. }
  clearbody rest'.
  destruct (option_name o ++ digits ++ rest') as [|c p] eqn:Hp.
  { destruct (option_name o); [done|discriminate]. }
  cbn [length Config.set_options_fuel]. rewrite <- Hp.
  assert (Hq : Nameserver.drop_while (λ c, negb (Nameserver.ISSPACE c))
                 (option_name o ++ digits ++ rest') = rest').
  { rewrite app_assoc. rewrite drop_while_app.
    - destruct Hrest' as [->|Hr]; [done|].
      apply drop_while_stops. by rewrite Hr.
    - apply Forall_app. split; (eapply Forall_impl; [eassumption|]);
        by intros ? ->. }
  rewrite Hq.
  assert (Hlen : length (c :: p)
                 = length (option_name o ++ digits ++ rest'))
    by (by rewrite Hp).
  replace (Datatypes.S (length p) - length rest')%nat
    with (length (option_name o ++ digits))
    by (simpl in Hlen; rewrite Hlen, !length_app; lia).
  destruct (set_options_fuel_kept (length p)
              (Config.set_option_word ch (option_name o ++ digits ++ rest')
                 (length (option_name o ++ digits)))
              (Nameserver.drop_while Nameserver.ISSPACE rest'))
    as (ch' & Hrun & [Hk _ _ _]).
  { pose proof (drop_while_length Nameserver.ISSPACE rest').
    rewrite !length_app in Hlen. simpl in Hlen.
    destruct (option_name o); [done|]. simpl in Hlen. lia. }
  exists ch'. split; [done|].
  rewrite (Hk o); rewrite (set_option_word_value o ch digits rest' Hf Hne Hd
                            Hrest' Hmax); done.
Qed.

(** The witness of X15: a resolver option line. *)
Lemma set_options_reads_value_witness :
  ∃ ch', Config.set_options
           {| Config.timeout := 0; Config.tries := 0; Config.ndots := 0;
              Config.rotate := false; Config.optmask := 0;
              Config.domains := None; Config.ndomains := 0;
              Config.sortlist := None; Config.nsort := 0;
              Config.lookups := None; Config.nservers := 0 |}
           (String.list_ascii_of_string "ndots:2 retry:4 rotate")
         = Done (ARES_SUCCESS, ch')
    ∧ Config.ndots ch' = 2.
Proof.
  apply (set_options_reads_value Opt_ndots _
           (String.list_ascii_of_string "2")
           (String.list_ascii_of_string " retry:4 rotate")).
  - reflexivity.
  - done.
  - repeat constructor.
  - right. reflexivity.
  - vm_compute. done.
  - vm_compute. done.
Defined.

(** ** Configuration lines *)

Lemma skip_until_ext (f g : ascii → bool) (s : list ascii) :
  (∀ c, f c = g c) → Config.skip_until f s = Config.skip_until g s.
Proof.
  intros E. induction s as [|c s IH]; [done|]. simpl. by rewrite E, IH.
Qed.

Lemma skip_until_split (stop : ascii → bool) (s : list ascii) :
  Forall (λ c, stop c = false) (take (Config.skip_until stop s) s)
  ∧ (drop (Config.skip_until stop s) s = []
     ∨ stop (Nameserver.char_at (drop (Config.skip_until stop s) s) 0)
       = true)
  ∧ (Config.skip_until stop s ≤ length s)%nat.
Proof.
  induction s as [|c s (IH1 & IH2 & IH3)]; simpl.
  - split; [constructor|]. split; [by left|lia].
  - destruct (stop c) eqn:E; simpl.
    + split; [constructor|]. split; [by right|lia].
    + split; [by constructor|]. split; [done|lia].
Qed.

Lemma skip_until_app (stop : ascii → bool) (body tail : list ascii) :
  Forall (λ c, stop c = false) body →
  tail = [] ∨ stop (Nameserver.char_at tail 0) = true →
  Config.skip_until stop (body ++ tail) = length body.
Proof.
  intros Hb Ht. induction Hb as [|c body Hc _ IH]; simpl.
  - destruct Ht as [->|Ht]; [done|]. destruct tail as [|d tail]; [done|].
    change (stop d = true) in Ht. simpl. by rewrite Ht.
  - by rewrite Hc, IH.
Qed.

Lemma comment_skip (scc : ascii) (s : list ascii) :
  (if negb (Nameserver.is_char scc NUL)
   then Config.skip_until
          (λ c, Nameserver.is_char c "#" || Nameserver.is_char c scc) s
   else Config.skip_until (λ c, Nameserver.is_char c "#") s)
  = Config.skip_until (comment_char scc) s.
Proof.
  unfold comment_char.
  destruct (Nameserver.is_char scc NUL); simpl; apply skip_until_ext;
    intros c; [by rewrite orb_false_r|done].
Qed.

Lemma trim_end_spec (s : list ascii) (n : nat) :
  (Config.trim_end s n ≤ n)%nat
  ∧ (∀ i, (Config.trim_end s n ≤ i < n)%nat →
          Nameserver.ISSPACE (Nameserver.char_at s i) = true)
  ∧ (Config.trim_end s n = O
     ∨ Nameserver.ISSPACE (Nameserver.char_at s (Config.trim_end s n - 1))
       = false).
Proof.
  induction n as [|n (IH1 & IH2 & IH3)]; cbn [Config.trim_end].
  - split; [lia|]. split; [intros; lia|by left].
  - destruct (Nameserver.ISSPACE (Nameserver.char_at s n)) eqn:E.
    + split; [lia|]. split; [|done].
      intros i Hi. destruct (decide (i = n)) as [->|]; [done|].
      apply IH2. lia.
    + split; [lia|]. split; [intros; lia|].
      right. by replace (S n - 1)%nat with n by lia.
Qed.

Lemma char_at_app_r (a b : list ascii) (i : nat) :
  Nameserver.char_at (a ++ b) (length a + i) = Nameserver.char_at b i.
Proof.
  unfold Nameserver.char_at. rewrite app_nth2 by lia. f_equal. lia.
Qed.

Lemma char_at_app_l (a b : list ascii) (i : nat) :
  (i < length a)%nat →
  Nameserver.char_at (a ++ b) i = Nameserver.char_at a i.
Proof. intros. unfold Nameserver.char_at. by rewrite app_nth1. Qed.

Lemma trim_end_white (a ws : list ascii) :
  white ws →
  ∀ x, Config.trim_end (a ++ ws ++ x) (length a + length ws)
       = Config.trim_end (a ++ ws ++ x) (length a).
Proof.
  induction ws as [|c ws IH] using rev_ind; intros Hw x.
  - by rewrite Nat.add_0_r.
  - apply Forall_app in Hw as [Hw Hc]. apply Forall_cons in Hc as [Hc _].
    rewrite length_app. simpl.
    replace (length a + (length ws + 1))%nat
      with (S (length a + length ws)) by lia.
    cbn [Config.trim_end]. rewrite <- app_assoc.
    assert (Nameserver.char_at (a ++ ws ++ [c] ++ x)
              (length a + length ws) = c) as ->.
    { rewrite char_at_app_r. rewrite <- (Nat.add_0_r (length ws)).
      by rewrite char_at_app_r. }
    rewrite Hc. by apply IH.
Qed.

Lemma trim_end_stops (s : list ascii) (n : nat) :
  n = O ∨ Nameserver.ISSPACE (Nameserver.char_at s (n - 1)) = false →
  Config.trim_end s n = n.
Proof.
  destruct n as [|n]; [done|]. intros [?|H]; [done|].
  cbn [Config.trim_end]. replace (S n - 1)%nat with n in H by lia.
  by rewrite H.
Qed.

Lemma drop_while_split (f : ascii → bool) (p : list ascii) :
  ∃ ws, p = ws ++ Nameserver.drop_while f p ∧ Forall (λ c, f c = true) ws.
Proof.
  induction p as [|c p (ws & E & Hw)]; simpl.
  - by exists [].
  - destruct (f c) eqn:Hc.
    + exists (c :: ws). split; [simpl; by f_equal|by constructor].
    + by exists [].
Qed.

Lemma strncmp_eq_prefix (opt rest : list ascii) :
  Config.strncmp_eq (opt ++ rest) opt (length opt) = true.
Proof.
  induction opt as [|c opt IH]; [done|]. simpl.
  unfold Nameserver.is_char. by rewrite bool_decide_eq_true_2.
Qed.

Lemma strncmp_eq_take (p opt : list ascii) :
  Config.strncmp_eq p opt (length opt) = true →
  p = opt ++ drop (length opt) p.
Proof.
  revert p. induction opt as [|d opt IH]; intros p; simpl; [done|].
  destruct p as [|c p]; [done|].
  intros [Hc Hr]%andb_prop. apply bool_decide_eq_true in Hc as ->.
  f_equal. by apply IH.
Qed.

Lemma try_config_sound (s opt v : list ascii) (scc : ascii) :
  Config.try_config (Some s) (Some opt) scc = Some v →
  config_line scc (Nameserver.c_str s) (Nameserver.c_str opt) v.
Proof.
  unfold Config.try_config. rewrite comment_skip.
  set (s1 := Nameserver.c_str s). set (o := Nameserver.c_str opt).
  clearbody s1 o.
  destruct (skip_until_split (comment_char scc) s1) as (Hbody & Htail & Hn).
  set (n := Config.skip_until (comment_char scc) s1) in *. clearbody n.
  pose proof (take_drop n s1) as Es1.
  set (s' := take n s1) in *. set (tail := drop n s1) in *.
  assert (Hs' : length s' = n) by (unfold s'; rewrite length_take; lia).
  clearbody s' tail.
  destruct (trim_end_spec s' n) as (Hm & Hws2 & Hlast).
  set (m := Config.trim_end s' n) in *. clearbody m.
  pose proof (take_drop m s') as Es'.
  set (t := take m s') in *. set (ws2 := drop m s') in *.
  assert (Ht : length t = m) by (unfold t; rewrite length_take; lia).
  assert (Hw2 : white ws2).
  { apply Forall_lookup. intros i c Hi.
    assert (i < length ws2)%nat by (by eapply lookup_lt_Some).
    assert (length ws2 = (n - m)%nat)
      by (unfold ws2; rewrite length_drop; lia).
    specialize (Hws2 (m + i)%nat ltac:(lia)).
    rewrite <- Es', <- Ht, char_at_app_r in Hws2.
    unfold Nameserver.char_at in Hws2.
    by rewrite (nth_lookup_Some _ _ _ _ Hi) in Hws2. }
  clearbody t ws2.
  destruct (drop_while_split Nameserver.ISSPACE t) as (ws & Et & Hw).
  destruct (Nameserver.drop_while Nameserver.ISSPACE t) as [|c0 p0] eqn:Ep;
    [done|].
  pose proof (drop_while_head _ _ _ _ Ep) as Hc0.
  set (p := c0 :: p0) in *.
  destruct (length o =? 0)%nat eqn:Elen; [done|].
  apply Nat.eqb_neq in Elen.
  destruct (Config.strncmp_eq p o (length o)) eqn:Ecmp; [|done].
  apply strncmp_eq_take in Ecmp. cbn [negb].
  destruct (drop_while_split Nameserver.ISSPACE (drop (length o) p))
    as (sep & Eq & Hsep).
  destruct (drop (length o) p) as [|c q] eqn:Edrop; [done|].
  destruct (negb (Nameserver.is_char
                    (Nameserver.char_at o (length o - 1)) ":")
            && negb (Nameserver.is_char
                       (Nameserver.char_at o (length o - 1)) "=")
            && negb (Nameserver.ISSPACE c)) eqn:Esep; [done|].
  destruct (Nameserver.drop_while Nameserver.ISSPACE (c :: q))
    as [|v0 v'] eqn:Ev; [done|].
  intros [= <-].
  pose proof (drop_while_head _ _ _ _ Ev) as Hv0.
  assert (Ho : o ≠ []) by (by destruct o).
  assert (Etot : t = (ws ++ o ++ sep) ++ v0 :: v').
  { rewrite Et, Ecmp, Eq. by rewrite <- !app_assoc. }
  exists ws, sep, ws2, tail. repeat split; try done.
  - rewrite <- Es1, <- Es', Etot. by rewrite <- !app_assoc.
  - replace (ws ++ o ++ sep ++ (v0 :: v') ++ ws2) with s'; [done|].
    rewrite <- Es', Etot. by rewrite <- !app_assoc.
  - destruct o as [|o0 o']; [done|]. unfold p in Ecmp.
    injection Ecmp as -> _. done.
  - assert (0 < m)%nat as Hm0.
    { rewrite <- Ht, Etot, !length_app. simpl. lia. }
    destruct Hlast as [Hlast|Hlast]; [lia|].
    rewrite <- Es', char_at_app_l in Hlast by lia.
    rewrite Etot in Hlast.
    replace (m - 1)%nat
      with (length (ws ++ o ++ sep) + (length (v0 :: v') - 1))%nat
      in Hlast
      by (rewrite <- Ht, Etot, !length_app; simpl; lia).
    by rewrite char_at_app_r in Hlast.
  - destruct sep as [|c1 sep']; [|by left]. right.
    simpl in Eq. injection Eq as -> _.
    rewrite Hv0, andb_true_r in Esep.
    apply andb_false_iff in Esep as [E|E]; apply negb_false_iff in E;
      apply bool_decide_eq_true in E; [by left|by right].
Qed.

Lemma try_config_complete (s opt v : list ascii) (scc : ascii) :
  config_line scc (Nameserver.c_str s) (Nameserver.c_str opt) v →
  Config.try_config (Some s) (Some opt) scc = Some v.
Proof.
  unfold Config.try_config. rewrite comment_skip.
  set (s1 := Nameserver.c_str s). set (o := Nameserver.c_str opt).
  clearbody s1 o.
  intros (ws & sep & ws2 & tail & -> & Hw & Hsep & Hw2 & Htail & Hbody
          & Ho & Ho0 & Hv & Hv0 & Hvl & Hlast).
  set (a := ws ++ o ++ sep ++ v).
  assert (Ea : ws ++ o ++ sep ++ v ++ ws2 ++ tail = (a ++ ws2) ++ tail)
    by (unfold a; by rewrite <- !app_assoc).
  assert (Eb : ws ++ o ++ sep ++ v ++ ws2 = a ++ ws2)
    by (unfold a; by rewrite <- !app_assoc).
  rewrite Eb in Hbody. rewrite Ea.
  rewrite (skip_until_app _ _ _ Hbody Htail).
  rewrite take_app_length.
  assert (Etrim : Config.trim_end (a ++ ws2) (length (a ++ ws2))
                  = length a).
  { rewrite length_app.
    rewrite <- (app_nil_r ws2) at 1.
    rewrite (trim_end_white a ws2 Hw2 []). rewrite app_nil_r.
    apply trim_end_stops. right.
    rewrite char_at_app_l
      by (unfold a; rewrite !length_app; destruct v; [done|simpl; lia]).
    unfold a.
    replace (ws ++ o ++ sep ++ v) with ((ws ++ o ++ sep) ++ v)
      by (by rewrite <- !app_assoc).
    replace (length ((ws ++ o ++ sep) ++ v) - 1)%nat
      with (length (ws ++ o ++ sep) + (length v - 1))%nat
      by (rewrite !length_app; destruct v; [done|simpl; lia]).
    by rewrite char_at_app_r. }
  rewrite Etrim, take_app_length. unfold a.
  rewrite (drop_while_app _ ws _ Hw).
  rewrite (drop_while_stops _ (o ++ sep ++ v))
    by (destruct o; [done|exact Ho0]).
  destruct (o ++ sep ++ v) as [|c0 p0] eqn:Ep.
  { by destruct o. }
  rewrite <- Ep.
  destruct (length o =? 0)%nat eqn:Elen.
  { apply Nat.eqb_eq in Elen. by destruct o. }
  rewrite strncmp_eq_prefix. cbn [negb].
  rewrite drop_app_length.
  assert (Eval : Nameserver.drop_while Nameserver.ISSPACE (sep ++ v) = v).
  { rewrite (drop_while_app _ sep _ Hsep). by apply drop_while_stops. }
  destruct (sep ++ v) as [|c q] eqn:Esv.
  { by destruct sep, v. }
  rewrite Eval.
  assert (negb (Nameserver.is_char
                  (Nameserver.char_at o (length o - 1)) ":")
          && negb (Nameserver.is_char
                     (Nameserver.char_at o (length o - 1)) "=")
          && negb (Nameserver.ISSPACE c) = false) as ->.
  { destruct Hlast as [Hs|[E|E]].
    - destruct sep as [|c1 sep']; [done|]. injection Esv as <- _.
      apply Forall_cons in Hsep as [-> _]. by rewrite andb_false_r.
    - rewrite E. unfold Nameserver.is_char.
      by rewrite bool_decide_eq_true_2.
    - rewrite E. unfold Nameserver.is_char at 2.
      rewrite (bool_decide_eq_true_2 ("="%char = "="%char)) by done.
      by rewrite andb_false_r. }
  by destruct v.
Qed.

(** X16.  [try_config] returns the value of an option exactly for the
    lines of the form: white space, the option name, white space (which
    may be missing only after a name that ends with [:] or [=]), the
    value, white space, and then the end of the line or a comment.  The
    value returned starts and ends with a character that is not white
    space and holds no comment character. *)
Theorem try_config_value (s opt v : list ascii) (scc : ascii) :
  Config.try_config (Some s) (Some opt) scc = Some v
  ↔ config_line scc (Nameserver.c_str s) (Nameserver.c_str opt) v.
Proof. split; [apply try_config_sound|apply try_config_complete]. Qed.

(** ** The lookup order *)

Lemma config_lookup_loop_spec (fuel : nat) (bindch altbindch filech : ascii) :
  ∀ (p l : list ascii) (found : bool),
    (length p ≤ fuel)%nat →
    (length l ≤ 2)%nat →
    Forall (λ c, c = "b"%char ∨ c = "f"%char) l →
    (found = true ↔ l ≠ []) →
    ∃ l' found',
      Config.config_lookup_loop fuel bindch altbindch filech p l found
      = Done (l', found')
      ∧ (length l' ≤ 2)%nat
      ∧ Forall (λ c, c = "b"%char ∨ c = "f"%char) l'
      ∧ (found' = true ↔ l' ≠ []).
Proof.
  induction fuel as [|fuel IH]; intros p l found Hp Hl Hbf Hfound.
  - destruct p; [|simpl in Hp; lia]. by exists l, found.
  - destruct p as [|c p]; [by exists l, found|].
    cbn [Config.config_lookup_loop].
    set (is_bind := Nameserver.is_char c bindch
                    || Nameserver.is_char c altbindch).
    set (q := Nameserver.drop_while _ (Nameserver.drop_while _ (c :: p))).
    assert (Hq : (length q ≤ fuel)%nat).
    { etrans; [apply drop_while_shorter|simpl in Hp; lia].
      intros d. by rewrite negb_orb. }
    clearbody q.
    destruct ((is_bind || Nameserver.is_char c filech)
              && (length l <? 2)%nat) eqn:E.
    + apply andb_prop in E as [_ E]. apply Nat.ltb_lt in E.
      apply IH; [done|rewrite length_app; simpl; lia| |].
      * apply Forall_app. split; [done|]. constructor; [|done].
        destruct is_bind; [by left|by right].
      * split; [by destruct l|done].
    + by apply IH.
Qed.


(** ** The sort list *)

Lemma skip_until_length (stop : ascii → bool) (s : list ascii) :
  (Config.skip_until stop s ≤ length s)%nat.
Proof. apply skip_until_split. Qed.

Lemma skip_until_zero (stop : ascii → bool) (s : list ascii) :
  s ≠ [] → Config.skip_until stop s = O →
  stop (Nameserver.char_at s 0) = true.
Proof.
  destruct s as [|c s]; [done|]. intros _. simpl.
  change (Nameserver.char_at (c :: s) 0) with c. by destruct (stop c).
Qed.

Lemma skip_until_pos (stop : ascii → bool) (s : list ascii) :
  s ≠ [] → stop (Nameserver.char_at s 0) = false →
  (1 ≤ Config.skip_until stop s)%nat.
Proof.
  destruct s as [|c s]; [done|]. intros _.
  change (Nameserver.char_at (c :: s) 0) with c. simpl. intros ->. lia.
Qed.

Lemma sortlist_next_shorter (str : list ascii) (q : nat) :
  str ≠ [] →
  (1 ≤ q)%nat ∨ Nameserver.ISSPACE (Nameserver.char_at str 0) = true →
  (length (Nameserver.drop_while Nameserver.ISSPACE (drop q str))
   < length str)%nat.
Proof.
  intros Hne [Hq|Hsp].
  - pose proof (drop_while_length Nameserver.ISSPACE (drop q str)).
    rewrite length_drop in *. destruct str; [done|]. simpl in *. lia.
  - destruct q as [|q].
    + destruct str as [|c str]; [done|]. rewrite drop_0.
      change (Nameserver.ISSPACE c = true) in Hsp. simpl. rewrite Hsp.
      pose proof (drop_while_length Nameserver.ISSPACE str). simpl. lia.
    + pose proof (drop_while_length Nameserver.ISSPACE (drop (S q) str)).
      rewrite length_drop in *. destruct str; [done|]. simpl in *. lia.
Qed.

Lemma store_text_fits (size : nat) (text : list ascii) :
  (length text < size)%nat → Config.store_text size text = Done text.
Proof.
  intros H. unfold Config.store_text.
  destruct (Nat.leb_spec size (length text)); [lia|done].
Qed.

Lemma natural_mask_ok (pat : Config.apattern) :
  ∃ m, Config.natural_mask pat = Config.set_pat_mask m pat.
Proof.
  unfold Config.natural_mask. cbv zeta.
  destruct (Config.IN_CLASSA _); [by eexists|].
  destruct (Config.IN_CLASSB _); by eexists.
Qed.

Lemma ntohl_take (bytes : list Z) :
  Config.ntohl (take 4 bytes) = Config.ntohl bytes.
Proof. by destruct bytes as [|a [|b [|c [|d bytes]]]]. Qed.

Lemma u16_range (z : Z) : 0 ≤ u16 z < 65536.
Proof. unfold u16. apply Z.mod_pos_bound. lia. Qed.

Lemma ushort_of_store (bits : Z) (mask : list Z) :
  Config.ushort_of
    (Config.store_member 2 (Config.ushort_bytes (u16 bits)) mask)
  = u16 bits.
Proof.
  unfold Config.ushort_of, Config.store_member, Config.ushort_bytes.
  cbn [take app nth]. pose proof (u16_range bits) as H.
  assert (0 ≤ u16 bits / 256 < 256)
    by (split; [apply Z.div_pos; lia|apply Z.div_lt_upper_bound; lia]).
  rewrite (Z.mod_small (u16 bits / 256)) by done.
  pose proof (Z.div_mod (u16 bits) 256). lia.
Qed.

Lemma take_store_member (n : nat) (bytes union : list Z) :
  length bytes = n → take n (Config.store_member n bytes union) = bytes.
Proof.
  intros H. unfold Config.store_member.
  rewrite (take_ge bytes) by lia. by apply take_app_length'.
Qed.

Lemma on_member_same (n : nat) (ok : Z → Prop)
  (call : list Z → Z * list Z) (u u' : list Z) :
  (∀ d d', (call d).1 = (call d').1
           ∧ (ok (call d).1 →
              length (call d).2 = n ∧ (call d).2 = (call d').2)) →
  (Config.on_member n call u).1 = (Config.on_member n call u').1
  ∧ (ok (Config.on_member n call u).1 →
     take n (Config.on_member n call u).2
     = take n (Config.on_member n call u').2).
Proof.
  intros H. unfold Config.on_member.
  destruct (H (take n u) (take n u')) as [H1 H2].
  destruct (call (take n u)) as [r b], (call (take n u')) as [r' b'].
  simpl in *. split; [done|]. intros Hok.
  destruct (H2 Hok) as [Hl <-]. by rewrite !take_store_member.
Qed.

Lemma same_entry_add (sl sl' : option (list Config.apattern)) (n : Z)
  (e e' : Config.apattern) (rest : list ascii) (allocs : list bool) :
  same_sortlist sl sl' → same_entry e e' →
  same_round
    (Done (let '(ok, sortlist, nsort, allocs) :=
             Config.sortlist_alloc sl n e allocs in
           if ok then inr (e, sortlist, nsort, rest, allocs)
           else inl (ARES_ENOMEM, allocs)))
    (Done (let '(ok, sortlist, nsort, allocs) :=
             Config.sortlist_alloc sl' n e' allocs in
           if ok then inr (e', sortlist, nsort, rest, allocs)
           else inl (ARES_ENOMEM, allocs))).
Proof.
  intros Hsl He. unfold Config.sortlist_alloc.
  destruct (Init.take_alloc allocs) as [[] a]; simpl; [|done].
  split; [|done]. constructor. apply Forall2_app.
  - apply Forall2_take. destruct Hsl; [done|constructor].
  - by constructor.
Qed.

Section sortlist_theorems.
Variable ares_inet_pton4 : list ascii → list Z → Z * list Z.
Variable ares_inet_net_pton4 : list ascii → list Z → Z * list Z.
Variable ares_inet_net_pton6 : list ascii → list Z → Z * list Z.

Lemma sortlist_add_spec (sl : option (list Config.apattern)) (n : Z)
  (e : Config.apattern) (allocs : list bool) :
  pattern_ok e →
  (∃ allocs', Config.sortlist_alloc sl n e allocs = (false, sl, n, allocs')
              ∧ head allocs = Some false
              ∧ allocs' = tail allocs)
  ∨ (∃ sl' n' allocs',
       Config.sortlist_alloc sl n e allocs = (true, sl', n', allocs')
       ∧ sortlist_step sl n sl' n' allocs allocs').
Proof.
  intros He. unfold Config.sortlist_alloc, sortlist_step.
  destruct allocs as [|[] allocs]; simpl.
  - right. eexists _, _, _. split; [done|]. right. by exists e.
  - right. eexists _, _, _. split; [done|]. right. by exists e.
  - left. by eexists.
Qed.

Lemma item_result_add (sl : option (list Config.apattern)) (n : Z)
  (str rest : list ascii) (allocs : list bool) (e : Config.apattern) :
  pattern_ok e → (length rest < length str)%nat →
  item_result sl n str allocs
    (let '(ok, sortlist, nsort, allocs) :=
       Config.sortlist_alloc sl n e allocs in
     if ok then inr (e, sortlist, nsort, rest, allocs)
     else inl (ARES_ENOMEM, allocs)).
Proof.
  intros He Hlen.
  destruct (sortlist_add_spec sl n e allocs He)
    as [(a' & -> & Hh & ->)|(sl' & n' & a' & -> & Hstep)]; simpl.
  - by right.
  - done.
Qed.

Lemma sortlist_mask_spec (pat : Config.apattern) (has_pfx : bool)
  (text : list ascii) (len : nat) :
  Config.sortlist_mask ares_inet_pton4 pat has_pfx text len
  = Done (inl ARES_EBADSTR)
  ∨ ∃ m, Config.sortlist_mask ares_inet_pton4 pat has_pfx text len
         = Done (inr (Config.set_pat_mask m pat)).
Proof.
  unfold Config.sortlist_mask.
  destruct has_pfx;
    [|right; destruct (natural_mask_ok pat) as (m & ->); by exists m].
  destruct (17 - 1 <=? len)%nat eqn:Elen; [by left|right].
  apply Nat.leb_gt in Elen.
  rewrite store_text_fits by (rewrite length_take; lia).
  cbn [mbind outcome_bind].
  destruct (Config.on_member _ _ _) as [r mask].
  destruct (negb (r =? 0)).
  - destruct (natural_mask_ok (Config.set_pat_mask mask pat)) as (m & ->).
    by exists m.
  - by exists mask.
Qed.

Lemma item_end_slash (str : list ascii) (len : nat) :
  Nameserver.is_char (Nameserver.char_at str len) "/" = true →
  (1 ≤ Config.item_end (drop len str))%nat.
Proof.
  intros H. apply bool_decide_eq_true in H. unfold Nameserver.char_at in H.
  destruct (nth_lookup_or_length str len NUL) as [Hl|Hl].
  - rewrite H in Hl. rewrite (drop_S _ _ _ Hl). unfold Config.item_end.
    simpl. lia.
  - rewrite nth_overflow in H by lia. done.
Qed.

Lemma sortlist_progress (str : list ascii) (k : nat) :
  str ≠ [] →
  Nameserver.is_char (Nameserver.char_at str 0) ";" = false →
  let len := Config.skip_until
               (λ c, Nameserver.is_char c "/" || Nameserver.is_char c ";"
                     || Nameserver.ISSPACE c) str in
  let slash := Nameserver.is_char (Nameserver.char_at str len) "/" in
  (1 ≤ (if slash then len + Config.item_end (drop len str) else len) + k)%nat
  ∨ Nameserver.ISSPACE (Nameserver.char_at str 0) = true.
Proof.
  intros Hne Hsemi len slash.
  destruct slash eqn:Eslash.
  - left. pose proof (item_end_slash str len Eslash). lia.
  - destruct len as [|len'] eqn:El; [|left; lia].
    apply skip_until_zero in El; [|done].
    unfold slash in Eslash. rewrite Eslash, Hsemi in El. by right.
Qed.

Lemma config_sortlist_item_spec (pat : Config.apattern)
  (sl : option (list Config.apattern)) (n : Z) (str : list ascii)
  (allocs : list bool) :
  str ≠ [] →
  Nameserver.is_char (Nameserver.char_at str 0) ";" = false →
  ∃ r, Config.config_sortlist_item ares_inet_pton4 ares_inet_net_pton4
         ares_inet_net_pton6 pat sl n str allocs = Done r
       ∧ item_result sl n str allocs r.
Proof.
  intros Hne Hsemi. unfold Config.config_sortlist_item.
  pose proof (λ k, sortlist_progress str k Hne Hsemi) as Hprog.
  cbv zeta in Hprog.
  set (len := Config.skip_until _ str) in *.
  destruct (17 - 1 <=? len)%nat eqn:Elen.
  { eexists. split; [done|]. by left. }
  apply Nat.leb_gt in Elen.
  rewrite (store_text_fits 17) by (rewrite length_take; lia).
  cbn [mbind outcome_bind].
  set (slash := Nameserver.is_char (Nameserver.char_at str len) "/") in *.
  set (q := if slash then (len + Config.item_end (drop len str))%nat
            else len) in *.
  assert (Hnext : ∀ k, (length (Nameserver.drop_while Nameserver.ISSPACE
                                  (drop (q + k) str)) < length str)%nat).
  { intros k. apply sortlist_next_shorter; [done|]. apply Hprog. }
  pose proof (Hnext O) as Hnext0. rewrite Nat.add_0_r in Hnext0.
  clearbody q.
  destruct (slash && (32 <=? q)%nat) eqn:Eq.
  { eexists. split; [done|]. by left. }
  assert (∃ ipbufpfx,
            (if slash then Config.store_text 32 (take q str) else Done [])
            = Done ipbufpfx) as (ipbufpfx & ->).
  { destruct slash; [|by eexists]. rewrite andb_true_l in Eq.
    apply Nat.leb_gt in Eq.
    rewrite store_text_fits by (rewrite length_take; lia). by eexists. }
  cbn [mbind outcome_bind].
  set (has_pfx := negb (Nameserver.is_char
                          (Nameserver.char_at ipbufpfx 0) NUL)).
  clearbody has_pfx slash.
  destruct (Config.on_member 16 _ _) as [bits6 addr6].
  destruct (0 <? bits6).
  { eexists. split; [done|]. apply item_result_add; [|done].
    left. cbn [Config.pat_type Config.pat_mask Config.pat_family
               Config.set_pat_type Config.set_pat_mask
               Config.set_pat_family Config.set_pat_addr].
    rewrite ushort_of_store. pose proof (u16_range bits6).
    split; [done|]. split; [lia|by right]. }
  destruct (if has_pfx then _ else _) as [bits4 addr4].
  destruct (has_pfx && (0 <? bits4)).
  { eexists. split; [done|]. apply item_result_add; [|done].
    left. cbn [Config.pat_type Config.pat_mask Config.pat_family
               Config.set_pat_type Config.set_pat_mask
               Config.set_pat_family Config.set_pat_addr].
    rewrite ushort_of_store. pose proof (u16_range bits4).
    split; [done|]. split; [lia|by left]. }
  destruct (Config.on_member 4 _ _) as [r addr].
  destruct (r =? 0).
  - match goal with
    | |- context [Config.sortlist_mask _ ?p ?h ?t ?l] =>
        destruct (sortlist_mask_spec p h t l) as [->|(m & ->)]
    end; cbn [mbind outcome_bind].
    + eexists. split; [done|]. by left.
    + eexists. split; [done|]. apply item_result_add; [|done]. by right.
  - eexists. split; [done|]. split; [apply Hnext|by left].
Qed.

Lemma take_alloc_false (allocs allocs' : list bool) (ok : bool) :
  Init.take_alloc allocs = (ok, allocs') → false ∈ allocs' → false ∈ allocs.
Proof.
  destruct allocs as [|b allocs]; simpl; intros [= <- <-]; [done|].
  intros ?. by right.
Qed.

Lemma sortlist_step_inv (sl sl' : option (list Config.apattern)) (n n' : Z)
  (allocs allocs' : list bool) :
  sortlist_inv sl n → n + 1 < 2 ^ 64 →
  sortlist_step sl n sl' n' allocs allocs' →
  sortlist_inv sl' n' ∧ n ≤ n' ≤ n + 1
  ∧ (false ∈ allocs' → false ∈ allocs).
Proof.
  intros (Hn & Hok & Hne) Hbound [(-> & -> & ->)|(e & He & -> & -> & Ha)].
  - split; [done|]. split; [lia|done].
  - assert (0 ≤ n) by lia.
    assert (size_wrap (n + 1) = n + 1) as ->
      by (unfold size_wrap; apply Z.mod_small; lia).
    rewrite Hn, Nat2Z.id, firstn_all.
    split; [|split; [lia|by eapply take_alloc_false]].
    split; [simpl; rewrite length_app; simpl; lia|].
    split; [simpl; apply Forall_app; by split; [|constructor]|].
    intros [= E]. by destruct (default [] sl).
Qed.

Lemma config_sortlist_fuel_spec (fuel : nat) :
  ∀ (pat : Config.apattern) (sl : option (list Config.apattern)) (n : Z)
    (str : list ascii) (allocs : list bool),
    (length str ≤ fuel)%nat →
    sortlist_inv sl n → n + Z.of_nat (length str) < 2 ^ 64 →
    ∃ st sl' n' allocs',
      Config.config_sortlist_fuel ares_inet_pton4 ares_inet_net_pton4
        ares_inet_net_pton6 fuel pat sl n str allocs
      = Done (st, sl', n', allocs')
      ∧ ((st = ARES_SUCCESS ∧ sortlist_inv sl' n'
          ∧ n' ≤ n + Z.of_nat (length str))
         ∨ (st = ARES_EBADSTR ∧ sl' = None)
         ∨ (st = ARES_ENOMEM ∧ sl' = None ∧ false ∈ allocs)).
Proof.
  induction fuel as [|fuel IH]; intros pat sl n str allocs Hfuel Hinv Hb.
  - destruct str; [|simpl in Hfuel; lia].
    eexists _, _, _, _. split; [done|]. left. split; [done|].
    split; [done|]. simpl. lia.
  - destruct str as [|c str'] eqn:Es.
    { eexists _, _, _, _. split; [done|]. left. split; [done|].
      split; [done|]. simpl. lia. }
    cbn [Config.config_sortlist_fuel].
    destruct (Nameserver.is_char c ";") eqn:Ec.
    { eexists _, _, _, _. split; [done|]. left. split; [done|].
      split; [done|]. lia. }
    rewrite <- Es in *.
    destruct (config_sortlist_item_spec pat sl n str allocs)
      as (r & -> & Hr); [by rewrite Es|by rewrite Es|].
    cbn [mbind outcome_bind].
    assert (1 ≤ length str)%nat by (rewrite Es; simpl; lia).
    destruct r as [[st a']|[[[[pat' sl'] n'] str2] a']]; simpl in Hr.
    + eexists _, _, _, _. split; [done|].
      destruct Hr as [(-> & _)|(-> & Hh & _)]; [right; by left|].
      right; right. split; [done|]. split; [done|].
      destruct allocs as [|b allocs]; [done|]. injection Hh as ->. by left.
    + destruct Hr as (Hlen & Hstep).
      destruct (sortlist_step_inv _ _ _ _ _ _ Hinv ltac:(lia) Hstep)
        as (Hinv' & Hn' & Hfalse).
      destruct (IH pat' sl' n' str2 a' ltac:(lia) Hinv' ltac:(lia))
        as (st & sl2 & n2 & a2 & -> & Hres).
      eexists _, _, _, _. split; [done|].
      destruct Hres as [(-> & ? & ?)|[(-> & ->)|(-> & -> & ?)]].
      * left. split; [done|]. split; [done|]. lia.
      * right; by left.
      * right; right. by auto.
Qed.

(** X18.  [config_sortlist] returns for every text; its buffers
    [ipbuf] and [ipbufpfx] are never written past their end.  On
    [ARES_SUCCESS] the count is the length of the list, the list is
    [NULL] when no entry was read, and every entry is a network of type
    [PATTERN_CIDR] in either family with its count of bits in
    [mask.bits], or an IPv4 address of type [PATTERN_MASK].  On failure
    the list is [NULL]; [ARES_ENOMEM] is returned only when an
    allocation failed. *)
Theorem config_sortlist_result (pat : Config.apattern) (str : list ascii)
  (allocs : list bool) :
  Z.of_nat (length str) < 2 ^ 64 →
  ∃ st sl n allocs',
    Config.config_sortlist ares_inet_pton4 ares_inet_net_pton4
      ares_inet_net_pton6 pat str allocs = Done (st, sl, n, allocs')
    ∧ sortlist_result (length str) allocs st sl n.
Proof.
  intros Hlen. unfold Config.config_sortlist.
  pose proof (c_str_length str) as Hc.
  destruct (config_sortlist_fuel_spec (length (Nameserver.c_str str)) pat
              None 0 (Nameserver.c_str str) allocs)
    as (st & sl & n & a & -> & Hres); [done| |lia|].
  { split; [done|]. split; [constructor|done]. }
  eexists _, _, _, _. split; [done|]. unfold sortlist_result.
  destruct Hres as [(-> & ? & ?)|[?|?]]; [left|right; by left|by right; right].
  split; [done|]. split; [done|]. lia.
Qed.

Section ignores_buffer.
Hypothesis pton4_ignores : ignores_dst 4 1 ares_inet_pton4.
Hypothesis net_pton4_ignores : ignores_dst 4 1 ares_inet_net_pton4.
Hypothesis net_pton6_ignores : ignores_dst 16 1 ares_inet_net_pton6.

Lemma ip_addr_same (ipbuf : list ascii) (len : Z) (d d' : list Z) :
  (Config.ip_addr ares_inet_pton4 ipbuf len d).1
  = (Config.ip_addr ares_inet_pton4 ipbuf len d').1
  ∧ ((Config.ip_addr ares_inet_pton4 ipbuf len d).1 = 0 →
     length (Config.ip_addr ares_inet_pton4 ipbuf len d).2 = 4%nat
     ∧ (Config.ip_addr ares_inet_pton4 ipbuf len d).2
       = (Config.ip_addr ares_inet_pton4 ipbuf len d').2).
Proof.
  unfold Config.ip_addr. destruct (15 <? len); [by split|].
  destruct (pton4_ignores ipbuf d d') as [H1 H2].
  destruct (ares_inet_pton4 ipbuf d) as [r b],
           (ares_inet_pton4 ipbuf d') as [r' b'].
  simpl in H1, H2. subst r'. destruct (Z.ltb_spec r 1); [by split|].
  split; [done|]. intros _. by apply H2.
Qed.

Lemma natural_mask_same (p p' : Config.apattern) :
  take 4 (Config.pat_addr p) = take 4 (Config.pat_addr p') →
  take 4 (Config.pat_addr (Config.natural_mask p))
  = take 4 (Config.pat_addr (Config.natural_mask p'))
  ∧ take 4 (Config.pat_mask (Config.natural_mask p))
    = take 4 (Config.pat_mask (Config.natural_mask p')).
Proof.
  intros H. unfold Config.natural_mask.
  rewrite <- (ntohl_take (Config.pat_addr p)),
          <- (ntohl_take (Config.pat_addr p')), H. cbv zeta.
  destruct (Config.IN_CLASSA _); [|destruct (Config.IN_CLASSB _)];
    cbn [Config.pat_addr Config.pat_mask Config.set_pat_mask];
    by rewrite !take_store_member.
Qed.

Lemma sortlist_mask_same (p p' : Config.apattern) (has_pfx : bool)
  (text : list ascii) (len : nat) :
  take 4 (Config.pat_addr p) = take 4 (Config.pat_addr p') →
  match Config.sortlist_mask ares_inet_pton4 p has_pfx text len,
        Config.sortlist_mask ares_inet_pton4 p' has_pfx text len with
  | Done (inl st), Done (inl st') => st = st'
  | Done (inr x), Done (inr x') =>
      take 4 (Config.pat_addr x) = take 4 (Config.pat_addr x')
      ∧ take 4 (Config.pat_mask x) = take 4 (Config.pat_mask x')
  | Undefined, Undefined | OutOfFuel, OutOfFuel => True
  | _, _ => False
  end.
Proof.
  intros H. unfold Config.sortlist_mask.
  destruct has_pfx; [|by apply natural_mask_same].
  destruct (17 - 1 <=? len)%nat; [done|].
  destruct (Config.store_text 17 _) as [ipbuf| |]; cbn [mbind outcome_bind];
    [|done..].
  destruct (on_member_same 4 (λ r, r = 0)
              (Config.ip_addr ares_inet_pton4 ipbuf (Z.of_nat len))
              (Config.pat_mask p) (Config.pat_mask p')
              (ip_addr_same ipbuf (Z.of_nat len))) as [H1 H2].
  destruct (Config.on_member 4 _ (Config.pat_mask p)) as [r m],
           (Config.on_member 4 _ (Config.pat_mask p')) as [r' m'].
  simpl in H1, H2. subst r'. destruct (Z.eqb_spec r 0) as [->|]; simpl.
  - by split; [|apply H2].
  - by apply natural_mask_same.
Qed.

Lemma config_sortlist_item_same (pat pat' : Config.apattern)
  (sl sl' : option (list Config.apattern)) (n : Z) (str : list ascii)
  (allocs : list bool) :
  same_sortlist sl sl' →
  same_round
    (Config.config_sortlist_item ares_inet_pton4 ares_inet_net_pton4
       ares_inet_net_pton6 pat sl n str allocs)
    (Config.config_sortlist_item ares_inet_pton4 ares_inet_net_pton4
       ares_inet_net_pton6 pat' sl' n str allocs).
Proof.
  intros Hsl. unfold Config.config_sortlist_item.
  destruct (17 - 1 <=? _)%nat; [done|].
  destruct (Config.store_text 17 _) as [ipbuf| |]; cbn [mbind outcome_bind];
    [|done..].
  destruct (_ && (32 <=? _)%nat); [done|].
  destruct (if Nameserver.is_char _ "/" then _ else Done [])
    as [ipbufpfx| |]; cbn [mbind outcome_bind]; [|done..].
  set (has_pfx := negb _). clearbody has_pfx.
  set (text := if has_pfx then ipbufpfx else ipbuf). clearbody text.
  destruct (on_member_same 16 (λ r, 1 ≤ r) (ares_inet_net_pton6 text)
              (Config.pat_addr pat) (Config.pat_addr pat')
              (net_pton6_ignores text)) as [H1 H2].
  destruct (Config.on_member 16 _ (Config.pat_addr pat)) as [bits6 a6],
           (Config.on_member 16 _ (Config.pat_addr pat')) as [bits6' a6'].
  simpl in H1, H2. subst bits6'.
  destruct (Z.ltb_spec 0 bits6) as [Hb|Hb].
  { apply same_entry_add; [done|]. specialize (H2 ltac:(lia)).
    unfold same_entry, pattern_addr, pattern_mask. simpl.
    by rewrite H2. }
  clear H2.
  generalize (Config.set_pat_addr a6 pat), (Config.set_pat_addr a6' pat').
  clear pat pat' a6 a6'. intros pat pat'.
  assert (∃ bits4 a4 a4',
            (if has_pfx
             then Config.on_member 4 (ares_inet_net_pton4 ipbufpfx)
                    (Config.pat_addr pat)
             else (0, Config.pat_addr pat)) = (bits4, a4)
            ∧ (if has_pfx
               then Config.on_member 4 (ares_inet_net_pton4 ipbufpfx)
                      (Config.pat_addr pat')
               else (0, Config.pat_addr pat')) = (bits4, a4')
            ∧ (has_pfx && (0 <? bits4) = true → take 4 a4 = take 4 a4'))
    as (bits4 & a4 & a4' & -> & -> & H4).
  { destruct has_pfx; [|by eexists _, _, _].
    destruct (on_member_same 4 (λ r, 1 ≤ r)
                (ares_inet_net_pton4 ipbufpfx)
                (Config.pat_addr pat) (Config.pat_addr pat')
                (net_pton4_ignores ipbufpfx)) as [H1 H2].
    destruct (Config.on_member 4 _ (Config.pat_addr pat)) as [b a],
             (Config.on_member 4 _ (Config.pat_addr pat')) as [b' a'].
    simpl in H1, H2. subst b'. exists b, a, a'.
    split; [done|]. split; [done|]. rewrite andb_true_l.
    intros Hpos. apply Z.ltb_lt in Hpos. apply H2. lia. }
  destruct (has_pfx && (0 <? bits4)).
  { apply same_entry_add; [done|]. specialize (H4 eq_refl).
    unfold same_entry, pattern_addr, pattern_mask. simpl.
    by rewrite H4. }
  clear H4.
  generalize (Config.set_pat_addr a4 pat), (Config.set_pat_addr a4' pat').
  clear pat pat' a4 a4'. intros pat pat'.
  match goal with
  | |- context [Config.on_member 4 (Config.ip_addr _ ?b ?l)] =>
      destruct (on_member_same 4 (λ r, r = 0)
                  (Config.ip_addr ares_inet_pton4 b l)
                  (Config.pat_addr pat) (Config.pat_addr pat')
                  (ip_addr_same b l)) as [H1 H2]
  end.
  destruct (Config.on_member 4 _ (Config.pat_addr pat)) as [r a],
           (Config.on_member 4 _ (Config.pat_addr pat')) as [r' a'].
  simpl in H1, H2. subst r'.
  destruct (Z.eqb_spec r 0) as [->|]; [|done].
  specialize (H2 eq_refl).
  match goal with
  | |- context [Config.sortlist_mask _ _ ?h ?t ?l] =>
      pose proof (sortlist_mask_same (Config.set_pat_addr a pat)
                    (Config.set_pat_addr a' pat') h t l H2) as Hm
  end.
  destruct (Config.sortlist_mask _ (Config.set_pat_addr a pat) _ _ _)
    as [[st|x]| |],
     (Config.sortlist_mask _ (Config.set_pat_addr a' pat') _ _ _)
    as [[st'|x']| |]; try done; cbn [mbind outcome_bind].
  - by subst.
  - apply same_entry_add; [done|]. destruct Hm as [Ha Hk].
    by unfold same_entry, pattern_addr, pattern_mask.
Qed.

Lemma config_sortlist_fuel_same (fuel : nat) :
  ∀ (pat pat' : Config.apattern) (sl sl' : option (list Config.apattern))
    (n : Z) (str : list ascii) (allocs : list bool),
    same_sortlist sl sl' →
    match Config.config_sortlist_fuel ares_inet_pton4 ares_inet_net_pton4
            ares_inet_net_pton6 fuel pat sl n str allocs,
          Config.config_sortlist_fuel ares_inet_pton4 ares_inet_net_pton4
            ares_inet_net_pton6 fuel pat' sl' n str allocs with
    | Done (st, l, k, a), Done (st', l', k', a') =>
        st = st' ∧ same_sortlist l l' ∧ k = k' ∧ a = a'
    | Undefined, Undefined | OutOfFuel, OutOfFuel => True
    | _, _ => False
    end.
Proof.
  induction fuel as [|fuel IH]; intros pat pat' sl sl' n str allocs Hsl.
  { destruct str as [|c str]; [done|]. simpl.
    by destruct (Nameserver.is_char c ";"). }
  destruct str as [|c str'] eqn:Es; [done|].
  cbn [Config.config_sortlist_fuel].
  destruct (Nameserver.is_char c ";"); [done|]. rewrite <- Es.
  pose proof (config_sortlist_item_same pat pat' sl sl' n str allocs Hsl)
    as H.
  destruct (Config.config_sortlist_item _ _ _ pat _ _ _ _)
    as [[[? ?]|[[[[p1 sl1] n1] s1] a1]]| |],
     (Config.config_sortlist_item _ _ _ pat' _ _ _ _)
    as [[[? ?]|[[[[p2 sl2] n2] s2] a2]]| |]; try done;
    cbn [mbind outcome_bind].
  - injection H as -> ->. split; [done|]. split; [constructor|done].
  - destruct H as (Hsl' & <- & <- & <-). by apply IH.
Qed.

End ignores_buffer.

(** X20.  [ares_set_sortlist] replaces the sort list of the channel as
    a whole or leaves the channel as it was: the list is replaced only
    on [ARES_SUCCESS] with at least one entry read, and then the count
    is the length of the new list.  A text without entries keeps the old
    list, also on [ARES_SUCCESS]. *)
Theorem ares_set_sortlist_all_or_nothing (pat : Config.apattern)
  (ch : Config.channel) (sortstr : list ascii) (allocs : list bool) :
  Z.of_nat (length sortstr) < 2 ^ 64 →
  ∃ st ch' allocs',
    Config.ares_set_sortlist ares_inet_pton4 ares_inet_net_pton4
      ares_inet_net_pton6 pat (Some ch) sortstr allocs
    = Done (st, Some ch', allocs')
    ∧ (ch' = ch
       ∨ (st = ARES_SUCCESS
          ∧ ∃ l, l ≠ [] ∧ Forall pattern_ok l
              ∧ ch' = Config.set_sortlist (Some l) (Z.of_nat (length l))
                        ch)).
Proof.
  intros Hlen. unfold Config.ares_set_sortlist.
  pose proof (c_str_length sortstr) as Hc. unfold Config.config_sortlist.
  destruct (config_sortlist_fuel_spec (length (Nameserver.c_str sortstr)) pat
              None 0 (Nameserver.c_str sortstr) allocs)
    as (st & sl & n & a & -> & Hres); [done| |lia|].
  { split; [done|]. split; [constructor|done]. }
  cbn [mbind outcome_bind].
  destruct Hres as [(-> & (Hn & Hok & Hne) & _)|[(-> & ->)|(-> & -> & _)]].
  - destruct sl as [l|].
    + rewrite bool_decide_eq_true_2 by done.
      rewrite bool_decide_eq_true_2 by done. cbn [andb].
      eexists _, _, _. split; [done|]. right. split; [done|].
      exists l. split; [congruence|]. split; [done|]. by rewrite Hn.
    + rewrite (bool_decide_eq_false_2 (is_Some None))
        by (by intros [? ?]).
      rewrite andb_false_r. eexists _, _, _. split; [done|]. by left.
  - rewrite bool_decide_eq_false_2 by done. cbn [andb].
    eexists _, _, _. split; [done|]. by left.
  - rewrite bool_decide_eq_false_2 by done. cbn [andb].
    eexists _, _, _. split; [done|]. by left.
Qed.
End sortlist_theorems.

(** The witness of X18: an address with its natural mask, a network and
    a word that is no address. *)
Lemma config_sortlist_result_witness :
  ∃ st sl n allocs',
    Config.config_sortlist example_inet_pton4 example_net_pton4
      example_net_pton6 example_pattern
      (String.list_ascii_of_string "130.155.160.0 10.0.0.0/8 junk") []
    = Done (st, sl, n, allocs')
    ∧ sortlist_result 29 [] st sl n.
Proof.
  apply (config_sortlist_result example_inet_pton4 example_net_pton4
           example_net_pton6 example_pattern
           (String.list_ascii_of_string "130.155.160.0 10.0.0.0/8 junk") []).
  vm_compute. done.
Defined.

Lemma dotted_quad_length (s : list ascii) :
  ∀ (acc : option Z) (parts bytes : list Z),
    dotted_quad acc parts s = Some bytes → length bytes = 4%nat.
Proof.
  induction s as [|c s IH]; intros acc parts bytes; simpl.
  - destruct acc as [n|]; [|done].
    destruct (Nat.eqb_spec (length parts) 3) as [E|]; [|done].
    intros [= <-]. rewrite length_app, E. done.
  - destruct (Nameserver.isdigit c).
    + destruct (255 <? _); [done|]. apply IH.
    + destruct (Nameserver.is_char c "."); [|done].
      destruct acc; [apply IH|done].
Qed.

Lemma example_inet_pton4_ignores : ignores_dst 4 1 example_inet_pton4.
Proof.
  intros s d d'. unfold example_inet_pton4, example_pton4.
  destruct (dotted_quad None [] s) as [bytes|] eqn:E; simpl.
  - split; [done|]. intros _. split; [|done].
    by apply dotted_quad_length in E.
  - split; [done|]. lia.
Qed.

Lemma example_net_pton4_ignores : ignores_dst 4 1 example_net_pton4.
Proof.
  intros s d d'. unfold example_net_pton4.
  destruct (decide _); simpl; [done|]. split; [done|]. lia.
Qed.

Lemma example_net_pton6_ignores : ignores_dst 16 1 example_net_pton6.
Proof.
  intros s d d'. unfold example_net_pton6.
  destruct (decide _); simpl; [done|]. split; [done|]. lia.
Qed.

(** The bytes of the unions of an entry that its members do not cover
    are those the buffer held: on entry, or from an entry before. *)
Example config_sortlist_buffer_bytes :
  Config.config_sortlist example_inet_pton4 example_net_pton4
    example_net_pton6 example_pattern'
    (String.list_ascii_of_string "130.155.160.0/255.255.240.0 fe80::/10") []
  = Done (ARES_SUCCESS,
          Some [ {| Config.pat_addr := [130; 155; 160; 0] ++ repeat 170 12;
                    Config.pat_mask := [255; 255; 240; 0] ++ repeat 85 12;
                    Config.pat_family := AF_INET;
                    Config.pat_type := Config.PATTERN_MASK |};
                 {| Config.pat_addr := [254; 128] ++ repeat 0 14;
                    Config.pat_mask := [10; 0; 240; 0] ++ repeat 85 12;
                    Config.pat_family := AF_INET6;
                    Config.pat_type := Config.PATTERN_CIDR |} ],
          2, []).
Proof. by vm_compute. Qed.


(** The witness of X20. *)
Lemma ares_set_sortlist_all_or_nothing_witness :
  ∃ st ch' allocs',
    Config.ares_set_sortlist example_inet_pton4 example_net_pton4
      example_net_pton6 example_pattern (Some example_config)
      (String.list_ascii_of_string "130.155.160.0/255.255.240.0 fe80::/10")
      []
    = Done (st, Some ch', allocs')
    ∧ (ch' = example_config
       ∨ (st = ARES_SUCCESS
          ∧ ∃ l, l ≠ [] ∧ Forall pattern_ok l
              ∧ ch' = Config.set_sortlist (Some l) (Z.of_nat (length l))
                        example_config)).
Proof.
  apply (ares_set_sortlist_all_or_nothing example_inet_pton4
           example_net_pton4
           example_net_pton6 example_pattern example_config
           (String.list_ascii_of_string
              "130.155.160.0/255.255.240.0 fe80::/10") []).
  vm_compute. done.
Defined.

(** ** Natural masks *)

Lemma class_checked_true : class_checked = true.
Proof. by vm_compute. Qed.

Lemma land_high (x m : Z) :
  0 ≤ x → 0 ≤ m → Z.land x (m * 2 ^ 24) = Z.land (x / 2 ^ 24) m * 2 ^ 24.
Proof.
  intros Hx Hm. rewrite <- !Z.shiftl_mul_pow2, <- Z.shiftr_div_pow2 by lia.
  apply Z.bits_inj'. intros n Hn. rewrite Z.land_spec.
  destruct (Z.lt_ge_cases n 24).
  - rewrite !Z.shiftl_spec_low by lia. by rewrite andb_false_r.
  - rewrite !Z.shiftl_spec by lia. rewrite Z.land_spec.
    rewrite Z.shiftr_spec by lia. do 2 f_equal. lia.
Qed.

Lemma class_of_octet (a r : Z) :
  0 ≤ a < 256 → 0 ≤ r < 2 ^ 24 →
  Config.IN_CLASSA (a * 2 ^ 24 + r) = (a <? 128)
  ∧ Config.IN_CLASSB (a * 2 ^ 24 + r) = (128 <=? a) && (a <? 192).
Proof.
  intros Ha Hr. unfold Config.IN_CLASSA, Config.IN_CLASSB.
  change 2147483648 with (128 * 2 ^ 24).
  change 3221225472 with (192 * 2 ^ 24).
  rewrite !land_high by lia.
  replace ((a * 2 ^ 24 + r) / 2 ^ 24) with a
    by (apply Z.div_unique with r; lia).
  pose proof class_checked_true as H. unfold class_checked in H.
  rewrite forallb_forall in H.
  specialize (H a).
  assert (In a (map Z.of_nat (seq 0 256))) as Hin.
  { apply in_map_iff. exists (Z.to_nat a). split; [lia|].
    apply in_seq. lia. }
  apply H in Hin. apply andb_prop in Hin as [H1 H2].
  apply Bool.eqb_prop in H1, H2. done.
Qed.

(** X21.  [natural_mask] picks the mask by the first octet of the
    address alone: 255.0.0.0 below 128, 255.255.0.0 from 128 to 191 and
    255.255.255.0 from 192 on, multicast and reserved addresses
    included.  It stores the four bytes of [mask.addr4]; the other bytes
    of the [mask] union and the other fields of the pattern are kept. *)
Theorem natural_mask_by_first_octet (pat : Config.apattern) (a b c d : Z) :
  take 4 (Config.pat_addr pat) = [a; b; c; d] →
  0 ≤ a < 256 → 0 ≤ b < 256 → 0 ≤ c < 256 → 0 ≤ d < 256 →
  Config.natural_mask pat
  = Config.set_pat_mask
      ((if a <? 128 then [255; 0; 0; 0]
        else if a <? 192 then [255; 255; 0; 0]
        else [255; 255; 255; 0]) ++ drop 4 (Config.pat_mask pat)) pat.
Proof.
  intros Hp Ha Hb Hc Hd. unfold Config.natural_mask.
  rewrite <- ntohl_take, Hp. unfold Config.ntohl. cbn [nth]. cbv zeta.
  replace (a * 2 ^ 24 + b * 2 ^ 16 + c * 2 ^ 8 + d)
    with (a * 2 ^ 24 + (b * 2 ^ 16 + c * 2 ^ 8 + d)) by lia.
  destruct (class_of_octet a (b * 2 ^ 16 + c * 2 ^ 8 + d)) as [-> ->];
    [done|lia|].
  destruct (a <? 128) eqn:E1; [done|].
  destruct (a <? 192) eqn:E2.
  - apply Z.ltb_ge in E1. apply Z.leb_le in E1. by rewrite E1.
  - by rewrite andb_false_r.
Qed.

(** The witness of X21: a multicast address in a buffer that held other
    bytes. *)
Lemma natural_mask_by_first_octet_witness :
  Config.natural_mask
    (Config.set_pat_addr ([224; 0; 0; 251] ++ repeat 170 12)
       example_pattern')
  = Config.set_pat_mask ([255; 255; 255; 0] ++ repeat 85 12)
      (Config.set_pat_addr ([224; 0; 0; 251] ++ repeat 170 12)
         example_pattern').
Proof.
  apply (natural_mask_by_first_octet
           (Config.set_pat_addr ([224; 0; 0; 251] ++ repeat 170 12)
              example_pattern') 224 0 0 251); [reflexivity|lia..].
Defined.

(** ** The socket list and the timeouts *)

Lemma socket_list_conns_spec (ch : ares_channel) (nodes : list nat) :
  ∀ out : list Z,
    (length out ≤ 16)%nat →
    (∀ cn, cn ∈ nodes → is_Some (conns ch !! cn)) →
    socket_list_conns ch nodes out 16 (Z.of_nat (length out))
    = if (length (out ++ conn_sockets ch nodes) <=? 16)%nat
      then Done (Some (out ++ conn_sockets ch nodes, 16,
                       Z.of_nat (length (out ++ conn_sockets ch nodes))))
      else Undefined.
Proof.
  induction nodes as [|cn nodes IH]; intros out Hout Hlive.
  - simpl. rewrite app_nil_r.
    destruct (Nat.leb_spec (length out) 16); [done|lia].
  - destruct (Hlive cn) as [c Hc]; [by left|].
    assert (Hrest : ∀ cn', cn' ∈ nodes → is_Some (conns ch !! cn'))
      by (intros; apply Hlive; by right).
    cbn [socket_list_conns]. unfold get_conn. rewrite Hc.
    cbn [deref mbind outcome_bind].
    unfold conn_sockets. cbn [flat_map]. rewrite Hc.
    fold (conn_sockets ch nodes).
    destruct (fd c =? ARES_SOCKET_BAD); [by apply IH|].
    unfold socket_list_append.
    destruct (Z.leb_spec 16 (Z.of_nat (length out))).
    + cbn [mbind outcome_bind].
      destruct (Nat.leb_spec
                  (length (out ++ [fd c] ++ conn_sockets ch nodes)) 16);
        [|done].
      rewrite length_app in *. simpl in *. lia.
    + cbn [mbind outcome_bind].
      assert (size_wrap (Z.of_nat (length out) + 1)
              = Z.of_nat (length (out ++ [fd c]))) as ->.
      { rewrite length_app. simpl. unfold size_wrap.
        rewrite Z.mod_small; lia. }
      rewrite IH; [|rewrite length_app; simpl; lia|done].
      by rewrite <- app_assoc.
Qed.

Lemma flat_map_agree {A B : Type} (f g : A → list B) (l : list A) :
  (∀ x, In x l → f x = g x) → flat_map f l = flat_map g l.
Proof.
  induction l as [|x l IH]; intros H; [done|]. simpl.
  rewrite (H x) by (by left). f_equal. apply IH. intros; apply H. by right.
Qed.

Lemma flat_map_seq_lookup {A B : Type} (f : A → list B) (l : list A) :
  flat_map (λ i, match l !! i with Some x => f x | None => [] end)
    (seq 0 (length l))
  = flat_map f l.
Proof.
  induction l as [|x l IH] using rev_ind; [done|].
  rewrite length_app. simpl. rewrite Nat.add_1_r, seq_S. simpl.
  rewrite !flat_map_app. simpl.
  rewrite lookup_app_r, Nat.sub_diag by lia. simpl. f_equal.
  rewrite <- IH. apply flat_map_agree. intros i Hi. apply in_seq in Hi.
  by rewrite lookup_app_l by lia.
Qed.

Lemma socket_list_servers_spec (ch : ares_channel) (indices : list nat) :
  ∀ out : list Z,
    (length out ≤ 16)%nat →
    (∀ i, i ∈ indices → is_Some (servers ch !! i)) →
    (∀ i srv cn, servers ch !! i = Some srv → cn ∈ connections srv →
                 is_Some (conns ch !! cn)) →
    let found :=
      out ++ flat_map (λ i, match servers ch !! i with
                            | Some srv => conn_sockets ch (connections srv)
                            | None => []
                            end) indices in
    socket_list_servers ch indices out 16 (Z.of_nat (length out))
    = if (length found <=? 16)%nat
      then Done (Some (found, 16, Z.of_nat (length found)))
      else Undefined.
Proof.
  induction indices as [|i indices IH]; intros out Hout Hsrv Hlive found.
  - subst found. simpl. rewrite app_nil_r.
    destruct (Nat.leb_spec (length out) 16); [done|lia].
  - destruct (Hsrv i) as [srv Hi]; [by left|].
    assert (Hrest : ∀ j, j ∈ indices → is_Some (servers ch !! j))
      by (intros; apply Hsrv; by right).
    cbn [socket_list_servers]. unfold get_server.
    destruct (Z.ltb_spec (Z.of_nat i) 0); [lia|].
    rewrite Nat2Z.id, Hi. cbn [deref mbind outcome_bind].
    rewrite socket_list_conns_spec by eauto.
    subst found. cbn [flat_map]. rewrite Hi.
    set (here := conn_sockets ch (connections srv)).
    set (rest := flat_map _ indices).
    destruct (Nat.leb_spec (length (out ++ here)) 16).
    + cbn [mbind outcome_bind]. specialize (IH (out ++ here)).
      cbv zeta in IH. rewrite IH by done. fold rest.
      by rewrite <- app_assoc.
    + cbn [mbind outcome_bind].
      destruct (Nat.leb_spec (length (out ++ here ++ rest)) 16); [|done].
      rewrite !length_app in *. lia.
Qed.

Lemma alloc_channel (ch : ares_channel) :
  servers (alloc ch).2 = servers ch ∧ nservers (alloc ch).2 = nservers ch
  ∧ conns (alloc ch).2 = conns ch.
Proof. unfold alloc. by destruct (io_alloc (env ch)). Qed.

(** X22.  On a channel whose tables cover what the dispatcher looks up,
    [channel_socket_list] returns the sockets of all connections, server
    by server in the order of the lists, without [ARES_SOCKET_BAD], as
    long as there are at most 16 of them.  With more the list has to
    grow, and the behaviour is undefined.  When the first allocation
    fails the list is [NULL] and the count 0. *)
Theorem channel_socket_list_sockets (ch : ares_channel) :
  dispatch_ready ch →
  channel_socket_list ch
  = if (alloc ch).1
    then if (length (open_sockets ch) <=? 16)%nat
         then Done (Some (open_sockets ch),
                    Z.of_nat (length (open_sockets ch)), (alloc ch).2)
         else Undefined
    else Done (None, 0, (alloc ch).2).
Proof.
  intros [[Hn Hlen] _ _ Hconns]. unfold channel_socket_list.
  destruct (alloc_channel ch) as (Hs & Hns & Hc).
  destruct (alloc ch) as [ok ch1]. simpl in *.
  destruct ok; [|done]. cbn [negb].
  pose proof (socket_list_servers_spec ch1 (seq 0 (Z.to_nat (nservers ch1)))
                [] ltac:(simpl; lia)) as Hspec.
  cbv zeta in Hspec. rewrite app_nil_l in Hspec.
  change (Z.of_nat (length (@nil Z))) with 0 in Hspec.
  rewrite Hspec; clear Hspec.
  - rewrite Hns, Hlen, Nat2Z.id, Hs.
    assert (flat_map (λ i, match servers ch !! i with
                           | Some srv => conn_sockets ch1 (connections srv)
                           | None => []
                           end) (seq 0 (length (servers ch)))
            = open_sockets ch) as ->.
    { rewrite (flat_map_seq_lookup (λ srv, conn_sockets ch1 (connections srv))).
      unfold open_sockets, conn_sockets. by rewrite Hc. }
    by destruct (_ <=? _)%nat.
  - intros i Hi. rewrite Hs. apply lookup_lt_is_Some.
    apply elem_of_seq in Hi. rewrite Hns, Hlen, Nat2Z.id in Hi. lia.
  - intros i srv cn Hi Hcn. rewrite Hs in Hi. rewrite Hc.
    eapply Hconns; [exact Hi|by left].
Qed.

Lemma sent_channel_ready (chflags : Z) : dispatch_ready (sent_channel chflags).
Proof.
  unfold sent_channel.
  destruct (ares__send_query_returns (example_channel chflags false) 0 time0)
    as (st & ch' & -> & Hr); [apply example_channel_ready| |exact Hr].
  simpl. rewrite lookup_singleton_eq. by eexists.
Qed.

(** The witness of X22: the channel with one query sent has one
    socket. *)
Lemma channel_socket_list_sockets_witness :
  channel_socket_list (sent_channel 0)
  = Done (Some [0], 1, sent_channel 0).
Proof.
  rewrite (channel_socket_list_sockets (sent_channel 0)
             (sent_channel_ready 0)).
  vm_compute. reflexivity.
Defined.

Lemma not_later_earlier (now a b : timeval) :
  ares_query_timeout_cmp_cb a b ≤ 0 → earlier now a → earlier now b.
Proof.
  intros Hab Ha.
  destruct (ares_query_timeout_cmp_cb_cases a b)
    as [[E H]|[[E H]|[E H]]]; rewrite E in Hab; try lia;
    unfold earlier in *; subst; try done; lia.
Qed.

Lemma process_timeouts_loop_eq (fuel : nat) (ch : ares_channel)
  (now : timeval) (qr : nat) :
  process_timeouts_loop fuel ch now (Some qr)
  = (q ← get_query ch qr;
     if negb (ares__timedout now (q_timeout q)) then Done ch
     else
       match fuel with
       | O => OutOfFuel
       | S fuel =>
           ch' ← process_timeouts_query ch now qr;
           process_timeouts_loop fuel ch' now
             (slist_node_next qr (queries_by_timeout ch))
       end).
Proof. by destruct fuel. Qed.

(** X23.  When [queries_by_timeout] is in the order of the deadlines and
    its first query has not timed out, [process_timeouts] returns with
    the channel as it was, and it has missed nothing: no query of the
    list has timed out. *)
Theorem process_timeouts_stops_at_first_live (ch : ares_channel)
  (now : timeval) (qr : nat) (q : query) :
  timeouts_sorted ch →
  head (queries_by_timeout ch) = Some qr →
  queries ch !! qr = Some q →
  ares__timedout now (q_timeout q) = false →
  process_timeouts ch now = Done ch
  ∧ ∀ r q', r ∈ queries_by_timeout ch → queries ch !! r = Some q' →
            ares__timedout now (q_timeout q') = false.
Proof.
  intros Hsorted Hhead Hq Hlive. split.
  - unfold process_timeouts. rewrite Hhead, process_timeouts_loop_eq.
    unfold get_query. rewrite Hq. simpl. by rewrite Hlive.
  - intros r q' Hr Hq'.
    apply list_elem_of_lookup in Hr as [j Hj].
    assert (H0 : queries_by_timeout ch !! 0%nat = Some qr).
    { destruct (queries_by_timeout ch); [done|]. by injection Hhead as ->. }
    pose proof (Hsorted 0%nat j qr r q q' ltac:(lia) H0 Hj Hq Hq') as Hle.
    apply ares__timedout_earlier. apply ares__timedout_earlier in Hlive.
    by eapply not_later_earlier.
Qed.

(** The witness of X23: the query sent at second 100 is due at second
    101. *)
Lemma process_timeouts_stops_at_first_live_witness :
  process_timeouts (sent_channel 0) time0 = Done (sent_channel 0)
  ∧ ∀ r q', r ∈ queries_by_timeout (sent_channel 0) →
            queries (sent_channel 0) !! r = Some q' →
            ares__timedout time0 (q_timeout q') = false.
Proof.
  apply (process_timeouts_stops_at_first_live (sent_channel 0) time0 0
           sent_query).
  - assert (queries_by_timeout (sent_channel 0) = [0%nat]) as Ht
      by (vm_compute; reflexivity).
    intros i j qi qj a b Hij Hi Hj Ha Hb. rewrite Ht in Hi, Hj.
    destruct i as [|i]; [|by destruct i]. destruct j as [|j]; [|by destruct j].
    simpl in Hi, Hj. injection Hi as <-. injection Hj as <-.
    rewrite Ha in Hb. injection Hb as <-.
    destruct (ares_query_timeout_cmp_cb_cases (q_timeout a) (q_timeout a))
      as [[E H]|[[E H]|[E H]]]; rewrite E; try lia;
      by apply earlier_irrefl in H.
  - vm_compute. reflexivity.
  - vm_compute. reflexivity.
  - vm_compute. reflexivity.
Defined.

Lemma sockets_ready_upd_query (ch : ares_channel) (qr : nat)
  (f : query → query) :
  sockets_ready ch → sockets_ready (upd_query qr f ch).
Proof. intros H. exact H. Qed.

Lemma process_timeouts_query_run (ch : ares_channel) (now : timeval)
  (qr conn : nat) (q : query) (c : server_connection) :
  queries ch !! qr = Some q → q_conn q = Some conn →
  conns ch !! conn = Some c →
  process_timeouts_query ch now qr
  = ('(_, ch') ← next_server (upd_query qr timed_out ch) qr now;
     ares__check_cleanup_conn ch' (fd c)).
Proof.
  intros Hq Hconn Hc. unfold process_timeouts_query, get_query, get_conn.
  rewrite Hq. simpl. rewrite Hconn. simpl. rewrite Hc. reflexivity.
Qed.

(** X24.  A query that has timed out and has no try left is ended by
    [process_timeouts]: its callback is called once, with
    [ARES_ETIMEOUT], no answer and the count of timeouts, raised by one
    as a [size_t] and then converted to [int], and the query is gone. *)
Theorem process_timeouts_query_ends_exhausted (ch : ares_channel)
  (now : timeval) (qr conn : nat) (q : query) (c : server_connection) :
  sockets_ready ch →
  queries ch !! qr = Some q → q_conn q = Some conn →
  conns ch !! conn = Some c →
  tries_exhausted ch q = true →
  ∃ ch', process_timeouts_query ch now qr = Done ch'
    ∧ callbacks (env ch')
      = callbacks (env ch)
        ++ [{| cb_query := qr; cb_arg := arg q; cb_status := ARES_ETIMEOUT;
               cb_timeouts := int_of (size_wrap (timeouts q + 1));
               cb_abuf := None; cb_alen := 0 |}]
    ∧ queries ch' = delete qr (queries ch).
Proof.
  intros Hready Hq Hconn Hc Hex.
  rewrite (process_timeouts_query_run ch now qr conn q c Hq Hconn Hc).
  unfold next_server. rewrite next_server_fuel_eq.
  set (ch1 := upd_query qr timed_out ch).
  assert (Hq1 : queries ch1 !! qr = Some (timed_out q))
    by (unfold ch1; simpl; by rewrite lookup_alter_eq, Hq).
  unfold get_query. rewrite Hq1. cbn [deref mbind outcome_bind]. cbv zeta.
  unfold tries_exhausted in Hex. apply negb_true_iff in Hex.
  change (try_count (timed_out q)) with (try_count q).
  change (no_retries (timed_out q)) with (no_retries q).
  change (nservers (upd_query qr _ ch1)) with (nservers ch).
  change (tries (upd_query qr _ ch1)) with (tries ch).
  rewrite Hex.
  set (q2 := set_try_count (size_wrap (try_count q + 1)) (timed_out q)).
  set (ch2 := upd_query qr _ ch1).
  assert (Hq2 : queries ch2 !! qr = Some q2).
  { unfold ch2. cbn [queries upd_query set_queries].
    by rewrite lookup_alter_eq, Hq1. }
  assert (Hready2 : sockets_ready ch2) by exact Hready.
  assert (Henv2 : env ch2 = env ch) by reflexivity.
  assert (Hqs2 : delete qr (queries ch2) = delete qr (queries ch)).
  { unfold ch2, ch1. cbn [queries upd_query set_queries].
    apply map_eq. intros i. destruct (decide (i = qr)) as [->|Hi].
    - by rewrite !lookup_delete_eq.
    - by rewrite !lookup_delete_ne, !lookup_alter_ne by done. }
  clearbody ch2. clear Hq1. clearbody ch1.
  rewrite (end_query_run ch2 qr _ _ _ _ Hq2). cbn [mbind outcome_bind].
  set (ev := {| cb_query := qr |}).
  pose proof (sockets_ready_ended ch2 qr q2 ev Hready2) as Hready3.
  destruct (ares__check_cleanup_conn_returns _ (fd c) Hready3)
    as (ch' & Hrun).
  exists ch'. split; [exact Hrun|].
  apply ares__check_cleanup_conn_callbacks in Hrun as [-> ->].
  destruct (detach_done_fields ch2 qr q2)
    as (Hqs & _ & _ & _ & _ & _ & _ & _ & Henv & _).
  set (D := detach_done ch2 qr q2) in *. clearbody D.
  cbn [queries set_queries env log_callback set_env callbacks set_callbacks].
  rewrite Henv, Henv2. split; [done|]. exact Hqs2.
Qed.

(** The witness of X24: the query sent to the first server, with its
    six tries used up, at its deadline. *)
Lemma process_timeouts_query_ends_exhausted_witness :
  ∃ ch', process_timeouts_query exhausted_channel
           {| tv_sec := 101; tv_usec := 0 |} 0 = Done ch'
    ∧ callbacks (env ch')
      = callbacks (env exhausted_channel)
        ++ [{| cb_query := 0%nat; cb_arg := 7; cb_status := ARES_ETIMEOUT;
               cb_timeouts := 1; cb_abuf := None; cb_alen := 0 |}]
    ∧ queries ch' = delete 0%nat (queries exhausted_channel).
Proof.
  apply (process_timeouts_query_ends_exhausted exhausted_channel
           {| tv_sec := 101; tv_usec := 0 |} 0 0
           (set_try_count 5 sent_query) example_connection).
  - apply sockets_ready_upd_query, sent_channel_sockets_ready.
  - vm_compute. reflexivity.
  - reflexivity.
  - vm_compute. reflexivity.
  - vm_compute. reflexivity.
Defined.

(** X25.  Whatever [next_server] does with a query that has timed out,
    [process_timeouts] calls no callback with success or with an answer
    for it and leaves the other queries alone: either the query is ended,
    with one callback that carries an error and no answer, or no callback
    is called and the query waits again, marked [ARES_ETIMEOUT], until
    [now] plus the timeout of its next try. *)
Theorem process_timeouts_query_reports_errors (ch : ares_channel)
  (now : timeval) (qr conn : nat) (q : query) (c : server_connection) :
  queries ch !! qr = Some q → q_conn q = Some conn →
  conns ch !! conn = Some c →
  process_timeouts_query ch now qr ≠ OutOfFuel
  ∧ ∀ ch', process_timeouts_query ch now qr = Done ch' →
      (∀ r, r ≠ qr → queries ch' !! r = queries ch !! r)
      ∧ ((queries ch' !! qr = None
          ∧ ∃ ev, callbacks (env ch') = callbacks (env ch) ++ [ev]
              ∧ cb_query ev = qr ∧ cb_arg ev = arg q ∧ cb_abuf ev = None
              ∧ cb_status ev ≠ ARES_SUCCESS)
         ∨ (callbacks (env ch') = callbacks (env ch)
            ∧ ∃ q', queries ch' !! qr = Some q'
                ∧ arg q' = arg q ∧ error_status q' = ARES_ETIMEOUT
                ∧ q_timeout q'
                  = timeadd now
                      (timeplus_for (timeout ch) (try_count q')
                         (nservers ch)))).
Proof.
  intros Hq Hconn Hc.
  rewrite (process_timeouts_query_run ch now qr conn q c Hq Hconn Hc).
  set (ch1 := upd_query qr timed_out ch).
  assert (Hq1 : queries ch1 !! qr = Some (timed_out q))
    by (unfold ch1; cbn [queries upd_query set_queries];
        by rewrite lookup_alter_eq, Hq).
  assert (Hothers : ∀ r, r ≠ qr → queries ch1 !! r = queries ch !! r).
  { intros r Hr. unfold ch1. cbn [queries upd_query set_queries].
    by rewrite lookup_alter_ne. }
  assert (Hcb : callbacks (env ch1) = callbacks (env ch)) by reflexivity.
  assert (Hto : timeout ch1 = timeout ch) by reflexivity.
  assert (Hns : nservers ch1 = nservers ch) by reflexivity.
  clearbody ch1.
  pose proof (next_server_total ch1 qr now) as Htotal.
  pose proof (next_server_finished qr now ch1 (timed_out q)) as Hfin.
  destruct (next_server ch1 qr now) as [[st ch2]| |];
    cbn [mbind outcome_bind]; [|done..].
  split; [apply ares__check_cleanup_conn_fuel|].
  intros ch' Hrun.
  apply ares__check_cleanup_conn_callbacks in Hrun as [Hcb' Hqs'].
  destruct (Hfin st ch2 Hq1 eq_refl) as [_ Hoth _ _ Hquery].
  rewrite Hcb', Hqs'. split.
  { intros r Hr. rewrite Hoth by done. by apply Hothers. }
  destruct Hquery as [(Hnone & ev & Hev & Hevq & Heva & Hevb & Hst)
                     |(-> & Hsame & q' & cn & Hq' & _ & _ & [Ha He _ _] & Ht)].
  - left. split; [done|]. exists ev. rewrite Hev, Hcb.
    repeat split; try done. by apply Hst.
  - right. split; [by rewrite Hsame|]. exists q'.
    split; [done|]. split; [done|]. split; [done|].
    by rewrite Ht, Hto, Hns.
Qed.

(** The witness of X25: the query sent to the first server, at its
    deadline. *)
Lemma process_timeouts_query_reports_errors_witness :
  process_timeouts_query (sent_channel 0) {| tv_sec := 101; tv_usec := 0 |} 0
  ≠ OutOfFuel
  ∧ ∀ ch', process_timeouts_query (sent_channel 0)
             {| tv_sec := 101; tv_usec := 0 |} 0 = Done ch' →
      (∀ r, r ≠ 0%nat → queries ch' !! r = queries (sent_channel 0) !! r)
      ∧ ((queries ch' !! 0%nat = None
          ∧ ∃ ev, callbacks (env ch') = callbacks (env (sent_channel 0)) ++ [ev]
              ∧ cb_query ev = 0%nat ∧ cb_arg ev = arg sent_query
              ∧ cb_abuf ev = None ∧ cb_status ev ≠ ARES_SUCCESS)
         ∨ (callbacks (env ch') = callbacks (env (sent_channel 0))
            ∧ ∃ q', queries ch' !! 0%nat = Some q'
                ∧ arg q' = arg sent_query ∧ error_status q' = ARES_ETIMEOUT
                ∧ q_timeout q'
                  = timeadd {| tv_sec := 101; tv_usec := 0 |}
                      (timeplus_for (timeout (sent_channel 0)) (try_count q')
                         (nservers (sent_channel 0))))).
Proof.
  apply (process_timeouts_query_reports_errors (sent_channel 0)
           {| tv_sec := 101; tv_usec := 0 |} 0 0 sent_query
           example_connection).
  - vm_compute. reflexivity.
  - reflexivity.
  - vm_compute. reflexivity.
Defined.

(** ** A pass over the timeouts *)

Lemma sum_list_perm (l l' : list nat) :
  l ≡ₚ l' → sum_list l = sum_list l'.
Proof. induction 1; simpl; lia. Qed.

Lemma passes_left_all_insert (limit : Z) (qs : gmap nat query) (k : nat)
  (q : query) :
  qs !! k = None →
  passes_left_all limit (<[k := q]> qs)
  = (passes_left limit q + passes_left_all limit qs)%nat.
Proof.
  intros Hk. unfold passes_left_all.
  rewrite (sum_list_perm _ (passes_left limit <$> ((k, q) :: map_to_list qs).*2)).
  - done.
  - by rewrite (map_to_list_insert qs k q Hk).
Qed.

Lemma passes_left_all_delete (limit : Z) (qs : gmap nat query) (k : nat)
  (q : query) :
  qs !! k = Some q →
  passes_left_all limit qs
  = (passes_left limit q + passes_left_all limit (delete k qs))%nat.
Proof.
  intros Hk. rewrite <- (insert_delete_id qs k q Hk) at 1.
  apply passes_left_all_insert. apply lookup_delete_eq.
Qed.

Lemma passes_left_bound (ch : ares_channel) (q : query) :
  (1 ≤ passes_left (tries_limit ch) q ≤ next_server_rounds ch)%nat.
Proof.
  unfold passes_left, next_server_rounds, tries_limit.
  pose proof (size_wrap_range (nservers ch * tries ch)).
  destruct (_ && _) eqn:E; [|lia].
  apply andb_prop in E as [E1 E2]. apply Z.leb_le in E1.
  apply Z.ltb_lt in E2. lia.
Qed.

Lemma passes_left_all_bound (ch : ares_channel) (qs : gmap nat query) :
  (passes_left_all (tries_limit ch) qs ≤ size qs * next_server_rounds ch)%nat.
Proof.
  unfold passes_left_all. rewrite <- length_map_to_list.
  assert (Hb : ∀ q, (passes_left (tries_limit ch) q
                     ≤ next_server_rounds ch)%nat)
    by (intros q; apply passes_left_bound).
  set (w := passes_left (tries_limit ch)) in *.
  set (R := next_server_rounds ch) in *. clearbody w R.
  induction (map_to_list qs) as [|[k q] l IH]; simpl; [lia|].
  specialize (Hb q).
  change (list_fmap query nat w (list_fmap _ query snd l))
    with (w <$> l.*2). lia.
Qed.

(** A query that is tried again has fewer passes left. *)
Lemma tried_again_passes (ch : ares_channel) (q q' : query) :
  tried_again ch q q' →
  (passes_left (tries_limit ch) q' < passes_left (tries_limit ch) q)%nat.
Proof.
  intros [Hc [Hlo Hhi]]. unfold passes_left.
  pose proof (size_wrap_range (try_count q + 1)) as Hr.
  pose proof (size_wrap_range (nservers ch * tries ch)) as Hl.
  fold (tries_limit ch) in Hl.
  assert ((0 <=? try_count q') && (try_count q' <? tries_limit ch) = true)
    as -> by (apply andb_true_intro; split;
              [apply Z.leb_le|apply Z.ltb_lt]; lia).
  destruct ((0 <=? try_count q) && (try_count q <? tries_limit ch)) eqn:E;
    [|lia].
  apply andb_prop in E as [E1 E2]. apply Z.leb_le in E1.
  apply Z.ltb_lt in E2.
  unfold size_wrap in Hlo, Hc. rewrite Z.mod_small in Hlo, Hc by lia. lia.
Qed.

(** The passes left drop when one query is ended or tried again and the
    others are kept. *)
Lemma passes_left_all_drop (limit : Z) (qs qs' : gmap nat query) (k : nat)
  (q : query) :
  qs !! k = Some q →
  (∀ r, r ≠ k → qs' !! r = qs !! r) →
  (∀ q', qs' !! k = Some q' →
         (passes_left limit q' < passes_left limit q)%nat) →
  (1 ≤ passes_left limit q)%nat →
  (passes_left_all limit qs' < passes_left_all limit qs)%nat.
Proof.
  intros Hk Hothers Hdrop Hpos.
  rewrite (passes_left_all_delete limit qs k q Hk).
  assert (Hdel : delete k qs' = delete k qs).
  { apply map_eq. intros r. destruct (decide (r = k)) as [->|Hr].
    - by rewrite !lookup_delete_eq.
    - rewrite !lookup_delete_ne by done. by apply Hothers. }
  destruct (qs' !! k) as [q'|] eqn:Hk'.
  - rewrite (passes_left_all_delete limit qs' k q' Hk'), Hdel.
    specialize (Hdrop q' eq_refl). lia.
  - rewrite <- Hdel, (delete_id qs' k Hk'). lia.
Qed.

Lemma end_query_gone (ch ch' : ares_channel) (qr : nat) (q : query)
  (st : ares_status_t) (abuf : option (list Z)) (alen : Z) :
  queries ch !! qr = Some q →
  end_query ch qr st abuf alen = Done ch' → queries ch' !! qr = None.
Proof.
  intros Hq H. rewrite (end_query_run ch qr q st abuf alen Hq) in H.
  injection H as <-. simpl. apply lookup_delete_eq.
Qed.

Lemma send_query_enqueue_tries (ch ch' : ares_channel) (qr conn : nat)
  (now : timeval) (q q' : query) (st : ares_status_t) :
  queries ch !! qr = Some q →
  send_query_enqueue ch qr now conn = Done (st, ch') →
  queries ch' !! qr = Some q' → try_count q' = try_count q.
Proof.
  intros Hq H Hq'. unfold send_query_enqueue, get_query in H.
  rewrite Hq in H. simpl in H.
  destruct (nservers ch =? 0); [discriminate|].
  set (t := timeadd now _) in *.
  set (ch1 := ares__slist_node_destroy (node_queries_by_timeout q) qr ch) in *.
  assert (Q1 : queries ch1 = queries ch)
    by (subst ch1; unfold ares__slist_node_destroy;
        by destruct (node_queries_by_timeout q)).
  clearbody ch1.
  destruct (ares__slist_insert qr t (upd_query qr (set_q_timeout t) ch1))
    as [node ch3] eqn:E3.
  destruct (ares__slist_insert_frame qr _ _ _ _ _ E3) as (_ & Q3 & _).
  simpl in Q3.
  set (ch4 := upd_query qr (set_node_queries_by_timeout node) ch3) in *.
  assert (Q4 : queries ch4 !! qr
               = Some (set_node_queries_by_timeout node (set_q_timeout t q))).
  { subst ch4. simpl. by rewrite lookup_alter_eq, Q3, lookup_alter_eq, Q1, Hq. }
  clearbody ch4.
  destruct node; simpl in H.
  - set (ch5 := ares__llist_node_destroy (node_queries_to_conn q) qr ch4) in *.
    assert (Q5 : queries ch5 = queries ch4)
      by (subst ch5; unfold ares__llist_node_destroy;
          by destruct (node_queries_to_conn q)).
    clearbody ch5.
    apply bind_Done in H as (c & _ & H).
    destruct (ares__llist_insert_last (queries_to_conn c) qr ch5)
      as [lnode ch6] eqn:E6.
    assert (Q6 : queries ch6 = queries ch5).
    { unfold ares__llist_insert_last, alloc in E6.
      destruct (queries_to_conn c) as [lc|]; [|by injection E6 as <- <-].
      destruct (io_alloc (env ch5)) as [|[] rest]; by injection E6 as <- <-. }
    injection H as <- <-. simpl in Hq'.
    rewrite lookup_alter_eq, Q6, Q5, Q4 in Hq'. simpl in Hq'.
    by injection Hq' as <-.
  - apply bind_Done in H as (ch5 & He & H). injection H as <- <-.
    rewrite (end_query_gone _ _ _ _ _ _ _ Q4 He) in Hq'. done.
Qed.

Lemma prestep_tries (qr : nat) (ch ch1 : ares_channel) (q : query) :
  prestep qr ch ch1 → queries ch !! qr = Some q →
  tries_limit ch1 = tries_limit ch
  ∧ ∃ q1, queries ch1 !! qr = Some q1 ∧ try_count q1 = try_count q.
Proof.
  intros [C _ Q _ _ _] Hq. split.
  - unfold tries_limit. destruct C as (_ & -> & -> & _). done.
  - destruct (Q q Hq) as (q1 & Hq1 & infos & -> & _).
    by exists (set_server_info infos q).
Qed.

Lemma send_query_with_tries (next : next_fn) (qr : nat) (now : timeval)
  (ch ch' : ares_channel) (q q' : query) (st : ares_status_t) :
  (∀ ch1 q1 st1 ch1' q1',
      queries ch1 !! qr = Some q1 → next ch1 qr now = Done (st1, ch1') →
      queries ch1' !! qr = Some q1' → tried_again ch1 q1 q1') →
  queries ch !! qr = Some q →
  send_query_with next ch qr now = Done (st, ch') →
  queries ch' !! qr = Some q' →
  try_count q' = try_count q
  ∨ ∃ q1, try_count q1 = try_count q
      ∧ size_wrap (try_count q1 + 1) < tries_limit ch
      ∧ size_wrap (try_count q1 + 1) ≤ try_count q' < tries_limit ch.
Proof.
  intros Hnext Hq H Hq'.
  destruct (send_query_with_shape qr now ch)
    as [o H1 H2 Hr|ch1 Hp Hr|ch1 st0 st1 Hp Hs0 Hs1 Hr|ch1 conn Hp Hr];
    rewrite Hr in H.
  - by destruct (H1 (st, ch')).
  - destruct (prestep_tries _ _ _ _ Hp Hq) as (Hl & q1 & Hq1 & Ht).
    right. exists q1. split; [done|]. rewrite <- Hl.
    by apply (Hnext ch1 q1 st ch' q').
  - destruct (prestep_tries _ _ _ _ Hp Hq) as (Hl & q1 & Hq1 & Ht).
    apply bind_Done in H as (ch2 & He & H). injection H as <- <-.
    rewrite (end_query_gone _ _ _ _ _ _ _ Hq1 He) in Hq'. done.
  - destruct (prestep_tries _ _ _ _ Hp Hq) as (Hl & q1 & Hq1 & Ht).
    left. rewrite <- Ht. by eapply send_query_enqueue_tries.
Qed.

Lemma next_server_fuel_tries (qr : nat) (now : timeval) (fuel : nat) :
  ∀ ch q st ch' q',
    queries ch !! qr = Some q →
    next_server_fuel fuel ch qr now = Done (st, ch') →
    queries ch' !! qr = Some q' → tried_again ch q q'.
Proof.
  induction fuel as [|fuel IH]; intros ch q st ch' q' Hq H Hq';
    rewrite next_server_fuel_eq in H; unfold get_query in H;
    rewrite Hq in H; simpl in H;
    set (count := size_wrap (try_count q + 1)) in *;
    pose proof (size_wrap_range (try_count q + 1)) as Hcount;
    pose proof (size_wrap_range (nservers ch * tries ch)) as Hlimit;
    fold count in Hcount;
    set (ch1 := upd_query qr (set_try_count count) ch) in *;
    (assert (Hq1 : queries ch1 !! qr = Some (set_try_count count q))
       by (subst ch1; simpl; by rewrite lookup_alter_eq, Hq));
    destruct ((count <? size_wrap (nservers ch * tries ch))
              && negb (no_retries q)) eqn:Htest; try discriminate.
  1,3: (apply bind_Done in H as (ch2 & He & H); injection H as <- <-;
        rewrite (end_query_gone _ _ _ _ _ _ _ Hq1 He) in Hq'; done).
  apply andb_prop in Htest as [Hlt _]. apply Z.ltb_lt in Hlt.
  destruct (nservers ch =? 0); [discriminate|].
  set (next := size_wrap (q_server q + 1) mod nservers ch) in *.
  apply bind_Done in H as (server & Hsrv & H).
  apply bind_Done in H as (info & Hinfo & H).
  set (ch2 := upd_query qr (set_q_server next) ch1) in *.
  assert (Hq2 : queries ch2 !! qr
                = Some (set_q_server next (set_try_count count q)))
    by (subst ch2; cbn [queries upd_query set_queries];
        by rewrite lookup_alter_eq, Hq1).
  assert (Hl2 : tries_limit ch2 = tries_limit ch) by reflexivity.
  clearbody ch2. clear Hq1. clearbody ch1.
  assert (Hstep : size_wrap (count + 1) = count + 1)
    by (unfold size_wrap; apply Z.mod_small; lia).
  assert (Hgoal : ∀ q2, try_count q2 = count →
            tried_again ch2 q2 q' → tried_again ch q q').
  { intros q2 Ht [Hc [Hlo Hhi]]. rewrite Ht, Hstep in Hc, Hlo.
    unfold tried_again. fold count. rewrite <- Hl2. lia. }
  destruct (server_usable q info server).
  - destruct (send_query_with_tries (next_server_fuel fuel) qr now ch2 ch'
                _ q' st IH Hq2 H Hq') as [Ht|(q1 & Ht & Hc & Hr)].
    + simpl in Ht. unfold tried_again, tries_limit. fold count. lia.
    + apply (Hgoal q1); [by rewrite Ht|]. done.
  - apply (Hgoal (set_q_server next (set_try_count count q)) eq_refl).
    by eapply IH.
Qed.

Lemma next_server_tries (ch ch' : ares_channel) (qr : nat) (now : timeval)
  (q q' : query) (st : ares_status_t) :
  queries ch !! qr = Some q →
  next_server ch qr now = Done (st, ch') →
  queries ch' !! qr = Some q' → tried_again ch q q'.
Proof. apply next_server_fuel_tries. Qed.

Lemma ares__check_cleanup_conn_config (ch ch' : ares_channel) (s : Z) :
  ares__check_cleanup_conn ch s = Done ch' →
  tries_limit ch' = tries_limit ch.
Proof.
  unfold ares__check_cleanup_conn. intros H.
  destruct (connnode_by_socket ch !! s) as [conn|]; [|by injection H as <-].
  apply bind_Done in H as (c & _ & H). apply bind_Done in H as (l & _ & H).
  apply bind_Done in H as (qs & _ & H).
  destruct qs; [|by injection H as <-].
  destruct (_ && _); [|by injection H as <-].
  unfold ares__close_connection in H.
  apply bind_Done in H as (c' & _ & H). injection H as <-.
  by destruct (queries_to_conn c').
Qed.

Lemma process_timeouts_query_fuel (ch : ares_channel) (now : timeval)
  (qr : nat) : process_timeouts_query ch now qr ≠ OutOfFuel.
Proof.
  unfold process_timeouts_query.
  apply bind_fuel; [apply deref_fuel|]. intros q.
  apply bind_fuel; [apply deref_fuel|]. intros conn.
  apply bind_fuel; [apply deref_fuel|]. intros c.
  apply bind_fuel; [apply next_server_total|]. intros [st ch'].
  apply ares__check_cleanup_conn_fuel.
Qed.

(** What moving one timed-out query on does to the channel. *)
Lemma process_timeouts_query_done (ch ch' : ares_channel) (now : timeval)
  (qr : nat) :
  process_timeouts_query ch now qr = Done ch' →
  ∃ q, queries ch !! qr = Some q
    ∧ tries_limit ch' = tries_limit ch
    ∧ (∀ r, r ≠ qr → queries ch' !! r = queries ch !! r)
    ∧ (∀ q', queries ch' !! qr = Some q' → tried_again ch q q')
    ∧ ((queries ch' !! qr = None
        ∧ ∃ ev, callbacks (env ch') = callbacks (env ch) ++ [ev]
            ∧ cb_query ev = qr ∧ cb_abuf ev = None
            ∧ cb_status ev ≠ ARES_SUCCESS)
       ∨ callbacks (env ch') = callbacks (env ch)).
Proof.
  unfold process_timeouts_query. intros H.
  apply bind_Done in H as (q & Hq & H). apply deref_Done in Hq.
  apply bind_Done in H as (conn & _ & H).
  apply bind_Done in H as (c & _ & H).
  apply bind_Done in H as ([st ch2] & Hnext & H).
  exists q. split; [done|].
  set (ch1 := upd_query qr _ ch) in *.
  assert (Hq1 : queries ch1 !! qr = Some (timed_out q))
    by (unfold ch1; cbn [queries upd_query set_queries];
        by rewrite lookup_alter_eq, Hq).
  assert (Hothers : ∀ r, r ≠ qr → queries ch1 !! r = queries ch !! r).
  { intros r Hr. unfold ch1. cbn [queries upd_query set_queries].
    by rewrite lookup_alter_ne. }
  assert (Hcb : callbacks (env ch1) = callbacks (env ch)) by reflexivity.
  assert (Hl1 : tries_limit ch1 = tries_limit ch) by reflexivity.
  clearbody ch1.
  pose proof (next_server_finished qr now ch1 _ st ch2 Hq1 Hnext)
    as [Hcfg Hoth _ _ Hquery].
  pose proof (λ q', next_server_tries ch1 ch2 qr now _ q' st Hq1 Hnext)
    as Htries.
  pose proof (ares__check_cleanup_conn_config _ _ _ H) as Hl2.
  apply ares__check_cleanup_conn_callbacks in H as [Hcb' Hqs'].
  rewrite Hcb', Hqs', Hl2. split.
  { rewrite <- Hl1. unfold tries_limit.
    destruct Hcfg as (_ & -> & -> & _). done. }
  split. { intros r Hr. rewrite Hoth by done. by apply Hothers. }
  split.
  { intros q' Hq'. specialize (Htries q' Hq'). unfold tried_again in *.
    rewrite Hl1 in Htries. exact Htries. }
  destruct Hquery as [(Hnone & ev & Hev & Hevq & _ & Hevb & Hst)
                     |(_ & Hsame & _)].
  - left. split; [done|]. exists ev. rewrite Hev, Hcb.
    repeat split; try done. by apply Hst.
  - right. by rewrite Hsame.
Qed.

Lemma process_timeouts_loop_spec (now : timeval) (fuel : nat) :
  ∀ (ch : ares_channel) (node : option nat),
    (passes_left_all (tries_limit ch) (queries ch) ≤ fuel)%nat →
    process_timeouts_loop fuel ch now node ≠ OutOfFuel
    ∧ ∀ ch', process_timeouts_loop fuel ch now node = Done ch' →
        ∃ evs, callbacks (env ch') = callbacks (env ch) ++ evs
          ∧ Forall (timeout_report ch) evs
          ∧ ∀ r, is_Some (queries ch' !! r) → is_Some (queries ch !! r).
Proof.
  induction fuel as [|fuel IH]; intros ch node Hfuel;
    (destruct node as [qr|];
     [|split; [done|]; intros ch' [= <-]; exists [];
       by rewrite app_nil_r]);
    rewrite process_timeouts_loop_eq; unfold get_query;
    (destruct (queries ch !! qr) as [q|] eqn:Hq; simpl; [|done]);
    (destruct (ares__timedout now (q_timeout q)); simpl;
     [|split; [done|]; intros ch' [= <-]; exists [];
       by rewrite app_nil_r]).
  - rewrite (passes_left_all_delete _ _ _ _ Hq) in Hfuel.
    pose proof (passes_left_bound ch q). lia.
  - pose proof (process_timeouts_query_fuel ch now qr) as Hstep.
    destruct (process_timeouts_query ch now qr) as [ch1| |] eqn:Hrun;
      simpl; [|done|done].
    destruct (process_timeouts_query_done _ _ _ _ Hrun)
      as (q0 & Hq0 & Hlim & Hothers & Htries & Hcb).
    rewrite Hq in Hq0. injection Hq0 as <-.
    assert (Hdrop : (passes_left_all (tries_limit ch1) (queries ch1)
                     < passes_left_all (tries_limit ch) (queries ch))%nat).
    { rewrite Hlim.
      apply (passes_left_all_drop _ _ _ qr q Hq Hothers);
        [|apply passes_left_bound].
      intros q' Hq'. apply tried_again_passes. by apply Htries. }
    destruct (IH ch1 (slist_node_next qr (queries_by_timeout ch))
                ltac:(lia)) as [Hne Hdone].
    split; [exact Hne|]. intros ch' Hch'.
    destruct (Hdone ch' Hch') as (evs & Hevs & Hrep & Hlive).
    assert (Hback : ∀ r, is_Some (queries ch1 !! r) →
                         is_Some (queries ch !! r)).
    { intros r Hr. destruct (decide (r = qr)) as [->|Hne'].
      - by rewrite Hq.
      - by rewrite <- Hothers. }
    assert (Hrep' : Forall (timeout_report ch) evs).
    { eapply Forall_impl; [exact Hrep|]. intros ev (? & ? & ?).
      repeat split; try done. by apply Hback. }
    destruct Hcb as [(_ & ev & Hev & Hevq & Hevb & Hevs')|Hsame].
    + exists (ev :: evs). rewrite Hevs, Hev, <- app_assoc.
      split; [done|]. split; [|by eauto].
      constructor; [|done]. repeat split; try done.
      rewrite Hevq, Hq. by eexists.
    + exists evs. rewrite Hevs, Hsame. by eauto.
Qed.

(** X26.  A pass of [process_timeouts] comes to an end on every channel,
    and what it reports are failures: every callback it calls is for a
    query of the channel, with an error status and without an answer.
    It creates no query. *)
Theorem process_timeouts_reports_failures (ch : ares_channel)
  (now : timeval) :
  process_timeouts ch now ≠ OutOfFuel
  ∧ ∀ ch', process_timeouts ch now = Done ch' →
      ∃ evs, callbacks (env ch') = callbacks (env ch) ++ evs
        ∧ Forall (timeout_report ch) evs
        ∧ ∀ r, is_Some (queries ch' !! r) → is_Some (queries ch !! r).
Proof.
  apply process_timeouts_loop_spec. apply passes_left_all_bound.
Qed.
